(* ===== verification/_CoqProject ===== *)
-Q . S2P
Prelude.v
Rpc.v
KVServer.v
KVClerk.v
Lock.v
Lo.v
TaskManager.v
Coordinator.v
Fnv.v
Utf8.v
Labgob.v
Json.v
JsonInt.v
MRApps.v
Sequential.v
Worker.v
MRSystem.v
ShardCfg.v
ShardJson.v
KvModel.v
KvLinear.v
KvTest.v
KvAppend.v
LabRPC.v
Demux.v
Clnts.v
Config.v
Annotation.v
CheckHistory.v
RaftTest.v
RaftServer.v
RaftLib.v
ServerGroup.v
Groups.v
GroupFaults.v
Testbed.v
ShardTest.v
ShardRecover.v
Persister.v
Daemon.v
Flags.v
KvraftTest.v
Forward.v
RsmTest.v
RsmCluster.v
Skeleton.v
Logger.v
MRTest.v
MRProc.v
Timing.v
MRPatterns.v
MRDir.v
