(* ===== verification/Prelude.v ===== *)
(** * Verification of the MIT 6.5840 laboratory code

    ** The program

    The repository ([src/lab1/src]) holds the code of a course on distributed
    systems: a MapReduce system, a key/value server with clients and a lock, and
    the frameworks in which these, a Raft library and a sharded key/value service
    are tested. This development follows its parts; each file names the sources it
    models, and its definitions keep their names.

    ** Key/value service: [kvsrv1], [kvtest1], [models1]

    - [Rpc]: errors and versions. [KVServer]: the two handlers on the server's two
      maps, with the specification they refine, one map from keys to values with
      versions. [KVClerk]: the client's retry loops against a network that loses
      requests and replies. [Lock]: the lock built on a clerk, as a transition
      system of any number of clients.
    - [KvModel], [KvLinear]: the model given to the linearizability checker, the
      log of operations, and the theorem that whatever clerks do over the lossy
      network is linearizable for that model. [CheckHistory]: what the tester does
      with the checker's verdict, the file of the visualization and the end of a
      test. [KvTest], [KvAppend]: the clients and checks of the tester, which never
      fail a correct service.

    ** MapReduce: [mr], [mrapps], [main/mrsequential.go]

    - [Lo]: the interface of the third-party collection library, a class with its
      laws. [TaskManager], [Coordinator]: the task tables and the RPC handlers, as
      a transition system with invariants. [Fnv], [Utf8], [Json], [JsonInt]: the
      hash and the encodings the workers use. [MRApps], [Sequential]: applications
      and the sequential program. [Worker], [MRSystem]: the worker, and the system
      of coordinator, workers and files, whose output is that of the sequential
      program.
    - [MRTest], [MRProc]: how the tests merge and compare outputs; the processes of
      a test, step by step: main programs, remote calls, crashes, restarts.
      [Timing], [MRPatterns]: the applications by which the tests observe parallel
      execution, and the patterns they look for in the outputs. [MRDir], [Logger]:
      the directory of a test, the order of fields in log lines.

    ** Simulated network and processes: [labrpc], [labgob], [tester1]

    - [LabRPC]: the network, whose requests are goroutines interleaved with each
      other and with changes of the configuration. [Labgob]: the checks of types
      and values before encoding. [Demux]: calls multiplexed over one connection.
    - [Clnts], [ServerGroup], [Groups], [GroupFaults]: clients and groups of servers
      on the network, their connections, partitions, shutdowns and restarts. [Persister],
      [Daemon], [Forward]: the state servers keep, servers that run as processes,
      and the calls between them, which pass through the tester. [Flags]: the
      command lines of those processes, from the flags of the test to the values
      the main programs hand to the server. [Config], [Annotation]: random
      choices and statistics of a test, the annotations of its run. [Testbed]: the
      environment of a test, in which all of this shares one network.
      [KvraftTest]: what the tests of the key/value services do in it.

    ** Raft, replicated and sharded services: [raft1], [kvraft1], [shardkv1]

    - [RaftTest], [RaftServer]: tester and servers of the Raft lab. [RaftLib]: the
      calls from the tester, through the servers, to the library. [RsmTest],
      [RsmCluster]: the replicated counter and its tester, and what the tests do to
      the servers and their leader.
    - [ShardCfg], [ShardJson]: shard configurations and their JSON. [ShardTest]: the
      tester of the sharded service, with controllers that run concurrently.
      [ShardRecover]: its tests of recovery by a second controller.
    - [Skeleton]: the Raft, replication and sharding libraries as the repository has
      them, to be completed by students, and why the tests reject them.
    The tester's theorems are about any library: a parameter, of which the
    documented promises are hypotheses (classes [RaftAPI], [RSM], [RSMLaws],
    [Controller], [Leader]) or which is free to do anything.

    ** How it is modelled

    Functions that may stop the program return [outcome]: a value, [Fatal]
    ([log.Fatalf], [t.Fatalf]) or [Panic]. Code under a mutex is one atomic
    function; goroutines, handlers and processes are transition systems (an
    executable [next] function and the relation it induces, run by [exec]), whose
    labels carry what the environment chooses: random numbers, clock readings, the
    order in which Go ranges over a map, the fate of a message. Integers wrap
    around where the code lets them ([wrapU], [wrapS]). Maps are finite maps, with
    the zero value for an absent key where Go has it ([lookup_zero]); slices that
    are shared are addresses in a heap.

    ** What the theorems show

    - Refinements and equivalences: the server implements its specification; a
      finished distributed job, once no output is being written, has computed what the
      sequential program does; histories are
      linearizable; persisters are pairs of byte strings; clients and calls between
      processes behave as if alone; Raft's tester accepts every correct library, from
      the answers of single servers to the agreement on entries.
    - Safety and invariants: at-most-once of clerks and of RPCs, mutual exclusion,
      each task recorded once and reduced after all maps, no process of a job that
      ends early, clients and groups on one network, concurrent controllers.
    - Termination and liveness: rebalancing ends, the type search ends, a job can
      always be finished, an assignment can always be made, a restarted server
      becomes ready, a restarted cluster is whole, a free lock can be taken.
    - Round trips, bounds and errors: the JSON files, frames and configurations, as
      long as their strings are valid UTF-8; joining and leaving groups, down to the
      last one; the parts of a partition; the flags of a process; what a check does on each
      verdict, on a second controller's failures, and on the unfinished libraries;
      what the MapReduce tests that count patterns measure.
    The theorems also record where the code does not do what it means to: the lock
    under message loss, outputs truncated by a late worker, partitions of an even
    number of servers, a test of parallelism that passes without any, and others.

    ** Bounds and fuel

    The loop of [Rebalance] has the fuel [balance_fuel] and returns [None] only when
    that runs out, which [Rebalance_balances] excludes; the decoders of JSON and the loop of the sequential program take the length of
    their input as fuel and consume some of it in each round. Runs are finite lists
    of steps of any length; where a counter must not wrap, a bound on the length
    (2^31, 2^62 or 2^63 steps) is a hypothesis. The twelve shards, the three servers
    of the Raft and replication labs, and the retry counts are those of the code.

    ** Not modelled

    The leftovers of earlier labs in [main], whose packages are not in the
    repository, and the test scripts. Starting and killing processes, sockets,
    printing, the wall clock, memory statistics and the HTML of the visualization.
    Reflection and the gob encoding, the checker porcupine and the libraries lo and
    logrus are third-party or standard code, here parameters with what is assumed of
    them. The documented promises of a finished Raft or sharded service are
    hypotheses, since the repository has no implementation of them.

    This file has the vocabulary the others share: outcomes, loops, runs of
    transition systems, machine integers, and lemmas on lists and maps. *)

From stdpp Require Export prelude gmap strings list fin_maps relations.
From Stdlib Require Export ZArith Lia.

Declare Scope go_scope.
Delimit Scope go_scope with go.
Open Scope go_scope.
Open Scope Z_scope.

(** ** Machine integers *)

(** [wrapU w z] is the value a [w]-bit unsigned Go integer holds after an
    operation whose mathematical result is [z]. *)
Definition wrapU (w z : Z) : Z := z `mod` 2 ^ w.

(** [wrapS w z] is the same for a [w]-bit signed (two's complement) integer. *)
Definition wrapS (w z : Z) : Z := (z + 2 ^ (w - 1)) `mod` 2 ^ w - 2 ^ (w - 1).

(** ** Outcomes of Go calls *)

(** A Go call returns, ends the whole process ([log.Fatalf], [t.Fatalf]) or
    panics (index out of range, nil dereference). *)
Inductive outcome (A : Type) : Type :=
| Ret (a : A)
| Fatal
| Panic.
Arguments Ret {A} a.
Arguments Fatal {A}.
Arguments Panic {A}.

#[export] Instance outcome_ret : MRet outcome := @Ret.

#[export] Instance outcome_bind : MBind outcome := λ A B k m,
  match m with
  | Ret a => k a
  | Fatal => Fatal
  | Panic => Panic
  end.

#[export] Instance outcome_fmap : FMap outcome := λ A B f m,
  match m with
  | Ret a => Ret (f a)
  | Fatal => Fatal
  | Panic => Panic
  end.

(** Reading a Go map that may lack the key yields the zero value of its type. *)
Definition lookup_zero {K V : Type} `{Countable K} (zero : V) (k : K) (m : gmap K V) : V :=
  default zero (m !! k).

(** Reading an array or slice at an index raises a run-time panic when the
    index is out of range. *)
Definition index {A : Type} (l : list A) (i : Z) : outcome A :=
  if decide (0 <= i)
  then match l !! Z.to_nat i with Some x => Ret x | None => Panic end
  else Panic.

(** Writing an array or slice element, with the same bounds check. *)
Definition store {A : Type} (l : list A) (i : Z) (x : A) : outcome (list A) :=
  if decide (0 <= i < Z.of_nat (length l)) then Ret (<[Z.to_nat i:=x]> l) else Panic.

(** A loop that runs [f] for the elements of a list, threading a state. *)
Fixpoint for_each {A S} (f : A → S → outcome S) (l : list A) (s : S) : outcome S :=
  match l with
  | [] => Ret s
  | x :: l => s ← f x s; for_each f l s
  end.

(** ** Labelled transition systems *)

(** [exec step s ls s']: the labels [ls] lead from [s] to [s']. *)
Inductive exec {S L : Type} (step : S → L → S → Prop) : S → list L → S → Prop :=
| exec_nil s : exec step s [] s
| exec_cons s l s' ls s'' :
    step s l s' → exec step s' ls s'' → exec step s (l :: ls) s''.

(** Running an executable transition function. *)
Fixpoint run {S L : Type} (next : S → L → option S) (s : S) (ls : list L) : option S :=
  match ls with
  | [] => Some s
  | l :: ls => next s l ≫= λ s', run next s' ls
  end.

(** A predicate that holds initially and that every step preserves. *)
Class Invariant {S L : Type} (init : S → Prop) (step : S → L → S → Prop) (I : S → Prop) : Prop := {
  inv_init : ∀ s, init s → I s;
  inv_step : ∀ s l s', I s → step s l s' → I s'
}.

(** ** Generic lemmas *)

Section exec_facts.
Context {S L : Type} (step : S → L → S → Prop).

Lemma exec_app s ls s' ls' s'' :
  exec step s ls s' → exec step s' ls' s'' → exec step s (ls ++ ls') s''.
Proof. induction 1; simpl; [done|]; eauto using exec_cons. Qed.

Lemma exec_one s l s' : step s l s' → exec step s [l] s'.
Proof. eauto using exec. Qed.

Lemma run_exec (next : S → L → option S) s ls s' :
  (∀ s l s', next s l = Some s' → step s l s') → run next s ls = Some s' → exec step s ls s'.
Proof.
  intros Hn. revert s. induction ls as [|l ls IH]; intros s; simpl; [intros [= ->]; constructor|].
  destruct (next s l) as [s1|] eqn:E; [|done]. simpl. intros Hr. eapply exec_cons; eauto.
Qed.

Lemma exec_preserves (I : S → Prop) s ls s' :
  (∀ s l s', I s → step s l s' → I s') → I s → exec step s ls s' → I s'.
Proof. intros Hpres Hs He. induction He; eauto. Qed.

(** Preservation by a predicate indexed by the number of steps left. *)
Lemma exec_preserves_bounded (I : nat → S → Prop) n s ls s' :
  (∀ n s l s', I (Datatypes.S n) s → step s l s' → I n s') →
  I (n + length ls)%nat s → exec step s ls s' → I n s'.
Proof.
  intros Hpres Hs He. induction He as [s|s l s1 ls s2 Hst He IH]; simpl in *.
  - by replace n with (n + 0)%nat by lia.
  - apply IH. eapply Hpres; [|done]. by replace (Datatypes.S _) with (n + Datatypes.S (length ls))%nat by lia.
Qed.

Lemma invariant_exec (init : S → Prop) (I : S → Prop) `{!Invariant init step I} s ls s' :
  init s → exec step s ls s' → I s'.
Proof. intros Hi. eapply exec_preserves; [eapply inv_step | by eapply inv_init]. Qed.
End exec_facts.

Lemma wrapU_small w z : 0 <= z < 2 ^ w → wrapU w z = z.
Proof. intros. unfold wrapU. by apply Z.mod_small. Qed.

Lemma wrapU_range w z : 0 <= w → 0 <= wrapU w z < 2 ^ w.
Proof. intros. unfold wrapU. apply Z.mod_pos_bound. lia. Qed.

Lemma wrapS_range w z : 0 < w → - 2 ^ (w - 1) <= wrapS w z < 2 ^ (w - 1).
Proof.
  intros Hw. unfold wrapS. assert (2 ^ w = 2 * 2 ^ (w - 1)) by (rewrite <- Z.pow_succ_r by lia; f_equal; lia).
  pose proof (Z.mod_pos_bound (z + 2 ^ (w - 1)) (2 ^ w)). pose proof (Z.pow_pos_nonneg 2 (w - 1)). lia.
Qed.

Lemma wrapS_small w z : 0 < w → - 2 ^ (w - 1) <= z < 2 ^ (w - 1) → wrapS w z = z.
Proof.
  intros Hw Hz. unfold wrapS.
  assert (2 ^ w = 2 * 2 ^ (w - 1)).
  { rewrite <- Z.pow_succ_r by lia. f_equal. lia. }
  rewrite Z.mod_small; lia.
Qed.

Lemma eq_Permutation {A} (l l' : list A) : l = l' → l ≡ₚ l'.
Proof. by intros ->. Qed.

Lemma filter_all {A} (P : A → Prop) `{!∀ x, Decision (P x)} l : Forall P l → filter P l = l.
Proof.
  induction 1 as [|x l Hx Hl IH]; [done|]. rewrite filter_cons_True by done. by rewrite IH.
Qed.

Lemma filter_none {A} (P : A → Prop) `{!∀ x, Decision (P x)} l : Forall (λ x, ¬ P x) l → filter P l = [].
Proof. induction 1 as [|x l Hx Hl IH]; [done|]. by rewrite filter_cons_False. Qed.

Lemma imap_plain {A B} (g : A → B) (l : list A) : imap (λ _ x, g x) l = g <$> l.
Proof. induction l as [|x l IH]; [done|]. rewrite fmap_cons, <- IH. done. Qed.

Lemma lookup_zero_insert {K V} `{Countable K} (zero : V) k k' v (m : gmap K V) :
  lookup_zero zero k (<[k':=v]> m) = if decide (k = k') then v else lookup_zero zero k m.
Proof.
  unfold lookup_zero. case_decide as Hk; [subst; by rewrite lookup_insert_eq|].
  by rewrite lookup_insert_ne.
Qed.

Lemma lookup_zero_empty {K V} `{Countable K} (zero : V) k :
  lookup_zero zero k (∅ : gmap K V) = zero.
Proof. unfold lookup_zero. by rewrite lookup_empty. Qed.

Lemma index_Ret {A} (l : list A) i x :
  index l i = Ret x ↔ 0 <= i ∧ l !! Z.to_nat i = Some x.
Proof.
  unfold index. case_decide; [|naive_solver lia].
  destruct (l !! Z.to_nat i); naive_solver.
Qed.

Lemma index_in_range {A} (l : list A) (i : Z) :
  0 <= i < Z.of_nat (length l) → ∃ x, index l i = Ret x ∧ l !! Z.to_nat i = Some x.
Proof.
  intros Hi. destruct (lookup_lt_is_Some_2 l (Z.to_nat i)) as [x Hx]; [lia|].
  exists x. split; [|done]. apply index_Ret. split; [lia|done].
Qed.

Lemma store_Ret {A} (l : list A) i x :
  0 <= i < Z.of_nat (length l) → store l i x = Ret (<[Z.to_nat i:=x]> l).
Proof. intros. unfold store. by rewrite decide_True. Qed.

(** ** Automation *)

(** [go_cases] splits every [match], [if] and [decide] of the goal and closes
    the trivial branches. *)
Ltac go_cases :=
  repeat (case_match || case_decide); simplify_eq/=; try done.

Create HintDb go.
#[export] Hint Resolve exec_one exec_app exec_nil exec_cons : go.

(** Counting the elements of a list, or their indices. *)
Lemma length_filter_seqZ {A} (P : A → Prop) (Q : Z → Prop) `{!∀ x, Decision (P x)} `{!∀ x, Decision (Q x)} (l : list A) :
  ∀ j, (∀ (i : nat) x, l !! i = Some x → (P x ↔ Q (j + Z.of_nat i))) →
  length (filter P l) = length (filter Q (seqZ j (Z.of_nat (length l)))).
Proof.
  induction l as [|x l IH]; intros j Hpq; [done|].
  rewrite seqZ_cons by (simpl; lia). replace (Z.pred (Z.of_nat (length (x :: l)))) with (Z.of_nat (length l)) by (simpl; lia).
  rewrite !filter_cons. specialize (Hpq 0%nat x eq_refl) as Hx. rewrite Z.add_0_r in Hx.
  assert (Hl : length (filter P l) = length (filter Q (seqZ (Z.succ j) (Z.of_nat (length l))))).
  { apply IH. intros i y Hy. rewrite (Hpq (S i) y Hy). by replace (Z.succ j + Z.of_nat i) with (j + Z.of_nat (S i)) by lia. }
  destruct (decide (P x)), (decide (Q j)); simpl; try tauto; congruence.
Qed.

Lemma filter_ext_in {A} (P Q : A → Prop) `{!∀ x, Decision (P x)} `{!∀ x, Decision (Q x)} (l : list A) :
  (∀ x, x ∈ l → (P x ↔ Q x)) → filter P l = filter Q l.
Proof.
  induction l as [|x l IH]; intros Hpq; [done|]. rewrite !filter_cons, IH by (intros; apply Hpq; by right).
  specialize (Hpq x (list_elem_of_here _ _)). destruct (decide (P x)), (decide (Q x)); tauto.
Qed.

(** Loops: an invariant that every iteration preserves. *)
Lemma for_each_inv {A S} (f : A → S → outcome S) (P : list A → S → Prop) l s s' :
  for_each f l s = Ret s' → P l s → (∀ x l s s', P (x :: l) s → f x s = Ret s' → P l s') → P [] s'.
Proof.
  intros He Hp Hf. revert s He Hp. induction l as [|x l IH]; intros s; simpl; [by intros [= ->]|].
  destruct (f x s) as [s1| |] eqn:E; [|done..]. simpl. intros He Hp. eapply IH; [exact He|]. by eapply Hf.
Qed.

Lemma for_each_app {A S} (f : A → S → outcome S) l l' s :
  for_each f (l ++ l') s = for_each f l s ≫= for_each f l'.
Proof. revert s. induction l as [|x l IH]; intros s; simpl; [done|]. destruct (f x s); simpl; [apply IH|done..]. Qed.

(** Loops: every iteration succeeds and preserves an invariant. *)
Lemma for_each_ok {A S} (f : A → S → outcome S) (P : list A → S → Prop) l s :
  P l s → (∀ x l s, P (x :: l) s → ∃ s', f x s = Ret s' ∧ P l s') → ∃ s', for_each f l s = Ret s' ∧ P [] s'.
Proof.
  intros Hp Hf. revert s Hp. induction l as [|x l IH]; intros s Hp; simpl; [by exists s|].
  destruct (Hf x l s Hp) as (s' & -> & Hp'). simpl. by apply IH.
Qed.

Lemma Forall2_impl_in {A B} (P Q : A → B → Prop) l k :
  Forall2 P l k → (∀ x y, x ∈ l → P x y → Q x y) → Forall2 Q l k.
Proof.
  induction 1 as [|x y l k Hxy H IH]; intros Himp; constructor; [apply Himp; [by left | done]|].
  apply IH. intros x' y' Hx. apply Himp. by right.
Qed.
