(* ===== verification/Rpc.v ===== *)
(** * The key/value RPC vocabulary: [kvsrv1/rpc/rpc.go]

    Errors are Go strings, versions 64-bit unsigned integers. *)

From S2P Require Import Prelude.

(** [type Err string] *)
Abbreviation Err := string (only parsing).

Definition OK : Err := "OK".
Definition ErrNoKey : Err := "ErrNoKey".
Definition ErrVersion : Err := "ErrVersion".
Definition ErrMaybe : Err := "ErrMaybe".
Definition ErrWrongLeader : Err := "ErrWrongLeader".
Definition ErrWrongGroup : Err := "ErrWrongGroup".

(** [type Tversion uint64], a value in [0 <= v < 2^64]. *)
Abbreviation Tversion := Z (only parsing).

Record PutArgs := mkPutArgs { PutKey : string; PutValue : string; PutVersion : Tversion }.
Record PutReply := mkPutReply { PutErr : Err }.
Record GetArgs := mkGetArgs { GetKey : string }.
Record GetReply := mkGetReply { GetValue : string; GetVersion : Tversion; GetErr : Err }.

(** The zero values a caller allocates for a reply. *)
Definition PutReply0 : PutReply := mkPutReply "".
Definition GetReply0 : GetReply := mkGetReply "" 0 "".

#[export] Instance PutArgs_eq_dec : EqDecision PutArgs.
Proof. solve_decision. Defined.
#[export] Instance PutReply_eq_dec : EqDecision PutReply.
Proof. solve_decision. Defined.
#[export] Instance GetReply_eq_dec : EqDecision GetReply.
Proof. solve_decision. Defined.
