(* ===== verification/KVServer.v ===== *)
(** * The single-machine key/value server: [kvsrv1/server.go]

    The two Go maps of [KVServer] are two finite maps; both handlers run
    under [kv.mu] from entry to return, so each is one atomic function from
    the state and the argument to the new state and the filled reply.

    The abstract specification is a single map from keys to a value and a
    version; [abs] relates the two maps of the code to it. *)

From S2P Require Import Prelude Rpc.

(** ** State and handlers *)

Record KVServer := mkKVServer {
  data : gmap string string;
  dataVersion : gmap string Tversion
}.

Definition MakeKVServer : KVServer := mkKVServer ∅ ∅.

(** [func (kv *KVServer) Get]: the reply is an in-out parameter; the branch
    for a missing key sets only [Err]. *)
Definition Get (kv : KVServer) (args : GetArgs) (reply : GetReply) : GetReply :=
  match data kv !! GetKey args with
  | Some value =>
      mkGetReply value (lookup_zero 0 (GetKey args) (dataVersion kv)) OK
  | None => mkGetReply (GetValue reply) (GetVersion reply) ErrNoKey
  end.

(** The two early returns of [Put]. *)
Definition Put_guard (kv : KVServer) (args : PutArgs) : option Err :=
  match dataVersion kv !! PutKey args with
  | Some version =>
      if decide (version ≠ PutVersion args) then Some ErrVersion else None
  | None =>
      if decide (PutVersion args ≠ 0) then Some ErrNoKey else None
  end.

(** The state update of [Put]: [kv.dataVersion[k]++] is an unsigned 64-bit
    increment of a possibly absent entry. *)
Definition Put_install (kv : KVServer) (args : PutArgs) : KVServer :=
  mkKVServer
    (<[PutKey args := PutValue args]> (data kv))
    (<[PutKey args := wrapU 64 (lookup_zero 0 (PutKey args) (dataVersion kv) + 1)]>
       (dataVersion kv)).

(** [func (kv *KVServer) Put] *)
Definition Put (kv : KVServer) (args : PutArgs) (reply : PutReply) : KVServer * PutReply :=
  match Put_guard kv args with
  | Some err => (kv, mkPutReply err)
  | None => (Put_install kv args, mkPutReply OK)
  end.

(** ** The abstract specification *)

(** What a client is promised: a map from keys to a value and a version. *)
Abbreviation KVSpec := (gmap string (string * Tversion)).

Definition spec_get (m : KVSpec) (k : string) : string * Tversion * Err :=
  match m !! k with
  | Some (v, ver) => (v, ver, OK)
  | None => ("", 0, ErrNoKey)
  end.

Definition spec_put (m : KVSpec) (args : PutArgs) : KVSpec * Err :=
  match m !! PutKey args with
  | Some (_, ver) =>
      if decide (ver = PutVersion args)
      then (<[PutKey args := (PutValue args, wrapU 64 (ver + 1))]> m, OK)
      else (m, ErrVersion)
  | None =>
      if decide (PutVersion args = 0)
      then (<[PutKey args := (PutValue args, 1)]> m, OK)
      else (m, ErrNoKey)
  end.

(** The two maps of the server, zipped. *)
Definition abs (kv : KVServer) : KVSpec :=
  merge (λ v ver, match v, ver with
                  | Some v, Some ver => Some (v, ver)
                  | _, _ => None
                  end) (data kv) (dataVersion kv).

(** The well-formedness invariant: both maps have the same keys and every
    version is a 64-bit unsigned value. *)
Record wf (kv : KVServer) : Prop := {
  wf_dom : dom (data kv) = dom (dataVersion kv);
  wf_ver : map_Forall (λ _ ver, 0 <= ver < 2 ^ 64) (dataVersion kv)
}.

(** ** Runs of a server *)

Inductive kv_op :=
| OpGet (args : GetArgs)
| OpPut (args : PutArgs).

(** One handler execution, with the reply the dispatcher allocates zeroed. *)
Definition kv_exec (kv : KVServer) (op : kv_op) : KVServer * (GetReply + PutReply) :=
  match op with
  | OpGet args => (kv, inl (Get kv args GetReply0))
  | OpPut args => let '(kv', reply) := Put kv args PutReply0 in (kv', inr reply)
  end.

Definition kv_run (kv : KVServer) (ops : list kv_op) : KVServer :=
  fold_left (λ kv op, (kv_exec kv op).1) ops kv.

(** How many of the [Put]s of a run on key [k] were answered [OK]. *)
Fixpoint puts_ok (kv : KVServer) (k : string) (ops : list kv_op) : nat :=
  match ops with
  | [] => 0
  | op :: ops =>
      let here := match op with
                  | OpPut args =>
                      if decide (PutKey args = k ∧ Put_guard kv args = None) then 1%nat else 0%nat
                  | OpGet _ => 0%nat
                  end in
      (here + puts_ok (kv_exec kv op).1 k ops)%nat
  end.

(** The version of a key, zero when it does not exist. *)
Definition version_of (kv : KVServer) (k : string) : Tversion :=
  lookup_zero 0 k (dataVersion kv).

(** ** Lemmas *)

Lemma Put_guard_None kv args :
  Put_guard kv args = None ↔
  match dataVersion kv !! PutKey args with
  | Some version => version = PutVersion args
  | None => PutVersion args = 0
  end.
Proof. unfold Put_guard. destruct (dataVersion kv !! _); case_decide; naive_solver. Qed.

Lemma Put_guard_version kv args :
  Put_guard kv args = None → version_of kv (PutKey args) = PutVersion args.
Proof.
  rewrite Put_guard_None. unfold version_of, lookup_zero.
  destruct (dataVersion kv !! _); naive_solver.
Qed.

Lemma Put_guard_stale kv args :
  version_of kv (PutKey args) ≠ PutVersion args → Put_guard kv args ≠ None.
Proof. intros Hne Hg. by apply Put_guard_version in Hg. Qed.

Lemma Put_guard_Some kv args e :
  Put_guard kv args = Some e → e = ErrVersion ∨ e = ErrNoKey.
Proof. unfold Put_guard. intros. repeat case_match; naive_solver. Qed.

Lemma version_Put_install kv args k :
  version_of (Put_install kv args) k =
  if decide (PutKey args = k) then wrapU 64 (version_of kv k + 1) else version_of kv k.
Proof.
  unfold version_of, lookup_zero; simpl. rewrite lookup_insert. case_decide; by subst.
Qed.

Lemma version_Put kv args reply k :
  version_of (Put kv args reply).1 k =
  if decide (PutKey args = k ∧ Put_guard kv args = None)
  then wrapU 64 (version_of kv k + 1) else version_of kv k.
Proof.
  unfold Put. destruct (Put_guard kv args); simpl;
    [by rewrite decide_False by naive_solver |].
  rewrite version_Put_install. repeat case_decide; naive_solver.
Qed.

Lemma wf_dom_lookup kv k : wf kv → is_Some (data kv !! k) ↔ is_Some (dataVersion kv !! k).
Proof. intros [Hd _]. by rewrite <- !elem_of_dom, Hd. Qed.

Lemma wf_version kv k : wf kv → 0 <= version_of kv k < 2 ^ 64.
Proof.
  intros [_ Hv]. unfold version_of, lookup_zero.
  destruct (dataVersion kv !! k) eqn:E; simpl; [by eapply Hv | lia].
Qed.

Lemma wf_Make : wf MakeKVServer.
Proof. split; simpl; [by rewrite !dom_empty_L | apply map_Forall_empty]. Qed.

Lemma wf_Put_install kv args : wf kv → wf (Put_install kv args).
Proof.
  intros [Hd Hv]. split; simpl.
  - by rewrite !dom_insert_L, Hd.
  - apply map_Forall_insert_2; [apply wrapU_range; lia | done].
Qed.

Lemma wf_Put kv args reply : wf kv → wf (Put kv args reply).1.
Proof.
  intros. unfold Put. destruct (Put_guard kv args); [done | by apply wf_Put_install].
Qed.

Lemma wf_run kv ops : wf kv → wf (kv_run kv ops).
Proof.
  revert kv. induction ops as [|op ops IH]; intros kv Hwf; [done|]. simpl. apply IH.
  destruct op as [|args]; [done|]. simpl.
  pose proof (wf_Put kv args PutReply0 Hwf). by destruct (Put kv args PutReply0).
Qed.

Lemma lookup_abs kv k :
  abs kv !! k =
  match data kv !! k, dataVersion kv !! k with
  | Some v, Some ver => Some (v, ver)
  | _, _ => None
  end.
Proof. unfold abs. rewrite lookup_merge. by destruct (data kv !! k), (dataVersion kv !! k). Qed.

(** On a well-formed server the abstract lookup and the version map agree. *)
Lemma lookup_abs_wf kv k :
  wf kv →
  match abs kv !! k with
  | Some (v, ver) => data kv !! k = Some v ∧ dataVersion kv !! k = Some ver
  | None => data kv !! k = None ∧ dataVersion kv !! k = None
  end.
Proof.
  intros Hwf. rewrite lookup_abs. pose proof (wf_dom_lookup kv k Hwf) as Hiff.
  destruct (data kv !! k) eqn:E1, (dataVersion kv !! k) eqn:E2; auto.
  - by destruct (proj1 Hiff (ex_intro _ _ eq_refl)).
  - by destruct (proj2 Hiff (ex_intro _ _ eq_refl)).
Qed.

Lemma wf_exec kv op : wf kv → wf (kv_exec kv op).1.
Proof. apply (wf_run kv [op]). Qed.

Lemma version_exec kv op k :
  wf kv →
  version_of (kv_exec kv op).1 k = wrapU 64 (version_of kv k + Z.of_nat (puts_ok kv k [op])).
Proof.
  intros Hwf. pose proof (wf_version kv k Hwf).
  destruct op as [args|args]; simpl; [by rewrite Z.add_0_r, wrapU_small|].
  destruct (Put kv args PutReply0) as [kv' r] eqn:HP; simpl.
  assert (kv' = (Put kv args PutReply0).1) as -> by (by rewrite HP).
  rewrite version_Put, Nat.add_0_r. case_decide; simpl; [done|].
  by rewrite Z.add_0_r, wrapU_small.
Qed.

Lemma version_run kv ops k :
  wf kv →
  version_of (kv_run kv ops) k = wrapU 64 (version_of kv k + Z.of_nat (puts_ok kv k ops)).
Proof.
  revert kv. induction ops as [|op ops IH]; intros kv Hwf.
  { simpl. rewrite Z.add_0_r. symmetry. apply wrapU_small, wf_version, Hwf. }
  change (kv_run kv (op :: ops)) with (kv_run (kv_exec kv op).1 ops).
  rewrite IH, version_exec by auto using wf_exec. simpl.
  unfold wrapU. rewrite Z.add_mod_idemp_l by lia. f_equal. lia.
Qed.

Lemma puts_ok_length kv k ops : (puts_ok kv k ops ≤ length ops)%nat.
Proof.
  revert kv. induction ops as [|op ops IH]; intros kv; simpl; [lia|].
  specialize (IH (kv_exec kv op).1). destruct op; [lia|]. case_decide; lia.
Qed.

(** Away from the 64-bit limit versions only grow, by at most one per request. *)
Lemma version_run_bounds kv ops k :
  wf kv → version_of kv k + Z.of_nat (length ops) < 2 ^ 64 →
  version_of kv k <= version_of (kv_run kv ops) k <= version_of kv k + Z.of_nat (length ops).
Proof.
  intros Hwf Hb. pose proof (puts_ok_length kv k ops). pose proof (wf_version kv k Hwf).
  rewrite version_run, wrapU_small by (done || lia). lia.
Qed.

(** Keys are never removed. *)
Lemma run_keeps_key kv ops k :
  is_Some (dataVersion kv !! k) → is_Some (dataVersion (kv_run kv ops) !! k).
Proof.
  revert kv. induction ops as [|op ops IH]; intros kv Hk; [done|]. simpl. apply IH.
  destruct op as [|args]; [done|]. simpl.
  unfold Put. destruct (Put_guard kv args); [done|]. simpl.
  destruct (decide (PutKey args = k)) as [<-|];
    [rewrite lookup_insert_eq; eauto | by rewrite lookup_insert_ne].
Qed.

#[export] Hint Resolve wf_Make wf_Put wf_Put_install wf_run wf_exec : go.

(** ** Theorems *)

(** C1 The server implements its specification: on a well-formed state, [Get]
    answers what the abstract map holds (and, into a zeroed reply, exactly
    that), and [Put] performs the abstract put, with the abstract error, on
    every branch; well-formedness is kept. *)
Theorem KVServer_refines_spec kv gargs pargs reply :
  wf kv →
  (let r := Get kv gargs GetReply0 in (GetValue r, GetVersion r, GetErr r))
    = spec_get (abs kv) (GetKey gargs) ∧
  abs (Put kv pargs reply).1 = (spec_put (abs kv) pargs).1 ∧
  PutErr (Put kv pargs reply).2 = (spec_put (abs kv) pargs).2 ∧
  wf (Put kv pargs reply).1.
Proof.
  intros Hwf. split; [|split; [|split]]; [| | | by apply wf_Put].
  - pose proof (lookup_abs_wf kv (GetKey gargs) Hwf) as Ha.
    unfold Get, spec_get, lookup_zero.
    destruct (abs kv !! _) as [[v ver]|]; destruct Ha as [-> Hv]; simpl; by rewrite ?Hv.
  - pose proof (lookup_abs_wf kv (PutKey pargs) Hwf) as Ha.
    apply map_eq; intros k. rewrite lookup_abs.
    unfold Put, Put_guard, Put_install, spec_put, lookup_zero.
    destruct (abs kv !! PutKey pargs) as [[v ver]|]; destruct Ha as [Hd Hv];
      rewrite Hv; repeat case_decide; simplify_eq/=; rewrite ?lookup_abs; try done;
      destruct (decide (PutKey pargs = k)) as [<-|];
      rewrite ?lookup_insert_eq, ?lookup_insert_ne, ?Hv, ?lookup_abs by done; done.
  - pose proof (lookup_abs_wf kv (PutKey pargs) Hwf) as Ha.
    unfold Put, Put_guard, spec_put.
    destruct (abs kv !! PutKey pargs) as [[v ver]|]; destruct Ha as [Hd Hv];
      rewrite Hv; repeat case_decide; simplify_eq/=; done.
Qed.

Lemma KVServer_refines_spec_witness :
  let kv := (Put MakeKVServer (mkPutArgs "a" "x" 0) PutReply0).1 in
  wf kv ∧ PutErr (Put kv (mkPutArgs "a" "y" 1) PutReply0).2 = OK.
Proof.
  assert (Hwf : wf (Put MakeKVServer (mkPutArgs "a" "x" 0) PutReply0).1)
    by apply wf_Put, wf_Make.
  split; [done|].
  destruct (KVServer_refines_spec _ (mkGetArgs "a") (mkPutArgs "a" "y" 1) PutReply0 Hwf)
    as (_ & _ & -> & _).
  vm_compute. reflexivity.
Defined.

(** Versions count updates: after any sequence of handler executions from
    any well-formed state, the version of a key has advanced by exactly the
    number of [Put]s on that key that were answered [OK], modulo [2^64]. *)
Theorem version_counts_puts kv ops k :
  wf kv →
  version_of (kv_run kv ops) k = wrapU 64 (version_of kv k + Z.of_nat (puts_ok kv k ops)).
Proof. apply version_run. Qed.

Lemma version_counts_puts_witness :
  wf MakeKVServer ∧
  version_of (kv_run MakeKVServer [OpPut (mkPutArgs "a" "x" 0); OpPut (mkPutArgs "a" "z" 7);
                                   OpGet (mkGetArgs "a"); OpPut (mkPutArgs "a" "y" 1)]) "a" = 2.
Proof.
  split; [apply wf_Make|]. rewrite version_counts_puts by apply wf_Make.
  vm_compute. reflexivity.
Defined.
