(* ===== verification/KVClerk.v ===== *)
(** * The client of the key/value server: [kvsrv1/client.go]

    A call over the lab network ends in one of three ways: the request is
    lost, the handler runs but the reply is lost, or the reply arrives
    ([Clnt.Call] returns true only in the last case). Between two attempts of
    a clerk, other clients' requests run at the server. A schedule lists, for
    each attempt, those requests and the fate of the attempt; an exhausted
    schedule leaves the clerk still in its retry loop. *)

From S2P Require Import Prelude Rpc KVServer.

(** ** One remote call *)

Inductive netres := DropRequest | DropReply | Deliver.

#[export] Instance netres_eq_dec : EqDecision netres.
Proof. solve_decision. Defined.

(** [ck.clnt.Call(ck.server, "KVServer.Put", ...)]: the new server, the errors
    the handler produced (none or one), and the reply if [Call] returned
    true. *)
Definition call_put (r : netres) (kv : KVServer) (args : PutArgs) :
    KVServer * list Err * option PutReply :=
  match r with
  | DropRequest => (kv, [], None)
  | DropReply =>
      let '(kv', reply) := Put kv args PutReply0 in (kv', [PutErr reply], None)
  | Deliver =>
      let '(kv', reply) := Put kv args PutReply0 in (kv', [PutErr reply], Some reply)
  end.

Definition call_get (r : netres) (kv : KVServer) (args : GetArgs) : option GetReply :=
  match r with
  | Deliver => Some (Get kv args GetReply0)
  | _ => None
  end.

(** ** [Clerk.Put] *)

(** Where [Put] stands: at its first call, or in the resend loop. *)
Inductive put_pc := PutFirst | PutRetry.

#[export] Instance put_pc_eq_dec : EqDecision put_pc.
Proof. solve_decision. Defined.

(** One iteration: [inl] the next point of control, [inr] the returned error.
    [ErrVersion] on a resend becomes [ErrMaybe]. *)
Definition put_attempt (pc : put_pc) (r : netres) (kv : KVServer) (args : PutArgs) :
    KVServer * list Err * (put_pc + Err) :=
  let '(kv', execs, ok) := call_put r kv args in
  match ok with
  | None => (kv', execs, inl PutRetry)
  | Some reply =>
      (kv', execs, inr
         match pc with
         | PutFirst => PutErr reply
         | PutRetry => if decide (PutErr reply = ErrVersion) then ErrMaybe else PutErr reply
         end)
  end.

Abbreviation schedule := (list (list kv_op * netres)).

Fixpoint put_loop (pc : put_pc) (kv : KVServer) (args : PutArgs) (sched : schedule) :
    KVServer * list Err * option Err :=
  match sched with
  | [] => (kv, [], None)
  | (others, r) :: sched =>
      let '(kv1, execs, next) := put_attempt pc r (kv_run kv others) args in
      match next with
      | inr err => (kv1, execs, Some err)
      | inl pc' =>
          let '(kv2, execs', res) := put_loop pc' kv1 args sched in
          (kv2, execs ++ execs', res)
      end
  end.

(** [func (ck *Clerk) Put(key, value string, version rpc.Tversion) rpc.Err] *)
Definition Clerk_Put (kv : KVServer) (key value : string) (version : Tversion) (sched : schedule) :
    KVServer * list Err * option Err :=
  put_loop PutFirst kv (mkPutArgs key value version) sched.

(** ** [Clerk.Get] *)

(** [func (ck *Clerk) Get(key string) (string, rpc.Tversion, rpc.Err)] *)
Fixpoint Clerk_Get (kv : KVServer) (key : string) (sched : schedule) :
    KVServer * option (string * Tversion * Err) :=
  match sched with
  | [] => (kv, None)
  | (others, r) :: sched =>
      let kv1 := kv_run kv others in
      match call_get r kv1 (mkGetArgs key) with
      | Some reply => (kv1, Some (GetValue reply, GetVersion reply, GetErr reply))
      | None => Clerk_Get kv1 key sched
      end
  end.

(** ** Counting *)

(** How many executions of the handler installed the value. *)
Definition applied (execs : list Err) : nat := length (filter (λ e, e = OK) execs).

(** All requests of a schedule, the clerk's own included. *)
Fixpoint sched_size (sched : schedule) : nat :=
  match sched with
  | [] => 0
  | (others, _) :: sched => (length others + 1 + sched_size sched)%nat
  end.

(** ** Lemmas *)

Lemma applied_refused e l : e = ErrVersion ∨ e = ErrNoKey → applied (e :: l) = applied l.
Proof. intros [-> | ->]; reflexivity. Qed.

Lemma applied_OK l : applied (OK :: l) = Datatypes.S (applied l).
Proof. reflexivity. Qed.

(** The server has moved past the version of the request. *)
Definition stale (args : PutArgs) (kv : KVServer) : Prop :=
  is_Some (dataVersion kv !! PutKey args) ∧ PutVersion args < version_of kv (PutKey args).

Lemma stale_guard args kv : stale args kv → Put_guard kv args = Some ErrVersion.
Proof.
  unfold stale, version_of, lookup_zero, Put_guard. intros [[v ->] Hlt]; simpl in *.
  rewrite decide_True; [done | lia].
Qed.

Lemma stale_run args kv ops :
  wf kv → version_of kv (PutKey args) + Z.of_nat (length ops) < 2 ^ 64 →
  stale args kv → stale args (kv_run kv ops).
Proof.
  intros Hwf Hb [Hs Hv]. split; [by apply run_keeps_key|].
  pose proof (version_run_bounds kv ops (PutKey args) Hwf Hb). lia.
Qed.

(** An execution that installs the value leaves the request stale. *)
Lemma install_stale args kv :
  Put_guard kv args = None → version_of kv (PutKey args) + 1 < 2 ^ 64 → wf kv →
  stale args (Put_install kv args).
Proof.
  intros Hg Hb Hwf. pose proof (wf_version kv (PutKey args) Hwf).
  split; simpl; [rewrite lookup_insert_eq; eauto|].
  rewrite version_Put_install, decide_True by done.
  apply Put_guard_version in Hg. rewrite wrapU_small; lia.
Qed.

Lemma call_put_kv r kv args :
  (call_put r kv args).1.1 =
  match r with DropRequest => kv | _ => (Put kv args PutReply0).1 end.
Proof. destruct r; simpl; [done|..]; by destruct (Put kv args PutReply0). Qed.

Lemma wf_put_attempt pc r kv args : wf kv → wf (put_attempt pc r kv args).1.1.
Proof.
  intros Hwf. assert (wf (call_put r kv args).1.1) as Hc.
  { rewrite call_put_kv. destruct r; auto with go. }
  unfold put_attempt. by destruct (call_put r kv args) as [[kv' execs] [reply|]].
Qed.

Lemma version_put_attempt pc r kv args :
  wf kv → version_of kv (PutKey args) + 1 < 2 ^ 64 →
  version_of kv (PutKey args) <= version_of (put_attempt pc r kv args).1.1 (PutKey args)
    <= version_of kv (PutKey args) + 1.
Proof.
  intros Hwf Hb. pose proof (wf_version kv (PutKey args) Hwf).
  assert ((put_attempt pc r kv args).1.1 = (call_put r kv args).1.1) as ->.
  { unfold put_attempt. by destruct (call_put r kv args) as [[kv' execs] [reply|]]. }
  rewrite call_put_kv. destruct r; [lia|..];
    (rewrite version_Put; case_decide; [rewrite wrapU_small|]; lia).
Qed.

(** What one attempt does, on a stale request and on any request. *)
Lemma put_attempt_stale r kv args :
  stale args kv →
  put_attempt PutRetry r kv args =
  (kv, match r with DropRequest => [] | _ => [ErrVersion] end,
   match r with Deliver => inr ErrMaybe | _ => inl PutRetry end).
Proof.
  intros Hs. unfold put_attempt, call_put, Put. rewrite (stale_guard _ _ Hs).
  by destruct r.
Qed.

Lemma put_attempt_live pc r kv args :
  put_attempt pc r kv args =
  match Put_guard kv args with
  | Some e =>
      (kv, match r with DropRequest => [] | _ => [e] end,
       match r with
       | Deliver => inr (if decide (pc = PutRetry ∧ e = ErrVersion) then ErrMaybe else e)
       | _ => inl PutRetry
       end)
  | None =>
      (match r with DropRequest => kv | _ => Put_install kv args end,
       match r with DropRequest => [] | _ => [OK] end,
       match r with Deliver => inr OK | _ => inl PutRetry end)
  end.
Proof.
  unfold put_attempt, call_put, Put. destruct (Put_guard kv args) as [e|], r, pc; simpl; try done;
    repeat case_decide; naive_solver.
Qed.

(** One unfolding of the loop on an attempt whose outcome is known. *)
Lemma put_loop_cons pc kv args others r sched :
  put_loop pc kv args ((others, r) :: sched) =
  let '(kv1, execs, next) := put_attempt pc r (kv_run kv others) args in
  match next with
  | inr err => (kv1, execs, Some err)
  | inl pc' =>
      let '(kv2, execs', res) := put_loop pc' kv1 args sched in (kv2, execs ++ execs', res)
  end.
Proof. done. Qed.

(** Name the result of the recursive call of [Hl] and split [Hl] along it. *)
Ltac loop_next Hl E :=
  simpl in Hl;
  match type of Hl with
  | context [put_loop ?pc ?s ?a ?sc] =>
      destruct (put_loop pc s a sc) as [[kv2 execs2] res2] eqn:E;
      inversion Hl; subst; clear Hl
  | _ => inversion Hl; subst; clear Hl
  end.

(** Once stale, a request is never applied and can only end in [ErrMaybe]. *)
Lemma put_loop_stale kv args sched kv' execs res :
  wf kv → version_of kv (PutKey args) + Z.of_nat (sched_size sched) < 2 ^ 64 →
  stale args kv → put_loop PutRetry kv args sched = (kv', execs, res) →
  applied execs = 0%nat ∧ (res = None ∨ res = Some ErrMaybe).
Proof.
  revert kv kv' execs res.
  induction sched as [|[others r] sched IH]; intros kv kv' execs res Hwf Hb Hs Hl;
    [simpl in Hl; by simplify_eq; auto|].
  rewrite put_loop_cons in Hl. simpl in Hb.
  pose proof (version_run_bounds kv others (PutKey args) Hwf ltac:(lia)) as Hv.
  assert (Hs' : stale args (kv_run kv others)) by (apply stale_run; auto with lia).
  rewrite put_attempt_stale in Hl by done.
  destruct r; loop_next Hl E; [..|by auto];
    (apply IH in E as [E1 E2]; [|by auto with go|lia|done]);
    rewrite ?applied_refused by auto; done.
Qed.

(** What the answer of the loop says about the number of installations. *)
Definition put_answer (pc : put_pc) (execs : list Err) (res : option Err) : Prop :=
  (applied execs ≤ 1)%nat ∧
  match res with
  | Some err =>
      (err = OK ∧ applied execs = 1%nat) ∨
      (err = ErrNoKey ∧ applied execs = 0%nat) ∨
      (err = ErrVersion ∧ applied execs = 0%nat ∧ pc = PutFirst) ∨
      err = ErrMaybe
  | None => True
  end.

Lemma put_answer_refused pc e execs res :
  e = ErrVersion ∨ e = ErrNoKey →
  put_answer PutRetry execs res → put_answer pc (e :: execs) res.
Proof.
  intros He [H1 H2]. unfold put_answer. rewrite applied_refused by done.
  destruct res; naive_solver.
Qed.

Lemma put_answer_lost pc execs res :
  put_answer PutRetry execs res → put_answer pc execs res.
Proof. unfold put_answer. destruct res; naive_solver. Qed.

(** From any point the loop applies the request at most once, and its answer
    says how often. *)
Lemma put_loop_count pc kv args sched kv' execs res :
  wf kv → version_of kv (PutKey args) + Z.of_nat (sched_size sched) < 2 ^ 64 →
  put_loop pc kv args sched = (kv', execs, res) → put_answer pc execs res.
Proof.
  revert pc kv kv' execs res.
  induction sched as [|[others r] sched IH]; intros pc kv kv' execs res Hwf Hb Hl.
  { simpl in Hl. inversion Hl. split; [vm_compute; lia | done]. }
  rewrite put_loop_cons, put_attempt_live in Hl. simpl in Hb.
  pose proof (version_run_bounds kv others (PutKey args) Hwf ltac:(lia)) as Hv.
  pose proof (wf_run kv others Hwf) as Hwf1.
  pose proof (wf_version _ (PutKey args) Hwf1) as Hr.
  destruct (Put_guard (kv_run kv others) args) as [e|] eqn:Hg.
  - apply Put_guard_Some in Hg. destruct r; loop_next Hl E.
    + apply IH in E; [by apply put_answer_lost | done | lia].
    + apply IH in E; [by apply put_answer_refused | done | lia].
    + destruct Hg as [-> | ->], pc; (split; [vm_compute; lia |]);
        repeat case_decide; naive_solver.
  - destruct r; loop_next Hl E.
    + apply IH in E; [by apply put_answer_lost | done | lia].
    + apply put_loop_stale in E as [E1 E2];
        [|by auto with go| |apply install_stale; (done || lia)].
      * unfold put_answer. rewrite applied_OK, E1. split; [lia|]. destruct E2 as [-> | ->]; auto.
      * rewrite version_Put_install, decide_True, wrapU_small by (done || lia). lia.
    + split; [vm_compute; lia|]. by left.
Qed.

(** [ErrVersion] is only ever the answer of a delivered first call. *)
Lemma put_loop_retry_ErrVersion kv args sched kv' execs :
  put_loop PutRetry kv args sched ≠ (kv', execs, Some ErrVersion).
Proof.
  revert kv kv' execs.
  induction sched as [|[others r] sched IH]; intros kv kv' execs Hl; [by inversion Hl|].
  rewrite put_loop_cons, put_attempt_live in Hl.
  destruct (Put_guard _ _) as [e|] eqn:Hg, r; loop_next Hl E;
    try (by eapply IH); try done.
  case_decide; naive_solver.
Qed.

Lemma put_loop_first_ErrVersion kv args sched kv' execs :
  put_loop PutFirst kv args sched = (kv', execs, Some ErrVersion) →
  ∃ others rest, sched = (others, Deliver) :: rest.
Proof.
  destruct sched as [|[others r] sched]; intros Hl; [by inversion Hl|].
  rewrite put_loop_cons, put_attempt_live in Hl.
  destruct r; [exfalso..|by eauto];
    (destruct (Put_guard _ _); loop_next Hl E; by eapply put_loop_retry_ErrVersion).
Qed.

Lemma put_loop_returns pc kv args sched :
  Exists (λ a, a.2 = Deliver) sched → is_Some (put_loop pc kv args sched).2.
Proof.
  revert pc kv. induction sched as [|[others r] sched IH]; intros pc kv He; [by inversion He|].
  rewrite put_loop_cons, put_attempt_live.
  destruct (decide (r = Deliver)) as [-> | Hr].
  { destruct (Put_guard _ _); simpl; eauto. }
  assert (Ht : Exists (λ a, a.2 = Deliver) sched) by (inversion He; naive_solver).
  destruct (Put_guard _ _), r; try done; simpl;
    match goal with |- context [put_loop PutRetry ?s args sched] =>
      specialize (IH PutRetry s Ht); by destruct (put_loop PutRetry s args sched) as [[??]?] end.
Qed.

(** ** Theorems *)

(** C3 At most once, and the error tells the truth: whatever the network drops
    and whatever other clients do in between, while the version counter does
    not come near its 64-bit limit, one [Clerk.Put] installs its value at most
    once; if it answers [OK] the value was installed exactly once; if it
    answers [ErrVersion] or [ErrNoKey] it was not installed, and [ErrVersion]
    is never answered after a resend; the only other answer is [ErrMaybe]. *)
Theorem Clerk_Put_at_most_once kv key value version sched kv' execs res :
  wf kv → version_of kv key + Z.of_nat (sched_size sched) < 2 ^ 64 →
  Clerk_Put kv key value version sched = (kv', execs, res) →
  (applied execs ≤ 1)%nat ∧
  (res = Some OK → applied execs = 1%nat) ∧
  (res = Some ErrVersion → applied execs = 0%nat ∧ ∃ others rest, sched = (others, Deliver) :: rest) ∧
  (res = Some ErrNoKey → applied execs = 0%nat) ∧
  (∀ err, res = Some err → err ∈ [OK; ErrVersion; ErrNoKey; ErrMaybe]).
Proof.
  intros Hwf Hb Hl.
  pose proof (put_loop_count PutFirst kv (mkPutArgs key value version) _ _ _ _ Hwf Hb Hl) as [H1 H2].
  split; [done|]. split; [|split; [|split]].
  - intros ->. naive_solver.
  - intros ->. split; [naive_solver | by eapply put_loop_first_ErrVersion].
  - intros ->. naive_solver.
  - intros err ->. rewrite !elem_of_cons. naive_solver.
Qed.

Lemma Clerk_Put_at_most_once_witness :
  wf MakeKVServer ∧
  version_of MakeKVServer "k" + Z.of_nat (sched_size [([], DropReply); ([], DropRequest); ([], Deliver)]) < 2 ^ 64 ∧
  ∀ kv' execs res,
    Clerk_Put MakeKVServer "k" "v" 0 [([], DropReply); ([], DropRequest); ([], Deliver)] = (kv', execs, res) →
    res = Some ErrMaybe ∧ (applied execs ≤ 1)%nat.
Proof.
  split; [apply wf_Make|]. split; [vm_compute; reflexivity|].
  intros kv' execs res Heq. split.
  - vm_compute in Heq. by inversion Heq.
  - apply (Clerk_Put_at_most_once MakeKVServer "k" "v" 0
             [([], DropReply); ([], DropRequest); ([], Deliver)] kv' execs res);
      [apply wf_Make | vm_compute; reflexivity | exact Heq].
Defined.

(** The clerk's loops end as soon as the network delivers one exchange: on
    any schedule with a delivered attempt, however many are dropped, [Put]
    and [Get] return. *)
Theorem Clerk_returns kv key value version sched :
  Exists (λ a, a.2 = Deliver) sched →
  is_Some (Clerk_Put kv key value version sched).2 ∧ is_Some (Clerk_Get kv key sched).2.
Proof.
  intros He. split; [by apply put_loop_returns|].
  revert kv He. induction sched as [|[others r] sched IH]; intros kv He; [by inversion He|].
  simpl. destruct r; simpl; [..|by eauto]; apply IH; inversion He; naive_solver.
Qed.

Lemma Clerk_returns_witness :
  let sched := [([], DropRequest); ([OpPut (mkPutArgs "k" "w" 0)], DropReply); ([], Deliver)] in
  Exists (λ a, a.2 = Deliver) sched ∧ is_Some (Clerk_Put MakeKVServer "k" "v" 0 sched).2.
Proof.
  intros sched. assert (He : Exists (λ a : list kv_op * netres, a.2 = Deliver) sched)
    by (apply Exists_cons_tl, Exists_cons_tl, Exists_cons_hd; reflexivity).
  split; [exact He|]. apply (Clerk_returns MakeKVServer "k" "v" 0 sched He).
Defined.
