(* ===== verification/Lock.v ===== *)
(** * The distributed lock: [kvsrv1/lock/lock.go]

    Several clients run [Acquire] and [Release] against one key/value server
    through [kvsrv1]'s clerk. Each client is a point of control; one step of
    the system is one remote attempt of one client (with the fate the network
    gives it) or the start of a call, so all interleavings of the clients'
    requests, resends included, are traces. Sleeping does not change any
    state. A client releases only a lock it holds, as the users of the
    package do.

    With a network that delivers every exchange the lock excludes and never
    gets lost. With message loss it does neither: [Clerk.Put] may answer
    [ErrMaybe] after installing the value, the lock's value does not name its
    owner, and both loops treat [ErrMaybe] as a failure. *)

From S2P Require Import Prelude Rpc KVServer KVClerk.

(** ** The two loops as point-of-control automata *)

Definition LockStatusFree : string := "free".
Definition LockStatusHeld : string := "held".

(** [MakeLock(ck, lockname)]: the clerk is the network's, the name remains. *)
Record Lock := mkLock { lockname : string }.

Definition MakeLock (name : string) : Lock := mkLock name.

Inductive lock_pc :=
| Idle
| AcqGet
| AcqPut (version : Tversion) (p : put_pc)
| Held
| RelGet
| RelPut (version : Tversion) (p : put_pc).

#[export] Instance lock_pc_eq_dec : EqDecision lock_pc.
Proof. solve_decision. Defined.

(** The test both loops make on the result of [lk.ck.Get]. *)
Definition get_passes (reply : GetReply) (wanted : string) : Prop :=
  GetErr reply = ErrNoKey ∨ (GetErr reply = OK ∧ GetValue reply = wanted).

#[export] Instance get_passes_dec reply wanted : Decision (get_passes reply wanted).
Proof. unfold get_passes. apply _. Defined.

(** One attempt of [func (lk *Lock) Acquire()]. *)
Definition Acquire_step (lk : Lock) (r : netres) (kv : KVServer) (pc : lock_pc) :
    KVServer * lock_pc :=
  match pc with
  | AcqGet =>
      match call_get r kv (mkGetArgs (lockname lk)) with
      | None => (kv, AcqGet)
      | Some reply =>
          if decide (get_passes reply LockStatusFree)
          then (kv, AcqPut (GetVersion reply) PutFirst)
          else (kv, AcqGet)
      end
  | AcqPut version p =>
      let '(kv', _, next) :=
        put_attempt p r kv (mkPutArgs (lockname lk) LockStatusHeld version) in
      match next with
      | inl p' => (kv', AcqPut version p')
      | inr err => (kv', if decide (err = OK) then Held else AcqGet)
      end
  | _ => (kv, pc)
  end.

(** One attempt of [func (lk *Lock) Release()]. *)
Definition Release_step (lk : Lock) (r : netres) (kv : KVServer) (pc : lock_pc) :
    KVServer * lock_pc :=
  match pc with
  | RelGet =>
      match call_get r kv (mkGetArgs (lockname lk)) with
      | None => (kv, RelGet)
      | Some reply =>
          if decide (get_passes reply LockStatusHeld)
          then (kv, RelPut (GetVersion reply) PutFirst)
          else (kv, RelGet)
      end
  | RelPut version p =>
      let '(kv', _, next) :=
        put_attempt p r kv (mkPutArgs (lockname lk) LockStatusFree version) in
      match next with
      | inl p' => (kv', RelPut version p')
      | inr err => (kv', if decide (err = OK) then Idle else RelGet)
      end
  | _ => (kv, pc)
  end.

(** A client of the lock: it calls [Acquire], and [Release] when it holds. *)
Definition client_step (lk : Lock) (r : netres) (kv : KVServer) (pc : lock_pc) :
    KVServer * lock_pc :=
  match pc with
  | Idle => (kv, AcqGet)
  | Held => (kv, RelGet)
  | AcqGet | AcqPut _ _ => Acquire_step lk r kv pc
  | RelGet | RelPut _ _ => Release_step lk r kv pc
  end.

(** ** The system of clients *)

Record lock_state := mkLockState { server : KVServer; pcs : list lock_pc }.

Section system.
Context (locks : list Lock).

Definition lock_init : lock_state := mkLockState MakeKVServer (replicate (length locks) Idle).

(** Client [i] makes one step whose exchange, if any, has the fate [r]. *)
Definition lock_do (s : lock_state) (i : nat) (r : netres) : option lock_state :=
  lk ← locks !! i; pc ← pcs s !! i;
  let '(kv', pc') := client_step lk r (server s) pc in
  Some (mkLockState kv' (<[i:=pc']> (pcs s))).

(** [reliable] is the test harness's switch: a reliable network delivers. *)
Definition lock_step (reliable : bool) (s : lock_state) (l : nat * netres) (s' : lock_state) : Prop :=
  (reliable = true → l.2 = Deliver) ∧ lock_do s l.1 l.2 = Some s'.

Fixpoint lock_run (s : lock_state) (ls : list (nat * netres)) : option lock_state :=
  match ls with
  | [] => Some s
  | (i, r) :: ls => s' ← lock_do s i r; lock_run s' ls
  end.

(** From the return of [Acquire] to the return of [Release]. *)
Definition critical (pc : lock_pc) : Prop :=
  match pc with Held | RelGet | RelPut _ _ => True | _ => False end.

(** ** The invariant on a reliable network *)

(** What the point of control of one client knows about the server. *)
Definition pc_ok (kv : KVServer) (name : string) (pc : lock_pc) : Prop :=
  match pc with
  | Idle | AcqGet => True
  | AcqPut version p =>
      p = PutFirst ∧ version <= version_of kv name ∧
      (version = version_of kv name → data kv !! name ≠ Some LockStatusHeld)
  | Held | RelGet => data kv !! name = Some LockStatusHeld
  | RelPut version p =>
      p = PutFirst ∧ version = version_of kv name ∧ data kv !! name = Some LockStatusHeld
  end.

Record lock_inv (s : lock_state) : Prop := {
  li_wf : wf (server s);
  li_len : length (pcs s) = length locks;
  li_pc : ∀ i lk pc, locks !! i = Some lk → pcs s !! i = Some pc → pc_ok (server s) (lockname lk) pc;
  li_excl : ∀ i j lki lkj pci pcj,
    locks !! i = Some lki → locks !! j = Some lkj →
    pcs s !! i = Some pci → pcs s !! j = Some pcj →
    lockname lki = lockname lkj → critical pci → critical pcj → i = j;
  li_held : ∀ name, data (server s) !! name = Some LockStatusHeld →
    ∃ i lk pc, locks !! i = Some lk ∧ pcs s !! i = Some pc ∧ lockname lk = name ∧ critical pc;
  li_value : ∀ name v, data (server s) !! name = Some v → v = LockStatusHeld ∨ v = LockStatusFree
}.

End system.

(** ** Lemmas on one client *)

Lemma pc_ok_other kv name args pc :
  PutKey args ≠ name → pc_ok (Put_install kv args) name pc ↔ pc_ok kv name pc.
Proof.
  intros Hne. unfold pc_ok. rewrite version_Put_install, decide_False by done. simpl.
  by rewrite !lookup_insert_ne by done.
Qed.

(** An update of the cell makes every version read before it stale. *)
Lemma pc_ok_install kv args pc :
  wf kv → version_of kv (PutKey args) + 1 < 2 ^ 64 → ¬ critical pc →
  pc_ok kv (PutKey args) pc → pc_ok (Put_install kv args) (PutKey args) pc.
Proof.
  intros Hwf Hb Hc. pose proof (wf_version kv (PutKey args) Hwf).
  destruct pc; simpl in *; try tauto. intros (-> & Hle & _).
  rewrite version_Put_install, decide_True, wrapU_small by (done || lia).
  split; [done|]. split; [lia|]. intros. lia.
Qed.

(** What the version of a delivered [Get] says, by cases on its test. *)
Lemma get_passes_spec kv name wanted :
  wf kv → get_passes (Get kv (mkGetArgs name) GetReply0) wanted ↔
  data kv !! name = None ∨ data kv !! name = Some wanted.
Proof.
  intros Hwf. unfold get_passes, Get. simpl. destruct (data kv !! name); simpl; naive_solver.
Qed.

Lemma get_version kv name :
  wf kv → GetVersion (Get kv (mkGetArgs name) GetReply0) = version_of kv name.
Proof.
  intros Hwf. pose proof (lookup_abs_wf kv name Hwf) as Ha. unfold Get, version_of, lookup_zero. simpl.
  destruct (abs kv !! name) as [[v ver]|]; destruct Ha as [-> ->]; done.
Qed.

(** The three kinds of step of a client on a reliable network. *)
Inductive client_effect (name : string) (kv : KVServer) (pc : lock_pc) :
    KVServer → lock_pc → Prop :=
| eff_none pc' :
    pc_ok kv name pc' → (critical pc' ↔ critical pc) → client_effect name kv pc kv pc'
| eff_acquire version :
    ¬ critical pc → data kv !! name ≠ Some LockStatusHeld →
    client_effect name kv pc (Put_install kv (mkPutArgs name LockStatusHeld version)) Held
| eff_release version :
    critical pc →
    client_effect name kv pc (Put_install kv (mkPutArgs name LockStatusFree version)) Idle.

Lemma Acquire_step_effect name kv pc :
  wf kv → pc_ok kv name pc → ¬ critical pc → pc ≠ Idle →
  let '(kv', pc') := Acquire_step (mkLock name) Deliver kv pc in client_effect name kv pc kv' pc'.
Proof.
  intros Hwf Hok Hnc Hni. destruct pc as [| |version p| | |]; simpl in *; try tauto.
  - case_decide as Hp; [|by constructor].
    rewrite get_version by done. rewrite get_passes_spec in Hp by done.
    constructor; [|done]. split; [done|]. split; [done|]. intros _.
    destruct Hp as [-> | ->]; done.
  - destruct Hok as (-> & Hle & Hfree). rewrite put_attempt_live; simpl.
    destruct (Put_guard _ _) as [e|] eqn:Hg.
    + apply Put_guard_Some in Hg. destruct Hg as [-> | ->]; by constructor.
    + apply Put_guard_version in Hg. simpl in Hg. constructor; naive_solver.
Qed.

Lemma Release_step_effect name kv pc :
  wf kv → pc_ok kv name pc → critical pc → pc ≠ Held →
  let '(kv', pc') := Release_step (mkLock name) Deliver kv pc in client_effect name kv pc kv' pc'.
Proof.
  intros Hwf Hok Hc Hnh. destruct pc as [| | | | |version p]; simpl in *; try tauto.
  - case_decide as Hp; [|by constructor].
    rewrite get_version by done. constructor; [|done]. split; [done|]. split; done.
  - destruct Hok as (-> & -> & Hd). rewrite put_attempt_live; simpl.
    assert (Put_guard kv (mkPutArgs name LockStatusFree (version_of kv name)) = None) as ->.
    { apply Put_guard_None. simpl. pose proof (lookup_abs_wf kv name Hwf) as Ha.
      unfold version_of, lookup_zero.
      destruct (abs kv !! name) as [[v ver]|]; destruct Ha as [? ->]; naive_solver. }
    by constructor.
Qed.

Lemma client_step_effect lk kv pc :
  wf kv → pc_ok kv (lockname lk) pc →
  let '(kv', pc') := client_step lk Deliver kv pc in client_effect (lockname lk) kv pc kv' pc'.
Proof.
  intros Hwf Hok. destruct lk as [name]. destruct pc; cbn [lockname client_step] in *;
    first [ apply eff_none; naive_solver
          | apply Acquire_step_effect; naive_solver
          | apply Release_step_effect; naive_solver ].
Qed.

(** ** The invariant of the system *)

Section inv_facts.
Context (locks : list Lock).

Lemma lock_init_inv : lock_inv locks (lock_init locks).
Proof.
  split; simpl.
  - apply wf_Make.
  - by rewrite length_replicate.
  - intros i lk pc _ Hpc. by apply lookup_replicate in Hpc as [-> _].
  - intros i j lki lkj pci pcj _ _ Hi _ _ Hc _. apply lookup_replicate in Hi as [-> _]. done.
  - intros name Hn. by rewrite lookup_empty in Hn.
  - intros name v Hn. by rewrite lookup_empty in Hn.
Qed.

(** The table of clients after client [i] moved to [pc']. *)
Lemma table_look (l : list lock_pc) i j pc' pcj :
  <[i:=pc']> l !! j = Some pcj → (j = i ∧ pcj = pc') ∨ (j ≠ i ∧ l !! j = Some pcj).
Proof.
  intros Hj. destruct (decide (j = i)) as [->|].
  - left. assert (Hi : (i < length l)%nat).
    { apply lookup_lt_Some in Hj. by rewrite length_insert in Hj. }
    rewrite list_lookup_insert_eq in Hj by done. naive_solver.
  - rewrite list_lookup_insert_ne in Hj by done. auto.
Qed.

Lemma table_look_moved (l : list lock_pc) i pc pc' :
  l !! i = Some pc → <[i:=pc']> l !! i = Some pc'.
Proof. intros Hi. apply list_lookup_insert_eq. by eapply lookup_lt_Some. Qed.

Context (s : lock_state) (i : nat) (lk : Lock) (pc : lock_pc).
Context (Hinv : lock_inv locks s) (Hlk : locks !! i = Some lk) (Hi : pcs s !! i = Some pc).

(** No other client is critical for the lock of a client that is critical, or
    whose lock's cell does not say "held". *)
Lemma nobody_else j lkj pcj :
  critical pc ∨ data (server s) !! lockname lk ≠ Some LockStatusHeld →
  j ≠ i → locks !! j = Some lkj → pcs s !! j = Some pcj →
  lockname lkj = lockname lk → ¬ critical pcj.
Proof.
  intros Hor Hne Hlkj Hj Hname Hcj. destruct Hor as [Hc|Hd].
  - apply Hne. eapply (li_excl _ _ Hinv); eauto.
  - apply Hd. pose proof (li_pc _ _ Hinv _ _ _ Hlkj Hj) as Hok. rewrite <- Hname.
    destruct pcj; simpl in *; naive_solver.
Qed.

Lemma effect_none_inv pc' :
  pc_ok (server s) (lockname lk) pc' → (critical pc' ↔ critical pc) →
  lock_inv locks (mkLockState (server s) (<[i:=pc']> (pcs s))).
Proof.
  intros Hok Hc. destruct Hinv as [Hwf Hlen Hpc Hex Hheld Hval].
  assert (Hold : ∀ j pcj, <[i:=pc']> (pcs s) !! j = Some pcj → critical pcj →
            ∃ old, pcs s !! j = Some old ∧ critical old).
  { intros j pcj [[-> ->]|[? ?]]%table_look ?; naive_solver. }
  split; simpl; [done | by rewrite length_insert | .. | done].
  - intros j lkj pcj Hlkj [[-> ->]|[? ?]]%table_look; [|by eapply Hpc]. by simplify_eq.
  - intros j1 j2 lk1 lk2 pc1 pc2 H1 H2 T1 T2 Hn C1 C2.
    destruct (Hold _ _ T1 C1) as (o1 & ? & ?). destruct (Hold _ _ T2 C2) as (o2 & ? & ?).
    eapply Hex; eauto.
  - intros name Hd. destruct (Hheld name Hd) as (j & lkj & pcj & Hlkj & Hj & Hn & Hcj).
    destruct (decide (j = i)) as [->|Hne].
    + assert (lkj = lk) as -> by congruence. assert (pcj = pc) as -> by congruence.
      exists i, lk, pc'. split_and!; [done | by eapply table_look_moved | done | tauto].
    + exists j, lkj, pcj. by rewrite list_lookup_insert_ne.
Qed.

(** The two effects that write the cell share everything but its content. *)
Lemma effect_write_inv args pc' :
  version_of (server s) (lockname lk) + 1 < 2 ^ 64 →
  PutKey args = lockname lk →
  critical pc ∨ data (server s) !! lockname lk ≠ Some LockStatusHeld →
  (pc' = Held ∧ PutValue args = LockStatusHeld ∨ pc' = Idle ∧ PutValue args = LockStatusFree) →
  lock_inv locks (mkLockState (Put_install (server s) args) (<[i:=pc']> (pcs s))).
Proof.
  intros Hb Hkey Hor Hpc'. pose proof (λ j lkj pcj, nobody_else j lkj pcj Hor) as Halone.
  destruct Hinv as [Hwf Hlen Hpc Hex Hheld Hval].
  split; simpl; [by apply wf_Put_install | by rewrite length_insert | ..].
  - intros j lkj pcj Hlkj [[-> ->]|[Hne Hj]]%table_look.
    + simplify_eq. destruct Hpc' as [[-> Hv]|[-> Hv]]; simpl; [|done].
      by rewrite Hkey, lookup_insert_eq, Hv.
    + destruct (decide (lockname lkj = lockname lk)) as [Heq|Hn].
      * rewrite Heq, <- Hkey. apply pc_ok_install; [done|by rewrite Hkey|by eapply Halone|].
        rewrite Hkey, <- Heq. by eapply Hpc.
      * apply pc_ok_other; [congruence|]. by eapply Hpc.
  - intros j1 j2 lk1 lk2 pc1 pc2 H1 H2 [[-> ->]|[Hn1 T1]]%table_look [[-> ->]|[Hn2 T2]]%table_look Hn C1 C2;
      [done|..|by eapply Hex]; simplify_eq; exfalso; eapply Halone; eauto.
  - intros name Hd. destruct (decide (name = lockname lk)) as [->|Hname].
    + rewrite Hkey, lookup_insert_eq in Hd. destruct Hpc' as [[-> Hv]|[-> Hv]]; [|by rewrite Hv in Hd].
      exists i, lk, Held. split_and!; [done | by eapply table_look_moved | done | done].
    + rewrite lookup_insert_ne in Hd by congruence.
      destruct (Hheld name Hd) as (j & lkj & pcj & Hlkj & Hj & Hn & Hcj).
      exists j, lkj, pcj. rewrite list_lookup_insert_ne by naive_solver. done.
  - intros name v. destruct (decide (name = lockname lk)) as [->|Hname].
    + rewrite Hkey, lookup_insert_eq. naive_solver.
    + rewrite lookup_insert_ne by congruence. apply Hval.
Qed.

End inv_facts.

(** The invariant, with room for [n] more requests below the version limit. *)
Definition lock_inv_room (locks : list Lock) (n : nat) (s : lock_state) : Prop :=
  lock_inv locks s ∧ ∀ k, version_of (server s) k + Z.of_nat n < 2 ^ 64.

Lemma lock_do_Some locks s i r s' :
  lock_do locks s i r = Some s' ↔
  ∃ lk pc, locks !! i = Some lk ∧ pcs s !! i = Some pc ∧
    s' = mkLockState (client_step lk r (server s) pc).1
                     (<[i:=(client_step lk r (server s) pc).2]> (pcs s)).
Proof.
  unfold lock_do. destruct (locks !! i) as [lk|], (pcs s !! i) as [pc|]; simpl;
    try naive_solver.
  destruct (client_step lk r (server s) pc) as [kv' pc'] eqn:E. split.
  - intros [= <-]. exists lk, pc. by rewrite E.
  - intros (lk' & pc0 & [= <-] & [= <-] & ->). by rewrite E.
Qed.

Lemma lock_step_inv locks n s l s' :
  lock_inv_room locks (Datatypes.S n) s → lock_step locks true s l s' → lock_inv_room locks n s'.
Proof.
  intros [Hinv Hb] [Hrel Hdo]. destruct l as [i r]. simpl in *. rewrite Hrel in Hdo by done.
  apply lock_do_Some in Hdo as (lk & pc & Hlk & Hi & ->).
  pose proof (client_step_effect lk (server s) pc (li_wf _ _ Hinv)
                (li_pc _ _ Hinv _ _ _ Hlk Hi)) as Heff.
  destruct (client_step lk Deliver (server s) pc) as [kv' pc']; simpl in *.
  assert (Hw : ∀ args k, version_of (Put_install (server s) args) k + Z.of_nat n < 2 ^ 64).
  { intros args k. rewrite version_Put_install. specialize (Hb k).
    pose proof (wf_version _ k (li_wf _ _ Hinv)).
    case_decide; [rewrite wrapU_small|]; lia. }
  pose proof (Hb (lockname lk)) as Hbk.
  split; simpl.
  - destruct Heff; [by eapply effect_none_inv | ..];
      (eapply effect_write_inv; [exact Hinv|exact Hlk|exact Hi|lia|done|naive_solver|naive_solver]).
  - intros k. specialize (Hb k). destruct Heff; [lia|apply Hw|apply Hw].
Qed.

(** Every state of a run from the start satisfies the invariant. *)
Lemma lock_reachable_inv locks ls s :
  exec (lock_step locks true) (lock_init locks) ls s →
  Z.of_nat (length ls) < 2 ^ 64 → lock_inv locks s.
Proof.
  intros He Hl. apply (exec_preserves_bounded _ (lock_inv_room locks) 0 _ _ _
    (lock_step_inv locks)) in He; [by destruct He|].
  split; [apply lock_init_inv|]. intros k. simpl. unfold version_of, lookup_zero.
  simpl. rewrite lookup_empty. simpl. lia.
Qed.

Lemma lock_run_exec locks s ls s' :
  lock_run locks s ls = Some s' → exec (lock_step locks false) s ls s'.
Proof.
  revert s. induction ls as [|[i r] ls IH]; intros s Hr; simpl in *; [simplify_eq; constructor|].
  destruct (lock_do locks s i r) as [s1|] eqn:Hd; simpl in Hr; [|done].
  econstructor; [|by apply IH]. by split.
Qed.

Lemma lock_run_exec_reliable locks s ls s' :
  Forall (λ l, l.2 = Deliver) ls →
  lock_run locks s ls = Some s' → exec (lock_step locks true) s ls s'.
Proof.
  intros Hf. revert s. induction Hf as [|[i r] ls Hr Hf IH]; intros s Hrun; simpl in *;
    [simplify_eq; constructor|].
  destruct (lock_do locks s i r) as [s1|] eqn:Hd; simpl in Hrun; [|done].
  econstructor; [|by apply IH]. by split.
Qed.

(** Nobody will ever hold the lock [name] again: its cell says "held", every
    client is trying to acquire it, with an outdated version if at all. *)
Definition abandoned (name : string) (s : lock_state) : Prop :=
  data (server s) !! name = Some LockStatusHeld ∧
  is_Some (dataVersion (server s) !! name) ∧
  ∀ i pc, pcs s !! i = Some pc →
    match pc with
    | Idle | AcqGet => True
    | AcqPut version _ => version < version_of (server s) name
    | _ => False
    end.

Lemma abandoned_client name kv pc r :
  data kv !! name = Some LockStatusHeld → is_Some (dataVersion kv !! name) →
  match pc with
  | Idle | AcqGet => True
  | AcqPut version _ => version < version_of kv name
  | _ => False
  end →
  (client_step (mkLock name) r kv pc).1 = kv ∧
  match (client_step (mkLock name) r kv pc).2 with
  | Idle | AcqGet => True
  | AcqPut version _ => version < version_of kv name
  | _ => False
  end.
Proof.
  intros Hd Hs Hpc. destruct pc as [| |version p| | |]; simpl in *; try tauto.
  - destruct r; simpl; try done. rewrite decide_False; [done|].
    unfold get_passes, Get. simpl. rewrite Hd. simpl. intros [?|[_ ?]]; done.
  - rewrite put_attempt_live. simpl.
    rewrite (stale_guard (mkPutArgs name LockStatusHeld version) kv); [|by split].
    destruct r, p; simpl; repeat case_decide; done.
Qed.

Lemma abandoned_step name locks reliable s l s' :
  Forall (λ lk, lockname lk = name) locks →
  abandoned name s → lock_step locks reliable s l s' → abandoned name s'.
Proof.
  intros Hall (Hd & Hs & Hpcs) [_ Hdo]. destruct l as [i r].
  apply lock_do_Some in Hdo as ([name'] & pc & Hlk & Hi & ->).
  rewrite Forall_lookup in Hall. pose proof (Hall _ _ Hlk) as Hname. simpl in Hname. subst name'.
  destruct (abandoned_client name (server s) pc r Hd Hs (Hpcs _ _ Hi)) as [Hkv Hpc'].
  unfold abandoned. simpl. rewrite Hkv. split; [done|]. split; [done|].
  intros j pcj [[-> ->]|[_ Hj]]%table_look; [done | by eapply Hpcs].
Qed.

(** With the cell free, two delivered requests acquire the lock. *)
Lemma acquire_free locks s i lk :
  lock_inv locks s → data (server s) !! lockname lk ≠ Some LockStatusHeld →
  locks !! i = Some lk → pcs s !! i = Some AcqGet →
  ∃ s', exec (lock_step locks true) s [(i, Deliver); (i, Deliver)] s' ∧ pcs s' !! i = Some Held.
Proof.
  intros Hinv Hd Hlk Hi. pose proof (li_wf _ _ Hinv) as Hwf.
  set (ver := version_of (server s) (lockname lk)).
  set (s1 := mkLockState (server s) (<[i:=AcqPut ver PutFirst]> (pcs s))).
  assert (H1 : lock_step locks true s (i, Deliver) s1).
  { split; [done|]. apply lock_do_Some. exists lk, AcqGet. split_and!; [done..|]. simpl.
    rewrite decide_True; [by rewrite get_version|]. apply get_passes_spec; [done|].
    destruct (data (server s) !! lockname lk) as [v|] eqn:E; [|by left].
    destruct (li_value _ _ Hinv _ _ E) as [-> | ->]; [done | by right]. }
  assert (Hg : Put_guard (server s) (mkPutArgs (lockname lk) LockStatusHeld ver) = None).
  { apply Put_guard_None. simpl. unfold ver, version_of, lookup_zero.
    by destruct (dataVersion (server s) !! lockname lk). }
  set (s2 := mkLockState (Put_install (server s) (mkPutArgs (lockname lk) LockStatusHeld ver))
                         (<[i:=Held]> (pcs s1))).
  assert (Hi1 : pcs s1 !! i = Some (AcqPut ver PutFirst)) by (by eapply table_look_moved).
  exists s2. split; [|by eapply table_look_moved].
  eapply exec_cons; [exact H1|]. apply exec_one. split; [done|].
  apply lock_do_Some. exists lk, (AcqPut ver PutFirst). split_and!; [done..|].
  simpl. rewrite put_attempt_live, Hg. done.
Qed.

(** Two clients of one lock. *)
Definition two_clients : list Lock := [MakeLock "l"; MakeLock "l"].

(** The runs of the two lossy scenarios. *)
Definition lossy_release_run : list (nat * netres) :=
  (* client 0 acquires and releases; the reply to its release is lost *)
  [(0%nat, Deliver); (0%nat, Deliver); (0%nat, Deliver); (0%nat, Deliver); (0%nat, Deliver);
   (0%nat, DropReply);
   (* client 1 acquires the freed lock *)
   (1%nat, Deliver); (1%nat, Deliver); (1%nat, Deliver);
   (* client 0's resend is answered ErrMaybe; it reads "held" and frees it *)
   (0%nat, Deliver); (0%nat, Deliver); (0%nat, Deliver);
   (* client 0 acquires again *)
   (0%nat, Deliver); (0%nat, Deliver); (0%nat, Deliver)].

Definition lossy_acquire_run : list (nat * netres) :=
  [(0%nat, Deliver); (0%nat, Deliver); (0%nat, DropReply); (0%nat, Deliver)].

(** ** Theorems *)

(** C7 Mutual exclusion: on a reliable network, in every interleaving of any
    number of clients on any locks (of fewer than [2^64] requests, the width
    of the version counter), no two clients are between the return of
    [Acquire] and the return of [Release] of the same lock. *)
Theorem lock_mutual_exclusion locks ls s i j lki lkj pci pcj :
  exec (lock_step locks true) (lock_init locks) ls s →
  Z.of_nat (length ls) < 2 ^ 64 →
  locks !! i = Some lki → locks !! j = Some lkj → lockname lki = lockname lkj →
  pcs s !! i = Some pci → pcs s !! j = Some pcj →
  critical pci → critical pcj → i = j.
Proof.
  intros He Hl Hlki Hlkj Hn Hi Hj Hci Hcj.
  pose proof (lock_reachable_inv _ _ _ He Hl) as Hinv. eapply (li_excl _ _ Hinv); eauto.
Qed.

(** The first of two clients acquires while the second tries. *)
Definition contended_run : list (nat * netres) :=
  [(0%nat, Deliver); (1%nat, Deliver); (0%nat, Deliver); (1%nat, Deliver);
   (0%nat, Deliver); (1%nat, Deliver)].

Definition contended_state : lock_state :=
  default (lock_init two_clients) (lock_run two_clients (lock_init two_clients) contended_run).

Lemma lock_mutual_exclusion_witness :
  pcs contended_state !! 0%nat = Some Held ∧ pcs contended_state !! 1%nat = Some AcqGet ∧
  ∀ j pcj, pcs contended_state !! j = Some pcj → two_clients !! j = Some (MakeLock "l") →
    critical pcj → 0%nat = j.
Proof.
  split; [vm_compute; reflexivity|]. split; [vm_compute; reflexivity|].
  intros j pcj Hj Hlk Hc.
  apply (lock_mutual_exclusion two_clients contended_run contended_state 0%nat j
           (MakeLock "l") (MakeLock "l") Held pcj); try done.
  apply lock_run_exec_reliable; [repeat constructor | vm_compute; reflexivity].
Defined.

(** C37 The lock is never lost on a reliable network: in every reachable state
    in which no client is critical for a lock, a client about to read that
    lock's cell acquires it in its next two requests. *)
Theorem lock_available locks ls s i lk :
  exec (lock_step locks true) (lock_init locks) ls s →
  Z.of_nat (length ls) < 2 ^ 64 →
  locks !! i = Some lk → pcs s !! i = Some AcqGet →
  (∀ j lkj pcj, locks !! j = Some lkj → pcs s !! j = Some pcj →
     lockname lkj = lockname lk → ¬ critical pcj) →
  ∃ s', exec (lock_step locks true) s [(i, Deliver); (i, Deliver)] s' ∧ pcs s' !! i = Some Held.
Proof.
  intros He Hl Hlk Hi Hfree. pose proof (lock_reachable_inv _ _ _ He Hl) as Hinv.
  assert (Hd : data (server s) !! lockname lk ≠ Some LockStatusHeld).
  { intros Hd. destruct (li_held _ _ Hinv _ Hd) as (j & lkj & pcj & H1 & H2 & H3 & H4).
    by eapply Hfree. }
  by apply (acquire_free locks s i lk).
Qed.

Lemma lock_available_witness :
  ∃ s', exec (lock_step two_clients true) (mkLockState MakeKVServer [AcqGet; Idle])
          [(0%nat, Deliver); (0%nat, Deliver)] s' ∧ pcs s' !! 0%nat = Some Held.
Proof.
  apply (lock_available two_clients [(0%nat, Deliver)] (mkLockState MakeKVServer [AcqGet; Idle])
           0%nat (MakeLock "l")); try done.
  - apply lock_run_exec_reliable; [repeat constructor | vm_compute; reflexivity].
  - intros [|[|j]] lkj pcj Hlk Hj _; simpl in *; simplify_eq; tauto.
Defined.

(** Message loss breaks mutual exclusion: with two clients and one lost
    reply there is a run after which both clients hold the lock. The releasing
    client's [Put] is installed but answered [ErrMaybe]; it then reads the
    other client's "held" as its own and frees it. *)
Theorem lock_lossy_two_holders :
  ∃ ls s, exec (lock_step two_clients false) (lock_init two_clients) ls s ∧
    pcs s !! 0%nat = Some Held ∧ pcs s !! 1%nat = Some Held.
Proof.
  exists lossy_release_run.
  destruct (lock_run two_clients (lock_init two_clients) lossy_release_run) as [s|] eqn:Hr;
    [|vm_compute in Hr; discriminate].
  exists s. split; [by apply lock_run_exec|].
  vm_compute in Hr. injection Hr as <-. done.
Qed.

(** Message loss can lose the lock for good: after one lost reply to the
    [Put] of [Acquire], a state is reached from which no continuation whatsoever
    lets any of the clients hold the lock, although none holds it. *)
Theorem lock_lossy_lost_forever :
  ∃ ls s, exec (lock_step two_clients false) (lock_init two_clients) ls s ∧
    ∀ ls' s' i, exec (lock_step two_clients false) s ls' s' → pcs s' !! i ≠ Some Held.
Proof.
  exists lossy_acquire_run.
  destruct (lock_run two_clients (lock_init two_clients) lossy_acquire_run) as [s|] eqn:Hr;
    [|vm_compute in Hr; discriminate].
  exists s. split; [by apply lock_run_exec|]. intros ls' s' i He Hi.
  assert (Habs : abandoned "l" s').
  { eapply (exec_preserves _ (abandoned "l")); [|..|exact He].
    - intros. eapply abandoned_step; [|eassumption..]. by repeat constructor.
    - vm_compute in Hr. injection Hr as <-.
      split_and!; [done | eauto | intros [|[|?]] ? ?; by simplify_eq/=]. }
  destruct Habs as (_ & _ & Hpcs). by apply Hpcs in Hi.
Qed.
