(* ===== verification/Lo.v ===== *)
(** * The interface of [github.com/samber/lo]

    The collection helpers the code calls are a third-party module: they are
    the fields of the class [Lo], and the class [LoLaws] states their
    documented behaviour. Go randomises the order in which a map is ranged
    over, so the helpers that range over a map take a seed and promise the
    entries in some order only. [lo_reference] is a concrete implementation. *)

From S2P Require Import Prelude.

Class Lo := {
  lo_entries : ∀ {K V : Type} `{Countable K}, nat → gmap K V → list (K * V);
  lo_values : ∀ {K V : Type} `{Countable K}, nat → gmap K V → list V;
  lo_find : ∀ {A : Type}, list A → (A → bool) → option A;
  lo_every_by : ∀ {A : Type}, list A → (A → bool) → bool;
  lo_count_by : ∀ {A : Type}, list A → (A → bool) → Z;
  lo_group_by : ∀ {A U : Type} `{Countable U}, list A → (A → U) → gmap U (list A);
  lo_map : ∀ {A B : Type}, list A → (A → Z → B) → list B;
  lo_flat_map : ∀ {A B : Type}, list A → (A → Z → list B) → list B
}.

Class LoLaws (L : Lo) : Prop := {
  (** [Entries], [Values]: every entry of the map once, in some order. *)
  lo_entries_spec : ∀ (K V : Type) `{Countable K} seed (m : gmap K V),
    lo_entries seed m ≡ₚ map_to_list m;
  lo_values_spec : ∀ (K V : Type) `{Countable K} seed (m : gmap K V),
    lo_values seed m ≡ₚ (map_to_list m).*2;
  (** [Find]: an element that satisfies the predicate, when there is one. *)
  lo_find_Some : ∀ (A : Type) (l : list A) p x, lo_find l p = Some x → x ∈ l ∧ p x = true;
  lo_find_None : ∀ (A : Type) (l : list A) p x, lo_find l p = None → x ∈ l → p x = false;
  (** [EveryBy]: true if the predicate holds of all elements. *)
  lo_every_by_spec : ∀ (A : Type) (l : list A) p,
    lo_every_by l p = true ↔ ∀ x, x ∈ l → p x = true;
  (** [CountBy]: the number of elements that satisfy the predicate. *)
  lo_count_by_spec : ∀ (A : Type) (l : list A) p,
    lo_count_by l p = Z.of_nat (length (filter (λ x, p x = true) l));
  (** [GroupBy]: the elements of each key in their original order; no empty groups. *)
  lo_group_by_spec : ∀ (A U : Type) `{Countable U} (l : list A) (f : A → U) u,
    lo_group_by l f !! u =
    (if decide (filter (λ x, f x = u) l = []) then None else Some (filter (λ x, f x = u) l));
  (** [Map], [FlatMap]: element by element, with the index. *)
  lo_map_spec : ∀ (A B : Type) (l : list A) (f : A → Z → B),
    lo_map l f = imap (λ i x, f x (Z.of_nat i)) l;
  lo_flat_map_spec : ∀ (A B : Type) (l : list A) (f : A → Z → list B),
    lo_flat_map l f = concat (imap (λ i x, f x (Z.of_nat i)) l)
}.

(** A reference implementation: a non-zero seed reverses the order of the map. *)
Definition reference_entries {K V : Type} `{Countable K} (seed : nat) (m : gmap K V) : list (K * V) :=
  match seed with
  | 0%nat => map_to_list m
  | _ => reverse (map_to_list m)
  end.

Definition group_insert {A U : Type} `{Countable U} (f : A → U) (g : gmap U (list A)) (x : A) :
    gmap U (list A) :=
  <[f x := lookup_zero [] (f x) g ++ [x]]> g.

#[export] Instance lo_reference : Lo := {
  lo_entries K V _ _ seed m := reference_entries seed m;
  lo_values K V _ _ seed m := (reference_entries seed m).*2;
  lo_find A l p := head (filter (λ x, p x = true) l);
  lo_every_by A l p := forallb p l;
  lo_count_by A l p := Z.of_nat (length (filter (λ x, p x = true) l));
  lo_group_by A U _ _ l f := fold_left (group_insert f) l ∅;
  lo_map A B l f := imap (λ i x, f x (Z.of_nat i)) l;
  lo_flat_map A B l f := concat (imap (λ i x, f x (Z.of_nat i)) l)
}.

Lemma reference_entries_perm {K V} `{Countable K} seed (m : gmap K V) :
  reference_entries seed m ≡ₚ map_to_list m.
Proof. destruct seed; simpl; [done | apply reverse_Permutation]. Qed.

Lemma group_insert_lookup {A U} `{Countable U} (f : A → U) l g u :
  fold_left (group_insert f) l g !! u =
  match g !! u, filter (λ x, f x = u) l with
  | Some g0, l' => Some (g0 ++ l')
  | None, [] => None
  | None, l' => Some l'
  end.
Proof.
  revert g. induction l as [|x l IH]; intros g; simpl.
  - destruct (g !! u); [by rewrite app_nil_r | done].
  - rewrite IH. unfold group_insert, lookup_zero. rewrite filter_cons.
    destruct (decide (f x = u)) as [<-|Hne].
    + rewrite lookup_insert_eq. destruct (g !! f x) eqn:E; simpl; [|done].
      by rewrite <- app_assoc.
    + by rewrite lookup_insert_ne.
Qed.

#[export] Instance lo_reference_laws : LoLaws lo_reference.
Proof.
  split; simpl.
  - intros. apply reference_entries_perm.
  - intros. by rewrite reference_entries_perm.
  - intros A l p x Hf.
    enough (Hin : x ∈ filter (λ x, p x = true) l) by (apply list_elem_of_filter in Hin; tauto).
    destruct (filter _ l) as [|y l'] eqn:E; simplify_eq/=. left.
  - intros A l p x Hf Hx. destruct (p x) eqn:Hp; [|done].
    destruct (filter (λ x, p x = true) l) eqn:E; [|done].
    assert (x ∈ filter (λ x, p x = true) l) as Hin by (by apply list_elem_of_filter).
    rewrite E in Hin. by apply elem_of_nil in Hin.
  - intros A l p. rewrite forallb_forall. by setoid_rewrite <- list_elem_of_In.
  - done.
  - intros. rewrite group_insert_lookup, lookup_empty. case_decide as Hd; [by rewrite Hd|].
    by destruct (filter _ l).
  - done.
  - done.
Qed.

(** Counting the values of a map that satisfy a test. *)
Lemma length_filter_values {K V} `{Countable K} (m : gmap K V) (p : V → bool) :
  length (filter (λ v, p v = true) (map_to_list m).*2) = size (filter (λ kv, p kv.2 = true) m).
Proof.
  induction m as [|k v m Hk IH] using map_ind.
  - by rewrite map_to_list_empty, map_filter_empty.
  - rewrite map_to_list_insert by done. simpl. rewrite filter_cons, map_filter_insert. simpl.
    case_decide.
    + simpl. rewrite map_size_insert_None; [by f_equal|].
      apply map_lookup_filter_None. auto.
    + by rewrite delete_id by done.
Qed.

(** ** Consequences of the laws *)

Section laws.
Context {L : Lo} {HL : LoLaws L}.

Lemma lo_elem_of_entries {K V} `{Countable K} seed (m : gmap K V) k v :
  (k, v) ∈ lo_entries seed m ↔ m !! k = Some v.
Proof. by rewrite lo_entries_spec, elem_of_map_to_list. Qed.

Lemma lo_find_entry {K V} `{Countable K} seed (m : gmap K V) (p : K * V → bool) :
  match lo_find (lo_entries seed m) p with
  | Some e => m !! e.1 = Some e.2 ∧ p e = true
  | None => ∀ k v, m !! k = Some v → p (k, v) = false
  end.
Proof.
  destruct (lo_find _ p) as [[k v]|] eqn:E.
  - apply lo_find_Some in E as [Hin Hp]. by rewrite lo_elem_of_entries in Hin.
  - intros k v Hm. eapply lo_find_None; [exact E|]. by apply lo_elem_of_entries.
Qed.

Lemma lo_every_value {K V} `{Countable K} seed (m : gmap K V) (p : V → bool) :
  lo_every_by (lo_values seed m) p = true ↔ map_Forall (λ _ v, p v = true) m.
Proof.
  rewrite lo_every_by_spec. split.
  - intros Hall k v Hm. apply Hall. rewrite lo_values_spec. apply list_elem_of_fmap.
    exists (k, v). by rewrite elem_of_map_to_list.
  - intros Hall v Hin. rewrite lo_values_spec in Hin.
    apply list_elem_of_fmap in Hin as ([k v'] & -> & Hin).
    apply elem_of_map_to_list in Hin. by apply Hall in Hin.
Qed.

Lemma lo_count_value {K V} `{Countable K} seed (m : gmap K V) (p : V → bool) :
  lo_count_by (lo_values seed m) p = Z.of_nat (size (filter (λ kv, p kv.2 = true) m)).
Proof.
  rewrite lo_count_by_spec, <- length_filter_values. f_equal. by rewrite lo_values_spec.
Qed.
End laws.
