(* ===== verification/TaskManager.v ===== *)
(** * The two task managers of MapReduce: [mr/map_task_manager.go],
      [mr/reduce_task_manager.go], with the types of [mr/rpc.go]

    Both managers keep three Go maps with the same keys: the tasks, their
    status and the time of their last assignment. The methods they share are
    written once, on the maps, in [Section table]; the Modules
    [MapTaskManager] and [ReduceTaskManager] have one definition per method.

    The [tasks] maps hold pointers in Go. Each key has one object, allocated
    by the constructor and never replaced, so a pointer is represented by its
    key and the map from keys to objects is the store: a method that returns
    a pointer returns a key, and [AddFile] updates the object in place.

    Every method takes the manager's own mutex from entry to return and is
    one atomic function here. The clock is read once per call; the order in
    which Go ranges over a map is chosen by the seed argument. *)

From S2P Require Import Prelude Lo.

(** ** Types and constants *)

Record KeyValue := mkKeyValue { Key : string; Value : string }.

#[export] Instance KeyValue_eq_dec : EqDecision KeyValue.
Proof. solve_decision. Defined.

Record MapTask := mkMapTask { MapTask_Id : string; NReduce : Z }.
Record ReduceTask := mkReduceTask { ReduceTask_Id : Z; Filenames : list string }.

#[export] Instance MapTask_eq_dec : EqDecision MapTask.
Proof. solve_decision. Defined.
#[export] Instance ReduceTask_eq_dec : EqDecision ReduceTask.
Proof. solve_decision. Defined.

(** [type TaskStatus int]; the zero value is [TaskPending]. *)
Inductive TaskStatus := TaskPending | TaskAssigned | TaskCompleted.

#[export] Instance TaskStatus_eq_dec : EqDecision TaskStatus.
Proof. solve_decision. Defined.

(** Times are nanoseconds; [time.Duration] is a 64-bit integer. *)
Definition second : Z := 1000000000.
Definition TaskTimeout : Z := 10 * second.

(** The zero [time.Time] is January 1 of year 1, before every clock reading. *)
Definition time_zero : Z := - 62135596800 * second.

(** [time.Since]: the difference, saturating at the largest duration. *)
Definition time_Since (now t : Z) : Z := Z.max (- 2 ^ 63) (Z.min (2 ^ 63 - 1) (now - t)).

(** ** The methods both managers share *)

Section table.
Context {L : Lo} {K T : Type} `{Countable K}.

(** [statusMap[k]], with the zero value for a missing key. *)
Definition status (statusMap : gmap K TaskStatus) (k : K) : TaskStatus :=
  lookup_zero TaskPending k statusMap.

Definition timed_out (now : Z) (statusMap : gmap K TaskStatus) (assignedTime : gmap K Z) (k : K) : Prop :=
  status statusMap k = TaskAssigned ∧
  time_Since now (lookup_zero time_zero k assignedTime) > TaskTimeout.

#[export] Instance timed_out_dec now sm tm k : Decision (timed_out now sm tm k).
Proof. unfold timed_out. apply _. Defined.

(** [GetPendingTask]: a pending task, else a timed-out one, else nil. *)
Definition pick_task (seed : nat) (now : Z) (tasks : gmap K T)
    (statusMap : gmap K TaskStatus) (assignedTime : gmap K Z) : option K :=
  let entries := lo_entries seed tasks in
  match lo_find entries (λ e, bool_decide (status statusMap e.1 = TaskPending)) with
  | Some entry => Some entry.1
  | None =>
      match lo_find entries (λ e, bool_decide (timed_out now statusMap assignedTime e.1)) with
      | Some entry => Some entry.1
      | None => None
      end
  end.

(** [AssignTask]: refused for unknown and completed tasks. *)
Definition assign_task (now : Z) (k : K) (statusMap : gmap K TaskStatus) (assignedTime : gmap K Z) :
    gmap K TaskStatus * gmap K Z * bool :=
  match statusMap !! k with
  | None | Some TaskCompleted => (statusMap, assignedTime, false)
  | Some _ => (<[k:=TaskAssigned]> statusMap, <[k:=now]> assignedTime, true)
  end.

(** [CompleteTask]: refused for unknown tasks only. *)
Definition complete_task (k : K) (statusMap : gmap K TaskStatus) : gmap K TaskStatus * bool :=
  match statusMap !! k with
  | None => (statusMap, false)
  | Some _ => (<[k:=TaskCompleted]> statusMap, true)
  end.

Definition all_completed (seed : nat) (statusMap : gmap K TaskStatus) : bool :=
  lo_every_by (lo_values seed statusMap) (λ s, bool_decide (s = TaskCompleted)).

Definition count_status (seed : nat) (want : TaskStatus) (statusMap : gmap K TaskStatus) : Z :=
  lo_count_by (lo_values seed statusMap) (λ s, bool_decide (s = want)).

(** The tables of a manager belong together: the same keys, and a time for
    every assigned task. *)
Record table_wf (tasks : gmap K T) (statusMap : gmap K TaskStatus) (assignedTime : gmap K Z) : Prop := {
  tw_dom : ∀ k, is_Some (tasks !! k) ↔ is_Some (statusMap !! k);
  tw_time : ∀ k, statusMap !! k = Some TaskAssigned → is_Some (assignedTime !! k)
}.
End table.

(** ** [MapTaskManager] *)

Module MapTaskManager.
Record t := mk {
  tasks : gmap string MapTask;
  statusMap : gmap string TaskStatus;
  assignedTime : gmap string Z;
  nReduce : Z
}.

Section methods.
Context {L : Lo}.

Definition New (files : list string) (nReduce : Z) : t :=
  fold_left
    (λ m file, mk (<[file := mkMapTask file nReduce]> (tasks m))
                  (<[file := TaskPending]> (statusMap m)) (assignedTime m) nReduce)
    files (mk ∅ ∅ ∅ nReduce).

Definition GetPendingTask (seed : nat) (now : Z) (m : t) : option string :=
  pick_task seed now (tasks m) (statusMap m) (assignedTime m).

Definition AssignTask (now : Z) (taskID : string) (m : t) : t * bool :=
  let '(sm, tm, ok) := assign_task now taskID (statusMap m) (assignedTime m) in
  (mk (tasks m) sm tm (nReduce m), ok).

Definition CompleteTask (taskID : string) (m : t) : t * bool :=
  let '(sm, ok) := complete_task taskID (statusMap m) in
  (mk (tasks m) sm (assignedTime m) (nReduce m), ok).

Definition IsTaskCompleted (taskID : string) (m : t) : bool :=
  bool_decide (status (statusMap m) taskID = TaskCompleted).

Definition AllCompleted (seed : nat) (m : t) : bool := all_completed seed (statusMap m).
Definition GetTaskCount (m : t) : Z := Z.of_nat (size (tasks m)).
Definition GetCompletedCount (seed : nat) (m : t) : Z := count_status seed TaskCompleted (statusMap m).
Definition GetPendingCount (seed : nat) (m : t) : Z := count_status seed TaskPending (statusMap m).
Definition GetAssignedCount (seed : nat) (m : t) : Z := count_status seed TaskAssigned (statusMap m).

Definition wf (m : t) : Prop :=
  table_wf (tasks m) (statusMap m) (assignedTime m) ∧
  map_Forall (λ k task, task = mkMapTask k (nReduce m)) (tasks m).
End methods.
End MapTaskManager.

(** ** [ReduceTaskManager] *)

Module ReduceTaskManager.
Record t := mk {
  tasks : gmap Z ReduceTask;
  statusMap : gmap Z TaskStatus;
  assignedTime : gmap Z Z
}.

Section methods.
Context {L : Lo}.

(** [for i := 0; i < nReduce; i++]: no iteration when [nReduce <= 0]. *)
Definition New (nReduce : Z) : t :=
  fold_left
    (λ m i, mk (<[i := mkReduceTask i []]> (tasks m))
               (<[i := TaskPending]> (statusMap m)) (assignedTime m))
    (seqZ 0 nReduce) (mk ∅ ∅ ∅).

Definition GetPendingTask (seed : nat) (now : Z) (r : t) : option Z :=
  pick_task seed now (tasks r) (statusMap r) (assignedTime r).

Definition AssignTask (now : Z) (taskID : Z) (r : t) : t * bool :=
  let '(sm, tm, ok) := assign_task now taskID (statusMap r) (assignedTime r) in
  (mk (tasks r) sm tm, ok).

Definition CompleteTask (taskID : Z) (r : t) : t * bool :=
  let '(sm, ok) := complete_task taskID (statusMap r) in
  (mk (tasks r) sm (assignedTime r), ok).

Definition IsTaskCompleted (taskID : Z) (r : t) : bool :=
  bool_decide (status (statusMap r) taskID = TaskCompleted).

Definition AllCompleted (seed : nat) (r : t) : bool := all_completed seed (statusMap r).

(** [task.Filenames = append(task.Filenames, filename)] through the pointer. *)
Definition AddFile (taskID : Z) (filename : string) (r : t) : t * bool :=
  match tasks r !! taskID with
  | Some task =>
      (mk (<[taskID := mkReduceTask (ReduceTask_Id task) (Filenames task ++ [filename])]> (tasks r))
          (statusMap r) (assignedTime r), true)
  | None => (r, false)
  end.

(** [GetTask]: nil for an unknown task. *)
Definition GetTask (taskID : Z) (r : t) : option Z :=
  match tasks r !! taskID with Some _ => Some taskID | None => None end.

Definition GetTaskCount (r : t) : Z := Z.of_nat (size (tasks r)).
Definition GetCompletedCount (seed : nat) (r : t) : Z := count_status seed TaskCompleted (statusMap r).
Definition GetPendingCount (seed : nat) (r : t) : Z := count_status seed TaskPending (statusMap r).
Definition GetAssignedCount (seed : nat) (r : t) : Z := count_status seed TaskAssigned (statusMap r).

Definition HasFiles (taskID : Z) (r : t) : bool :=
  match tasks r !! taskID with
  | Some task => bool_decide (Z.of_nat (length (Filenames task)) > 0)
  | None => false
  end.

Definition wf (nReduce : Z) (r : t) : Prop :=
  table_wf (tasks r) (statusMap r) (assignedTime r) ∧
  map_Forall (λ k task, ReduceTask_Id task = k) (tasks r) ∧
  ∀ k, is_Some (tasks r !! k) ↔ 0 <= k < nReduce.
End methods.
End ReduceTaskManager.

(** ** Lemmas on the shared methods *)

Section table_facts.
Context {L : Lo} {HL : LoLaws L} {K T : Type} `{Countable K}.
Implicit Types (sm : gmap K TaskStatus) (tm : gmap K Z) (tasks : gmap K T) (k : K).

Lemma status_Some sm k s : sm !! k = Some s → status sm k = s.
Proof. unfold status, lookup_zero. by intros ->. Qed.

Lemma pick_task_Some seed now tasks sm tm k :
  pick_task seed now tasks sm tm = Some k →
  is_Some (tasks !! k) ∧
  (status sm k = TaskPending ∨
   (timed_out now sm tm k ∧ ∀ k', is_Some (tasks !! k') → status sm k' ≠ TaskPending)).
Proof.
  unfold pick_task. intros Hp.
  pose proof (lo_find_entry seed tasks (λ e, bool_decide (status sm e.1 = TaskPending))) as H1.
  destruct (lo_find _ _) as [e|]; [simplify_eq/=; destruct H1 as [? ?%bool_decide_eq_true]; eauto|].
  pose proof (lo_find_entry seed tasks (λ e, bool_decide (timed_out now sm tm e.1))) as H2.
  destruct (lo_find _ _) as [e|]; [|done]. simplify_eq/=.
  destruct H2 as [? ?%bool_decide_eq_true]. split; [eauto|]. right. split; [done|].
  intros k' [task' Hk']. by apply H1, bool_decide_eq_false in Hk'.
Qed.

Lemma pick_task_None seed now tasks sm tm :
  pick_task seed now tasks sm tm = None →
  ∀ k, is_Some (tasks !! k) → status sm k ≠ TaskPending ∧ ¬ timed_out now sm tm k.
Proof.
  unfold pick_task. intros Hp k [task Hk].
  pose proof (lo_find_entry seed tasks (λ e, bool_decide (status sm e.1 = TaskPending))) as H1.
  destruct (lo_find _ _) as [e|]; [done|].
  pose proof (lo_find_entry seed tasks (λ e, bool_decide (timed_out now sm tm e.1))) as H2.
  destruct (lo_find _ _) as [e|]; [done|].
  apply H1 in Hk as Hk1. apply H2 in Hk as Hk2.
  by apply bool_decide_eq_false in Hk1, Hk2.
Qed.

(** The same facts for a table in order, on the status map itself. *)
Lemma pick_task_wf_Some seed now tasks sm tm k :
  table_wf tasks sm tm → pick_task seed now tasks sm tm = Some k →
  sm !! k = Some TaskPending ∨ (timed_out now sm tm k ∧ ∀ k', sm !! k' ≠ Some TaskPending).
Proof.
  intros [Hd _] Hp. apply pick_task_Some in Hp as [Hk Hst]. apply Hd in Hk as [st Hk].
  apply status_Some in Hk as Hs. destruct Hst as [Hst|[Ht Hno]]; [left; congruence|right].
  split; [done|]. intros k' Hk'. apply (Hno k'); [by rewrite Hd, Hk' | by apply status_Some].
Qed.

Lemma pick_task_wf_None seed now tasks sm tm k :
  table_wf tasks sm tm → pick_task seed now tasks sm tm = None →
  sm !! k ≠ Some TaskPending ∧ ¬ timed_out now sm tm k.
Proof.
  intros [Hd _] Hp. destruct (sm !! k) as [st|] eqn:Hk.
  - destruct (pick_task_None _ _ _ _ _ Hp k) as [H1 H2]; [by rewrite Hd, Hk|].
    split; [|done]. intros [= ->]. by apply status_Some in Hk.
  - split; [done|]. intros [Hs _]. unfold status, lookup_zero in Hs. by rewrite Hk in Hs.
Qed.

Lemma pick_task_open seed now tasks sm tm k :
  table_wf tasks sm tm → pick_task seed now tasks sm tm = Some k →
  ∃ st, sm !! k = Some st ∧ st ≠ TaskCompleted.
Proof.
  intros [Hd _] Hp. apply pick_task_Some in Hp as [Hk Hst]. apply Hd in Hk as [st Hk].
  exists st. split; [done|]. apply status_Some in Hk.
  destruct Hst as [Hst|[[Ht _] _]]; congruence.
Qed.

Lemma assign_task_open now k sm tm st :
  sm !! k = Some st → st ≠ TaskCompleted →
  assign_task now k sm tm = (<[k:=TaskAssigned]> sm, <[k:=now]> tm, true).
Proof. intros Hk Hst. unfold assign_task. rewrite Hk. by destruct st. Qed.

Lemma assign_task_wf now tasks k sm tm :
  table_wf tasks sm tm →
  let r := assign_task now k sm tm in table_wf tasks r.1.1 r.1.2.
Proof.
  intros [Hd Ht]. unfold assign_task. destruct (sm !! k) as [s|] eqn:E; [|by split].
  assert (Hnew : table_wf tasks (<[k:=TaskAssigned]> sm) (<[k:=now]> tm)).
  { split; intros k'; (destruct (decide (k = k')) as [<-|];
      [rewrite !lookup_insert_eq | rewrite !lookup_insert_ne by done]); auto.
    rewrite Hd, E. split; eauto. }
  destruct s; simpl; [done | done | by split].
Qed.

Lemma complete_task_wf tasks k sm tm :
  table_wf tasks sm tm → table_wf tasks (complete_task k sm).1 tm.
Proof.
  intros [Hd Ht]. unfold complete_task. destruct (sm !! k) as [s|] eqn:E; simpl; [|by split].
  split; intros k'; (destruct (decide (k = k')) as [<-|];
    [rewrite !lookup_insert_eq | rewrite !lookup_insert_ne by done]); auto; [|done].
  rewrite Hd, E. split; eauto.
Qed.

Lemma assign_task_status now k k' sm tm :
  (assign_task now k sm tm).1.1 !! k' =
  if decide (k' = k ∧ sm !! k ≠ None ∧ sm !! k ≠ Some TaskCompleted) then Some TaskAssigned else sm !! k'.
Proof.
  unfold assign_task.
  destruct (sm !! k) as [[| |]|] eqn:E; simpl;
    (destruct (decide (k' = k)) as [->|Hne];
      [rewrite ?lookup_insert_eq | rewrite ?lookup_insert_ne by done]);
    case_decide; naive_solver.
Qed.

Lemma complete_task_status k k' sm :
  (complete_task k sm).1 !! k' =
  if decide (k' = k ∧ is_Some (sm !! k)) then Some TaskCompleted else sm !! k'.
Proof.
  unfold complete_task. destruct (sm !! k) eqn:E; simpl;
    (destruct (decide (k' = k)) as [->|Hne];
      [rewrite ?lookup_insert_eq | rewrite ?lookup_insert_ne by done]);
    case_decide; naive_solver.
Qed.

Lemma all_completed_spec seed sm :
  all_completed seed sm = true ↔ map_Forall (λ _ s, s = TaskCompleted) sm.
Proof.
  unfold all_completed. rewrite lo_every_value.
  unfold map_Forall. by setoid_rewrite bool_decide_eq_true.
Qed.

Lemma count_status_spec seed want sm :
  count_status seed want sm = Z.of_nat (size (filter (λ kv, kv.2 = want) sm)).
Proof.
  unfold count_status. rewrite lo_count_value. do 2 f_equal. apply map_filter_ext.
  intros k s _. simpl. by rewrite bool_decide_eq_true.
Qed.

(** The three statuses partition the table. *)
Lemma filter_insert_size (P : K * TaskStatus → Prop) `{!∀ x, Decision (P x)} sm k s :
  sm !! k = None →
  size (filter P (<[k:=s]> sm)) =
  ((if decide (P (k, s)) then 1 else 0) + size (filter P sm))%nat.
Proof.
  intros Hk. rewrite map_filter_insert. case_decide.
  - rewrite map_size_insert_None; [done|]. apply map_lookup_filter_None. auto.
  - by rewrite delete_id.
Qed.

Lemma count_status_seed seed seed' want sm :
  count_status seed want sm = count_status seed' want sm.
Proof. by rewrite !count_status_spec. Qed.

Lemma count_partition seed sm :
  count_status seed TaskPending sm + count_status seed TaskAssigned sm +
  count_status seed TaskCompleted sm = Z.of_nat (size sm).
Proof.
  rewrite !count_status_spec.
  induction sm as [|k s sm Hk IH] using map_ind.
  - by rewrite !map_filter_empty, map_size_empty.
  - rewrite !filter_insert_size, map_size_insert_None by done. simpl.
    destruct s; repeat case_decide; try done; lia.
Qed.

(** Tables with the same keys have the same size. *)
Lemma table_wf_size tasks sm tm : table_wf tasks sm tm → size tasks = size sm.
Proof.
  intros [Hd _]. rewrite <- !size_dom. f_equal. apply set_eq. intros k.
  by rewrite !elem_of_dom.
Qed.

(** How many tasks are not completed yet. *)
Definition open_tasks (sm : gmap K TaskStatus) : nat :=
  size (filter (λ kv, kv.2 ≠ TaskCompleted) sm).

Lemma open_tasks_complete k s sm :
  sm !! k = Some s → s ≠ TaskCompleted →
  open_tasks sm = Datatypes.S (open_tasks (<[k:=TaskCompleted]> sm)).
Proof.
  intros Hk Hs. unfold open_tasks.
  rewrite <- (insert_id sm k s) at 1 by done. rewrite <- (insert_delete_eq sm).
  rewrite filter_insert_size, decide_True by (simpl; by rewrite ?lookup_delete_eq).
  rewrite <- (insert_delete_eq sm k TaskCompleted).
  rewrite filter_insert_size, decide_False by (simpl; rewrite ?lookup_delete_eq; naive_solver).
  done.
Qed.

Lemma open_tasks_zero sm :
  open_tasks sm = 0%nat ↔ map_Forall (λ _ s, s = TaskCompleted) sm.
Proof.
  unfold open_tasks. rewrite map_size_empty_iff, map_empty. unfold map_Forall.
  setoid_rewrite map_lookup_filter_None. split.
  - intros Hf k s Hk. destruct (Hf k) as [?|Hn]; [congruence|].
    destruct (decide (s = TaskCompleted)); [done|]. exfalso. by eapply Hn.
  - intros Hf k. destruct (sm !! k) as [s|] eqn:Hk; [right | by left].
    intros s' [= <-] Hs. simpl in Hs. naive_solver.
Qed.
Lemma open_tasks_completed seed sm :
  Z.of_nat (open_tasks sm) + count_status seed TaskCompleted sm = Z.of_nat (size sm).
Proof.
  rewrite count_status_spec. unfold open_tasks.
  induction sm as [|k s sm Hk IH] using map_ind.
  - by rewrite !map_filter_empty, map_size_empty.
  - rewrite !filter_insert_size, map_size_insert_None by done. simpl.
    destruct s; repeat case_decide; try done; lia.
Qed.

Lemma all_completed_count seed tasks sm tm :
  table_wf tasks sm tm →
  all_completed seed sm = true ↔ count_status seed TaskCompleted sm = Z.of_nat (size tasks).
Proof.
  intros Hw. rewrite all_completed_spec, <- open_tasks_zero, (table_wf_size _ _ _ Hw).
  rewrite <- (open_tasks_completed seed). lia.
Qed.
End table_facts.

(** ** Properties of the managers *)

(** The counters of both managers are consistent: pending, assigned and
    completed tasks add up to the number of tasks, and [AllCompleted] holds
    exactly when the completed tasks are as many as the tasks, whatever the
    orders in which the status map is ranged over. *)
Theorem task_counts_consistent {L : Lo} {HL : LoLaws L} seed1 seed2 seed3
    (m : MapTaskManager.t) (n : Z) (r : ReduceTaskManager.t) :
  MapTaskManager.wf m → ReduceTaskManager.wf n r →
  (MapTaskManager.GetPendingCount seed1 m + MapTaskManager.GetAssignedCount seed2 m +
     MapTaskManager.GetCompletedCount seed3 m = MapTaskManager.GetTaskCount m ∧
   (MapTaskManager.AllCompleted seed1 m = true ↔
     MapTaskManager.GetCompletedCount seed2 m = MapTaskManager.GetTaskCount m)) ∧
  (ReduceTaskManager.GetPendingCount seed1 r + ReduceTaskManager.GetAssignedCount seed2 r +
     ReduceTaskManager.GetCompletedCount seed3 r = ReduceTaskManager.GetTaskCount r ∧
   (ReduceTaskManager.AllCompleted seed1 r = true ↔
     ReduceTaskManager.GetCompletedCount seed2 r = ReduceTaskManager.GetTaskCount r)).
Proof.
  intros [Hm _] [Hr _].
  unfold MapTaskManager.AllCompleted, ReduceTaskManager.AllCompleted.
  rewrite (all_completed_spec seed1), <- (all_completed_spec seed2).
  rewrite (all_completed_spec seed1 (ReduceTaskManager.statusMap r)).
  rewrite <- (all_completed_spec seed2 (ReduceTaskManager.statusMap r)).
  unfold MapTaskManager.GetPendingCount, MapTaskManager.GetAssignedCount,
    MapTaskManager.GetCompletedCount, MapTaskManager.GetTaskCount,
    ReduceTaskManager.GetPendingCount, ReduceTaskManager.GetAssignedCount,
    ReduceTaskManager.GetCompletedCount, ReduceTaskManager.GetTaskCount.
  rewrite (all_completed_count _ _ _ _ Hm), (all_completed_count _ _ _ _ Hr).
  rewrite (table_wf_size _ _ _ Hm), (table_wf_size _ _ _ Hr).
  rewrite !(count_status_seed seed1 0), !(count_status_seed seed2 0), !(count_status_seed seed3 0).
  by rewrite !count_partition.
Qed.

Lemma task_counts_consistent_witness :
  let m := MapTaskManager.mk {["x" := mkMapTask "x" 1]} {["x" := TaskAssigned]} {["x" := 7]} 1 in
  let r := ReduceTaskManager.mk {[0 := mkReduceTask 0 []]} {[0 := TaskCompleted]} ∅ in
  MapTaskManager.GetPendingCount 0 m + MapTaskManager.GetAssignedCount 1 m +
     MapTaskManager.GetCompletedCount 0 m = MapTaskManager.GetTaskCount m ∧
  (ReduceTaskManager.AllCompleted 0 r = true ↔
     ReduceTaskManager.GetCompletedCount 1 r = ReduceTaskManager.GetTaskCount r).
Proof.
  intros m r.
  assert (Hm : MapTaskManager.wf m).
  { split; [split|]; simpl.
    - intros k. rewrite !lookup_singleton_is_Some. done.
    - intros k [<- _]%lookup_singleton_Some. rewrite lookup_singleton_eq. by eexists.
    - by apply map_Forall_singleton. }
  assert (Hr : ReduceTaskManager.wf 1 r).
  { split; [split|split]; simpl.
    - intros k. rewrite !lookup_singleton_is_Some. done.
    - by intros k [_ ?]%lookup_singleton_Some.
    - by apply map_Forall_singleton.
    - intros k. rewrite lookup_singleton_is_Some. lia. }
  destruct (task_counts_consistent 0 1 0 m 1 r Hm Hr) as [[Hc _] [_ Hd]]. by split.
Defined.
