(* ===== verification/Coordinator.v ===== *)
(** * The MapReduce coordinator: [mr/coordinator.go]

    Every RPC handler runs under [c.mu] and is one atomic function. Workers
    and the network are the environment of the transition system
    [coord_step]: handlers are executed in any order and number, with any
    clock reading, except that completion reports name tasks that have been
    handed out (this is what [mr/worker.go] sends). The ghost log records the
    map reports the coordinator accepted. *)

From S2P Require Import Prelude Lo TaskManager.

(** ** State and messages *)

Record Coordinator := mkCoordinator {
  nReduce : Z;
  workerID : Z;
  mapManager : MapTaskManager.t;
  reduceMgr : ReduceTaskManager.t;
  kva : list KeyValue
}.

(** The two pointers of the response, as keys of the managers' stores. *)
Record AssignTaskResponse := mkAssignTaskResponse {
  resp_MapTask : option string;
  resp_ReduceTask : option Z
}.

Record ReportMapTaskRequest := mkReportMapTaskRequest {
  rm_WorkerID : Z;
  rm_MapTask : MapTask;
  rm_ReduceTaskMap : gmap Z string
}.

Record ReportReduceTaskRequest := mkReportReduceTaskRequest {
  rr_WorkerID : Z;
  rr_ReduceTask : ReduceTask;
  rr_Filename : string
}.

Definition set_mapManager (c : Coordinator) (m : MapTaskManager.t) : Coordinator :=
  mkCoordinator (nReduce c) (workerID c) m (reduceMgr c) (kva c).
Definition set_reduceMgr (c : Coordinator) (r : ReduceTaskManager.t) : Coordinator :=
  mkCoordinator (nReduce c) (workerID c) (mapManager c) r (kva c).

(** ** Handlers *)

Section handlers.
Context {L : Lo}.

Definition MakeCoordinator (files : list string) (nReduce : Z) : Coordinator :=
  mkCoordinator nReduce 0 (MapTaskManager.New files nReduce) (ReduceTaskManager.New nReduce) [].

(** [Register]: the new state and [resp.WorkerID]. *)
Definition Register (c : Coordinator) : Coordinator * Z :=
  let id := wrapS 64 (workerID c + 1) in
  (mkCoordinator (nReduce c) id (mapManager c) (reduceMgr c) (kva c), id).

(** [c.mapManager.AssignTask(task.Id)] through the pointer [task]. *)
Definition assign_map (now : Z) (task : string) (m : MapTaskManager.t) : MapTaskManager.t :=
  match MapTaskManager.tasks m !! task with
  | Some obj => (MapTaskManager.AssignTask now (MapTask_Id obj) m).1
  | None => m
  end.

Definition assign_reduce (now : Z) (task : Z) (r : ReduceTaskManager.t) : ReduceTaskManager.t :=
  match ReduceTaskManager.tasks r !! task with
  | Some obj => (ReduceTaskManager.AssignTask now (ReduceTask_Id obj) r).1
  | None => r
  end.

Definition AssignTask (seed : nat) (now : Z) (c : Coordinator) : Coordinator * AssignTaskResponse :=
  let resp := mkAssignTaskResponse None None in
  match MapTaskManager.GetPendingTask seed now (mapManager c) with
  | Some task =>
      (set_mapManager c (assign_map now task (mapManager c)),
       mkAssignTaskResponse (Some task) (resp_ReduceTask resp))
  | None =>
      if negb (MapTaskManager.AllCompleted seed (mapManager c)) then (c, resp)
      else
        match ReduceTaskManager.GetPendingTask seed now (reduceMgr c) with
        | Some task =>
            (set_reduceMgr c (assign_reduce now task (reduceMgr c)),
             mkAssignTaskResponse (resp_MapTask resp) (Some task))
        | None =>
            if ReduceTaskManager.AllCompleted seed (reduceMgr c)
            then (c, mkAssignTaskResponse (resp_MapTask resp) None)
            else (c, resp)
        end
  end.

(** [for id, filename := range req.ReduceTaskMap]; [AddFiles_perm] below shows
    that the order of the range does not matter. *)
Definition AddFiles (entries : list (Z * string)) (r : ReduceTaskManager.t) : ReduceTaskManager.t :=
  fold_left (λ r e, (ReduceTaskManager.AddFile e.1 e.2 r).1) entries r.

Definition ReportMapTask (req : ReportMapTaskRequest) (c : Coordinator) : Coordinator :=
  let id := MapTask_Id (rm_MapTask req) in
  if MapTaskManager.IsTaskCompleted id (mapManager c) then c
  else
    let c1 := set_mapManager c (MapTaskManager.CompleteTask id (mapManager c)).1 in
    set_reduceMgr c1 (AddFiles (map_to_list (rm_ReduceTaskMap req)) (reduceMgr c1)).

Definition ReportReduceTask (req : ReportReduceTaskRequest) (c : Coordinator) : Coordinator :=
  let id := ReduceTask_Id (rr_ReduceTask req) in
  if ReduceTaskManager.IsTaskCompleted id (reduceMgr c) then c
  else set_reduceMgr c (ReduceTaskManager.CompleteTask id (reduceMgr c)).1.

Definition Done (seed : nat) (c : Coordinator) : bool :=
  if negb (MapTaskManager.AllCompleted seed (mapManager c)) then false
  else if negb (ReduceTaskManager.AllCompleted seed (reduceMgr c)) then false
  else true.

(** [IsDone]: the value of [resp.Done]. *)
Definition IsDone (seed : nat) (c : Coordinator) : bool := Done seed c.

(** The reply is encoded after the handler has returned and unlocked [c.mu]:
    what the worker receives is what the pointers reach at that time. *)
Definition encode_MapTask (c : Coordinator) (resp : AssignTaskResponse) : option MapTask :=
  resp_MapTask resp ≫= λ p, MapTaskManager.tasks (mapManager c) !! p.
Definition encode_ReduceTask (c : Coordinator) (resp : AssignTaskResponse) : option ReduceTask :=
  resp_ReduceTask resp ≫= λ p, ReduceTaskManager.tasks (reduceMgr c) !! p.

(** ** The transition system *)

Inductive coord_label :=
| LRegister
| LAssign (seed : nat) (now : Z)
| LReportMap (req : ReportMapTaskRequest)
| LReportReduce (req : ReportReduceTaskRequest)
| LIsDone (seed : nat).

(** The coordinator and, as a ghost, the map reports accepted so far. *)
Record sys := mkSys { coord : Coordinator; log : list (string * gmap Z string) }.

Definition map_status (c : Coordinator) : gmap string TaskStatus := MapTaskManager.statusMap (mapManager c).
Definition red_status (c : Coordinator) : gmap Z TaskStatus := ReduceTaskManager.statusMap (reduceMgr c).

(** A task that has been handed out at some time. *)
Definition handed_out {K} `{Countable K} (sm : gmap K TaskStatus) (k : K) : Prop :=
  sm !! k = Some TaskAssigned ∨ sm !! k = Some TaskCompleted.

Inductive coord_step : sys → coord_label → sys → Prop :=
| step_register c lg :
    coord_step (mkSys c lg) LRegister (mkSys (Register c).1 lg)
| step_assign c lg seed now :
    coord_step (mkSys c lg) (LAssign seed now) (mkSys (AssignTask seed now c).1 lg)
| step_report_map c lg req :
    handed_out (map_status c) (MapTask_Id (rm_MapTask req)) →
    coord_step (mkSys c lg) (LReportMap req)
      (mkSys (ReportMapTask req c)
         (if MapTaskManager.IsTaskCompleted (MapTask_Id (rm_MapTask req)) (mapManager c)
          then lg else lg ++ [(MapTask_Id (rm_MapTask req), rm_ReduceTaskMap req)]))
| step_report_reduce c lg req :
    handed_out (red_status c) (ReduceTask_Id (rr_ReduceTask req)) →
    coord_step (mkSys c lg) (LReportReduce req) (mkSys (ReportReduceTask req c) lg)
| step_is_done c lg seed :
    coord_step (mkSys c lg) (LIsDone seed) (mkSys c lg).

Definition coord_init (files : list string) (n : Z) (s : sys) : Prop :=
  s = mkSys (MakeCoordinator files n) [].

(** The intermediate files a reduce task must read, according to the log. *)
Definition files_for (r : Z) (lg : list (string * gmap Z string)) : list string :=
  omap (λ e, e.2 !! r) lg.

Record coord_inv (s : sys) : Prop := {
  ci_map : MapTaskManager.wf (mapManager (coord s));
  ci_red : ReduceTaskManager.wf (nReduce (coord s)) (reduceMgr (coord s));
  ci_log : ∀ id, id ∈ (log s).*1 ↔ map_status (coord s) !! id = Some TaskCompleted;
  ci_nodup : NoDup (log s).*1;
  ci_files : ∀ r task, ReduceTaskManager.tasks (reduceMgr (coord s)) !! r = Some task →
    Filenames task = files_for r (log s);
  ci_phase : ∀ r, handed_out (red_status (coord s)) r →
    map_Forall (λ _ st, st = TaskCompleted) (map_status (coord s))
}.

(** The transition system as a function, to run it. *)
#[export] Instance handed_out_dec {K} `{Countable K} (sm : gmap K TaskStatus) k :
  Decision (handed_out sm k).
Proof. unfold handed_out. apply _. Defined.

Definition coord_next (s : sys) (l : coord_label) : option sys :=
  let c := coord s in
  match l with
  | LRegister => Some (mkSys (Register c).1 (log s))
  | LAssign seed now => Some (mkSys (AssignTask seed now c).1 (log s))
  | LReportMap req =>
      if decide (handed_out (map_status c) (MapTask_Id (rm_MapTask req))) then
        Some (mkSys (ReportMapTask req c)
          (if MapTaskManager.IsTaskCompleted (MapTask_Id (rm_MapTask req)) (mapManager c)
           then log s else log s ++ [(MapTask_Id (rm_MapTask req), rm_ReduceTaskMap req)]))
      else None
  | LReportReduce req =>
      if decide (handed_out (red_status c) (ReduceTask_Id (rr_ReduceTask req))) then
        Some (mkSys (ReportReduceTask req c) (log s))
      else None
  | LIsDone _ => Some s
  end.

(** How many tasks the coordinator still waits for. *)
Definition remaining (c : Coordinator) : nat :=
  open_tasks (map_status c) + open_tasks (red_status c).

(** Every assignment made so far has timed out at [now]. *)
Definition all_expired (now : Z) (c : Coordinator) : Prop :=
  map_Forall (λ k st, st = TaskAssigned →
    timed_out now (map_status c) (MapTaskManager.assignedTime (mapManager c)) k) (map_status c) ∧
  map_Forall (λ k st, st = TaskAssigned →
    timed_out now (red_status c) (ReduceTaskManager.assignedTime (reduceMgr c)) k) (red_status c).

#[export] Instance all_expired_dec now c : Decision (all_expired now c).
Proof. unfold all_expired. apply _. Defined.
End handlers.

(** ** Lemmas on [AddFiles] *)

Section addfiles.

Lemma AddFiles_cons e entries r :
  AddFiles (e :: entries) r = AddFiles entries (ReduceTaskManager.AddFile e.1 e.2 r).1.
Proof. done. Qed.

Lemma AddFile_tasks k f r k' :
  ReduceTaskManager.tasks (ReduceTaskManager.AddFile k f r).1 !! k' =
  (λ t, mkReduceTask (ReduceTask_Id t) (Filenames t ++ (if decide (k = k') then [f] else [])))
    <$> ReduceTaskManager.tasks r !! k'.
Proof.
  unfold ReduceTaskManager.AddFile.
  destruct (ReduceTaskManager.tasks r !! k) as [t|] eqn:E; simpl.
  - destruct (decide (k = k')) as [<-|].
    + by rewrite lookup_insert_eq, E.
    + rewrite lookup_insert_ne by done.
      destruct (_ !! k') as [[]|]; simpl; by rewrite ?app_nil_r.
  - destruct (decide (k = k')) as [<-|]; [by rewrite E|].
    destruct (_ !! k') as [[]|]; simpl; by rewrite ?app_nil_r.
Qed.

Lemma AddFile_rest k f r :
  ReduceTaskManager.statusMap (ReduceTaskManager.AddFile k f r).1 = ReduceTaskManager.statusMap r ∧
  ReduceTaskManager.assignedTime (ReduceTaskManager.AddFile k f r).1 = ReduceTaskManager.assignedTime r.
Proof. unfold ReduceTaskManager.AddFile. by destruct (_ !! k). Qed.

Lemma AddFiles_rest entries r :
  ReduceTaskManager.statusMap (AddFiles entries r) = ReduceTaskManager.statusMap r ∧
  ReduceTaskManager.assignedTime (AddFiles entries r) = ReduceTaskManager.assignedTime r.
Proof.
  revert r. induction entries as [|e entries IH]; intros r; [done|].
  rewrite AddFiles_cons. destruct (IH (ReduceTaskManager.AddFile e.1 e.2 r).1) as [-> ->].
  apply AddFile_rest.
Qed.

(** The filenames an order of the map's entries has for key [k]. *)
Definition names_for (k : Z) (entries : list (Z * string)) : list string :=
  omap (λ e, if decide (e.1 = k) then Some e.2 else None) entries.

Lemma AddFiles_tasks entries r k :
  ReduceTaskManager.tasks (AddFiles entries r) !! k =
  (λ t, mkReduceTask (ReduceTask_Id t) (Filenames t ++ names_for k entries))
    <$> ReduceTaskManager.tasks r !! k.
Proof.
  revert r. induction entries as [|e entries IH]; intros r.
  - simpl. destruct (_ !! k) as [[]|]; simpl; by rewrite ?app_nil_r.
  - rewrite AddFiles_cons, IH, AddFile_tasks. unfold names_for. simpl.
    destruct (_ !! k) as [t|]; simpl; [|done]. f_equal. f_equal. rewrite <- app_assoc.
    by case_decide.
Qed.

(** A map has at most one name per key, so its order does not matter. *)
Lemma names_for_map k (m : gmap Z string) entries :
  entries ≡ₚ map_to_list m → names_for k entries = option_list (m !! k).
Proof.
  intros Hp. assert (Hm : names_for k entries ≡ₚ option_list (m !! k)).
  { unfold names_for. rewrite Hp. clear Hp entries.
    induction m as [|i x m Hi IH] using map_ind.
    - by rewrite map_to_list_empty, lookup_empty.
    - rewrite map_to_list_insert by done. simpl. case_decide as Hd; simpl.
      + subst i. rewrite lookup_insert_eq, IH, Hi. done.
      + by rewrite lookup_insert_ne, IH by done. }
  destruct (m !! k); simpl in *; [by apply Permutation_singleton_r | by apply Permutation_nil_r].
Qed.

Lemma AddFiles_perm (m : gmap Z string) entries r :
  entries ≡ₚ map_to_list m → AddFiles entries r = AddFiles (map_to_list m) r.
Proof.
  intros Hp.
  destruct (AddFiles entries r) as [t1 s1 a1] eqn:E1.
  destruct (AddFiles (map_to_list m) r) as [t2 s2 a2] eqn:E2.
  pose proof (AddFiles_rest entries r) as [Hs1 Ha1].
  pose proof (AddFiles_rest (map_to_list m) r) as [Hs2 Ha2].
  rewrite E1 in Hs1, Ha1. rewrite E2 in Hs2, Ha2. simpl in *. subst.
  f_equal. apply map_eq. intros k.
  pose proof (AddFiles_tasks entries r k) as H1. pose proof (AddFiles_tasks (map_to_list m) r k) as H2.
  rewrite E1 in H1. rewrite E2 in H2. simpl in *.
  by rewrite H1, H2, !(names_for_map k m) by done.
Qed.

Lemma AddFiles_wf n entries r :
  ReduceTaskManager.wf n r → ReduceTaskManager.wf n (AddFiles entries r).
Proof.
  intros ([Hd Ht] & Hid & Hn). destruct (AddFiles_rest entries r) as [Hs Ha].
  split; [split|split].
  - intros k. rewrite AddFiles_tasks, fmap_is_Some, Hs. apply Hd.
  - intros k. rewrite Hs, Ha. apply Ht.
  - intros k t Hk. rewrite AddFiles_tasks in Hk.
    apply fmap_Some in Hk as (t0 & Hk & ->). simpl. by eapply Hid.
  - intros k. rewrite AddFiles_tasks, fmap_is_Some. apply Hn.
Qed.
End addfiles.

(** ** The managers keep their tables in order *)

Section managers.
Context {L : Lo} {HL : LoLaws L}.

Lemma map_AssignTask_wf now k m :
  MapTaskManager.wf m → MapTaskManager.wf (MapTaskManager.AssignTask now k m).1.
Proof.
  intros [Hw Ht]. pose proof (assign_task_wf now _ k _ _ Hw) as Hw'.
  unfold MapTaskManager.AssignTask. destruct (assign_task _ _ _ _) as [[sm tm] ok]. by split.
Qed.

Lemma map_CompleteTask_wf k m :
  MapTaskManager.wf m → MapTaskManager.wf (MapTaskManager.CompleteTask k m).1.
Proof.
  intros [Hw Ht]. pose proof (complete_task_wf _ k _ _ Hw) as Hw'.
  unfold MapTaskManager.CompleteTask. destruct (complete_task _ _) as [sm ok]. by split.
Qed.

Lemma red_AssignTask_wf n now k r :
  ReduceTaskManager.wf n r → ReduceTaskManager.wf n (ReduceTaskManager.AssignTask now k r).1.
Proof.
  intros (Hw & Ht). pose proof (assign_task_wf now _ k _ _ Hw) as Hw'.
  unfold ReduceTaskManager.AssignTask. destruct (assign_task _ _ _ _) as [[sm tm] ok]. by split.
Qed.

Lemma red_CompleteTask_wf n k r :
  ReduceTaskManager.wf n r → ReduceTaskManager.wf n (ReduceTaskManager.CompleteTask k r).1.
Proof.
  intros (Hw & Ht). pose proof (complete_task_wf _ k _ _ Hw) as Hw'.
  unfold ReduceTaskManager.CompleteTask. destruct (complete_task _ _) as [sm ok]. by split.
Qed.

Lemma map_CompleteTask_status k m :
  MapTaskManager.statusMap (MapTaskManager.CompleteTask k m).1 =
  (complete_task k (MapTaskManager.statusMap m)).1.
Proof. unfold MapTaskManager.CompleteTask. by destruct (complete_task _ _) as [??]. Qed.

Lemma red_CompleteTask_status k r :
  ReduceTaskManager.statusMap (ReduceTaskManager.CompleteTask k r).1 =
  (complete_task k (ReduceTaskManager.statusMap r)).1.
Proof. unfold ReduceTaskManager.CompleteTask. by destruct (complete_task _ _) as [??]. Qed.

Lemma red_CompleteTask_tasks k r :
  ReduceTaskManager.tasks (ReduceTaskManager.CompleteTask k r).1 = ReduceTaskManager.tasks r.
Proof. unfold ReduceTaskManager.CompleteTask. by destruct (complete_task _ _) as [??]. Qed.

(** Going through the pointer is the same as going through its key. *)
Lemma assign_map_key now k m :
  MapTaskManager.wf m → is_Some (MapTaskManager.tasks m !! k) →
  assign_map now k m = (MapTaskManager.AssignTask now k m).1.
Proof.
  intros [_ Ht] [obj Hk]. unfold assign_map. rewrite Hk. by rewrite (Ht _ _ Hk).
Qed.

Lemma assign_reduce_key n now k r :
  ReduceTaskManager.wf n r → is_Some (ReduceTaskManager.tasks r !! k) →
  assign_reduce now k r = (ReduceTaskManager.AssignTask now k r).1.
Proof.
  intros (_ & Ht & _) [obj Hk]. unfold assign_reduce. rewrite Hk. by rewrite (Ht _ _ Hk).
Qed.

(** The constructors. *)
Lemma map_New_inv files n m :
  MapTaskManager.wf m → MapTaskManager.nReduce m = n →
  map_Forall (λ _ s, s = TaskPending) (MapTaskManager.statusMap m) →
  let m' := fold_left
    (λ m file, MapTaskManager.mk (<[file := mkMapTask file n]> (MapTaskManager.tasks m))
       (<[file := TaskPending]> (MapTaskManager.statusMap m)) (MapTaskManager.assignedTime m) n)
    files m in
  MapTaskManager.wf m' ∧ map_Forall (λ _ s, s = TaskPending) (MapTaskManager.statusMap m').
Proof.
  revert m. induction files as [|file files IH]; intros m Hwf Hn Hp; [done|]. simpl.
  apply IH; [|done|by apply map_Forall_insert_2].
  destruct Hwf as [[Hd Ht] Hid]. split; [split|]; simpl.
  - intros k. destruct (decide (file = k)) as [<-|].
    + rewrite !lookup_insert_eq. split; eauto.
    + by rewrite !lookup_insert_ne.
  - intros k. destruct (decide (file = k)) as [<-|].
    + by rewrite lookup_insert_eq.
    + rewrite lookup_insert_ne by done. intros Hk. by apply Hp in Hk.
  - apply map_Forall_insert_2; [done|]. subst n. exact Hid.
Qed.

Lemma map_New_wf files n :
  MapTaskManager.wf (MapTaskManager.New files n) ∧
  map_Forall (λ _ s, s = TaskPending) (MapTaskManager.statusMap (MapTaskManager.New files n)).
Proof.
  apply map_New_inv; [|done|apply map_Forall_empty].
  split; [split|apply map_Forall_empty]; intros k; simpl; rewrite !lookup_empty; [|done].
  by split; intros [].
Qed.

Lemma red_New_lookup n k :
  ReduceTaskManager.tasks (ReduceTaskManager.New n) !! k =
    (if decide (0 <= k < n) then Some (mkReduceTask k []) else None) ∧
  ReduceTaskManager.statusMap (ReduceTaskManager.New n) !! k =
    (if decide (0 <= k < n) then Some TaskPending else None) ∧
  ReduceTaskManager.assignedTime (ReduceTaskManager.New n) = ∅.
Proof.
  unfold ReduceTaskManager.New.
  assert (Hgen : ∀ l r,
    let r' := fold_left (λ m i, ReduceTaskManager.mk
       (<[i := mkReduceTask i []]> (ReduceTaskManager.tasks m))
       (<[i := TaskPending]> (ReduceTaskManager.statusMap m)) (ReduceTaskManager.assignedTime m)) l r in
    ReduceTaskManager.tasks r' !! k =
      (if decide (k ∈ l) then Some (mkReduceTask k []) else ReduceTaskManager.tasks r !! k) ∧
    ReduceTaskManager.statusMap r' !! k =
      (if decide (k ∈ l) then Some TaskPending else ReduceTaskManager.statusMap r !! k) ∧
    ReduceTaskManager.assignedTime r' = ReduceTaskManager.assignedTime r).
  { induction l as [|i l IH]; intros r; [done|]. simpl.
    destruct (IH (ReduceTaskManager.mk (<[i := mkReduceTask i []]> (ReduceTaskManager.tasks r))
       (<[i := TaskPending]> (ReduceTaskManager.statusMap r)) (ReduceTaskManager.assignedTime r)))
      as (-> & -> & ->). simpl.
    destruct (decide (i = k)) as [<-|];
      [rewrite !lookup_insert_eq | rewrite !lookup_insert_ne by done];
      repeat case_decide; set_solver. }
  destruct (Hgen (seqZ 0 n) (ReduceTaskManager.mk ∅ ∅ ∅)) as (-> & -> & ->). simpl.
  rewrite lookup_empty. repeat case_decide; rewrite ?elem_of_seqZ in *; naive_solver lia.
Qed.

Lemma red_New_wf n : ReduceTaskManager.wf n (ReduceTaskManager.New n).
Proof.
  split; [split|split]; intros k; destruct (red_New_lookup n k) as (Ht & Hs & Ha).
  - rewrite Ht, Hs. case_decide; split; intros []; eauto; done.
  - rewrite Hs. by case_decide.
  - rewrite Ht. case_decide; naive_solver.
  - rewrite Ht. case_decide as Hd; by split; intros Hk.
Qed.
End managers.

(** ** The invariant *)

Section invariant.
Context {L : Lo} {HL : LoLaws L}.

Lemma handed_out_insert {K} `{Countable K} (sm : gmap K TaskStatus) k st k' :
  handed_out (<[k:=st]> sm) k' → k' = k ∨ handed_out sm k'.
Proof.
  unfold handed_out. destruct (decide (k = k')) as [->|]; [by left|].
  rewrite lookup_insert_ne by done. by right.
Qed.

Lemma coord_inv_init files n s : coord_init files n s → coord_inv s.
Proof.
  intros ->. destruct (map_New_wf files n) as [Hm Hp].
  split; simpl; unfold map_status, red_status, handed_out; simpl.
  - done.
  - apply red_New_wf.
  - intros id. split; [by intros ?%elem_of_nil|]. intros Hid. by apply Hp in Hid.
  - apply NoDup_nil_2.
  - intros r task Hr. destruct (red_New_lookup n r) as (Ht & _). rewrite Ht in Hr.
    by case_decide; simplify_eq/=.
  - intros r Hr. destruct (red_New_lookup n r) as (_ & Hs & _). rewrite Hs in Hr.
    case_decide; naive_solver.
Qed.

(** What a hand-out does to the tables. *)
Lemma assign_map_spec c seed now k :
  MapTaskManager.wf (mapManager c) →
  MapTaskManager.GetPendingTask seed now (mapManager c) = Some k →
  let m' := assign_map now k (mapManager c) in
  MapTaskManager.wf m' ∧
  MapTaskManager.statusMap m' = <[k:=TaskAssigned]> (map_status c) ∧
  MapTaskManager.assignedTime m' = <[k:=now]> (MapTaskManager.assignedTime (mapManager c)) ∧
  ∃ st, map_status c !! k = Some st ∧ st ≠ TaskCompleted.
Proof.
  intros Hwf Hp. pose proof (pick_task_Some _ _ _ _ _ _ Hp) as [Hk _].
  destruct (pick_task_open _ _ _ _ _ _ (proj1 Hwf) Hp) as (st & Hst & Hne).
  rewrite assign_map_key by done. split; [by apply map_AssignTask_wf|].
  unfold MapTaskManager.AssignTask. rewrite (assign_task_open _ _ _ _ _ Hst Hne). eauto.
Qed.

Lemma assign_reduce_spec n c seed now k :
  ReduceTaskManager.wf n (reduceMgr c) →
  ReduceTaskManager.GetPendingTask seed now (reduceMgr c) = Some k →
  let r' := assign_reduce now k (reduceMgr c) in
  ReduceTaskManager.wf n r' ∧
  ReduceTaskManager.statusMap r' = <[k:=TaskAssigned]> (red_status c) ∧
  ReduceTaskManager.assignedTime r' = <[k:=now]> (ReduceTaskManager.assignedTime (reduceMgr c)) ∧
  ReduceTaskManager.tasks r' = ReduceTaskManager.tasks (reduceMgr c) ∧
  ∃ st, red_status c !! k = Some st ∧ st ≠ TaskCompleted.
Proof.
  intros Hwf Hp. pose proof (pick_task_Some _ _ _ _ _ _ Hp) as [Hk _].
  destruct (pick_task_open _ _ _ _ _ _ (proj1 Hwf) Hp) as (st & Hst & Hne).
  rewrite (assign_reduce_key n) by done. split; [by apply red_AssignTask_wf|].
  unfold ReduceTaskManager.AssignTask. rewrite (assign_task_open _ _ _ _ _ Hst Hne). eauto 10.
Qed.

(** [AssignTask] by cases: a map task, a reduce task (all map tasks being
    completed), or no change. *)
Lemma AssignTask_cases seed now c :
  (∃ k, MapTaskManager.GetPendingTask seed now (mapManager c) = Some k ∧
     AssignTask seed now c =
       (set_mapManager c (assign_map now k (mapManager c)), mkAssignTaskResponse (Some k) None)) ∨
  (∃ k, MapTaskManager.GetPendingTask seed now (mapManager c) = None ∧
     map_Forall (λ _ st, st = TaskCompleted) (map_status c) ∧
     ReduceTaskManager.GetPendingTask seed now (reduceMgr c) = Some k ∧
     AssignTask seed now c =
       (set_reduceMgr c (assign_reduce now k (reduceMgr c)), mkAssignTaskResponse None (Some k))) ∨
  (MapTaskManager.GetPendingTask seed now (mapManager c) = None ∧
   (map_Forall (λ _ st, st = TaskCompleted) (map_status c) →
     ReduceTaskManager.GetPendingTask seed now (reduceMgr c) = None) ∧
   AssignTask seed now c = (c, mkAssignTaskResponse None None)).
Proof.
  unfold AssignTask. destruct (MapTaskManager.GetPendingTask _ _ _) as [k|]; [left; eauto|].
  right. unfold MapTaskManager.AllCompleted.
  destruct (all_completed seed (MapTaskManager.statusMap (mapManager c))) eqn:Hall; simpl.
  - apply all_completed_spec in Hall.
    destruct (ReduceTaskManager.GetPendingTask _ _ _) as [k|]; [left; eauto 10|].
    right. split; [done|]. split; [done|]. by destruct (ReduceTaskManager.AllCompleted _ _).
  - right. split; [done|]. split; [|done]. intros Hc. apply (all_completed_spec seed) in Hc.
    unfold map_status in Hc. congruence.
Qed.

Lemma coord_inv_assign c lg seed now :
  coord_inv (mkSys c lg) → coord_inv (mkSys (AssignTask seed now c).1 lg).
Proof.
  intros [Hm Hr Hl Hn Hf Hp]; simpl in *.
  destruct (AssignTask_cases seed now c) as [(k & Hk & ->)|[(k & _ & Hall & Hk & ->)|(_ & _ & ->)]];
    simpl; [| |by split].
  - destruct (assign_map_spec c seed now k Hm Hk) as (Hm' & Hs & _ & st & Hst & Hne).
    split; simpl; unfold map_status; simpl; rewrite ?Hs; auto.
    + intros id. rewrite Hl. destruct (decide (k = id)) as [<-|];
        [rewrite lookup_insert_eq; naive_solver | by rewrite lookup_insert_ne].
    + intros r Ho. apply Hp in Ho. by apply Ho in Hst.
  - destruct (assign_reduce_spec _ c seed now k Hr Hk) as (Hr' & Hs & _ & Ht & _).
    split; simpl; unfold red_status; simpl; rewrite ?Hs, ?Ht; auto.
Qed.

Lemma map_not_completed c id :
  handed_out (map_status c) id → MapTaskManager.IsTaskCompleted id (mapManager c) = false →
  map_status c !! id = Some TaskAssigned.
Proof.
  unfold MapTaskManager.IsTaskCompleted. intros [?|Hc] Hn%bool_decide_eq_false; [done|].
  by apply status_Some in Hc.
Qed.

Lemma red_not_completed c id :
  handed_out (red_status c) id → ReduceTaskManager.IsTaskCompleted id (reduceMgr c) = false →
  red_status c !! id = Some TaskAssigned.
Proof.
  unfold ReduceTaskManager.IsTaskCompleted. intros [?|Hc] Hn%bool_decide_eq_false; [done|].
  by apply status_Some in Hc.
Qed.

Lemma files_for_app r lg lg' : files_for r (lg ++ lg') = files_for r lg ++ files_for r lg'.
Proof. apply omap_app. Qed.

Lemma ReportMapTask_fields req c id :
  id = MapTask_Id (rm_MapTask req) → map_status c !! id = Some TaskAssigned →
  MapTaskManager.IsTaskCompleted id (mapManager c) = false →
  let c' := ReportMapTask req c in
  map_status c' = <[id:=TaskCompleted]> (map_status c) ∧
  red_status c' = red_status c ∧
  mapManager c' = (MapTaskManager.CompleteTask id (mapManager c)).1 ∧
  reduceMgr c' = AddFiles (map_to_list (rm_ReduceTaskMap req)) (reduceMgr c) ∧
  Coordinator.nReduce c' = Coordinator.nReduce c.
Proof.
  intros -> Ha Hc. unfold ReportMapTask. rewrite Hc. simpl.
  unfold map_status, red_status; simpl. rewrite map_CompleteTask_status.
  destruct (AddFiles_rest (map_to_list (rm_ReduceTaskMap req)) (reduceMgr c)) as [-> _].
  unfold complete_task. unfold map_status in Ha. by rewrite Ha.
Qed.

Lemma coord_inv_report_map c lg req :
  coord_inv (mkSys c lg) →
  handed_out (map_status c) (MapTask_Id (rm_MapTask req)) →
  coord_inv (mkSys (ReportMapTask req c)
    (if MapTaskManager.IsTaskCompleted (MapTask_Id (rm_MapTask req)) (mapManager c)
     then lg else lg ++ [(MapTask_Id (rm_MapTask req), rm_ReduceTaskMap req)])).
Proof.
  intros Hinv Ho. set (id := MapTask_Id (rm_MapTask req)) in *.
  destruct (MapTaskManager.IsTaskCompleted id (mapManager c)) eqn:Hc.
  { unfold ReportMapTask. fold id. by rewrite Hc. }
  pose proof (map_not_completed _ _ Ho Hc) as Ha.
  destruct Hinv as [Hm Hr Hl Hn Hf Hp]; simpl in *.
  destruct (ReportMapTask_fields req c id eq_refl Ha Hc) as (Hs & Hsr & Hm' & Hr' & HN).
  split; simpl.
  - rewrite Hm'. by apply map_CompleteTask_wf.
  - rewrite HN, Hr'. by apply AddFiles_wf.
  - intros k. rewrite fmap_app, elem_of_app, Hl, Hs. simpl.
    rewrite list_elem_of_singleton. destruct (decide (id = k)) as [<-|].
    + rewrite lookup_insert_eq. naive_solver.
    + rewrite lookup_insert_ne by done. naive_solver.
  - rewrite fmap_app. apply NoDup_app. split; [done|]. split; [|apply NoDup_singleton].
    intros k Hk%Hl. simpl. rewrite list_elem_of_singleton. intros ->. congruence.
  - intros r task. rewrite Hr', AddFiles_tasks, fmap_Some. intros (t & Ht & ->). simpl.
    rewrite files_for_app, (Hf _ _ Ht), (names_for_map r (rm_ReduceTaskMap req)) by done.
    done.
  - intros r. rewrite Hsr. intros Hh. apply Hp in Hh. by apply Hh in Ha.
Qed.

Lemma ReportReduceTask_fields req c id :
  id = ReduceTask_Id (rr_ReduceTask req) → red_status c !! id = Some TaskAssigned →
  ReduceTaskManager.IsTaskCompleted id (reduceMgr c) = false →
  let c' := ReportReduceTask req c in
  red_status c' = <[id:=TaskCompleted]> (red_status c) ∧
  ReduceTaskManager.tasks (reduceMgr c') = ReduceTaskManager.tasks (reduceMgr c) ∧
  reduceMgr c' = (ReduceTaskManager.CompleteTask id (reduceMgr c)).1 ∧
  mapManager c' = mapManager c.
Proof.
  intros -> Ha Hc. unfold ReportReduceTask. rewrite Hc. simpl.
  unfold red_status; simpl. rewrite red_CompleteTask_status, red_CompleteTask_tasks.
  unfold complete_task. unfold red_status in Ha. by rewrite Ha.
Qed.

Lemma coord_inv_report_reduce c lg req :
  coord_inv (mkSys c lg) →
  handed_out (red_status c) (ReduceTask_Id (rr_ReduceTask req)) →
  coord_inv (mkSys (ReportReduceTask req c) lg).
Proof.
  intros Hinv Ho. set (id := ReduceTask_Id (rr_ReduceTask req)) in *.
  destruct (ReduceTaskManager.IsTaskCompleted id (reduceMgr c)) eqn:Hc.
  { unfold ReportReduceTask. fold id. by rewrite Hc. }
  pose proof (red_not_completed _ _ Ho Hc) as Ha.
  destruct Hinv as [Hm Hr Hl Hn Hf Hp]; simpl in *.
  destruct (ReportReduceTask_fields req c id eq_refl Ha Hc) as (Hs & Ht & Hr' & Hm').
  assert (HN : Coordinator.nReduce (ReportReduceTask req c) = Coordinator.nReduce c).
  { unfold ReportReduceTask. by destruct (ReduceTaskManager.IsTaskCompleted _ _). }
  split; simpl; unfold map_status; rewrite ?Hm', ?HN, ?Ht; auto.
  - rewrite Hr'. by apply red_CompleteTask_wf.
  - intros r. rewrite Hs. intros [->|Hh]%handed_out_insert; eauto.
Qed.

#[export] Instance coord_invariant files n :
  Invariant (coord_init files n) coord_step coord_inv.
Proof.
  split; [apply coord_inv_init|]. intros s l s' Hinv Hst. destruct Hst.
  - by destruct Hinv; split.
  - by apply coord_inv_assign.
  - by apply coord_inv_report_map.
  - by apply coord_inv_report_reduce.
  - done.
Qed.

Lemma coord_inv_exec s ls s' : coord_inv s → exec coord_step s ls s' → coord_inv s'.
Proof.
  intros Hs. eapply exec_preserves; [|done]. intros s0 l0 s1.
  apply (inv_step (init := coord_init [] 0)).
Qed.
End invariant.

(** ** Consequences *)

Section theorems.
Context {L : Lo} {HL : LoLaws L}.

Lemma coord_run_exec s ls s' : run coord_next s ls = Some s' → exec coord_step s ls s'.
Proof.
  apply run_exec. clear. intros [c lg] l s'. destruct l; simpl; intros Hn; simplify_eq/=;
    try (case_decide; simplify_eq/=); by constructor.
Qed.

Definition all_maps_completed (c : Coordinator) : Prop :=
  map_Forall (λ _ st, st = TaskCompleted) (map_status c).

(** A task only moves forward: pending, assigned, completed. *)
Definition status_le (a b : TaskStatus) : Prop :=
  match a, b with
  | TaskPending, _ | TaskAssigned, TaskAssigned | _, TaskCompleted => True
  | _, _ => False
  end.

Definition statuses_le {K} `{Countable K} (sm sm' : gmap K TaskStatus) : Prop :=
  ∀ k, match sm !! k, sm' !! k with
       | Some a, Some b => status_le a b
       | None, None => True
       | _, _ => False
       end.

Lemma statuses_le_refl {K} `{Countable K} (sm : gmap K TaskStatus) : statuses_le sm sm.
Proof. intros k. by destruct (sm !! k) as [[]|]. Qed.

#[local] Instance statuses_le_trans {K} `{Countable K} : Transitive (@statuses_le K _ _).
Proof.
  intros a b c Hab Hbc k. specialize (Hab k). specialize (Hbc k).
  by destruct (a !! k) as [[]|], (b !! k) as [[]|], (c !! k) as [[]|].
Qed.

Lemma statuses_le_insert {K} `{Countable K} (sm : gmap K TaskStatus) k a b :
  sm !! k = Some a → status_le a b → statuses_le sm (<[k:=b]> sm).
Proof.
  intros Hk Hab k'. destruct (decide (k = k')) as [<-|].
  - by rewrite lookup_insert_eq, Hk.
  - rewrite lookup_insert_ne by done. apply statuses_le_refl.
Qed.

Lemma statuses_le_all {K} `{Countable K} (sm sm' : gmap K TaskStatus) :
  statuses_le sm sm' → map_Forall (λ _ st, st = TaskCompleted) sm →
  map_Forall (λ _ st, st = TaskCompleted) sm'.
Proof.
  intros Hle Hall k st Hk. specialize (Hle k). rewrite Hk in Hle.
  destruct (sm !! k) as [a|] eqn:Ha; [|done]. apply Hall in Ha as ->. by destruct st.
Qed.

Lemma coord_step_forward s l s' :
  coord_inv s → coord_step s l s' →
  statuses_le (map_status (coord s)) (map_status (coord s')) ∧
  statuses_le (red_status (coord s)) (red_status (coord s')) ∧
  Coordinator.nReduce (coord s') = Coordinator.nReduce (coord s) ∧
  (all_maps_completed (coord s) → log s' = log s).
Proof.
  intros [Hm Hr _ _ _ _] Hst. destruct Hst as [c lg|c lg seed now|c lg req Ho|c lg req Ho|]; simpl in *;
    try (by auto using statuses_le_refl).
  - destruct (AssignTask_cases seed now c) as [(k & Hk & ->)|[(k & _ & _ & Hk & ->)|(_ & _ & ->)]];
      simpl; auto using statuses_le_refl; unfold map_status, red_status; simpl.
    + destruct (assign_map_spec c seed now k Hm Hk) as (_ & -> & _ & st & Hst & Hne).
      split; [|auto using statuses_le_refl]. eapply statuses_le_insert; [done|]. by destruct st.
    + destruct (assign_reduce_spec _ c seed now k Hr Hk) as (_ & -> & _ & _ & st & Hst & Hne).
      split; [auto using statuses_le_refl|]. split; [|done].
      eapply statuses_le_insert; [done|]. by destruct st.
  - destruct (MapTaskManager.IsTaskCompleted _ _) eqn:Hc.
    { unfold ReportMapTask. rewrite Hc. auto using statuses_le_refl. }
    pose proof (map_not_completed _ _ Ho Hc) as Ha.
    destruct (ReportMapTask_fields req c _ eq_refl Ha Hc) as (-> & -> & _ & _ & ->).
    split; [by eapply statuses_le_insert|]. split; [apply statuses_le_refl|]. split; [done|].
    intros Hall. by apply Hall in Ha.
  - destruct (ReduceTaskManager.IsTaskCompleted (ReduceTask_Id (rr_ReduceTask req)) (reduceMgr c)) eqn:Hc.
    { unfold ReportReduceTask. rewrite Hc. auto using statuses_le_refl. }
    pose proof (red_not_completed _ _ Ho Hc) as Ha.
    destruct (ReportReduceTask_fields req c _ eq_refl Ha Hc) as (-> & _ & _ & Hm').
    unfold map_status. rewrite Hm'. split; [apply statuses_le_refl|].
    split; [by eapply statuses_le_insert|].
    split; [|done]. unfold ReportReduceTask. by rewrite Hc.
Qed.

Lemma coord_forward s ls s' :
  coord_inv s → exec coord_step s ls s' →
  statuses_le (map_status (coord s)) (map_status (coord s')) ∧
  statuses_le (red_status (coord s)) (red_status (coord s')) ∧
  Coordinator.nReduce (coord s') = Coordinator.nReduce (coord s) ∧
  (all_maps_completed (coord s) → log s' = log s).
Proof.
  intros Hinv He. induction He as [s|s l s1 ls s2 Hst He IH].
  - auto using statuses_le_refl.
  - destruct (coord_step_forward _ _ _ Hinv Hst) as (H1 & H2 & H3 & H4).
    assert (Hinv1 : coord_inv s1) by (eapply coord_inv_exec; [done | by apply exec_one]).
    destruct (IH Hinv1) as (H1' & H2' & H3' & H4').
    split; [by etrans|]. split; [by etrans|]. split; [congruence|].
    intros Hall. rewrite H4', H4; [done..|]. by eapply statuses_le_all.
Qed.

Lemma Done_spec seed c :
  Done seed c = true ↔
  all_maps_completed c ∧ map_Forall (λ _ st, st = TaskCompleted) (red_status c).
Proof.
  unfold Done, MapTaskManager.AllCompleted, ReduceTaskManager.AllCompleted.
  pose proof (all_completed_spec seed (map_status c)) as Hm.
  pose proof (all_completed_spec seed (red_status c)) as Hr.
  unfold all_maps_completed, map_status, red_status in *.
  destruct (all_completed seed (MapTaskManager.statusMap _)), (all_completed seed (ReduceTaskManager.statusMap _));
    simpl; naive_solver.
Qed.

Lemma remaining_zero seed c : Done seed c = true ↔ remaining c = 0%nat.
Proof.
  rewrite Done_spec. unfold remaining, all_maps_completed. rewrite <- !open_tasks_zero. lia.
Qed.

Lemma red_lookup files n ls s r :
  exec coord_step (mkSys (MakeCoordinator files n) []) ls s → 0 <= r < n →
  ReduceTaskManager.tasks (reduceMgr (coord s)) !! r =
    Some (mkReduceTask r (files_for r (log s))).
Proof.
  intros He Hr. pose proof (coord_inv_init files n _ eq_refl) as Hi.
  destruct (coord_forward _ _ _ Hi He) as (_ & _ & Hn & _). simpl in Hn.
  pose proof (coord_inv_exec _ _ _ Hi He) as [_ Hw _ _ Hf _].
  rewrite Hn in Hw. destruct Hw as (_ & Hid & Hdom).
  apply Hdom in Hr as [[id fs] Ht].
  pose proof (Hf _ _ Ht) as E. simpl in E. rewrite Ht, <- E.
  apply Hid in Ht as E'. by simpl in E'; subst.
Qed.

(** *** What never changes *)

Lemma map_New_dom files n k :
  (is_Some (MapTaskManager.statusMap (MapTaskManager.New files n) !! k) ↔ k ∈ files) ∧
  MapTaskManager.nReduce (MapTaskManager.New files n) = n.
Proof.
  unfold MapTaskManager.New.
  assert (Hgen : ∀ m, MapTaskManager.nReduce m = n →
    let m' := fold_left (λ m file, MapTaskManager.mk (<[file := mkMapTask file n]> (MapTaskManager.tasks m))
       (<[file := TaskPending]> (MapTaskManager.statusMap m)) (MapTaskManager.assignedTime m) n) files m in
    (is_Some (MapTaskManager.statusMap m' !! k) ↔ k ∈ files ∨ is_Some (MapTaskManager.statusMap m !! k)) ∧
    MapTaskManager.nReduce m' = n).
  { induction files as [|file files IH]; intros m Hm; simpl.
    - rewrite elem_of_nil. tauto.
    - destruct (IH (MapTaskManager.mk (<[file := mkMapTask file n]> (MapTaskManager.tasks m))
        (<[file := TaskPending]> (MapTaskManager.statusMap m)) (MapTaskManager.assignedTime m) n) eq_refl)
        as [-> ->].
      simpl. rewrite elem_of_cons, lookup_insert_is_Some'. naive_solver. }
  destruct (Hgen (MapTaskManager.mk ∅ ∅ ∅ n) eq_refl) as [-> ->]. simpl.
  rewrite lookup_empty. split; [|done]. split; [intros [?|[]]; done | by left].
Qed.

Lemma statuses_le_dom {K} `{Countable K} (sm sm' : gmap K TaskStatus) k :
  statuses_le sm sm' → is_Some (sm !! k) ↔ is_Some (sm' !! k).
Proof.
  intros Hle. specialize (Hle k). destruct (sm !! k), (sm' !! k); split; intros []; eauto; done.
Qed.

Lemma handed_out_mono {K} `{Countable K} (sm sm' : gmap K TaskStatus) k :
  statuses_le sm sm' → handed_out sm k → handed_out sm' k.
Proof.
  intros Hle. specialize (Hle k). unfold handed_out.
  intros [Hk|Hk]; rewrite Hk in Hle; destruct (sm' !! k) as [[]|]; naive_solver.
Qed.

Lemma coord_step_nReduce s l s' :
  coord_step s l s' →
  MapTaskManager.nReduce (mapManager (coord s')) = MapTaskManager.nReduce (mapManager (coord s)).
Proof.
  destruct 1 as [| c lg seed now | c lg req _ | c lg req _ |]; simpl; try done.
  - unfold AssignTask, assign_map, MapTaskManager.AssignTask. by repeat (case_match; simpl).
  - unfold ReportMapTask, MapTaskManager.CompleteTask. by repeat (case_match; simpl).
  - unfold ReportReduceTask. by case_match.
Qed.

Lemma coord_exec_tasks files n ls s :
  exec coord_step (mkSys (MakeCoordinator files n) []) ls s →
  ∀ k, (is_Some (map_status (coord s) !! k) ↔ k ∈ files) ∧
    ∀ task, MapTaskManager.tasks (mapManager (coord s)) !! k = Some task → task = mkMapTask k n.
Proof.
  intros He k. pose proof (coord_inv_init files n _ eq_refl) as Hi.
  destruct (coord_forward _ _ _ Hi He) as (Hle & _). split.
  - rewrite <- (statuses_le_dom _ _ k Hle). apply (map_New_dom files n).
  - intros task Hk. destruct (ci_map _ (coord_inv_exec _ _ _ Hi He)) as [_ Ht].
    rewrite (Ht _ _ Hk). f_equal.
    assert (Hn : ∀ s0, MapTaskManager.nReduce (mapManager (coord s0)) = n →
      exec coord_step s0 ls s → MapTaskManager.nReduce (mapManager (coord s)) = n).
    { clear. intros s0 Hn He. induction He as [|s0 l s1 ls s2 Hst He IH]; [done|].
      apply IH. by rewrite (coord_step_nReduce _ _ _ Hst). }
    apply (Hn (mkSys (MakeCoordinator files n) []) (proj2 (map_New_dom files n ""%string)) He).
Qed.

(** *** Progress *)

Lemma map_Z_bounded {K} `{Countable K} (m : gmap K Z) : ∃ b, ∀ k t, m !! k = Some t → t <= b.
Proof.
  induction m as [|k t m Hk [b IH]] using map_ind; [by exists 0|].
  exists (Z.max b t). intros k' t'. destruct (decide (k = k')) as [<-|].
  - rewrite lookup_insert_eq. intros [= ->]. lia.
  - rewrite lookup_insert_ne by done. intros Ht%IH. lia.
Qed.

Lemma timed_out_late {K} `{Countable K} (sm : gmap K TaskStatus) tm b now k :
  (∀ k t, tm !! k = Some t → t <= b) → b + TaskTimeout < now →
  is_Some (tm !! k) → sm !! k = Some TaskAssigned → timed_out now sm tm k.
Proof.
  intros Hb Hnow [t Ht] Hk. split; [by apply status_Some|].
  unfold lookup_zero. rewrite Ht. simpl. apply Hb in Ht.
  unfold time_Since, TaskTimeout, second in *. lia.
Qed.

Lemma all_expired_exists s : coord_inv s → ∃ now, all_expired now (coord s).
Proof.
  intros [[[_ Htm] _] [[_ Htr] _] _ _ _ _].
  destruct (map_Z_bounded (MapTaskManager.assignedTime (mapManager (coord s)))) as [b1 Hb1].
  destruct (map_Z_bounded (ReduceTaskManager.assignedTime (reduceMgr (coord s)))) as [b2 Hb2].
  exists (Z.max b1 b2 + TaskTimeout + 1).
  split; intros k st Hk ->; (eapply timed_out_late; [eassumption | lia | auto | done]).
Qed.

(** When every assignment has expired, an open task is handed out. *)
Lemma AssignTask_progress s seed now :
  coord_inv s → all_expired now (coord s) → remaining (coord s) ≠ 0%nat →
  (AssignTask seed now (coord s)).2 ≠ mkAssignTaskResponse None None.
Proof.
  intros Hinv [Hem Her] Hne.
  destruct (AssignTask_cases seed now (coord s)) as [(k & _ & ->)|[(k & _ & _ & _ & ->)|(Hn & Hr & ->)]];
    [done..|]. intros _. apply Hne, (remaining_zero seed), Done_spec.
  assert (Hall : all_maps_completed (coord s)).
  { intros k st Hk.
    destruct (pick_task_wf_None _ _ _ _ _ k (proj1 (ci_map _ Hinv)) Hn) as [H1 H2].
    destruct st; [done | by destruct H2; eapply Hem | done]. }
  split; [done|]. intros k st Hk.
  destruct (pick_task_wf_None _ _ _ _ _ k (proj1 (ci_red _ Hinv)) (Hr Hall)) as [H1 H2].
  destruct st; [done | by destruct H2; eapply Her | done].
Qed.

(** The report of the task that [resp] names. *)
Definition report_of (resp : AssignTaskResponse) (out : gmap Z string) : option coord_label :=
  match resp with
  | mkAssignTaskResponse (Some k) _ => Some (LReportMap (mkReportMapTaskRequest 0 (mkMapTask k 0) out))
  | mkAssignTaskResponse None (Some r) =>
      Some (LReportReduce (mkReportReduceTaskRequest 0 (mkReduceTask r []) EmptyString))
  | _ => None
  end.

Lemma open_tasks_assign {K} `{Countable K} (sm : gmap K TaskStatus) k st :
  sm !! k = Some st → st ≠ TaskCompleted →
  open_tasks (<[k:=TaskAssigned]> sm) = open_tasks sm.
Proof.
  intros Hk Hne. rewrite (open_tasks_complete k st sm) by done.
  rewrite (open_tasks_complete k TaskAssigned (<[k:=TaskAssigned]> sm)) by (by rewrite ?lookup_insert_eq).
  by rewrite insert_insert_eq.
Qed.

Lemma assign_report_remaining s seed now out l :
  coord_inv s → report_of (AssignTask seed now (coord s)).2 out = Some l →
  ∃ s', exec coord_step s [LAssign seed now; l] s' ∧
    remaining (coord s) = Datatypes.S (remaining (coord s')).
Proof.
  destruct s as [c lg]. intros [Hm Hr _ _ _ _] Hl; simpl in *.
  assert (Hst : coord_step (mkSys c lg) (LAssign seed now) (mkSys (AssignTask seed now c).1 lg))
    by constructor.
  destruct (AssignTask_cases seed now c) as [(k & Hk & E)|[(k & _ & _ & Hk & E)|(_ & _ & E)]];
    rewrite E in Hl, Hst; simplify_eq/=.
  - destruct (assign_map_spec c seed now k Hm Hk) as (_ & Hs & _ & st & Hst' & Hne).
    set (c1 := set_mapManager c (assign_map now k (mapManager c))) in *.
    set (req := mkReportMapTaskRequest 0 (mkMapTask k 0) out).
    assert (Ha : map_status c1 !! k = Some TaskAssigned).
    { unfold c1, map_status. simpl. by rewrite Hs, lookup_insert_eq. }
    assert (Hc : MapTaskManager.IsTaskCompleted k (mapManager c1) = false).
    { apply bool_decide_eq_false. intros Hb. apply status_Some in Ha. unfold map_status in Ha. congruence. }
    eexists. split; [eapply exec_cons; [done|]; apply exec_one, step_report_map; by left|].
    simpl. destruct (ReportMapTask_fields req c1 k eq_refl Ha Hc) as (H1 & H2 & _).
    unfold remaining. rewrite H1, H2. change (red_status c1) with (red_status c).
    unfold c1, map_status at 2. simpl. rewrite Hs, insert_insert_eq.
    rewrite (open_tasks_complete k st) by done. lia.
  - destruct (assign_reduce_spec _ c seed now k Hr Hk) as (_ & Hs & _ & _ & st & Hst' & Hne).
    set (c1 := set_reduceMgr c (assign_reduce now k (reduceMgr c))) in *.
    set (req := mkReportReduceTaskRequest 0 (mkReduceTask k []) EmptyString).
    assert (Ha : red_status c1 !! k = Some TaskAssigned).
    { unfold c1, red_status. simpl. by rewrite Hs, lookup_insert_eq. }
    assert (Hc : ReduceTaskManager.IsTaskCompleted k (reduceMgr c1) = false).
    { apply bool_decide_eq_false. intros Hb. apply status_Some in Ha. unfold red_status in Ha. congruence. }
    eexists. split; [eapply exec_cons; [done|]; apply exec_one, step_report_reduce; by left|].
    simpl. destruct (ReportReduceTask_fields req c1 k eq_refl Ha Hc) as (H1 & _ & _ & H2).
    unfold remaining. unfold map_status at 2. rewrite H1, H2.
    change (MapTaskManager.statusMap (mapManager c1)) with (map_status c).
    unfold c1, red_status at 2. simpl. rewrite Hs, insert_insert_eq.
    rewrite (open_tasks_complete k st (red_status c)) by done. lia.
Qed.
End theorems.

(** ** Properties *)

Section properties.
Context {L : Lo} {HL : LoLaws L}.

(** C8 In every reachable state the map reports have been recorded exactly
    once: the accepted reports name the completed map tasks, each of them once
    (a duplicate report of a completed task changes nothing), and the file
    list of every reduce task is the list of the names those reports hold for
    it, in the order in which they were accepted. *)
Theorem map_reports_recorded_once files n ls s :
  exec coord_step (mkSys (MakeCoordinator files n) []) ls s →
  NoDup (log s).*1 ∧
  (∀ id, id ∈ (log s).*1 ↔
     MapTaskManager.statusMap (mapManager (coord s)) !! id = Some TaskCompleted) ∧
  ∀ r, 0 <= r < n →
    ReduceTaskManager.tasks (reduceMgr (coord s)) !! r = Some (mkReduceTask r (files_for r (log s))).
Proof.
  intros He. pose proof (coord_inv_exec _ _ _ (coord_inv_init files n _ eq_refl) He) as Hinv.
  split; [apply Hinv|]. split; [apply Hinv|]. intros r Hr. by eapply red_lookup.
Qed.

(** C14 The reduce phase starts only after the map phase: when [AssignTask]
    answers a reduce task, every map task is completed, and at whatever later
    moment the reply is encoded (the handler has released the lock by then)
    it carries the same complete file list: one entry per accepted report. *)
Theorem reduce_after_all_maps files n ls s seed now resp r ls' s' :
  exec coord_step (mkSys (MakeCoordinator files n) []) ls s →
  (AssignTask seed now (coord s)).2 = resp → resp_ReduceTask resp = Some r →
  exec coord_step (mkSys (AssignTask seed now (coord s)).1 (log s)) ls' s' →
  map_Forall (λ _ st, st = TaskCompleted) (MapTaskManager.statusMap (mapManager (coord s))) ∧
  log s' = log s ∧
  encode_ReduceTask (coord s') resp = Some (mkReduceTask r (files_for r (log s))).
Proof.
  intros He <- Hr He'.
  assert (Hst : coord_step s (LAssign seed now) (mkSys (AssignTask seed now (coord s)).1 (log s))).
  { destruct s. constructor. }
  pose proof (coord_inv_init files n _ eq_refl) as Hi.
  pose proof (coord_inv_exec _ _ _ Hi He) as Hinv.
  destruct (AssignTask_cases seed now (coord s)) as [(k & _ & E)|[(k & _ & Hall & Hk & E)|(_ & _ & E)]];
    rewrite E in Hr; simplify_eq/=.
  assert (He1 : exec coord_step s (LAssign seed now :: ls') s') by (by eapply exec_cons).
  destruct (coord_forward _ _ _ Hinv He1) as (_ & _ & _ & Hlog).
  specialize (Hlog Hall).
  split; [exact Hall|]. split; [done|]. rewrite <- Hlog.
  unfold encode_ReduceTask. rewrite E. simpl.
  apply (red_lookup files n (ls ++ LAssign seed now :: ls')); [by eapply exec_app|].
  destruct (coord_forward _ _ _ Hi He) as (_ & _ & Hn & _). simpl in Hn.
  destruct (ci_red _ Hinv) as (_ & _ & Hdom). rewrite Hn in Hdom.
  apply Hdom. by eapply pick_task_Some.
Qed.

(** [Done] and [IsDone] answer true exactly when every map task and every
    reduce task is completed, whatever the order in which Go ranges over the
    maps, and then they answer true for ever. *)
Theorem Done_exact_and_final files n ls s seed :
  exec coord_step (mkSys (MakeCoordinator files n) []) ls s →
  (IsDone seed (coord s) = true ↔
     map_Forall (λ _ st, st = TaskCompleted) (MapTaskManager.statusMap (mapManager (coord s))) ∧
     map_Forall (λ _ st, st = TaskCompleted) (ReduceTaskManager.statusMap (reduceMgr (coord s)))) ∧
  (IsDone seed (coord s) = true →
     ∀ ls' s' seed', exec coord_step s ls' s' → IsDone seed' (coord s') = true).
Proof.
  intros He. unfold IsDone. split; [apply Done_spec|]. intros Hd ls' s' seed' He'.
  pose proof (coord_inv_exec _ _ _ (coord_inv_init files n _ eq_refl) He) as Hinv.
  destruct (coord_forward _ _ _ Hinv He') as (H1 & H2 & _).
  rewrite Done_spec in *. destruct Hd as [Hm Hr].
  split; by eapply statuses_le_all.
Qed.

(** C17 What [AssignTask] hands out, on each of its branches: a map task that
    is pending, or, when no map task is pending, one whose assignment has
    timed out; a reduce task under the same rule once all map tasks are
    completed; nothing (and no change) when no task qualifies. A task that was
    handed out is assigned, from now on, and no other task is touched. *)
Theorem AssignTask_spec files n ls s seed now :
  exec coord_step (mkSys (MakeCoordinator files n) []) ls s →
  let c := coord s in let c' := (AssignTask seed now c).1 in
  match (AssignTask seed now c).2 with
  | mkAssignTaskResponse (Some k) rt =>
      rt = None ∧ c' = set_mapManager c (mapManager c') ∧
      (map_status c !! k = Some TaskPending ∨
       timed_out now (map_status c) (MapTaskManager.assignedTime (mapManager c)) k ∧
         ∀ k', map_status c !! k' ≠ Some TaskPending) ∧
      map_status c' = <[k:=TaskAssigned]> (map_status c) ∧
      MapTaskManager.assignedTime (mapManager c') =
        <[k:=now]> (MapTaskManager.assignedTime (mapManager c))
  | mkAssignTaskResponse None (Some k) =>
      all_maps_completed c ∧ c' = set_reduceMgr c (reduceMgr c') ∧
      (red_status c !! k = Some TaskPending ∨
       timed_out now (red_status c) (ReduceTaskManager.assignedTime (reduceMgr c)) k ∧
         ∀ k', red_status c !! k' ≠ Some TaskPending) ∧
      red_status c' = <[k:=TaskAssigned]> (red_status c) ∧
      ReduceTaskManager.assignedTime (reduceMgr c') =
        <[k:=now]> (ReduceTaskManager.assignedTime (reduceMgr c))
  | mkAssignTaskResponse None None =>
      c' = c ∧
      (∀ k, map_status c !! k ≠ Some TaskPending ∧
         ¬ timed_out now (map_status c) (MapTaskManager.assignedTime (mapManager c)) k) ∧
      (all_maps_completed c → ∀ k, red_status c !! k ≠ Some TaskPending ∧
         ¬ timed_out now (red_status c) (ReduceTaskManager.assignedTime (reduceMgr c)) k)
  end.
Proof.
  intros He. pose proof (coord_inv_exec _ _ _ (coord_inv_init files n _ eq_refl) He) as Hinv.
  simpl. destruct (AssignTask_cases seed now (coord s))
    as [(k & Hk & ->)|[(k & Hn & Hall & Hk & ->)|(Hn & Hr & ->)]]; simpl.
  - destruct (assign_map_spec _ seed now k (ci_map _ Hinv) Hk) as (_ & Hs & Ht & _).
    split; [done|]. split; [done|]. split; [|done].
    eapply pick_task_wf_Some; [apply Hinv | exact Hk].
  - destruct (assign_reduce_spec _ _ seed now k (ci_red _ Hinv) Hk) as (_ & Hs & Ht & _).
    split; [done|]. split; [done|]. split; [|done].
    eapply pick_task_wf_Some; [apply Hinv | exact Hk].
  - split; [done|]. split.
    + intros k. eapply pick_task_wf_None; [apply Hinv | exact Hn].
    + intros Hall k. eapply pick_task_wf_None; [apply Hinv | by apply Hr].
Qed.

(** The job always progresses: in a reachable state that is not done, once
    the assignments made so far have timed out, [AssignTask] hands out a task
    whatever the iteration order, and the report of that task leaves exactly
    one task fewer to do. *)
Theorem AssignTask_makes_progress files n ls s seed now out :
  exec coord_step (mkSys (MakeCoordinator files n) []) ls s →
  Done seed (coord s) = false → all_expired now (coord s) →
  ∃ l s', report_of (AssignTask seed now (coord s)).2 out = Some l ∧
    exec coord_step s [LAssign seed now; l] s' ∧
    remaining (coord s) = Datatypes.S (remaining (coord s')).
Proof.
  intros He Hd Hex. pose proof (coord_inv_exec _ _ _ (coord_inv_init files n _ eq_refl) He) as Hinv.
  assert (Hne : remaining (coord s) ≠ 0%nat).
  { intros H0%(remaining_zero seed). congruence. }
  pose proof (AssignTask_progress s seed now Hinv Hex Hne) as Hp.
  destruct (report_of (AssignTask seed now (coord s)).2 out) as [l|] eqn:E.
  - destruct (assign_report_remaining s seed now out l Hinv E) as (s' & ? & ?). eauto.
  - by destruct (AssignTask seed now (coord s)).2 as [[] []].
Qed.

(** C32 The coordinator is never stuck: every reachable state can be brought to
    [Done] by two handler calls per open task. *)
Theorem job_can_finish files n ls s seed :
  exec coord_step (mkSys (MakeCoordinator files n) []) ls s →
  ∃ ls' s', exec coord_step s ls' s' ∧ Done seed (coord s') = true ∧
    length ls' = (2 * remaining (coord s))%nat.
Proof.
  intros He. pose proof (coord_inv_exec _ _ _ (coord_inv_init files n _ eq_refl) He) as Hinv.
  clear He. remember (remaining (coord s)) as m eqn:Hm. revert s Hinv Hm.
  induction m as [|m IH]; intros s Hinv Hm.
  - exists [], s. split; [constructor|]. split; [by apply remaining_zero | done].
  - destruct (all_expired_exists s Hinv) as [now Hex].
    pose proof (AssignTask_progress s seed now Hinv Hex ltac:(lia)) as Hp.
    destruct (report_of (AssignTask seed now (coord s)).2 ∅) as [l|] eqn:E;
      [|by destruct (AssignTask seed now (coord s)).2 as [[] []]].
    destruct (assign_report_remaining s seed now ∅ l Hinv E) as (s1 & He1 & Hr).
    destruct (IH s1) as (ls' & s' & He' & Hd & Hlen);
      [by eapply coord_inv_exec | lia |].
    exists ([LAssign seed now; l] ++ ls'), s'. split; [by eapply exec_app|].
    split; [done|]. simpl. lia.
Qed.
End properties.

(** ** A concrete job: two input files, two reduce tasks *)

Definition demo_init : sys := mkSys (MakeCoordinator ["a"; "b"]%string 2) [].

Definition demo_map (id : string) (out : gmap Z string) : coord_label :=
  LReportMap (mkReportMapTaskRequest 1 (mkMapTask id 2) out).
Definition demo_reduce (r : Z) : coord_label :=
  LReportReduce (mkReportReduceTaskRequest 1 (mkReduceTask r []) "mr-out"%string).

(** Both map tasks, one of them reported twice. *)
Definition demo_maps : list coord_label :=
  [LRegister; LAssign 0 0; LAssign 1 1;
   demo_map "b"%string {[0 := "b0"%string; 1 := "b1"%string]};
   demo_map "b"%string {[0 := "b0bis"%string]};
   demo_map "a"%string {[1 := "a1"%string]}].

Definition demo_reduces : list coord_label :=
  [LAssign 0 2; LAssign 0 3; demo_reduce 1; demo_reduce 0].

Definition demo_state (ls : list coord_label) : sys := default demo_init (run coord_next demo_init ls).

Lemma demo_exec ls : is_Some (run coord_next demo_init ls) → exec coord_step demo_init ls (demo_state ls).
Proof. intros [s Hs]. apply coord_run_exec. unfold demo_state. by rewrite Hs. Qed.

Ltac demo_run := unfold demo_init; apply demo_exec; vm_compute; by eexists.

Lemma map_reports_recorded_once_witness :
  ReduceTaskManager.tasks (reduceMgr (coord (demo_state demo_maps))) !! 1 =
    Some (mkReduceTask 1 (files_for 1 (log (demo_state demo_maps)))) ∧
  files_for 1 (log (demo_state demo_maps)) = ["b1"; "a1"]%string.
Proof.
  split; [|by vm_compute].
  apply (map_reports_recorded_once ["a"; "b"]%string 2 demo_maps (demo_state demo_maps)); [demo_run | lia].
Defined.

Lemma reduce_after_all_maps_witness :
  log (demo_state (demo_maps ++ [LAssign 0 2; LAssign 0 3])) = log (demo_state demo_maps) ∧
  encode_ReduceTask (coord (demo_state (demo_maps ++ [LAssign 0 2; LAssign 0 3])))
    (mkAssignTaskResponse None (Some 1)) =
  Some (mkReduceTask 1 (files_for 1 (log (demo_state demo_maps)))).
Proof.
  refine (proj2 (reduce_after_all_maps ["a"; "b"]%string 2 demo_maps (demo_state demo_maps) 0 2
    (mkAssignTaskResponse None (Some 1)) 1 [LAssign 0 3]
    (demo_state (demo_maps ++ [LAssign 0 2; LAssign 0 3])) _ _ _ _)); [demo_run | by vm_compute | done | ].
  apply coord_run_exec. by vm_compute.
Defined.

Lemma Done_exact_and_final_witness :
  IsDone 1 (coord (demo_state (demo_maps ++ demo_reduces ++ [LAssign 0 50]))) = true.
Proof.
  refine (proj2 (Done_exact_and_final ["a"; "b"]%string 2 (demo_maps ++ demo_reduces)
    (demo_state (demo_maps ++ demo_reduces)) 0 _) _ [LAssign 0 50] _ 1%nat _);
    [demo_run | by vm_compute | apply coord_run_exec; by vm_compute].
Defined.

Lemma AssignTask_spec_witness :
  map_status (AssignTask 0 (11 * second) (coord (demo_state [LAssign 0 0; LAssign 1 1]))).1 !! "a"%string =
    Some TaskAssigned ∧
  map_status (coord (demo_state [LAssign 0 0; LAssign 1 1])) !! "b"%string ≠ Some TaskPending.
Proof.
  pose proof (AssignTask_spec ["a"; "b"]%string 2 [LAssign 0 0; LAssign 1 1]
    (demo_state [LAssign 0 0; LAssign 1 1]) 0 (11 * second)) as Hs.
  split; [by vm_compute|].
  destruct Hs as (_ & _ & [Hk|[_ Hk]] & _); [demo_run | | apply Hk].
  vm_compute in Hk. discriminate.
Defined.

Lemma AssignTask_makes_progress_witness :
  ∃ l s', report_of (AssignTask 0 (12 * second) (coord (demo_state [LAssign 0 0; LAssign 1 1]))).2 ∅ = Some l ∧
    exec coord_step (demo_state [LAssign 0 0; LAssign 1 1]) [LAssign 0 (12 * second); l] s' ∧
    remaining (coord (demo_state [LAssign 0 0; LAssign 1 1])) = Datatypes.S (remaining (coord s')).
Proof.
  apply (AssignTask_makes_progress ["a"; "b"]%string 2 [LAssign 0 0; LAssign 1 1]); [demo_run | by vm_compute | ].
  apply (bool_decide_unpack _). by vm_compute.
Defined.

Lemma job_can_finish_witness :
  ∃ ls' s', exec coord_step (demo_state demo_maps) ls' s' ∧ Done 0 (coord s') = true ∧
    length ls' = 4%nat.
Proof.
  destruct (job_can_finish ["a"; "b"]%string 2 demo_maps (demo_state demo_maps) 0)
    as (ls' & s' & He & Hd & Hlen); [demo_run|].
  exists ls', s'. split; [exact He|]. split; [exact Hd|]. rewrite Hlen. by vm_compute.
Defined.
