(* ===== verification/Fnv.v ===== *)
(** * FNV-1a, 32 bits: [hash/fnv], as [mr/worker.go] ([ihash]) and
      [shardcfg.go] ([Key2Shard]) use it

    [fnv.New32a], [Write] of the bytes of a string and [Sum32]. *)

From S2P Require Import Prelude.

(** The bytes of a Go string. *)
Fixpoint string_bytes (s : string) : list Z :=
  match s with
  | EmptyString => []
  | String c s => Z.of_N (Ascii.N_of_ascii c) :: string_bytes s
  end.

Definition fnv_offset32 : Z := 2166136261.
Definition fnv_prime32 : Z := 16777619.

(** One byte of [Write]: xor, then multiply in 32 bits. *)
Definition fnv_byte (h b : Z) : Z := wrapU 32 (Z.lxor h b * fnv_prime32).

Definition fnv32a (s : string) : Z := fold_left fnv_byte (string_bytes s) fnv_offset32.

Lemma fnv_fold_range bs h : 0 <= h < 2 ^ 32 → 0 <= fold_left fnv_byte bs h < 2 ^ 32.
Proof.
  revert h. induction bs as [|b bs IH]; intros h Hh; [done|]. apply IH.
  by apply wrapU_range.
Qed.

Lemma fnv32a_range s : 0 <= fnv32a s < 2 ^ 32.
Proof. apply fnv_fold_range. by unfold fnv_offset32. Qed.

(** Published test vectors of the algorithm. *)
Example fnv32a_empty : fnv32a ""%string = 0x811c9dc5.
Proof. reflexivity. Qed.
Example fnv32a_foobar : fnv32a "foobar"%string = 0xbf9cf968.
Proof. reflexivity. Qed.
