(* ===== verification/Utf8.v ===== *)
(** * UTF-8: [unicode/utf8.DecodeRune] and the range over a string

    A Go string is a sequence of bytes, here a [string]. Ranging over it
    decodes one rune at a time; a byte that starts no valid sequence counts as
    one [RuneError]. *)

From S2P Require Import Prelude.

Definition byte_of (c : Ascii.ascii) : Z := Z.of_N (Ascii.N_of_ascii c).
Definition of_byte (b : Z) : Ascii.ascii := Ascii.ascii_of_N (Z.to_N b).

Definition RuneError : Z := 0xFFFD.
Definition RuneSelf : Z := 0x80.

(** The size of the sequence a first byte announces, and the range of its
    second byte; [None] for a byte that starts no sequence. *)
Definition first_byte (b : Z) : option (nat * Z * Z) :=
  if decide (0xC2 <= b <= 0xDF) then Some (2%nat, 0x80, 0xBF)
  else if decide (b = 0xE0) then Some (3%nat, 0xA0, 0xBF)
  else if decide (b = 0xED) then Some (3%nat, 0x80, 0x9F)
  else if decide (0xE1 <= b <= 0xEF) then Some (3%nat, 0x80, 0xBF)
  else if decide (b = 0xF0) then Some (4%nat, 0x90, 0xBF)
  else if decide (0xF1 <= b <= 0xF3) then Some (4%nat, 0x80, 0xBF)
  else if decide (b = 0xF4) then Some (4%nat, 0x80, 0x8F)
  else None.

Definition cont (b : Z) : Prop := 0x80 <= b <= 0xBF.

(** [DecodeRune]: the rune and the number of bytes it takes. *)
Definition DecodeRune (s : string) : Z * nat :=
  match s with
  | EmptyString => (RuneError, 0%nat)
  | String c0 s1 =>
      let b0 := byte_of c0 in
      if decide (b0 < RuneSelf) then (b0, 1%nat)
      else
        match first_byte b0, s1 with
        | Some (n, lo, hi), String c1 s2 =>
            let b1 := byte_of c1 in
            if decide (¬ (lo <= b1 <= hi)) then (RuneError, 1%nat)
            else if decide (n = 2%nat) then ((b0 - 0xC0) * 64 + (b1 - 0x80), 2%nat)
            else
              match s2 with
              | String c2 s3 =>
                  let b2 := byte_of c2 in
                  if decide (¬ (0x80 <= b2 <= 0xBF)) then (RuneError, 1%nat)
                  else if decide (n = 3%nat) then
                    ((b0 - 0xE0) * 4096 + (b1 - 0x80) * 64 + (b2 - 0x80), 3%nat)
                  else
                    match s3 with
                    | String c3 _ =>
                        let b3 := byte_of c3 in
                        if decide (¬ (0x80 <= b3 <= 0xBF)) then (RuneError, 1%nat)
                        else ((b0 - 0xF0) * 262144 + (b1 - 0x80) * 4096 + (b2 - 0x80) * 64 + (b3 - 0x80), 4%nat)
                    | EmptyString => (RuneError, 1%nat)
                    end
              | EmptyString => (RuneError, 1%nat)
              end
        | _, _ => (RuneError, 1%nat)
        end
  end.

Fixpoint string_take (n : nat) (s : string) : string :=
  match n, s with
  | Datatypes.S n, String c s => String c (string_take n s)
  | _, _ => EmptyString
  end.

Fixpoint string_drop (n : nat) (s : string) : string :=
  match n, s with
  | Datatypes.S n, String _ s => string_drop n s
  | _, s => s
  end.

(** The runes of a string with the bytes they come from; the fuel is the
    length of the string, which every rune shortens. *)
Fixpoint runes_fuel (fuel : nat) (s : string) : list (Z * string) :=
  match fuel, s with
  | Datatypes.S fuel, String _ _ =>
      let '(r, n) := DecodeRune s in
      (r, string_take n s) :: runes_fuel fuel (string_drop n s)
  | _, _ => []
  end.

Definition runes (s : string) : list (Z * string) := runes_fuel (String.length s) s.

(** A chunk of bytes that decodes to one rune, whatever follows it. *)
Definition valid_chunk (chunk : string) : Prop :=
  chunk ≠ EmptyString ∧
  (DecodeRune chunk).2 = String.length chunk ∧
  ¬ ((DecodeRune chunk).1 = RuneError ∧ String.length chunk = 1%nat).

(** Valid UTF-8. *)
Definition valid_utf8 (s : string) : Prop := Forall (λ rc, valid_chunk rc.2) (runes s).

(** ** Lemmas *)

Section utf8.

Lemma DecodeRune_size s : s ≠ EmptyString → (1 <= (DecodeRune s).2 <= String.length s)%nat.
Proof.
  intros Hs. unfold DecodeRune. destruct s as [|c0 [|c1 [|c2 [|c3 s]]]]; [done|..];
    repeat (case_match; simplify_eq/=); lia.
Qed.

Lemma app_cons c a b : (String c a +:+ b)%string = String c (a +:+ b)%string.
Proof. done. Qed.

Lemma take_drop s n : (string_take n s +:+ string_drop n s)%string = s.
Proof.
  revert n. induction s as [|c s IH]; intros [|n]; simpl; [done..|].
  by rewrite app_cons, IH.
Qed.

Lemma length_string_drop n s : String.length (string_drop n s) = (String.length s - n)%nat.
Proof. revert n. induction s as [|c s IH]; intros [|n]; simpl; [done..|]. apply IH. Qed.

Lemma length_string_take n s : String.length (string_take n s) = Nat.min n (String.length s).
Proof. revert n. induction s as [|c s IH]; intros [|n]; simpl; [done..|]. by rewrite IH. Qed.

(** Enough fuel decodes the whole string. *)
Lemma runes_fuel_enough fuel s :
  (String.length s <= fuel)%nat → runes_fuel fuel s = runes s.
Proof.
  unfold runes. remember (String.length s) as len eqn:Hlen. revert s Hlen.
  revert fuel. induction len as [len IH] using lt_wf_ind. intros fuel s Hlen Hf.
  destruct s as [|c s]; simpl in Hlen; [subst; by destruct fuel|].
  destruct fuel as [|fuel], len as [|len]; try lia. cbn [runes_fuel].
  pose proof (DecodeRune_size (String c s) ltac:(done)) as Hsz.
  destruct (DecodeRune (String c s)) as [r n]. simpl in Hsz.
  f_equal. pose proof (length_string_drop n (String c s)) as Hd. simpl String.length in Hd.
  set (s' := string_drop n (String c s)) in *.
  rewrite (IH (String.length s') ltac:(lia) fuel s' eq_refl ltac:(lia)).
  symmetry. apply (IH (String.length s')); [lia | done | lia].
Qed.

Lemma runes_cons s r n :
  s ≠ EmptyString → DecodeRune s = (r, n) →
  runes s = (r, string_take n s) :: runes (string_drop n s).
Proof.
  intros Hs Hd. unfold runes at 1. destruct s as [|c s]; [done|].
  cbn [String.length runes_fuel]. rewrite Hd. f_equal. apply runes_fuel_enough.
  rewrite length_string_drop. pose proof (DecodeRune_size (String c s) Hs) as Hsz.
  rewrite Hd in Hsz. simpl in *. lia.
Qed.

(** Cutting a string into runes loses nothing. *)
Lemma runes_concat s : foldr (λ rc acc, (rc.2 +:+ acc)%string) EmptyString (runes s) = s.
Proof.
  remember (String.length s) as len eqn:Hlen. revert s Hlen.
  induction len as [len IH] using lt_wf_ind. intros s Hlen.
  destruct s as [|c s]; [done|].
  pose proof (DecodeRune_size (String c s) ltac:(done)) as Hsz.
  destruct (DecodeRune (String c s)) as [r n] eqn:Hd. simpl in Hsz.
  rewrite (runes_cons _ r n) by done. cbn [foldr snd].
  rewrite (IH (String.length (string_drop n (String c s)))); [apply take_drop | | done].
  rewrite length_string_drop. subst len. simpl in *. lia.
Qed.

(** Decoding does not look past a valid sequence. *)
Lemma DecodeRune_app chunk s : valid_chunk chunk → DecodeRune (chunk +:+ s)%string = DecodeRune chunk.
Proof.
  intros (Hne & Hlen & Hnv). revert Hlen Hnv. unfold DecodeRune.
  destruct chunk as [|c0 [|c1 [|c2 [|c3 [|c4 chunk]]]]]; [done|..]; simpl;
    repeat (case_match; simplify_eq/=); intros; try done; try tauto; lia.
Qed.

Lemma app_empty_r (s : string) : (s +:+ EmptyString)%string = s.
Proof. induction s as [|c s IH]; [done|]. by rewrite app_cons, IH. Qed.

Lemma app_assoc_s (a b c : string) : ((a +:+ b) +:+ c)%string = (a +:+ (b +:+ c))%string.
Proof. induction a as [|x a IH]; [done|]. by rewrite !app_cons, IH. Qed.

Lemma string_take_app n a b : n = String.length a → string_take n (a +:+ b)%string = a.
Proof.
  intros ->. induction a as [|x a IH]; [by destruct b|].
  rewrite app_cons. simpl. by rewrite IH.
Qed.

Lemma string_drop_app n a b : n = String.length a → string_drop n (a +:+ b)%string = b.
Proof. intros ->. induction a as [|x a IH]; [by destruct b|]. exact IH. Qed.

(** A valid chunk is the first rune of every string it starts. *)
Lemma runes_valid_app chunk s :
  valid_chunk chunk →
  runes (chunk +:+ s)%string = ((DecodeRune chunk).1, chunk) :: runes s.
Proof.
  intros Hv. pose proof Hv as (Hne & Hlen & _). destruct (DecodeRune chunk) as [r n] eqn:Hd. simpl in *.
  rewrite (runes_cons _ r n).
  - by rewrite string_take_app, string_drop_app.
  - by destruct chunk.
  - by rewrite DecodeRune_app.
Qed.

Lemma DecodeRune_take s r n :
  DecodeRune s = (r, n) → DecodeRune (string_take n s) = (r, n).
Proof.
  unfold DecodeRune. destruct s as [|c0 [|c1 [|c2 [|c3 s]]]];
    intros; repeat (case_match; simplify_eq/=); try done; try lia.
Qed.

(** Each rune of a string is an invalid byte or a valid chunk. *)
Lemma runes_chunks s :
  Forall (λ rc, (rc.1 = RuneError ∧ ¬ valid_chunk rc.2) ∨
    (valid_chunk rc.2 ∧ rc.1 = (DecodeRune rc.2).1)) (runes s).
Proof.
  remember (String.length s) as len eqn:Hlen. revert s Hlen.
  induction len as [len IH] using lt_wf_ind. intros s Hlen.
  destruct s as [|c s]; [constructor|].
  pose proof (DecodeRune_size (String c s) ltac:(done)) as Hsz.
  destruct (DecodeRune (String c s)) as [r n] eqn:Hd. cbn [snd] in Hsz.
  rewrite (runes_cons _ r n) by done.
  pose proof (DecodeRune_take _ _ _ Hd) as Ht.
  pose proof (length_string_take n (String c s)) as Hl. rewrite Nat.min_l in Hl by lia.
  constructor.
  - cbn [fst snd]. rewrite Ht. unfold valid_chunk. rewrite Ht, Hl. cbn [fst snd].
    destruct (decide (r = RuneError ∧ n = 1%nat)) as [[-> ->]|Hn]; [left|right].
    { split; [done|]. intros (_ & _ & Hn). by apply Hn. }
    split; [|done]. split; [|done].
    intros E. rewrite E in Hl. simpl in Hl. lia.
  - apply (IH (String.length (string_drop n (String c s)))); [|done].
    rewrite length_string_drop. subst len. simpl in *. lia.
Qed.

Lemma byte_range c : 0 <= byte_of c < 256.
Proof. unfold byte_of. pose proof (Ascii.N_ascii_bounded c). lia. Qed.

Lemma ascii_chunk c : byte_of c < RuneSelf → valid_chunk (String c EmptyString).
Proof.
  intros Hc. unfold valid_chunk, DecodeRune. rewrite decide_True by done. simpl.
  split; [done|]. split; [done|]. unfold RuneSelf, RuneError in *. lia.
Qed.

Lemma runes_ascii c s :
  byte_of c < RuneSelf → runes (String c s) = (byte_of c, String c EmptyString) :: runes s.
Proof.
  intros Hc. change (String c s) with (String c EmptyString +:+ s)%string.
  rewrite runes_valid_app by (by apply ascii_chunk). f_equal. f_equal.
  unfold DecodeRune. by rewrite decide_True.
Qed.
End utf8.

(** Words of ASCII, of two- and three-byte runes, and an invalid byte. *)
Example runes_example :
  (runes (String (of_byte 0x61) (String (of_byte 0xC3) (String (of_byte 0xA9) (String (of_byte 0xFF)
    (String (of_byte 0xE2) (String (of_byte 0x80) (String (of_byte 0xA8) EmptyString))))))))%string.*1
  = [0x61; 0xE9; RuneError; 0x2028].
Proof. vm_compute. reflexivity. Qed.
