(* ===== verification/Labgob.v ===== *)
(** * The checks of the gob wrapper: [labgob/labgob.go]

    Before a value is encoded, decoded or registered, its type is searched for
    fields that gob would skip because their names are not capitalized, each
    type once in the life of the program; before decoding, the target is
    searched for fields that already hold something. Types are numbers with a
    description, so that they can be recursive; the encoder itself and the table
    of upper-case letters of [unicode] are parameters. *)

From S2P Require Import Prelude Utf8.

Open Scope string_scope.
Open Scope list_scope.
Open Scope Z_scope.

(** ** Types *)

Abbreviation tid := Z (only parsing).

(** [reflect.Kind] with what the code asks of it. *)
Inductive kind :=
| Struct (fields : list (string * tid))
| Slice (elem : tid)
| Array (elem : tid)
| Ptr (elem : tid)
| Map (key elem : tid)
| Other.

(** [checked] is the map of that name; [out] are the lines printed about types,
    field [i] of type [t], and [warnings] the names printed about values. *)
Record gob := mkGob { checked : gset tid; errorCount : Z; out : list (tid * nat); warnings : list string }.

Definition mark (t : tid) (st : gob) : gob := mkGob ({[t]} ∪ checked st) (errorCount st) (out st) (warnings st).
Definition complain (t : tid) (i : nat) (st : gob) : gob :=
  mkGob (checked st) (errorCount st + 1) (out st ++ [(t, i)]) (warnings st).

(** ** Values *)

(** A value as far as [checkDefault1] looks at it: structs, pointers, booleans,
    numbers and strings, which equal the zero of their type or not, and the
    other kinds. *)
#[warnings="-register-all"]
Inductive value :=
| VStruct (fields : list (string * value))
| VPtr (target : option value)
| VBasic (tname : string) (zero : bool)
| VOther.

Definition warn (what : string) (st : gob) : gob :=
  mkGob (checked st) (errorCount st + 1) (out st)
    (if decide (errorCount st < 1) then warnings st ++ [what] else warnings st).

Fixpoint checkDefault1 (v : value) (depth : Z) (name : string) (st : gob) : gob :=
  if decide (depth > 3) then st
  else match v with
  | VStruct fs =>
      (fix loop (fs : list (string * value)) (st : gob) : gob :=
         match fs with
         | [] => st
         | (f, vv) :: fs =>
             let name1 := if decide (name ≠ "") then name +:+ "." +:+ f else f in
             loop fs (checkDefault1 vv (depth + 1) name1 st)
         end) fs st
  | VPtr None => st
  | VPtr (Some v) => checkDefault1 v (depth + 1) name st
  | VBasic tname zero =>
      if zero then st else warn (if decide (name = "") then tname else name) st
  | VOther => st
  end.

Definition checkDefault (v : option value) (st : gob) : gob :=
  match v with None => st | Some v => checkDefault1 v 1 "" st end.

Section types.
Context (IsUpper : Z → bool) (types : tid → kind).

(** The first rune of a name is upper case. *)
Definition capital (name : string) : bool := IsUpper (DecodeRune name).1.

(** The loop over the fields of a struct, from field [i] on. *)
Fixpoint check_fields (checkType : tid → gob → option gob) (t : tid) (i : nat) (fs : list (string * tid)) (st : gob) : option gob :=
  match fs with
  | [] => Some st
  | (name, ty) :: fs =>
      let st := if capital name then st else complain t i st in
      st ← checkType ty st; check_fields checkType t (S i) fs st
  end.

(** [checkType]; no result when the fuel does not suffice. *)
Fixpoint checkType (fuel : nat) (t : tid) (st : gob) : option gob :=
  match fuel with
  | O => None
  | S fuel =>
      if decide (t ∈ checked st) then Some st
      else
        let st := mark t st in
        match types t with
        | Struct fs => check_fields (checkType fuel) t 0 fs st
        | Slice e | Array e | Ptr e => checkType fuel e st
        | Map k e => st ← checkType fuel e st; checkType fuel k st
        | Other => Some st
        end
  end.

(** [checkValue]: the type of a nil interface is nil, whose [Kind] panics. *)
Definition checkValue (fuel : nat) (v : option tid) (st : gob) : option (outcome gob) :=
  match v with
  | None => Some Panic
  | Some t => st ← checkType fuel t st; Some (Ret st)
  end.

(** ** What is reported *)

Definition fields (t : tid) : list (string * tid) := match types t with Struct fs => fs | _ => [] end.
Definition children (t : tid) : list tid :=
  match types t with
  | Struct fs => fs.*2
  | Slice e | Array e | Ptr e => [e]
  | Map k e => [e; k]
  | Other => []
  end.

(** Field [i] of [t] is not capitalized. *)
Definition lower (t : tid) (i : nat) : Prop :=
  match fields t !! i with Some (name, _) => capital name = false | None => False end.

(** [u] is [t] or occurs in it, through types that are not checked yet. *)
Inductive reach (C : gset tid) : tid → tid → Prop :=
| reach_here t : t ∉ C → reach C t t
| reach_child t c u : t ∉ C → c ∈ children t → reach C c u → reach C t u.

(** The complaints between two states are the pairs of [D], each once. *)
Definition complaints (st st' : gob) (D : tid → nat → Prop) : Prop :=
  ∃ new, out st' = out st ++ new ∧ errorCount st' = errorCount st + Z.of_nat (length new) ∧
    NoDup new ∧ ∀ u i, (u, i) ∈ new ↔ D u i.

Lemma complaints_none st : complaints st st (λ _ _, False).
Proof. exists []. rewrite app_nil_r. split; [done|]. split; [simpl; lia|]. split; [constructor|]. intros u i. by rewrite elem_of_nil. Qed.

Lemma complaints_trans st st1 st2 D1 D2 :
  complaints st st1 D1 → complaints st1 st2 D2 → (∀ u i, D1 u i → ¬ D2 u i) →
  complaints st st2 (λ u i, D1 u i ∨ D2 u i).
Proof.
  intros (n1 & H1 & Hc1 & Hn1 & Hi1) (n2 & H2 & Hc2 & Hn2 & Hi2) Hd. exists (n1 ++ n2).
  rewrite H2, H1, Hc2, Hc1, app_assoc, length_app. split; [done|]. split; [lia|]. split.
  - apply NoDup_app. split; [done|]. split; [|done]. intros [u i] Hu1 Hu2. by apply (Hd u i); [apply Hi1 | apply Hi2].
  - intros u i. by rewrite elem_of_app, Hi1, Hi2.
Qed.

Lemma complaints_ext st st' D D' : (∀ u i, D u i ↔ D' u i) → complaints st st' D → complaints st st' D'.
Proof. intros He (n & ? & ? & ? & Hi). exists n. split; [done|]. split; [done|]. split; [done|]. intros u i. by rewrite Hi. Qed.

(** What a visit of the types [l] does to the set of checked types. *)
Record explores (l : list tid) (st st' : gob) : Prop := {
  ex_more : checked st ⊆ checked st';
  ex_all : ∀ t, t ∈ l → t ∈ checked st';
  ex_reach : ∀ u, u ∈ checked st' → u ∉ checked st → ∃ t, t ∈ l ∧ reach (checked st) t u;
  ex_closed : ∀ u c, u ∈ checked st' → u ∉ checked st → c ∈ children u → c ∈ checked st'
}.

(** The fields to complain about: those of the newly checked types. *)
Definition new_lower (st st' : gob) (u : tid) (i : nat) : Prop :=
  (u ∈ checked st') ∧ (u ∉ checked st) ∧ lower u i.

Definition visits (l : list tid) (st st' : gob) : Prop := explores l st st' ∧ complaints st st' (new_lower st st').

Lemma reach_mono C C' t u : C ⊆ C' → reach C' t u → reach C t u.
Proof.
  intros HC. induction 1 as [t Ht|t c u Ht Hc _ IH]; [apply reach_here; set_solver|].
  eapply reach_child; [set_solver|done|done].
Qed.

Lemma explores_nil st : explores [] st st.
Proof. split; [done|intros t Ht; by apply not_elem_of_nil in Ht|naive_solver..]. Qed.

Lemma visits_nil st : visits [] st st.
Proof. split; [apply explores_nil|]. eapply complaints_ext; [|apply complaints_none]. unfold new_lower. naive_solver. Qed.

Lemma explores_app l l' st st1 st2 : explores l st st1 → explores l' st1 st2 → explores (l ++ l') st st2.
Proof.
  intros [] []. split.
  - set_solver.
  - intros t [?|?]%elem_of_app; auto.
  - intros u Hu Hn. destruct (decide (u ∈ checked st1)) as [H1|H1].
    + destruct (ex_reach0 u H1 Hn) as (t & ? & ?). exists t. split; [apply elem_of_app; by left | done].
    + destruct (ex_reach1 u Hu H1) as (t & ? & ?). exists t. split; [apply elem_of_app; by right|].
      by eapply reach_mono.
  - intros u c Hu Hn Hc. destruct (decide (u ∈ checked st1)); [apply ex_more1; by eapply ex_closed0 | by eapply ex_closed1].
Qed.

Lemma visits_app l l' st st1 st2 : visits l st st1 → visits l' st1 st2 → visits (l ++ l') st st2.
Proof.
  intros [He1 Hc1] [He2 Hc2]. split; [by eapply explores_app|].
  pose proof (ex_more _ _ _ He1) as H1. pose proof (ex_more _ _ _ He2) as H2.
  eapply complaints_ext; [|eapply complaints_trans; [exact Hc1|exact Hc2|unfold new_lower; naive_solver]].
  intros u i. unfold new_lower. destruct (decide (u ∈ checked st1)) as [Hu|Hu]; [|naive_solver].
  apply H2 in Hu as Hu2. naive_solver.
Qed.

(** A type that was not checked, once its children have been explored. *)
Lemma visits_type t st st' :
  t ∉ checked st → explores (children t) (mark t st) st' →
  complaints (mark t st) st' (λ u i, new_lower (mark t st) st' u i ∨ (u = t ∧ lower t i)) → visits [t] st st'.
Proof.
  intros Ht [] Hc. cbn [mark checked] in *. split; [split|].
  - set_solver.
  - intros u ->%list_elem_of_singleton. apply ex_more0. set_solver.
  - intros u Hu Hn. exists t. split; [by left|]. destruct (decide (u = t)) as [->|Hne]; [by apply reach_here|].
    destruct (ex_reach0 u Hu ltac:(set_solver)) as (c & Hcc & Hr). eapply reach_child; [done|exact Hcc|].
    eapply reach_mono; [|exact Hr]. set_solver.
  - intros u c Hu Hn Hcc. destruct (decide (u = t)) as [->|Hne]; [by apply ex_all0 | eapply ex_closed0; [done| |done]; set_solver].
  - assert (Ht' : t ∈ checked st') by (apply ex_more0; set_solver).
    eapply (complaints_ext st st') in Hc; [exact Hc|]. intros u i. unfold new_lower. cbn [mark checked].
    rewrite elem_of_union, elem_of_singleton. destruct (decide (u = t)) as [->|]; naive_solver.
Qed.

Lemma complain_complaints t i st : complaints st (complain t i st) (λ u j, u = t ∧ j = i).
Proof.
  exists [(t, i)]. split; [done|]. split; [done|]. split; [apply NoDup_singleton|].
  intros u j. rewrite list_elem_of_singleton. naive_solver.
Qed.

(** The loop over the fields of [t], from field [i] on. *)
Lemma check_fields_visits rec t i fs st st' :
  (∀ ty st st', rec ty st = Some st' → visits [ty] st st') →
  drop i (fields t) = fs → t ∈ checked st → check_fields rec t i fs st = Some st' →
  explores fs.*2 st st' ∧ complaints st st' (λ u j, new_lower st st' u j ∨ (u = t ∧ (i <= j)%nat ∧ lower t j)).
Proof.
  intros Hrec. revert i st. induction fs as [|[name ty] fs IH]; intros i st Hd Ht; cbn [check_fields].
  - intros [= <-]. split; [apply explores_nil|]. eapply complaints_ext; [|apply complaints_none].
    intros u j. unfold new_lower, lower. split; [done|]. intros [?|(-> & Hj & Hl)]; [naive_solver|].
    assert (Hlen : (length (fields t) <= i)%nat) by (apply (f_equal length) in Hd; rewrite length_drop in Hd; simpl in Hd; lia).
    rewrite lookup_ge_None_2 in Hl by lia. done.
  - set (st1 := if capital name then st else complain t i st).
    assert (Hi : fields t !! i = Some (name, ty)) by (rewrite <- (Nat.add_0_r i), <- lookup_drop, Hd; done).
    assert (Hd' : drop (S i) (fields t) = fs) by (rewrite (drop_S _ _ _ Hi) in Hd; by injection Hd).
    assert (Hlow : lower t i ↔ capital name = false) by (unfold lower; by rewrite Hi).
    assert (Hc1 : checked st1 = checked st) by (unfold st1; by destruct (capital name)).
    assert (Hcomp : complaints st st1 (λ u j, u = t ∧ j = i ∧ lower t i)).
    { unfold st1. destruct (capital name); [|eapply complaints_ext; [|apply complain_complaints]; naive_solver].
      eapply complaints_ext; [|apply complaints_none]. naive_solver. }
    intros (st2 & Hv & Hl)%bind_Some. destruct (Hrec _ _ _ Hv) as [He2 Hc2].
    assert (He2' : explores [ty] st st2) by (destruct He2; split; by rewrite <- ?Hc1).
    pose proof (ex_more _ _ _ He2') as Hm2. destruct (IH (S i) st2 Hd' ltac:(by apply Hm2) Hl) as [He3 Hc3].
    pose proof (ex_more _ _ _ He3) as Hm3. split.
    { change (explores ([ty] ++ fs.*2) st st'). by apply (explores_app _ _ _ st2). }
    eapply complaints_ext; [|eapply complaints_trans; [exact Hcomp|eapply complaints_trans; [exact Hc2|exact Hc3|]|]].
    + intros u j. unfold new_lower. rewrite Hc1. assert (Hij : (i <= j)%nat ↔ j = i ∨ (S i <= j)%nat) by lia. rewrite Hij.
      assert (Hin : u ∈ checked st2 → u ∈ checked st') by apply Hm3. assert (Hin0 : u ∈ checked st → u ∈ checked st2) by apply Hm2.
      destruct (decide (u ∈ checked st2)), (decide (u ∈ checked st)); naive_solver.
    + intros u j (Hu & Hn1 & _) [(_ & Hn & _)|(-> & _)]; [done|]. by rewrite Hc1 in Hn1.
    + intros u j (-> & -> & _) [(_ & Hn & _)|[(_ & Hn & _)|(_ & Hj & _)]]; [by rewrite Hc1 in Hn|by apply Hn, Hm2|lia].
Qed.

(** ** Termination and effect *)

(** A finite set of types that contains its children. *)
Definition universe (U : gset tid) : Prop := ∀ t c, t ∈ U → c ∈ children t → c ∈ U.

Lemma checkType_visits fuel t st st' : checkType fuel t st = Some st' → visits [t] st st'.
Proof.
  revert t st st'. induction fuel as [|fuel IH]; intros t st st'; cbn [checkType]; [done|].
  case_decide as Hin.
  { intros [= <-]. destruct (visits_nil st) as [He Hc]. split; [|done].
    split; [done|by intros u ->%list_elem_of_singleton|naive_solver..]. }
  intros Hs. assert (Hm : t ∈ checked (mark t st)) by (cbn [mark checked]; set_solver).
  assert (Hplain : ∀ l, children t = l → fields t = [] → visits l (mark t st) st' → visits [t] st st').
  { intros l Hl Hf [He Hc]. subst l. apply visits_type; [done|done|]. eapply complaints_ext; [|exact Hc].
    intros u i. simpl. split; [by left|]. intros [?|[-> Hlow]]; [done|]. unfold lower in Hlow. by rewrite Hf in Hlow. }
  destruct (types t) as [fs|e|e|e|k e|] eqn:Ek.
  - destruct (check_fields_visits (checkType fuel) t 0 fs (mark t st) st') as [He Hc];
      [intros; by apply IH|unfold fields; by rewrite Ek|done|done|].
    apply visits_type; [done|unfold children; by rewrite Ek|]. eapply complaints_ext; [|exact Hc].
    intros u i. simpl. assert (0 <= i)%nat by lia. naive_solver.
  - apply (Hplain [e]); [unfold children; by rewrite Ek|unfold fields; by rewrite Ek|by apply IH].
  - apply (Hplain [e]); [unfold children; by rewrite Ek|unfold fields; by rewrite Ek|by apply IH].
  - apply (Hplain [e]); [unfold children; by rewrite Ek|unfold fields; by rewrite Ek|by apply IH].
  - apply bind_Some in Hs as (st1 & H1 & H2).
    apply (Hplain [e; k]); [unfold children; by rewrite Ek|unfold fields; by rewrite Ek|].
    apply (visits_app [e] [k] _ st1); by apply IH.
  - injection Hs as <-. apply (Hplain []); [unfold children; by rewrite Ek|unfold fields; by rewrite Ek|apply visits_nil].
Qed.

Lemma check_fields_total rec t i fs st C :
  C ⊆ checked st → (∀ ty st, ty ∈ fs.*2 → C ⊆ checked st → ∃ st', rec ty st = Some st' ∧ checked st ⊆ checked st') →
  is_Some (check_fields rec t i fs st).
Proof.
  intros HC Hrec. revert i st HC. induction fs as [|[name ty] fs IH]; intros i st HC; cbn [check_fields]; [by eexists|].
  destruct (Hrec ty (if capital name then st else complain t i st)) as (st1 & -> & H1);
    [left|by destruct (capital name)|]. cbn [mbind option_bind]. apply IH; [intros; apply Hrec; [by right|done]|].
  destruct (capital name); set_solver.
Qed.

Lemma checkType_total U fuel t st :
  universe U → t ∈ U → (size (U ∖ checked st) < fuel)%nat → is_Some (checkType fuel t st).
Proof.
  intros HU. revert t st. induction fuel as [|fuel IH]; intros t st Ht Hs; [lia|]. cbn [checkType].
  case_decide as Hin; [by eexists|].
  assert (Hrec : ∀ ty st1, ty ∈ children t → checked (mark t st) ⊆ checked st1 →
    ∃ st2, checkType fuel ty st1 = Some st2 ∧ checked st1 ⊆ checked st2).
  { intros ty st1 Hc Hsub. destruct (IH ty st1) as [st2 H2]; [by eapply HU| |].
    - cut (U ∖ checked st1 ⊂ U ∖ checked st); [intros Hlt%subset_size; lia|]. cbn [mark checked] in Hsub. set_solver.
    - exists st2. split; [done|]. by apply checkType_visits in H2 as [[] _]. }
  unfold children in Hrec. destruct (types t) as [fs|e|e|e|k e|] eqn:Ek.
  - by apply (check_fields_total _ _ _ _ _ (checked (mark t st))).
  - destruct (Hrec e (mark t st)) as (st2 & -> & _); [by left|done|by eexists].
  - destruct (Hrec e (mark t st)) as (st2 & -> & _); [by left|done|by eexists].
  - destruct (Hrec e (mark t st)) as (st2 & -> & _); [by left|done|by eexists].
  - destruct (Hrec e (mark t st)) as (st2 & -> & Hsub); [by left|done|]. cbn [mbind option_bind].
    destruct (Hrec k st2) as (st3 & -> & _); [right; by left|done|by eexists].
  - by eexists.
Qed.

(** Reachable types are checked when the checked types contain their children. *)
Lemma reach_checked C C' t u :
  C ⊆ C' → (∀ v c, v ∈ C' → v ∉ C → c ∈ children v → c ∈ C') → t ∈ C' → reach C t u → u ∈ C'.
Proof.
  intros Hsub Hcl Ht Hr. induction Hr as [t Hn|t c u Hn Hc Hr IH]; [done|]. apply IH. by eapply Hcl.
Qed.
End types.

(** ** Properties *)

(** C29 [checkType] terminates on recursive types too, fuel beyond the number
    of types being enough, and complains exactly about the fields without a
    capital of the types it reaches for the first time, each once: the types
    checked afterwards are those checked before and those reached from its
    argument, and the counter grows by the number of lines printed. *)
Theorem checkType_complains_once IsUpper types U fuel t st :
  universe types U → t ∈ U → (size (U ∖ checked st) < fuel)%nat →
  ∃ st', checkType IsUpper types fuel t st = Some st' ∧
    (∀ u, u ∈ checked st' ↔ u ∈ checked st ∨ reach types (checked st) t u) ∧
    ∃ new, out st' = out st ++ new ∧ errorCount st' = errorCount st + Z.of_nat (length new) ∧ NoDup new ∧
      ∀ u i, (u, i) ∈ new ↔ reach types (checked st) t u ∧ lower IsUpper types u i.
Proof.
  intros HU Ht Hf. destruct (checkType_total IsUpper types U fuel t st HU Ht Hf) as [st' Hs]. exists st'. split; [done|].
  apply checkType_visits in Hs as [[] (new & Ho & Hc & Hn & Hi)].
  assert (Hreach : ∀ u, reach types (checked st) t u → u ∈ checked st' ∧ u ∉ checked st).
  { intros u Hr. split; [eapply reach_checked; [exact ex_more0|exact ex_closed0| |exact Hr]; apply ex_all0; by left|].
    clear -Hr. by induction Hr. }
  assert (Hnew : ∀ u, u ∈ checked st' → u ∉ checked st → reach types (checked st) t u).
  { intros u Hu Hnu. by destruct (ex_reach0 u Hu Hnu) as (t' & ->%list_elem_of_singleton & Hr). }
  split.
  - intros u. split; [|intros [?|Hr]; [by apply ex_more0 | by apply Hreach]].
    intros Hu. destruct (decide (u ∈ checked st)); [by left | right; auto].
  - exists new. split; [done|]. split; [done|]. split; [done|]. intros u i. rewrite Hi. unfold new_lower.
    split; [intros (? & ? & ?); auto | intros [Hr ?]; destruct (Hreach u Hr); auto].
Qed.

(** ** Decoding targets *)

(** [n] fields and pointers lead from [v] to [w]. *)
Inductive leads : nat → value → value → Prop :=
| leads_here v : leads 0 v v
| leads_field n fs f vv w : (f, vv) ∈ fs → leads n vv w → leads (S n) (VStruct fs) w
| leads_target n v w : leads n v w → leads (S n) (VPtr (Some v)) w.

(** Induction on values through their fields. *)
Lemma value_induction (P : value → Prop) :
  (∀ fs, Forall (λ x, P x.2) fs → P (VStruct fs)) → P (VPtr None) → (∀ v, P v → P (VPtr (Some v))) →
  (∀ t z, P (VBasic t z)) → P VOther → ∀ v, P v.
Proof.
  intros Hs Hn Hp Hb Ho. fix IH 1. intros [fs|[v|]|tn z|]; [|by apply Hp|done|done|done].
  apply Hs. induction fs as [|[f v] fs IHf]; constructor; [apply IH | exact IHf].
Qed.

(** A value that is set, no more than [3 - depth] steps away. *)
Definition dirty (v : value) (depth : Z) : Prop :=
  ∃ n tn, depth + Z.of_nat n <= 3 ∧ leads n v (VBasic tn false).

(** What a check adds: nothing, or complaints, with a warning if they are the
    first of the program. *)
Definition grows (st st' : gob) (b : Prop) : Prop :=
  checked st' = checked st ∧ out st' = out st ∧
  ((¬ b ∧ errorCount st' = errorCount st ∧ warnings st' = warnings st) ∨
   (b ∧ errorCount st < errorCount st' ∧
    ∃ w, warnings st' = warnings st ++ (if decide (errorCount st < 1) then [w] else []))).

Lemma grows_none st b : ¬ b → grows st st b.
Proof. intros Hb. split; [done|]. split; [done|]. by left. Qed.

Lemma grows_ext st st' b b' : (b ↔ b') → grows st st' b → grows st st' b'.
Proof. unfold grows. intros Hb. rewrite Hb. done. Qed.

Lemma grows_trans st st1 st2 b1 b2 : 0 <= errorCount st → grows st st1 b1 → grows st1 st2 b2 → grows st st2 (b1 ∨ b2).
Proof.
  intros H0 (Hc1 & Ho1 & H1) (Hc2 & Ho2 & H2). split; [congruence|]. split; [congruence|].
  destruct H1 as [(Hb1 & He1 & Hw1)|(Hb1 & He1 & w1 & Hw1)], H2 as [(Hb2 & He2 & Hw2)|(Hb2 & He2 & w2 & Hw2)].
  - left. split; [tauto|]. split; congruence.
  - right. split; [by right|]. split; [lia|]. exists w2. by rewrite Hw2, Hw1, He1.
  - right. split; [by left|]. split; [lia|]. exists w1. by rewrite Hw2, Hw1.
  - right. split; [by left|]. split; [lia|]. exists w1. rewrite Hw2, Hw1.
    rewrite (decide_False (P:=errorCount st1 < 1)) by lia. by rewrite app_nil_r.
Qed.

Lemma grows_count st st' b : grows st st' b → errorCount st <= errorCount st'.
Proof. intros (_ & _ & [(_ & -> & _)|(_ & ? & _)]); lia. Qed.

Lemma dirty_deep v depth : 3 < depth → ¬ dirty v depth.
Proof. intros Hd (n & tn & Hn & _). lia. Qed.

Lemma checkDefault1_grows v : ∀ depth name st, 0 <= errorCount st → grows st (checkDefault1 v depth name st) (dirty v depth).
Proof.
  induction v as [fs IH| |v IH|tn zero|] using value_induction; intros depth name st H0; cbn [checkDefault1];
    (destruct (decide (depth > 3)) as [Hd|Hd]; [apply grows_none, dirty_deep; lia|]).
  - apply (grows_ext _ _ (Exists (λ x, dirty x.2 (depth + 1)) fs)).
    { rewrite Exists_exists. split.
      - intros ([f vv] & Hin & n & tn & Hn & Hl). exists (S n), tn. split; [lia|]. by eapply leads_field.
      - intros (n & tn & Hn & Hl). inversion Hl as [|n' ? f vv ? Hin Hl'|]; subst.
        exists (f, vv). split; [done|]. exists n', tn. split; [lia | done]. }
    revert st H0. induction IH as [|[f vv] fs Hv IH IHfs]; intros st H0.
    + apply grows_none. by inversion 1.
    + cbn [snd] in Hv. set (name1 := if decide (name ≠ "") then _ else _). pose proof (Hv (depth + 1) name1 st H0) as Hg.
      eapply grows_ext; [symmetry; apply Exists_cons|]. eapply grows_trans; [done|exact Hg|].
      apply IHfs. apply grows_count in Hg. lia.
  - apply grows_none. intros (n & tn & _ & Hl). by inversion Hl.
  - apply (grows_ext _ _ (dirty v (depth + 1))); [|by apply IH]. split.
    + intros (n & tn & Hn & Hl). exists (S n), tn. split; [lia | by constructor].
    + intros (n & tn & Hn & Hl). inversion Hl as [| |n' ? ? Hl']; subst. exists n', tn. split; [lia | done].
  - destruct zero.
    + apply grows_none. intros (n & t & _ & Hl). by inversion Hl.
    + split; [done|]. split; [done|]. right. split; [exists 0%nat, tn; split; [lia|constructor]|].
      split; [simpl; lia|]. unfold warn. cbn [warnings]. set (what := if decide (name = "") then tn else name).
      exists what. case_decide; [done | by rewrite app_nil_r].
  - apply grows_none. intros (n & tn & _ & Hl). by inversion Hl.
Qed.

(** Decoding into a value complains exactly if it, or what at most two
    fields or pointers lead to, is already set, and prints a warning only for
    the first complaint of the program; the record of checked types is left
    alone. *)
Theorem checkDefault_exact v st :
  0 <= errorCount st →
  let st' := checkDefault (Some v) st in
  (errorCount st < errorCount st' ↔ ∃ n tn, (n <= 2)%nat ∧ leads n v (VBasic tn false)) ∧
  (∃ ws, warnings st' = warnings st ++ ws ∧
     (length ws = 1%nat ↔ errorCount st = 0 ∧ 0 < errorCount st') ∧ (length ws <= 1)%nat) ∧
  checked st' = checked st ∧ out st' = out st.
Proof.
  intros H0. simpl. destruct (checkDefault1_grows v 1 "" st H0) as (Hc & Ho & Hg).
  assert (Hd : dirty v 1 ↔ ∃ n tn, (n <= 2)%nat ∧ leads n v (VBasic tn false))
    by (split; intros (n & tn & Hn & Hl); exists n, tn; (split; [lia | done])).
  split; [|split; [|done]].
  - rewrite <- Hd. destruct Hg as [(Hb & He & _)|(Hb & He & _)]; [|tauto]. split; [lia | tauto].
  - destruct Hg as [(Hb & He & Hw)|(Hb & He & w & Hw)].
    + exists []. rewrite app_nil_r. split; [done|]. simpl. split; [|lia]. split; [done | lia].
    + exists (if decide (errorCount st < 1) then [w] else []). split; [done|]. case_decide; simpl; (split; [|lia]); (split; [|done || lia]); try done; lia.
Qed.

(** ** Witnesses *)

Module GobEx.
(** A list node [struct { Next *node; val int }], type 0, its pointer, type 1,
    and [int], type 2. *)
Definition types (t : tid) : kind :=
  if decide (t = 0) then Struct [("Next", 1); ("val", 2)] else if decide (t = 1) then Ptr 0 else Other.
Definition IsUpper (r : Z) : bool := bool_decide (0x41 <= r <= 0x5A).
Definition U : gset tid := {[0; 1; 2]}.
Definition st0 : gob := mkGob ∅ 0 [] [].
(** A reply struct used before. *)
Definition dirty_reply : value := VPtr (Some (VStruct [("Err", VBasic "string" false); ("Value", VBasic "string" true)])).
End GobEx.

Lemma checkType_complains_once_witness :
  ∃ st', checkType GobEx.IsUpper GobEx.types 4 0 GobEx.st0 = Some st' ∧ out st' = [(0, 1%nat)] ∧ errorCount st' = 1.
Proof.
  assert (HU : universe GobEx.types GobEx.U).
  { intros t c Ht Hc. unfold GobEx.U in *. unfold children, GobEx.types in Hc.
    repeat case_decide; simpl in Hc; set_solver. }
  assert (Ht : 0 ∈ GobEx.U) by (unfold GobEx.U; set_solver).
  assert (Hf : (size (GobEx.U ∖ checked GobEx.st0) < 4)%nat) by (apply Nat.ltb_lt; vm_compute; reflexivity).
  destruct (checkType_complains_once GobEx.IsUpper GobEx.types GobEx.U 4 0 GobEx.st0 HU Ht Hf) as (st' & E & _).
  exists st'. split; [exact E|]. vm_compute in E. injection E as <-. split; reflexivity.
Defined.

Lemma checkDefault_exact_witness :
  warnings (checkDefault (Some GobEx.dirty_reply) GobEx.st0) = ["Err"] ∧
  errorCount GobEx.st0 < errorCount (checkDefault (Some GobEx.dirty_reply) GobEx.st0).
Proof.
  split; [vm_compute; reflexivity|].
  assert (H0 : 0 <= errorCount GobEx.st0) by (vm_compute; congruence).
  apply (checkDefault_exact GobEx.dirty_reply GobEx.st0 H0). exists 2%nat, "string"%string. split; [lia|].
  apply leads_target. eapply leads_field; [left|]. constructor.
Defined.
