(* ===== verification/Json.v ===== *)
(** * JSON streams of key/value pairs: [encoding/json] as [mr/util.go] uses it

    [WriteKeyValues] writes one object [{"Key":...,"Value":...}] and a newline
    per pair ([json.Encoder.Encode], which escapes HTML characters);
    [ReadKeyValues] decodes the values of the stream one by one and stops at
    the first one that is not decoded. The decoder below accepts objects whose
    members are strings (names in their exact case), in any layout. *)

From S2P Require Import Prelude Utf8 Lo TaskManager.

Open Scope string_scope.
Open Scope Z_scope.

(** The string of one byte. *)
Definition chr (b : Z) : string := String (of_byte b) EmptyString.

(** ** Encoding *)

Definition hex_digit (d : Z) : string :=
  if decide (d < 10) then chr (0x30 + d) else chr (0x61 + (d - 10)).

(** One rune of a string literal ([appendString]). *)
Definition escape (rc : Z * string) : string :=
  let '(r, chunk) := rc in
  if decide (r < RuneSelf) then
    if decide (r = 0x5C ∨ r = 0x22) then chr 0x5C +:+ chunk
    else if decide (r = 0x08) then "\b"
    else if decide (r = 0x0C) then "\f"
    else if decide (r = 0x0A) then "\n"
    else if decide (r = 0x0D) then "\r"
    else if decide (r = 0x09) then "\t"
    else if decide (r < 0x20 ∨ r = 0x3C ∨ r = 0x3E ∨ r = 0x26) then
      "\u00" +:+ hex_digit (r / 16) +:+ hex_digit (r `mod` 16)
    else chunk
  else if decide (r = RuneError ∧ String.length chunk = 1%nat) then "\ufffd"
  else if decide (r = 0x2028 ∨ r = 0x2029) then "\u202" +:+ hex_digit (r `mod` 16)
  else chunk.

Definition string_concat (l : list string) : string := foldr String.append EmptyString l.

Definition quote : string := chr 0x22.

Definition encode_string (s : string) : string :=
  quote +:+ string_concat (escape <$> runes s) +:+ quote.

(** [enc.Encode(kv)]. *)
Definition encode_kv (kv : KeyValue) : string :=
  "{" +:+ quote +:+ "Key" +:+ quote +:+ ":" +:+ encode_string (Key kv) +:+ "," +:+
  quote +:+ "Value" +:+ quote +:+ ":" +:+ encode_string (Value kv) +:+ "}" +:+ chr 0x0A.

(** ** Decoding *)

Definition hex_value (c : Ascii.ascii) : option Z :=
  let b := byte_of c in
  if decide (0x30 <= b <= 0x39) then Some (b - 0x30)
  else if decide (0x61 <= b <= 0x66) then Some (b - 0x61 + 10)
  else if decide (0x41 <= b <= 0x46) then Some (b - 0x41 + 10)
  else None.

Definition hex4 (s : string) : option (Z * string) :=
  match s with
  | String a (String b (String c (String d s))) =>
      x ← hex_value a; y ← hex_value b; z ← hex_value c; w ← hex_value d;
      Some (x * 4096 + y * 256 + z * 16 + w, s)
  | _ => None
  end.

(** [utf8.AppendRune]. *)
Definition EncodeRune (r : Z) : string :=
  if decide (r < 0x80) then chr r
  else if decide (r < 0x800) then chr (0xC0 + r / 64) +:+ chr (0x80 + r `mod` 64)
  else if decide (0xD800 <= r < 0xE000 ∨ 0x10FFFF < r) then chr 0xEF +:+ chr 0xBF +:+ chr 0xBD
  else if decide (r < 0x10000) then
    chr (0xE0 + r / 4096) +:+ chr (0x80 + (r / 64) `mod` 64) +:+ chr (0x80 + r `mod` 64)
  else
    chr (0xF0 + r / 262144) +:+ chr (0x80 + (r / 4096) `mod` 64) +:+
    chr (0x80 + (r / 64) `mod` 64) +:+ chr (0x80 + r `mod` 64).

(** After [\u]: the bytes of the escape and the rest; a surrogate pair is one
    rune, a lone surrogate is replaced. *)
Definition unescape_u (s : string) : option (string * string) :=
  '(u, s1) ← hex4 s;
  if decide (0xD800 <= u < 0xDC00) then
    match s1 with
    | String b (String x s2) =>
        if decide (byte_of b = 0x5C ∧ byte_of x = 0x75) then
          '(v, s3) ← hex4 s2;
          if decide (0xDC00 <= v < 0xE000)
          then Some (EncodeRune (0x10000 + (u - 0xD800) * 1024 + (v - 0xDC00)), s3)
          else Some (EncodeRune RuneError, s1)
        else Some (EncodeRune RuneError, s1)
    | _ => Some (EncodeRune RuneError, s1)
    end
  else Some (EncodeRune u, s1).

(** The escape after a backslash. *)
Definition unescape (e : Ascii.ascii) (s : string) : option (string * string) :=
  let b := byte_of e in
  if decide (b = 0x75) then unescape_u s
  else if decide (b = 0x22 ∨ b = 0x5C ∨ b = 0x2F) then Some (String e EmptyString, s)
  else if decide (b = 0x62) then Some (chr 0x08, s)
  else if decide (b = 0x66) then Some (chr 0x0C, s)
  else if decide (b = 0x6E) then Some (chr 0x0A, s)
  else if decide (b = 0x72) then Some (chr 0x0D, s)
  else if decide (b = 0x74) then Some (chr 0x09, s)
  else None.

(** A string literal after its opening quote: its value and the rest. *)
Fixpoint unquote (fuel : nat) (s : string) : option (string * string) :=
  match fuel, s with
  | Datatypes.S fuel, String c s1 =>
      let b := byte_of c in
      if decide (b = 0x22) then Some (EmptyString, s1)
      else if decide (b = 0x5C) then
        match s1 with
        | String e s2 =>
            '(bytes, s3) ← unescape e s2;
            '(v, rest) ← unquote fuel s3; Some (bytes +:+ v, rest)
        | EmptyString => None
        end
      else if decide (b < 0x20) then None
      else
        let '(r, n) := DecodeRune s in
        let bytes := if decide (r = RuneError ∧ n = 1%nat) then EncodeRune RuneError else string_take n s in
        '(v, rest) ← unquote fuel (string_drop n s); Some (bytes +:+ v, rest)
  | _, _ => None
  end.

Definition is_space (c : Ascii.ascii) : bool :=
  bool_decide (byte_of c ∈ [0x20; 0x09; 0x0A; 0x0D]).

Fixpoint skip_space (s : string) : string :=
  match s with
  | String c s' => if is_space c then skip_space s' else s
  | EmptyString => s
  end.

(** The next token is the character [b]. *)
Definition expect (b : Z) (s : string) : option string :=
  match skip_space s with
  | String c s' => if decide (byte_of c = b) then Some s' else None
  | EmptyString => None
  end.

Definition decode_string (s : string) : option (string * string) :=
  s ← expect 0x22 s; unquote (String.length s) s.

Definition set_member (name value : string) (kv : KeyValue) : KeyValue :=
  if decide (name = "Key") then mkKeyValue value (Value kv)
  else if decide (name = "Value") then mkKeyValue (Key kv) value
  else kv.

(** The members of an object, up to its closing brace. *)
Fixpoint decode_members (fuel : nat) (s : string) (kv : KeyValue) : option (KeyValue * string) :=
  match fuel with
  | O => None
  | Datatypes.S fuel =>
      '(name, s) ← decode_string s;
      s ← expect 0x3A s;
      '(value, s) ← decode_string s;
      let kv := set_member name value kv in
      match expect 0x2C s with
      | Some s => decode_members fuel s kv
      | None => s ← expect 0x7D s; Some (kv, s)
      end
  end.

(** [dec.Decode(&kv)]: [None] at the end of the stream and on an error, the
    two cases in which the loop of [ReadKeyValues] stops. *)
Definition decode_kv (s : string) : option (KeyValue * string) :=
  s ← expect 0x7B s;
  match expect 0x7D s with
  | Some s => Some (mkKeyValue EmptyString EmptyString, s)
  | None => decode_members (String.length s) s (mkKeyValue EmptyString EmptyString)
  end.

Fixpoint decode_stream (fuel : nat) (s : string) : list KeyValue :=
  match fuel with
  | O => []
  | Datatypes.S fuel =>
      match decode_kv s with
      | Some (kv, s) => kv :: decode_stream fuel s
      | None => []
      end
  end.

(** The contents of the file [WriteKeyValues] writes and what [ReadKeyValues]
    reads back. *)
Definition encode_kvs (kva : list KeyValue) : string := string_concat (encode_kv <$> kva).
Definition decode_kvs (s : string) : list KeyValue := decode_stream (String.length s) s.

Definition kv_valid (kv : KeyValue) : Prop := valid_utf8 (Key kv) ∧ valid_utf8 (Value kv).

Example EncodeRune_example :
  EncodeRune 0x20AC = chr 0xE2 +:+ chr 0x82 +:+ chr 0xAC ∧
  EncodeRune 0x1F600 = chr 0xF0 +:+ chr 0x9F +:+ chr 0x98 +:+ chr 0x80.
Proof. vm_compute. done. Qed.

Example json_example :
  let kva := [mkKeyValue "a<b" (String (of_byte 0xC3) (chr 0xA9)); mkKeyValue "\" ""] in
  decode_kvs (encode_kvs kva) = kva ∧
  encode_kv (mkKeyValue "a<b" "x") =
    "{" +:+ quote +:+ "Key" +:+ quote +:+ ":" +:+ quote +:+ "a\u003cb" +:+ quote +:+ "," +:+
    quote +:+ "Value" +:+ quote +:+ ":" +:+ quote +:+ "x" +:+ quote +:+ "}" +:+ chr 10.
Proof. vm_compute. done. Qed.

(** ** The round trip *)

Section roundtrip.

Lemma byte_of_inj c c' : byte_of c = byte_of c' → c = c'.
Proof.
  unfold byte_of. intros H. rewrite <- (Ascii.ascii_N_embedding c), <- (Ascii.ascii_N_embedding c').
  f_equal. lia.
Qed.

(** A valid chunk is one ASCII byte or a longer sequence of larger bytes. *)
Lemma valid_chunk_cases chunk :
  valid_chunk chunk →
  (∃ c, chunk = String c EmptyString ∧ byte_of c < RuneSelf) ∨
  (∃ c s, chunk = String c s ∧ RuneSelf <= byte_of c ∧ RuneSelf <= (DecodeRune chunk).1).
Proof.
  intros (Hne & Hlen & Hnv). destruct chunk as [|c0 s1]; [done|].
  pose proof (byte_range c0). revert Hlen Hnv. unfold DecodeRune.
  destruct (decide (byte_of c0 < RuneSelf)) as [Hlt|Hge].
  - simpl. intros Hlen _. left. exists c0. split; [|done]. destruct s1; simpl in *; [done|lia].
  - intros Hlen Hnv. right. exists c0, s1. split; [done|]. split; [lia|]. revert Hlen Hnv.
    unfold first_byte, RuneSelf, RuneError in *.
    destruct s1 as [|c1 [|c2 [|c3 s]]]; simpl;
      repeat (case_match; simplify_eq/=); intros; try tauto; try lia.
Qed.

(** The bytes of a three-byte rune are determined by it. *)
Lemma decode_202x chunk d :
  valid_chunk chunk → 0 <= d <= 1 → (DecodeRune chunk).1 = 0x2028 + d →
  ∃ c0 c1 c2, chunk = String c0 (String c1 (String c2 EmptyString)) ∧
    byte_of c0 = 0xE2 ∧ byte_of c1 = 0x80 ∧ byte_of c2 = 0xA8 + d.
Proof.
  intros (Hne & Hlen & Hnv) Hd. revert Hlen Hnv.
  unfold DecodeRune, first_byte, RuneError, RuneSelf.
  destruct chunk as [|c0 [|c1 [|c2 [|c3 s]]]]; simpl; [done|..];
    repeat (case_match; simpl in *; simplify_eq); intros; try lia; try tauto;
    try (exists c0, c1, c2; split; [done|]; lia);
    repeat match goal with c : Ascii.ascii |- _ =>
      lazymatch goal with H : 0 <= byte_of c < 256 |- _ => fail | _ => pose proof (byte_range c) end end;
    lia.
Qed.

Lemma decode_2028 chunk r :
  valid_chunk chunk → (DecodeRune chunk).1 = r → r = 0x2028 ∨ r = 0x2029 → EncodeRune r = chunk.
Proof.
  intros Hv Hr Hor. destruct (decode_202x chunk (r - 0x2028) Hv) as (c0 & c1 & c2 & -> & H0 & H1 & H2); [lia..|].
  assert (c0 = of_byte 0xE2) as -> by (by apply byte_of_inj).
  assert (c1 = of_byte 0x80) as -> by (by apply byte_of_inj).
  destruct Hor as [-> | ->].
  - assert (c2 = of_byte 0xA8) as -> by (by apply byte_of_inj). reflexivity.
  - assert (c2 = of_byte 0xA9) as -> by (by apply byte_of_inj). reflexivity.
Qed.

Lemma unquote_plain fuel c s t r n :
  RuneSelf <= byte_of c → valid_chunk (String c s) → DecodeRune (String c s) = (r, n) →
  unquote (Datatypes.S fuel) (String c s +:+ t) =
  ('(v, rest) ← unquote fuel t; Some (String c s +:+ v, rest)).
Proof.
  intros Hc Hv Hd. pose proof Hv as (_ & Hlen & Hnv). rewrite Hd in Hlen, Hnv.
  pose proof (DecodeRune_app _ t Hv) as Hd'. rewrite Hd in Hd'. simpl in Hlen, Hnv.
  cbn [unquote]. change (String c s +:+ t) with (String c (s +:+ t)) in *. unfold RuneSelf in Hc.
  cbn match. rewrite !decide_False by lia. rewrite Hd'. rewrite decide_False by (rewrite Hlen; exact Hnv).
  change (String c (s +:+ t)) with (String c s +:+ t).
  by rewrite string_take_app, string_drop_app.
Qed.

Lemma unquote_escape fuel chunk t :
  valid_chunk chunk →
  unquote (Datatypes.S fuel) (escape ((DecodeRune chunk).1, chunk) +:+ t) =
  ('(v, rest) ← unquote fuel t; Some (chunk +:+ v, rest)).
Proof.
  intros Hv. destruct (valid_chunk_cases chunk Hv) as [(c & -> & Hc)|(c & s & -> & Hc & Hr)].
  - destruct c as [[] [] [] [] [] [] [] []]; try (by vm_compute in Hc); reflexivity.
  - unfold escape. pose proof Hv as (_ & Hlen & Hnv).
    destruct (DecodeRune (String c s)) as [r n] eqn:Hd. cbn [fst snd] in *.
    rewrite decide_False by lia. rewrite decide_False by exact Hnv.
    case_decide as H2028; [|by eapply unquote_plain].
    pose proof (decode_2028 (String c s) r Hv ltac:(by rewrite Hd) H2028) as He.
    rewrite <- He. destruct_or!; subst r; reflexivity.
Qed.

Lemma unquote_runes rcs fuel t :
  Forall (λ rc, valid_chunk rc.2 ∧ rc.1 = (DecodeRune rc.2).1) rcs → (length rcs < fuel)%nat →
  unquote fuel (string_concat (escape <$> rcs) +:+ quote +:+ t) =
  Some (foldr (λ rc acc, rc.2 +:+ acc) EmptyString rcs, t).
Proof.
  revert fuel. induction rcs as [|[r chunk] rcs IH]; intros fuel Hall Hf.
  - destruct fuel; [simpl in Hf; lia|]. reflexivity.
  - apply Forall_cons in Hall as [[Hv Hr] Hall]. simpl in Hv, Hr, Hf. subst r.
    destruct fuel as [|fuel]; [lia|]. cbn [fmap list_fmap string_concat foldr].
    fold (string_concat (escape <$> rcs)). rewrite app_assoc_s.
    rewrite (unquote_escape fuel chunk) by done.
    rewrite IH by (done || lia). done.
Qed.

Lemma length_app_s a b : String.length (a +:+ b) = (String.length a + String.length b)%nat.
Proof. induction a as [|c a IH]; [done|]. rewrite app_cons. simpl. by rewrite IH. Qed.

Lemma escape_nonempty rc : rc.2 ≠ EmptyString → escape rc ≠ EmptyString.
Proof.
  destruct rc as [r chunk]. simpl. intros Hne. unfold escape.
  repeat case_decide; done.
Qed.

Lemma length_escaped rcs :
  Forall (λ rc, valid_chunk rc.2) rcs →
  (length rcs <= String.length (string_concat (escape <$> rcs)))%nat.
Proof.
  induction 1 as [|rc rcs [Hv _] Hall IH]; [simpl; lia|].
  rewrite fmap_cons. cbn [string_concat foldr length]. fold (string_concat (escape <$> rcs)).
  rewrite length_app_s. pose proof (escape_nonempty rc Hv). destruct (escape rc); [done|]. simpl. lia.
Qed.

(** Decoding an encoded string gives it back. *)
Lemma decode_encode_string s t :
  valid_utf8 s → decode_string (encode_string s +:+ t) = Some (s, t).
Proof.
  intros Hv. unfold decode_string, encode_string.
  rewrite app_assoc_s. unfold quote at 1. change (chr 34 +:+ ?x) with (String (of_byte 34) x).
  unfold expect. cbn [skip_space is_space]. simpl mbind.
  rewrite app_assoc_s, unquote_runes; [by rewrite runes_concat| |].
  - pose proof (runes_chunks s) as Hd. unfold valid_utf8 in Hv.
    rewrite Forall_forall in Hd, Hv |- *. intros rc Hin. pose proof (Hv rc Hin) as Hc.
    by destruct (Hd rc Hin) as [[_ ?]|?].
  - pose proof (length_escaped (runes s) Hv). rewrite !length_app_s. unfold quote. simpl. lia.
Qed.

Lemma decode_member fuel name v kv t :
  valid_utf8 name → valid_utf8 v →
  decode_members (Datatypes.S fuel) (encode_string name +:+ ":" +:+ encode_string v +:+ t) kv =
  match expect 0x2C t with
  | Some s => decode_members fuel s (set_member name v kv)
  | None => s ← expect 0x7D t; Some (set_member name v kv, s)
  end.
Proof.
  intros Hn Hv. cbn [decode_members]. rewrite decode_encode_string by done. cbn [mbind option_bind].
  change (expect 58 (":" +:+ ?x)) with (Some x). cbn [mbind option_bind].
  by rewrite decode_encode_string.
Qed.

Lemma decode_encode_kv kv t :
  kv_valid kv → decode_kv (encode_kv kv +:+ t) = Some (kv, chr 0x0A +:+ t).
Proof.
  intros [Hk Hv].
  assert (Hc : valid_utf8 "Key" ∧ valid_utf8 "Value").
  { unfold valid_utf8, runes. simpl.
    split; repeat (constructor; [by apply ascii_chunk|]); constructor. }
  destruct Hc as [Hkey Hvalue].
  assert (E : encode_kv kv +:+ t = "{" +:+ (encode_string "Key" +:+ ":" +:+ encode_string (Key kv) +:+
    ("," +:+ (encode_string "Value" +:+ ":" +:+ encode_string (Value kv) +:+ ("}" +:+ (chr 0x0A +:+ t)))))).
  { unfold encode_kv. change (encode_string "Key") with (quote +:+ "Key" +:+ quote).
    change (encode_string "Value") with (quote +:+ "Value" +:+ quote). by rewrite !app_assoc_s. }
  rewrite E. clear E. unfold decode_kv.
  change (expect 123 ("{" +:+ ?x)) with (Some x). cbn [mbind option_bind].
  set (s := encode_string "Key" +:+ _). change (expect 125 s) with (@None string). cbn match.
  assert (Hlen : (2 <= String.length s)%nat).
  { unfold s. rewrite length_app_s. change (String.length (encode_string "Key")) with 5%nat. lia. }
  destruct (String.length s) as [|[|fuel]]; [lia..|]. unfold s.
  rewrite decode_member by done. change (expect 44 ("," +:+ ?x)) with (Some x). cbn match.
  rewrite decode_member by done. change (expect 44 ("}" +:+ ?x)) with (@None string). cbn match.
  change (expect 125 ("}" +:+ ?x)) with (Some x). cbn [mbind option_bind].
  by destruct kv.
Qed.

Lemma decode_kv_newline s : decode_kv (chr 0x0A +:+ s) = decode_kv s.
Proof. reflexivity. Qed.

Lemma encode_kv_nonempty kv : (2 <= String.length (encode_kv kv))%nat.
Proof. unfold encode_kv. rewrite !app_cons. simpl. lia. Qed.

Lemma decode_stream_spec kva t fuel :
  Forall kv_valid kva → decode_kv t = None → (length kva < fuel)%nat →
  decode_stream fuel (encode_kvs kva +:+ t) = kva.
Proof.
  intros Hv Ht. revert fuel.
  enough (Hgen : ∀ fuel pre, (pre = EmptyString ∨ pre = chr 0x0A) → (length kva < fuel)%nat →
    decode_stream fuel (pre +:+ (encode_kvs kva +:+ t)) = kva).
  { intros fuel Hf. apply (Hgen fuel EmptyString); [by left | done]. }
  induction Hv as [|kv kva Hkv Hv IH]; intros fuel pre Hpre Hf.
  - destruct fuel as [|fuel]; [simpl in Hf; lia|]. cbn [decode_stream].
    destruct Hpre as [-> | ->]; rewrite ?decode_kv_newline;
      change (encode_kvs [] +:+ t) with t; change (EmptyString +:+ t) with t; by rewrite Ht.
  - destruct fuel as [|fuel]; [simpl in Hf; lia|]. cbn [decode_stream].
    assert (E : decode_kv (pre +:+ (encode_kvs (kv :: kva) +:+ t)) =
      Some (kv, chr 0x0A +:+ (encode_kvs kva +:+ t))).
    { unfold encode_kvs. rewrite fmap_cons. cbn [string_concat foldr].
      fold (string_concat (encode_kv <$> kva)). rewrite app_assoc_s.
      destruct Hpre as [-> | ->]; [change (EmptyString +:+ ?x) with x | rewrite decode_kv_newline];
        by rewrite decode_encode_kv. }
    rewrite E. f_equal. apply IH; [by right | simpl in Hf; lia].
Qed.

Lemma length_encode_kvs kva : (2 * length kva <= String.length (encode_kvs kva))%nat.
Proof.
  induction kva as [|kv kva IH]; [simpl; lia|]. unfold encode_kvs in *. rewrite fmap_cons.
  cbn [string_concat foldr length]. fold (string_concat (encode_kv <$> kva)).
  rewrite length_app_s. pose proof (encode_kv_nonempty kv). lia.
Qed.

Lemma decode_encode_kvs kva : Forall kv_valid kva → decode_kvs (encode_kvs kva) = kva.
Proof.
  intros Hv. unfold decode_kvs. destruct kva as [|kv kva]; [done|].
  rewrite <- (app_empty_r (encode_kvs (kv :: kva))) at 2.
  apply decode_stream_spec; [done | done |].
  pose proof (length_encode_kvs (kv :: kva)). simpl length in *. lia.
Qed.
End roundtrip.

(** Invalid UTF-8 is not preserved: the byte comes back as U+FFFD. *)
Example invalid_utf8_replaced :
  decode_kvs (encode_kvs [mkKeyValue (chr 0xFF) "1"]) = [mkKeyValue (EncodeRune RuneError) "1"].
Proof. vm_compute. reflexivity. Qed.
