(* ===== verification/JsonInt.v ===== *)
(** * JSON of the testers' entries: [encoding/json] as [kvtest1] uses it

    The values the clients put are objects with two integer members, alone
    ([EntryV]) or in an array ([entry]). [json.Marshal] writes them without
    spaces; the decoder accepts any layout, any order of the members and
    ignores other integer members (names in their exact case), and refuses
    integers that do not fit the field, as [json.Unmarshal] does. *)

From Stdlib Require Import Ascii.
From stdpp Require Import pretty.
From S2P Require Import Prelude Utf8 Lo TaskManager Json.

Open Scope string_scope.
Open Scope list_scope.
Open Scope Z_scope.

(** ** Integers *)

Definition encode_int (z : Z) : string := pretty z.

Definition digit_value (c : Ascii.ascii) : option N :=
  let b := byte_of c in if decide (0x30 <= b <= 0x39) then Some (Z.to_N (b - 0x30)) else None.

(** The digits at the head of [s], after the value [acc]. *)
Fixpoint decode_digits (acc : N) (s : string) : N * string :=
  match s with
  | String c s' =>
      match digit_value c with Some d => decode_digits (10 * acc + d)%N s' | None => (acc, s) end
  | EmptyString => (acc, s)
  end.

(** A number without sign: no digit follows a leading zero. *)
Definition decode_nat (s : string) : option (N * string) :=
  match s with
  | String c s' =>
      d ← digit_value c; Some (if decide (d = 0)%N then (0%N, s') else decode_digits d s')
  | EmptyString => None
  end.

Definition decode_int (s : string) : option (Z * string) :=
  match skip_space s with
  | String c s' =>
      if decide (byte_of c = 0x2D) then '(n, s'') ← decode_nat s'; Some (- Z.of_N n, s'')
      else '(n, s'') ← decode_nat (String c s'); Some (Z.of_N n, s'')
  | EmptyString => None
  end.

(** [strconv.Atoi], which is [strconv.ParseInt] in base 10; [None] is an error. *)
Definition Atoi (s : string) : option Z :=
  let '(neg, t) :=
    match s with
    | String c t => if decide (c = "-"%char) then (true, t) else if decide (c = "+"%char) then (false, t) else (false, s)
    | EmptyString => (false, s)
    end in
  match t, decode_digits 0 t with
  | EmptyString, _ => None
  | _, (n, EmptyString) =>
      let v := if neg : bool then - Z.of_N n else Z.of_N n in
      if decide (- 2 ^ 63 <= v < 2 ^ 63) then Some v else None
  | _, _ => None
  end.

(** ** Objects with two integer members *)

(** The name and the range of a field. *)
Record field := mkField { f_name : string; f_min : Z; f_max : Z }.
Definition int_field (name : string) : field := mkField name (- 2 ^ 63) (2 ^ 63 - 1).
Definition uint64_field (name : string) : field := mkField name 0 (2 ^ 64 - 1).

Definition in_field (f : field) (z : Z) : Prop := f_min f <= z <= f_max f.
#[export] Instance in_field_dec f z : Decision (in_field f z).
Proof. unfold in_field. apply _. Defined.

Section object.
Context (f1 f2 : field).

Definition encode_member (f : field) (z : Z) : string :=
  encode_string (f_name f) +:+ ":" +:+ encode_int z.

Definition encode_object (p : Z * Z) : string :=
  "{" +:+ encode_member f1 p.1 +:+ "," +:+ encode_member f2 p.2 +:+ "}".

Definition set_int (name : string) (z : Z) (p : Z * Z) : option (Z * Z) :=
  if decide (name = f_name f1) then if decide (in_field f1 z) then Some (z, p.2) else None
  else if decide (name = f_name f2) then if decide (in_field f2 z) then Some (p.1, z) else None
  else Some p.

Fixpoint decode_int_members (fuel : nat) (s : string) (p : Z * Z) : option (Z * Z * string) :=
  match fuel with
  | O => None
  | Datatypes.S fuel =>
      '(name, s) ← decode_string s;
      s ← expect 0x3A s;
      '(z, s) ← decode_int s;
      p ← set_int name z p;
      match expect 0x2C s with
      | Some s => decode_int_members fuel s p
      | None => s ← expect 0x7D s; Some (p, s)
      end
  end.

Definition decode_object (s : string) : option (Z * Z * string) :=
  s ← expect 0x7B s;
  match expect 0x7D s with
  | Some s => Some ((0, 0), s)
  | None => decode_int_members (String.length s) s (0, 0)
  end.

(** Only white space may follow the value. *)
Definition at_end {A} (v : A * string) : option A :=
  match skip_space v.2 with EmptyString => Some v.1 | _ => None end.

(** [json.Unmarshal] into a zeroed struct. *)
Definition unmarshal_object (s : string) : option (Z * Z) := v ← decode_object s; at_end v.

(** ** Arrays of objects *)

Fixpoint encode_tail (l : list (Z * Z)) : string :=
  match l with
  | [] => "]"
  | p :: l => "," +:+ encode_object p +:+ encode_tail l
  end.
Definition encode_list (l : list (Z * Z)) : string :=
  match l with
  | [] => "[]"
  | p :: l => "[" +:+ encode_object p +:+ encode_tail l
  end.

Fixpoint decode_elements (fuel : nat) (s : string) : option (list (Z * Z) * string) :=
  match fuel with
  | O => None
  | Datatypes.S fuel =>
      '(p, s) ← decode_object s;
      match expect 0x2C s with
      | Some s => '(l, s) ← decode_elements fuel s; Some (p :: l, s)
      | None => s ← expect 0x5D s; Some ([p], s)
      end
  end.

Definition decode_list (s : string) : option (list (Z * Z) * string) :=
  s ← expect 0x5B s;
  match expect 0x5D s with
  | Some s => Some ([], s)
  | None => decode_elements (String.length s) s
  end.

Definition unmarshal_list (s : string) : option (list (Z * Z)) := v ← decode_list s; at_end v.
End object.

(** ** Round trips *)

(** [s] does not start with a digit. *)
Definition no_digit (s : string) : Prop :=
  match s with String c _ => digit_value c = None | EmptyString => True end.

Lemma digit_value_char (d : N) : (d < 10)%N → digit_value (pretty_N_char d) = Some d.
Proof.
  intros Hd. assert (Hc : d ∈ [0; 1; 2; 3; 4; 5; 6; 7; 8; 9]%N).
  { rewrite !elem_of_cons. lia. }
  repeat (apply elem_of_cons in Hc as [->|Hc]; [reflexivity|]). by apply not_elem_of_nil in Hc.
Qed.

Lemma decode_digits_stop acc t : no_digit t → decode_digits acc t = (acc, t).
Proof. destruct t as [|c t]; [done|]. simpl. by intros ->. Qed.

(** Reading the digits [pretty_N_go] puts before [s]. *)
Lemma decode_digits_go x s acc :
  ∃ k, decode_digits acc (pretty_N_go x s) = decode_digits (acc * 10 ^ k + x)%N s ∧ (x < 10 ^ k)%N.
Proof.
  revert s. induction x as [x IH] using (well_founded_induction N.lt_wf_0). intros s.
  destruct (decide (x = 0)%N) as [->|Hx].
  - exists 0%N. rewrite pretty_N_go_0. split; [f_equal; lia | done].
  - rewrite pretty_N_go_step by lia.
    destruct (IH (x `div` 10)%N (N.div_lt x 10 ltac:(lia) ltac:(lia))
      (String (pretty_N_char (x `mod` 10)) s)) as (k & -> & Hk).
    exists (N.succ k). simpl. rewrite digit_value_char by (apply N.mod_lt; lia).
    pose proof (N.div_mod x 10 ltac:(lia)). rewrite N.pow_succ_r by lia.
    pose proof (N.mod_lt x 10 ltac:(lia)). generalize dependent (10 ^ k)%N. intros q Hk.
    generalize dependent (x `div` 10)%N. generalize dependent (x `mod` 10)%N. intros r Hr y Hx' Hy.
    split; [f_equal; nia | nia].
Qed.

Lemma pretty_N_go_app x s t : pretty_N_go x s +:+ t = pretty_N_go x (s +:+ t).
Proof.
  revert s. induction x as [x IH] using (well_founded_induction N.lt_wf_0). intros s.
  destruct (decide (x = 0)%N) as [->|Hx]; [by rewrite !pretty_N_go_0|].
  rewrite !(pretty_N_go_step x) by lia. by rewrite IH by (apply N.div_lt; lia).
Qed.

(** The first digit of a positive number is not zero. *)
Lemma pretty_N_go_first x s : (0 < x)%N →
  ∃ c d s', pretty_N_go x s = String c s' ∧ digit_value c = Some d ∧ d ≠ 0%N.
Proof.
  revert s. induction x as [x IH] using (well_founded_induction N.lt_wf_0). intros s Hx.
  rewrite pretty_N_go_step by lia. destruct (decide (x `div` 10 = 0)%N) as [E|].
  - rewrite E, pretty_N_go_0. eexists _, (x `mod` 10)%N, _. split; [done|].
    pose proof (N.div_mod x 10 ltac:(lia)). pose proof (N.mod_lt x 10 ltac:(lia)).
    split; [by apply digit_value_char | lia].
  - apply IH; [apply N.div_lt; lia | by apply N.neq_0_lt_0].
Qed.

Lemma decode_nat_pretty (n : N) t : no_digit t → decode_nat (pretty n +:+ t) = Some (n, t).
Proof.
  intros Ht. unfold pretty, pretty_N. destruct (decide (n = 0)%N) as [->|Hn]; [reflexivity|].
  rewrite pretty_N_go_app. change ("" +:+ t) with t.
  destruct (pretty_N_go_first n t ltac:(lia)) as (c & d & s' & E & Hd & Hd0).
  destruct (decode_digits_go n t 0) as (k & Hk & _). rewrite E in Hk |- *.
  unfold decode_nat. rewrite Hd. cbn [mbind option_bind]. rewrite decide_False by done.
  cbn [decode_digits] in Hk. rewrite Hd, !N.mul_0_r, !N.mul_0_l, !N.add_0_l in Hk.
  rewrite Hk. by rewrite decode_digits_stop.
Qed.

Lemma decode_int_digits (n : N) t : no_digit t → decode_int (pretty n +:+ t) = Some (Z.of_N n, t).
Proof.
  intros Ht. pose proof (decode_nat_pretty n t Ht) as E.
  assert (Hc : ∃ c d s', pretty n +:+ t = String c s' ∧ digit_value c = Some d).
  { unfold pretty, pretty_N. case_decide as Hn; [by eexists _, _, _|].
    rewrite pretty_N_go_app. destruct (pretty_N_go_first n ("" +:+ t)) as (c & d & s' & ? & ? & _); [lia|].
    by exists c, d, s'. }
  destruct Hc as (c & d & s' & Hs & Hd). rewrite Hs in E |- *. unfold decode_int.
  assert (Hb : 0x30 <= byte_of c <= 0x39) by (unfold digit_value in Hd; by case_decide).
  cbn [skip_space]. unfold is_space. rewrite bool_decide_false by (rewrite !elem_of_cons, elem_of_nil; lia).
  rewrite decide_False by lia. by rewrite E.
Qed.

Lemma decode_encode_int z t : no_digit t → decode_int (encode_int z +:+ t) = Some (z, t).
Proof.
  intros Ht. unfold encode_int. destruct z as [|p|p].
  - apply (decode_int_digits 0 t Ht).
  - apply (decode_int_digits (Npos p) t Ht).
  - change (pretty (Z.neg p)) with ("-" +:+ pretty (Npos p)). rewrite app_assoc_s.
    change ("-" +:+ ?x) with (String (of_byte 0x2D) x). unfold decode_int.
    cbn [skip_space]. change (is_space (of_byte 45)) with false. cbn match.
    rewrite decide_True by done. by rewrite decode_nat_pretty.
Qed.

Lemma app_nil_s (s : string) : s +:+ "" = s.
Proof. induction s as [|c s IH]; [done|]. change (String c s +:+ "") with (String c (s +:+ "")). by rewrite IH. Qed.

Section object_facts.
Context (f1 f2 : field).
Hypothesis names : valid_utf8 (f_name f1) ∧ valid_utf8 (f_name f2) ∧ f_name f1 ≠ f_name f2.

Lemma decode_int_member fuel f z p t :
  valid_utf8 (f_name f) → no_digit t →
  decode_int_members f1 f2 (Datatypes.S fuel) (encode_member f z +:+ t) p =
  p ← set_int f1 f2 (f_name f) z p;
  match expect 0x2C t with
  | Some s => decode_int_members f1 f2 fuel s p
  | None => s ← expect 0x7D t; Some (p, s)
  end.
Proof.
  intros Hn Ht. unfold encode_member. rewrite !app_assoc_s. cbn [decode_int_members].
  rewrite decode_encode_string by done. cbn [mbind option_bind].
  change (expect 58 (":" +:+ ?x)) with (Some x). cbn [mbind option_bind].
  by rewrite decode_encode_int.
Qed.

Definition fits (p : Z * Z) : Prop := in_field f1 p.1 ∧ in_field f2 p.2.

Lemma decode_encode_object p t :
  fits p → decode_object f1 f2 (encode_object f1 f2 p +:+ t) = Some (p, t).
Proof.
  intros [H1 H2]. destruct names as (Hv1 & Hv2 & Hne). unfold encode_object. rewrite !app_assoc_s. unfold decode_object.
  change (expect 123 ("{" +:+ ?x)) with (Some x). cbn [mbind option_bind].
  set (s := encode_member f1 p.1 +:+ _).
  assert (E : ∃ s', s = quote +:+ s')
    by (unfold s, encode_member, encode_string; rewrite !app_assoc_s; by eexists).
  destruct E as [s' E]. rewrite E at 1. change (expect 125 (quote +:+ s')) with (@None string). cbn match.
  assert (Hlen : (2 <= String.length s)%nat).
  { unfold s, encode_member, encode_string. rewrite !length_app_s. simpl. lia. }
  destruct (String.length s) as [|[|fuel]]; [lia..|]. unfold s.
  rewrite decode_int_member by done. unfold set_int at 1.
  rewrite !decide_True by done. cbn [mbind option_bind].
  change (expect 44 ("," +:+ ?x)) with (Some x). cbn match.
  rewrite decode_int_member by done. unfold set_int. rewrite decide_False by done.
  rewrite !decide_True by done. cbn [mbind option_bind].
  change (expect 44 ("}" +:+ ?x)) with (@None string). cbn match.
  change (expect 125 ("}" +:+ ?x)) with (Some x). by destruct p.
Qed.

Lemma unmarshal_encode_object p : fits p → unmarshal_object f1 f2 (encode_object f1 f2 p) = Some p.
Proof.
  intros Hp. unfold unmarshal_object. rewrite <- (app_nil_s (encode_object f1 f2 p)).
  by rewrite decode_encode_object.
Qed.

Lemma encode_tail_length l : (length l < String.length (encode_tail f1 f2 l))%nat.
Proof.
  induction l as [|p l IH]; [simpl; lia|]. cbn [encode_tail length]. rewrite !length_app_s.
  change (String.length ",") with 1%nat. lia.
Qed.

Lemma decode_encode_elements fuel p l t :
  Forall fits (p :: l) → (length l < fuel)%nat →
  decode_elements f1 f2 fuel (encode_object f1 f2 p +:+ encode_tail f1 f2 l +:+ t) = Some (p :: l, t).
Proof.
  revert p fuel. induction l as [|q l IH]; intros p [|fuel] [Hp Hl]%Forall_cons Hf; [lia| |lia|].
  - cbn [decode_elements encode_tail]. rewrite decode_encode_object by done. cbn [mbind option_bind].
    change (expect 44 ("]" +:+ t)) with (@None string). cbn match.
    by change (expect 93 ("]" +:+ t)) with (Some t).
  - cbn [decode_elements encode_tail]. rewrite decode_encode_object by done. cbn [mbind option_bind].
    rewrite !app_assoc_s. change (expect 44 ("," +:+ ?x)) with (Some x). cbn match.
    rewrite IH; [done|done|simpl in Hf; lia].
Qed.

Lemma unmarshal_encode_list l : Forall fits l → unmarshal_list f1 f2 (encode_list f1 f2 l) = Some l.
Proof.
  intros Hl. destruct l as [|p l]; [reflexivity|]. unfold unmarshal_list, decode_list, encode_list.
  change (expect 91 ("[" +:+ ?x)) with (Some x). cbn [mbind option_bind].
  set (s := encode_object f1 f2 p +:+ _).
  assert (E : ∃ s', s = "{" +:+ s') by (unfold s, encode_object; rewrite !app_assoc_s; by eexists).
  destruct E as [s' E]. rewrite E at 1. change (expect 93 ("{" +:+ s')) with (@None string). cbn match.
  unfold s. rewrite <- (app_nil_s (encode_tail f1 f2 l)) at 2.
  rewrite decode_encode_elements; [done|done|]. pose proof (encode_tail_length l). rewrite length_app_s. lia.
Qed.
End object_facts.

(** The decimal digits of a number, read back. *)
Lemma pretty_N_digits (n : N) : ∃ c s, pretty n = String c s ∧ digit_value c ≠ None ∧ decode_digits 0 (pretty n) = (n, "").
Proof.
  unfold pretty, pretty_N. destruct (decide (n = 0)%N) as [->|Hn]; [by eexists _, _|].
  destruct (pretty_N_go_first n "") as (c & d & s & E & Hd & _); [lia|]. exists c, s.
  split; [exact E|]. split; [congruence|]. destruct (decode_digits_go n "" 0) as (k & Hk & _). rewrite Hk.
  done.
Qed.

Lemma pretty_nonneg z : 0 <= z → ∃ c s, pretty z = String c s ∧ digit_value c ≠ None ∧ decode_digits 0 (pretty z) = (Z.to_N z, "").
Proof. intros Hz. destruct z as [|p|p]; [apply (pretty_N_digits 0) | apply (pretty_N_digits (Npos p)) | lia]. Qed.

Lemma Atoi_pretty z : - 2 ^ 63 <= z < 2 ^ 63 → Atoi (pretty z) = Some z.
Proof.
  intros Hz. destruct (Z.lt_ge_cases z 0) as [Hn|Hn].
  - destruct z as [|p|p]; [lia..|]. change (pretty (Z.neg p)) with (String "-"%char (pretty (Npos p))).
    destruct (pretty_N_digits (Npos p)) as (c & s & E & _ & Hd). unfold Atoi. rewrite decide_True by done. rewrite E in *.
    rewrite Hd. change (- Z.of_N (N.pos p)) with (Z.neg p). by rewrite decide_True by lia.
  - destruct (pretty_nonneg z Hn) as (c & s & E & Hc & Hd). unfold Atoi. rewrite E in *.
    assert (c ≠ "-"%char) by (intros ->; by apply Hc). assert (c ≠ "+"%char) by (intros ->; by apply Hc).
    rewrite !decide_False by done. rewrite Hd, Z2N.id by done. by rewrite decide_True by lia.
Qed.
