(* ===== verification/MRApps.v ===== *)
(** * The MapReduce applications: [mrapps/wc.go], [indexer.go], [crash.go],
      [nocrash.go], [early_exit.go]

    Each application is a pair of functions [Map] and [Reduce]. The lemmas
    state what the framework needs of them: the pairs [Map] emits survive the
    JSON files, and [Reduce] does not depend on the order of the values. *)

From stdpp Require Import pretty sorting.
From S2P Require Import Prelude Lo TaskManager Utf8 Json.

Open Scope list_scope.
Open Scope Z_scope.

(** ** The standard library, as the applications use it *)

(** The order of Go strings: byte by byte. *)
Definition string_le (a b : string) : Prop := String.leb a b = true.
#[export] Instance string_le_dec a b : Decision (string_le a b).
Proof. unfold string_le. apply _. Defined.

(** [sort.Strings] *)
Definition sort_Strings (l : list string) : list string := merge_sort string_le l.

(** [strings.Join] *)
Fixpoint strings_Join (l : list string) (sep : string) : string :=
  match l with
  | [] => EmptyString
  | [s] => s
  | s :: l => s +:+ sep +:+ strings_Join l sep
  end.

(** [strconv.Itoa] *)
Definition Itoa (z : Z) : string := pretty z.

Definition itoa_len {A} (l : list A) : string := Itoa (Z.of_nat (length l)).

(** [strings.FieldsFunc]: the maximal runs of runes that do not satisfy [f];
    [cur] is the run being read. *)
Fixpoint fields_loop (f : Z → bool) (rcs : list (Z * string)) (cur : option string) : list string :=
  match rcs with
  | [] => match cur with Some w => [w] | None => [] end
  | (r, chunk) :: rcs =>
      if f r then
        match cur with
        | Some w => w :: fields_loop f rcs None
        | None => fields_loop f rcs None
        end
      else fields_loop f rcs (Some (default EmptyString cur +:+ chunk))
  end.

Definition FieldsFunc (s : string) (f : Z → bool) : list string := fields_loop f (runes s) None.

(** [unicode.IsLetter]: the ASCII letters, and a table for the other runes. *)
Definition IsLetter (table : Z → bool) (r : Z) : bool :=
  if decide (r < RuneSelf)
  then bool_decide (0x41 <= r <= 0x5A ∨ 0x61 <= r <= 0x7A)
  else table r.

(** ** [wc.go] *)

Module wc.
Definition Map (table : Z → bool) (filename contents : string) : list KeyValue :=
  let ff r := negb (IsLetter table r) in
  let words := FieldsFunc contents ff in
  fold_left (λ kva w, kva ++ [mkKeyValue w "1"]) words [].

Definition Reduce (key : string) (values : list string) : string := itoa_len values.
End wc.

(** ** [indexer.go]

    [Map] ranges over a set of words kept in a map: [order] is the order of
    the range. *)

Module indexer.
Definition Map (table : Z → bool) (order : list string → list string) (document value : string) : list KeyValue :=
  let words := FieldsFunc value (λ r, negb (IsLetter table r)) in
  let m := fold_left (λ (m : list string) w, if decide (w ∈ m) then m else m ++ [w]) words [] in
  fold_left (λ res w, res ++ [mkKeyValue w document]) (order m) [].

Definition Reduce (key : string) (values : list string) : string :=
  let values := sort_Strings values in
  itoa_len values +:+ " " +:+ strings_Join values ",".
End indexer.

(** ** [nocrash.go] and [crash.go]

    The two differ in [maybeCrash], which in [crash.go] ends the process or
    delays it; the random number is an argument. *)

Module nocrash.
Definition maybeCrash (rr : Z) : outcome unit := if false && bool_decide (rr < 500) then Fatal else Ret tt.

Definition Map_body (filename contents : string) : list KeyValue :=
  [mkKeyValue "a" filename; mkKeyValue "b" (Itoa (Z.of_nat (String.length filename)));
   mkKeyValue "c" (Itoa (Z.of_nat (String.length contents))); mkKeyValue "d" "xyzzy"].

Definition Reduce_body (key : string) (values : list string) : string :=
  strings_Join (sort_Strings values) " ".

Definition Map (rr : Z) (filename contents : string) : outcome (list KeyValue) :=
  _ ← maybeCrash rr; Ret (Map_body filename contents).

Definition Reduce (rr : Z) (key : string) (values : list string) : outcome string :=
  _ ← maybeCrash rr; Ret (Reduce_body key values).
End nocrash.

Module crash.
Definition maybeCrash (rr : Z) : outcome unit := if decide (rr < 330) then Fatal else Ret tt.

Definition Map (rr : Z) (filename contents : string) : outcome (list KeyValue) :=
  _ ← maybeCrash rr; Ret (nocrash.Map_body filename contents).

Definition Reduce (rr : Z) (key : string) (values : list string) : outcome string :=
  _ ← maybeCrash rr; Ret (nocrash.Reduce_body key values).
End crash.

(** ** [early_exit.go] (the delay of [Reduce] aside) *)

Module early_exit.
Definition Map (filename contents : string) : list KeyValue := [] ++ [mkKeyValue filename "1"].
Definition Reduce (key : string) (values : list string) : string := itoa_len values.
End early_exit.

(** ** Lemmas *)

Section strings.

Lemma ascii_compare_byte a b : Ascii.compare a b = N.compare (Ascii.N_of_ascii a) (Ascii.N_of_ascii b).
Proof. reflexivity. Qed.

Lemma string_compare_trans a b c :
  String.compare a b ≠ Gt → String.compare b c ≠ Gt → String.compare a c ≠ Gt.
Proof.
  revert b c. induction a as [|x a IH]; intros [|y b] [|z c]; simpl; try done.
  rewrite !ascii_compare_byte.
  destruct (N.compare_spec (Ascii.N_of_ascii x) (Ascii.N_of_ascii y)) as [Exy|Lxy|Gxy];
    destruct (N.compare_spec (Ascii.N_of_ascii y) (Ascii.N_of_ascii z)) as [Eyz|Lyz|Gyz];
    intros H1 H2; try done;
    destruct (N.compare_spec (Ascii.N_of_ascii x) (Ascii.N_of_ascii z)) as [Exz|Lxz|Gxz];
    try done; try lia. by eapply IH.
Qed.

#[export] Instance string_le_trans : Transitive string_le.
Proof.
  intros a b c. unfold string_le, String.leb. intros H1 H2.
  pose proof (string_compare_trans a b c) as H.
  destruct (String.compare a b), (String.compare b c), (String.compare a c); try done;
    exfalso; by apply H.
Qed.

#[export] Instance string_le_total : Total string_le.
Proof. intros a b. apply String.leb_total. Qed.

#[export] Instance string_le_antisym : AntiSymm (=) string_le.
Proof. intros a b. apply String.leb_antisym. Qed.

(** Sorting forgets the order. *)
Lemma sort_Strings_perm l l' : l ≡ₚ l' → sort_Strings l = sort_Strings l'.
Proof.
  intros Hp. apply (StronglySorted_unique string_le);
    [apply StronglySorted_merge_sort; apply _..|].
  unfold sort_Strings. by rewrite !merge_sort_Permutation.
Qed.

Lemma fold_left_snoc {A B} (f : A → B) l acc :
  fold_left (λ acc x, acc ++ [f x]) l acc = acc ++ map f l.
Proof.
  revert acc. induction l as [|x l IH]; intros acc; simpl; [by rewrite app_nil_r|].
  by rewrite IH, <- app_assoc.
Qed.

(** Concatenations of valid chunks are valid. *)
Lemma valid_concat cs : Forall valid_chunk cs → valid_utf8 (string_concat cs).
Proof.
  unfold valid_utf8. induction 1 as [|c cs Hc Hcs IH]; [constructor|].
  cbn [string_concat foldr]. fold (string_concat cs). rewrite runes_valid_app by done. by constructor.
Qed.

Lemma valid_ascii s :
  (∀ c, In c (String.list_ascii_of_string s) → byte_of c < RuneSelf) → valid_utf8 s.
Proof.
  unfold valid_utf8. induction s as [|c s IH]; intros Hall; [constructor|].
  rewrite runes_ascii by (apply Hall; by left). constructor.
  - apply ascii_chunk, Hall. by left.
  - apply IH. intros c' Hc'. apply Hall. by right.
Qed.
End strings.

(** A word of [FieldsFunc]: one or more chunks that satisfy [Q]. *)
Definition chunk_word (Q : string → Prop) (w : string) : Prop :=
  ∃ cs, w = string_concat cs ∧ cs ≠ [] ∧ Forall Q cs.

Section fields.
Context (f : Z → bool).

Lemma string_concat_snoc cs c : string_concat (cs ++ [c]) = string_concat cs +:+ c.
Proof.
  unfold string_concat. induction cs as [|c' cs IH]; simpl; [by rewrite app_empty_r|].
  by rewrite IH, app_assoc_s.
Qed.

Lemma fields_loop_words Q rcs cur :
  Forall (λ rc, f rc.1 = false → Q rc.2) rcs →
  (∀ w, cur = Some w → chunk_word Q w) →
  Forall (chunk_word Q) (fields_loop f rcs cur).
Proof.
  intros Hall. revert cur. induction Hall as [|[r c] rcs Hrc Hall IH]; intros cur Hcur; simpl in *.
  - destruct cur as [w|]; [|constructor]. constructor; [by apply Hcur | constructor].
  - destruct (f r) eqn:Hf.
    + destruct cur as [w|]; [constructor; [by apply Hcur|]|]; by apply IH.
    + apply IH. intros w [= <-]. destruct cur as [w|]; simpl.
      * destruct (Hcur w eq_refl) as (cs & -> & Hne & Hq). exists (cs ++ [c]).
        rewrite string_concat_snoc. split; [done|]. split; [by destruct cs|].
        apply Forall_app. split; [done|]. constructor; [by apply Hrc | constructor].
      * exists [c]. simpl. rewrite app_empty_r. split; [done|]. split; [done|].
        constructor; [by apply Hrc | constructor].
Qed.

(** The words keep every rune that is not a separator, in order. *)
Lemma fields_loop_concat rcs cur :
  string_concat (fields_loop f rcs cur) =
  default EmptyString cur +:+ string_concat ((filter (λ rc, f rc.1 = false) rcs).*2).
Proof.
  revert cur. induction rcs as [|[r c] rcs IH]; intros cur.
  - destruct cur as [w|]; [|done]. cbn. by rewrite app_empty_r.
  - cbn [fields_loop]. rewrite filter_cons. cbn [fst]. destruct (f r) eqn:Hf.
    + rewrite decide_False by done. destruct cur as [w|]; cbn [string_concat foldr default].
      * fold (string_concat (fields_loop f rcs None)). by rewrite IH.
      * by rewrite IH.
    + rewrite decide_True by done. rewrite IH. rewrite fmap_cons. cbn [string_concat foldr default fst snd].
      apply app_assoc_s.
Qed.
End fields.

(** A letter: a valid chunk whose rune is a letter. *)
Definition letter_chunk (table : Z → bool) (c : string) : Prop :=
  valid_chunk c ∧ IsLetter table (DecodeRune c).1 = true.

Section apps.
Context (table : Z → bool) (Htable : table RuneError = false).

Lemma words_letters s :
  Forall (chunk_word (letter_chunk table)) (FieldsFunc s (λ r, negb (IsLetter table r))).
Proof using Htable.
  apply fields_loop_words; [|done]. eapply Forall_impl; [apply runes_chunks|].
  intros [r c] Hrc Hl. apply negb_false_iff in Hl. simpl in *.
  destruct Hrc as [[-> _]|[Hv ->]]; [|by split].
  unfold IsLetter in Hl. rewrite decide_False in Hl by (unfold RuneError, RuneSelf; lia). congruence.
Qed.

Lemma words_valid s w : w ∈ FieldsFunc s (λ r, negb (IsLetter table r)) → valid_utf8 w.
Proof using Htable.
  intros Hw. pose proof (words_letters s) as Hall. rewrite Forall_forall in Hall.
  destruct (Hall w Hw) as (cs & -> & _ & Hcs). apply valid_concat.
  eapply Forall_impl; [exact Hcs|]. by intros c [? _].
Qed.

Lemma map_Key v l : Key <$> map (λ w, mkKeyValue w v) l = l.
Proof. induction l as [|w l IH]; [done|]. cbn [map]. rewrite fmap_cons. by rewrite IH. Qed.

Lemma wc_Map_map filename contents :
  wc.Map table filename contents =
  map (λ w, mkKeyValue w "1") (FieldsFunc contents (λ r, negb (IsLetter table r))).
Proof. unfold wc.Map. by rewrite (fold_left_snoc (λ w, mkKeyValue w "1")). Qed.

Lemma wc_Map_valid filename contents : Forall kv_valid (wc.Map table filename contents).
Proof using Htable.
  rewrite wc_Map_map. apply Forall_forall. intros kv Hin. apply list_elem_of_In, in_map_iff in Hin as (w & <- & Hw).
  split; [|by apply valid_ascii; simpl; intros c [<-|[]]]. simpl.
  apply (words_valid contents). by apply list_elem_of_In.
Qed.

Lemma wc_Reduce_perm key vs vs' : vs ≡ₚ vs' → wc.Reduce key vs = wc.Reduce key vs'.
Proof. intros Hp. unfold wc.Reduce, itoa_len. by rewrite Hp. Qed.

Lemma indexer_Reduce_perm key vs vs' : vs ≡ₚ vs' → indexer.Reduce key vs = indexer.Reduce key vs'.
Proof. intros Hp. unfold indexer.Reduce. by rewrite (sort_Strings_perm _ _ Hp). Qed.

Lemma nocrash_Reduce_perm key vs vs' : vs ≡ₚ vs' → nocrash.Reduce_body key vs = nocrash.Reduce_body key vs'.
Proof. intros Hp. unfold nocrash.Reduce_body. by rewrite (sort_Strings_perm _ _ Hp). Qed.

Lemma dedup_words words acc :
  NoDup acc →
  let m := fold_left (λ (m : list string) w, if decide (w ∈ m) then m else m ++ [w]) words acc in
  NoDup m ∧ ∀ w, w ∈ m ↔ w ∈ acc ∨ w ∈ words.
Proof.
  revert acc. induction words as [|w words IH]; intros acc Hnd; simpl.
  - split; [done|]. intros w. rewrite elem_of_nil. tauto.
  - case_decide as Hw.
    + destruct (IH acc Hnd) as [H1 H2]. split; [done|]. intros w'. rewrite H2, elem_of_cons. naive_solver.
    + destruct (IH (acc ++ [w])) as [H1 H2].
      { apply NoDup_app. split; [done|]. split; [|apply NoDup_singleton].
        intros x Hx ->%list_elem_of_singleton. done. }
      split; [done|]. intros w'. rewrite H2, elem_of_app, list_elem_of_singleton, elem_of_cons. tauto.
Qed.
End apps.

(** ** Properties *)

(** The word-count application counts words: for each word, the number of
    pairs [Map] emits is the number of its occurrences among the words of the
    text, each emitted key is a non-empty run of letters, valid UTF-8, and the
    keys together hold the letters of the text, in order and without loss; the index application emits each
    distinct word of a document once, whatever the order of the range. *)
Theorem applications_emit_words (table : Z → bool) (order : list string → list string) document text :
  table RuneError = false → (∀ l, order l ≡ₚ l) →
  let words := FieldsFunc text (λ r, negb (IsLetter table r)) in
  (∀ w, wc.Reduce w (Value <$> filter (λ kv, Key kv = w) (wc.Map table document text)) =
        Itoa (Z.of_nat (length (filter (λ w', w' = w) words)))) ∧
  Forall (λ kv, chunk_word (letter_chunk table) (Key kv) ∧ kv_valid kv) (wc.Map table document text) ∧
  string_concat (Key <$> wc.Map table document text) =
    string_concat ((filter (λ rc, IsLetter table rc.1 = true) (runes text)).*2) ∧
  NoDup (Key <$> indexer.Map table order document text) ∧
  (∀ kv, kv ∈ indexer.Map table order document text ↔ Key kv ∈ words ∧ Value kv = document).
Proof.
  intros Htable Horder words.
  assert (Hkeys : Key <$> wc.Map table document text = words).
  { rewrite wc_Map_map. fold words. apply map_Key. }
  split; [|split; [|split; [|split]]].
  - intros w. unfold wc.Reduce, itoa_len. rewrite length_fmap. do 2 f_equal.
    rewrite wc_Map_map. fold words. generalize words. intros l. induction l as [|w' l IH]; [done|].
    cbn [map]. rewrite !filter_cons. cbn [Key]. case_decide; simpl; by rewrite IH.
  - apply Forall_and. split; [|by apply wc_Map_valid].
    pose proof (words_letters table Htable text) as Hl. fold words in Hl. rewrite <- Hkeys in Hl.
    rewrite Forall_fmap in Hl. exact Hl.
  - rewrite Hkeys. unfold words, FieldsFunc. rewrite fields_loop_concat.
    rewrite (list_filter_iff _ (λ rc, IsLetter table rc.1 = true)); [done|].
    intros [r c]. by rewrite negb_false_iff.
  - unfold indexer.Map. fold words. rewrite (fold_left_snoc (λ w, mkKeyValue w document)).
    destruct (dedup_words words [] NoDup_nil_2) as [Hnd _].
    set (m := fold_left _ words []) in *. simpl.
    rewrite map_Key. by rewrite Horder.
  - intros [k v]. unfold indexer.Map. fold words. rewrite (fold_left_snoc (λ w, mkKeyValue w document)).
    destruct (dedup_words words [] NoDup_nil_2) as [_ Hin].
    set (m := fold_left _ words []) in *. simpl.
    specialize (Hin k). rewrite list_elem_of_In, in_map_iff. split.
    + intros (w & [= -> ->] & Hw). rewrite <- list_elem_of_In, Horder, Hin, elem_of_nil in Hw. tauto.
    + intros [Hk ->]. exists k. split; [done|]. rewrite <- list_elem_of_In, Horder, Hin. by right.
Qed.

Lemma applications_emit_words_witness :
  wc.Reduce "to" (Value <$> filter (λ kv, Key kv = "to"%string) (wc.Map (λ _, false) "f" "to be, or not to be")) = "2"%string ∧
  NoDup (Key <$> indexer.Map (λ _, false) reverse "f" "to be, or not to be").
Proof.
  destruct (applications_emit_words (λ _, false) reverse "f" "to be, or not to be" eq_refl
    reverse_Permutation) as (Hc & _ & _ & Hn & _).
  split; [|exact Hn]. rewrite (Hc "to"%string). by vm_compute.
Defined.
