(* ===== verification/Sequential.v ===== *)
(** * The sequential MapReduce: [main/mrsequential.go]

    The reference the distributed system is compared with: all intermediate
    pairs in one slice, sorted by key, one output line per run of equal keys.
    [spec_lines] is the order-free specification both are proved against. *)

From stdpp Require Import sorting.
From S2P Require Import Prelude TaskManager Utf8 Json MRApps.

Open Scope list_scope.
Open Scope Z_scope.

(** [ByKey.Less] as an order; [sort.Sort] is not stable, so any sorted
    permutation may come out of it. *)
Definition key_le (a b : KeyValue) : Prop := string_le (Key a) (Key b).

#[export] Instance key_le_dec a b : Decision (key_le a b).
Proof. unfold key_le. apply _. Defined.

Definition sorted_of (sorted intermediate : list KeyValue) : Prop :=
  sorted ≡ₚ intermediate ∧ StronglySorted key_le sorted.

(** One line of output, [fmt.Fprintf(ofile, "%v %v\n", key, output)]. *)
Definition output_line (key output : string) : string := (key +:+ " " +:+ output +:+ chr 0x0A)%string.

(** The map phase; [None] is [log.Fatalf] on a file that cannot be read. *)
Fixpoint map_phase (mapf : string → string → list KeyValue) (files : list string) (fs : gmap string string) (intermediate : list KeyValue) :
    option (list KeyValue) :=
  match files with
  | [] => Some intermediate
  | filename :: files =>
      match fs !! filename with
      | None => None
      | Some content => map_phase mapf files fs (intermediate ++ mapf filename content)
      end
  end.

Section sequential.
Context (reducef : string → list string → string).

(** The run of keys equal to [k] at the head: [j] of the inner loop. *)
Fixpoint take_run (k : string) (l : list KeyValue) : list KeyValue * list KeyValue :=
  match l with
  | kv :: l' =>
      if decide (Key kv = k) then let '(run, rest) := take_run k l' in (kv :: run, rest)
      else ([], l)
  | [] => ([], [])
  end.

(** The reduce phase: the lines written, in order. The fuel is the number of
    pairs, and every run has at least one. *)
Fixpoint reduce_loop (fuel : nat) (l : list KeyValue) : list string :=
  match fuel, l with
  | Datatypes.S fuel, kv :: l' =>
      let '(run, rest) := take_run (Key kv) l' in
      let values := Value <$> kv :: run in
      output_line (Key kv) (reducef (Key kv) values) :: reduce_loop fuel rest
  | _, _ => []
  end.

Definition seq_lines (sorted : list KeyValue) : list string := reduce_loop (length sorted) sorted.

(** [main]: the contents of [mr-out-0]; [sort_by_key] is [sort.Sort(ByKey(...))]. *)
Definition mrsequential (mapf : string → string → list KeyValue) (sort_by_key : list KeyValue → list KeyValue) (files : list string)
    (fs : gmap string string) : option string :=
  intermediate ← map_phase mapf files fs [];
  Some (string_concat (seq_lines (sort_by_key intermediate))).

(** ** The order-free specification *)

Definition values_of (k : string) (kvs : list KeyValue) : list string :=
  Value <$> filter (λ kv, Key kv = k) kvs.

(** One line per distinct key. *)
Definition spec_lines (kvs : list KeyValue) : list string :=
  (λ k, output_line k (reducef k (values_of k kvs))) <$> remove_dups (Key <$> kvs).

Hypothesis reducef_perm : ∀ k vs vs', vs ≡ₚ vs' → reducef k vs = reducef k vs'.

Lemma values_of_perm k kvs kvs' : kvs ≡ₚ kvs' → values_of k kvs ≡ₚ values_of k kvs'.
Proof. intros Hp. unfold values_of. by rewrite Hp. Qed.

Lemma NoDup_remove_dups_perm (l l' : list string) :
  (∀ x, x ∈ l ↔ x ∈ l') → remove_dups l ≡ₚ remove_dups l'.
Proof.
  intros Hin. apply NoDup_Permutation; [apply NoDup_remove_dups..|].
  intros x. by rewrite !elem_of_remove_dups.
Qed.

(** A line per key of any duplicate-free list with the same keys. *)
Lemma spec_lines_keys ks kvs :
  NoDup ks → (∀ k, k ∈ ks ↔ k ∈ Key <$> kvs) →
  (λ k, output_line k (reducef k (values_of k kvs))) <$> ks ≡ₚ spec_lines kvs.
Proof.
  intros Hnd Hin. unfold spec_lines. apply fmap_Permutation.
  apply NoDup_Permutation; [done | apply NoDup_remove_dups |].
  intros k. by rewrite elem_of_remove_dups.
Qed.

Lemma spec_lines_perm kvs kvs' : kvs ≡ₚ kvs' → spec_lines kvs ≡ₚ spec_lines kvs'.
Proof using reducef_perm.
  intros Hp. rewrite <- (spec_lines_keys (remove_dups (Key <$> kvs)) kvs').
  - unfold spec_lines. apply eq_Permutation. apply list_fmap_ext. intros i k _.
    by rewrite (reducef_perm k _ _ (values_of_perm k _ _ Hp)).
  - apply NoDup_remove_dups.
  - intros k. by rewrite elem_of_remove_dups, Hp.
Qed.

Lemma take_run_spec k l run rest :
  take_run k l = (run, rest) →
  l = run ++ rest ∧ Forall (λ kv, Key kv = k) run ∧
  match rest with [] => True | kv :: _ => Key kv ≠ k end.
Proof.
  revert run rest. induction l as [|kv l IH]; intros run rest; simpl; [by intros [= <- <-]|].
  case_decide as Hk.
  - destruct (take_run k l) as [run' rest'] eqn:E. intros [= <- <-].
    destruct (IH run' rest' eq_refl) as (-> & Hall & Hr). split; [done|]. split; [by constructor | done].
  - intros [= <- <-]. done.
Qed.

(** In a sorted list the pairs of a key are consecutive. *)
Lemma sorted_run kv l run rest :
  StronglySorted key_le (kv :: l) → take_run (Key kv) l = (run, rest) →
  StronglySorted key_le rest ∧ Forall (λ kv', Key kv' ≠ Key kv) rest ∧
  filter (λ kv', Key kv' = Key kv) (kv :: l) = kv :: run.
Proof.
  intros Hs Ht. apply take_run_spec in Ht as (-> & Hrun & Hrest).
  apply StronglySorted_inv in Hs as [Hs Hle].
  apply StronglySorted_app_1_r in Hs as Hs'. split; [done|].
  assert (Hne : Forall (λ kv', Key kv' ≠ Key kv) rest).
  { destruct rest as [|kv1 rest]; [constructor|].
    apply StronglySorted_inv in Hs' as [_ Hle1].
    apply Forall_app in Hle as [_ Hle]. apply Forall_cons in Hle as [Hle _].
    constructor; [done|]. eapply Forall_impl; [exact Hle1|].
    intros kv2 Hle2 Heq. apply Hrest. unfold key_le in *. rewrite Heq in Hle2.
    by apply (anti_symm string_le). }
  split; [done|]. rewrite filter_cons_True by done. f_equal.
  rewrite filter_app, (filter_all _ run), (filter_none _ rest), app_nil_r; done.
Qed.

(** The sequential program writes one line per distinct key. *)
Lemma seq_lines_spec sorted : StronglySorted key_le sorted → seq_lines sorted ≡ₚ spec_lines sorted.
Proof using reducef_perm.
  unfold seq_lines. remember (length sorted) as fuel eqn:Hf.
  assert (Hle : (length sorted <= fuel)%nat) by lia. clear Hf. revert sorted Hle.
  induction fuel as [|fuel IH]; intros [|kv l] Hle Hs; simpl in Hle; [done | lia | done |].
  cbn [reduce_loop]. destruct (take_run (Key kv) l) as [run rest] eqn:Ht.
  destruct (sorted_run kv l run rest Hs Ht) as (Hs' & Hne & Hfil).
  apply take_run_spec in Ht as (-> & Hrun & _).
  rewrite IH; [|rewrite length_app in Hle; lia | done].
  rewrite <- (spec_lines_keys (Key kv :: remove_dups (Key <$> rest)) (kv :: run ++ rest)).
  - rewrite (fmap_cons _ (Key kv)). unfold values_of at 1. rewrite Hfil. apply Permutation_cons; [done|].
    unfold spec_lines. apply eq_Permutation. apply list_fmap_ext. intros i k Hk.
    apply list_elem_of_lookup_2 in Hk. apply elem_of_remove_dups, list_elem_of_fmap in Hk as (kv' & -> & Hin).
    rewrite Forall_forall in Hne. specialize (Hne _ Hin). f_equal. f_equal. unfold values_of.
    rewrite filter_cons_False by done. rewrite filter_app, (filter_none _ run); [done|].
    eapply Forall_impl; [exact Hrun|]. simpl. congruence.
  - constructor; [|apply NoDup_remove_dups]. rewrite elem_of_remove_dups, list_elem_of_fmap.
    intros (kv' & Heq & Hin). rewrite Forall_forall in Hne. by apply (Hne kv' Hin).
  - intros k. rewrite fmap_cons, fmap_app, !elem_of_cons, elem_of_app, elem_of_remove_dups.
    assert (Hrk : k ∈ Key <$> run → k = Key kv).
    { intros (kv' & -> & Hin)%list_elem_of_fmap. rewrite Forall_forall in Hrun. by apply Hrun. }
    naive_solver.
Qed.

Lemma sorted_of_lines sorted kvs : sorted_of sorted kvs → seq_lines sorted ≡ₚ spec_lines kvs.
Proof using reducef_perm.
  intros [Hp Hs]. rewrite seq_lines_spec by done. by apply spec_lines_perm.
Qed.

(** Lines of a partition of the keys. *)
Lemma spec_lines_filter_keys (P : string → Prop) `{!∀ k, Decision (P k)} kvs :
  spec_lines (filter (λ kv, P (Key kv)) kvs) ≡ₚ
  (λ k, output_line k (reducef k (values_of k kvs))) <$> filter P (remove_dups (Key <$> kvs)).
Proof.
  rewrite <- (spec_lines_keys (filter P (remove_dups (Key <$> kvs)))).
  - apply eq_Permutation. apply list_fmap_ext. intros i k Hk.
    apply list_elem_of_lookup_2, list_elem_of_filter in Hk as [HP _]. do 2 f_equal.
    unfold values_of. rewrite list_filter_filter. f_equal. apply list_filter_iff. naive_solver.
  - apply NoDup_filter, NoDup_remove_dups.
  - intros k. rewrite list_elem_of_filter, elem_of_remove_dups, !list_elem_of_fmap.
    setoid_rewrite list_elem_of_filter. naive_solver.
Qed.

Lemma concat_filters {A} (part : A → Z) (l : list A) n :
  0 <= n → Forall (λ x, 0 <= part x < n) l →
  concat ((λ r, filter (λ x, part x = r) l) <$> seqZ 0 n) ≡ₚ l.
Proof.
  intros Hn. induction 1 as [|x l Hx Hl IH].
  - generalize (seqZ 0 n). intros rs. induction rs as [|r rs IHr]; [done|]. exact IHr.
  - transitivity (x :: concat ((λ r, filter (λ x, part x = r) l) <$> seqZ 0 n)); [|by constructor].
    assert (Hin : part x ∈ seqZ 0 n) by (apply elem_of_seqZ; lia).
    pose proof (NoDup_seqZ 0 n) as Hnd. revert Hin Hnd. clear IH Hx Hl. generalize (seqZ 0 n).
    intros rs. induction rs as [|r rs IHr]; [by intros ?%elem_of_nil|].
    intros Hin [Hr Hnd]%NoDup_cons. rewrite !fmap_cons. cbn [concat]. rewrite filter_cons.
    case_decide as Hd.
    + subst r. simpl. apply Permutation_cons; [done|]. apply Permutation_app_head.
      apply eq_Permutation. f_equal. apply list_fmap_ext. intros i r Hlk.
      rewrite filter_cons_False; [done|]. intros Heq. apply Hr. rewrite Heq. by eapply list_elem_of_lookup_2.
    + apply elem_of_cons in Hin as [Heq|Hin]; [congruence|]. rewrite (IHr Hin Hnd).
      symmetry. apply Permutation_middle.
Qed.

(** The lines of the parts are the lines of the whole. *)
Lemma spec_lines_partition (part : string → Z) kvs n :
  0 <= n → (∀ kv, kv ∈ kvs → 0 <= part (Key kv) < n) →
  concat ((λ r, spec_lines (filter (λ kv, part (Key kv) = r) kvs)) <$> seqZ 0 n) ≡ₚ spec_lines kvs.
Proof.
  intros Hn Hpart. set (ks := remove_dups (Key <$> kvs)).
  set (line k := output_line k (reducef k (values_of k kvs))).
  transitivity (concat ((λ r, line <$> filter (λ k, part k = r) ks) <$> seqZ 0 n)).
  - generalize (seqZ 0 n). intros rs. induction rs as [|r rs IH]; [done|].
    rewrite !fmap_cons. cbn [concat]. rewrite IH. apply Permutation_app_tail.
    exact (spec_lines_filter_keys (λ k, part k = r) kvs).
  - assert (E : ∀ rs, concat ((λ r, line <$> filter (λ k, part k = r) ks) <$> rs) =
      line <$> concat ((λ r, filter (λ k, part k = r) ks) <$> rs)).
    { induction rs as [|r rs IH]; [done|]. rewrite !fmap_cons. cbn [concat]. by rewrite fmap_app, IH. }
    rewrite E. unfold spec_lines. fold ks. fold line. apply fmap_Permutation.
    apply concat_filters; [done|]. apply Forall_forall. intros k.
    unfold ks. rewrite elem_of_remove_dups. intros (kv & -> & Hin)%list_elem_of_fmap. by apply Hpart.
Qed.
End sequential.
