(* ===== verification/Worker.v ===== *)
(** * The MapReduce worker: [mr/worker.go], with [ReadKeyValues] and
      [WriteKeyValues] of [mr/util.go]

    The file system is a map from names to contents. What the operating system
    chooses (the names of temporary files, failures to create one) and the
    orders in which Go ranges over maps are arguments. The loops around the
    remote calls are functions on an environment [E]: a call maps it to the
    environment after the call and the reply, if one arrived. *)

From stdpp Require Import pretty.
From S2P Require Import Prelude Fnv Lo TaskManager Coordinator Utf8 Json MRApps Sequential.

Open Scope list_scope.
Open Scope Z_scope.

Definition RPCRetryCount : nat := 3.

Definition ihash (key : string) : Z := Z.land (fnv32a key) 0x7fffffff.

Abbreviation filesystem := (gmap string string).

(** ** Files *)

Definition readFileContent (filename : string) (fs : filesystem) : option string := fs !! filename.

(** [os.CreateTemp("", pattern)]: an error, or a new empty file under a name
    that was not in use. *)
Definition temp_prefix : string := "/tmp/reduce-tmpout-".

Definition CreateTemp (choice : option string) (fs : filesystem) : option (filesystem * string) :=
  suffix ← choice;
  let name := (temp_prefix +:+ suffix)%string in
  match fs !! name with
  | Some _ => None
  | None => Some (<[name := EmptyString]> fs, name)
  end.

(** [WriteKeyValues]: one [Encode] per pair appends to the file. *)
Definition WriteKeyValues (choice : option string) (kva : list KeyValue) (fs : filesystem) :
    option (filesystem * string) :=
  '(fs, name) ← CreateTemp choice fs;
  Some (fold_left (λ fs kv, <[name := (lookup_zero EmptyString name fs +:+ encode_kv kv)%string]> fs) kva fs, name).

Definition ReadKeyValues (filename : string) (fs : filesystem) : option (list KeyValue) :=
  content ← fs !! filename; Some (decode_kvs content).

(** [os.Create]: an empty file, truncating the one that was there. *)
Definition os_Create (name : string) (fs : filesystem) : filesystem := <[name := EmptyString]> fs.

(** [ofile.WriteString(content)] on a file opened at offset 0: overwrites. *)
Definition WriteString (name content : string) (fs : filesystem) : filesystem :=
  <[name := (content +:+ string_drop (String.length content) (lookup_zero EmptyString name fs))%string]> fs.

(** ** Tasks *)

Section tasks.
Context {L : Lo}.
Context (mapf : string → string → list KeyValue) (reducef : string → list string → string).

(** The reduce task of a pair; dividing by [NReduce = 0] is a panic. *)
Definition part (n : Z) (key : string) : Z := Z.rem (ihash key) n.

Definition taskMap (task : MapTask) (kva : list KeyValue) : outcome (gmap Z (list KeyValue)) :=
  if decide (NReduce task = 0 ∧ kva ≠ []) then Panic
  else Ret (lo_group_by kva (λ kv, part (NReduce task) (Key kv))).

(** [for key, kvs := range taskMap]: the files written and [reduceTaskMap];
    [None] when a file cannot be created. *)
Fixpoint write_groups (groups : list (Z * list KeyValue)) (choices : list (option string))
    (fs : filesystem) (reduceTaskMap : gmap Z string) : filesystem * option (gmap Z string) :=
  match groups with
  | [] => (fs, Some reduceTaskMap)
  | (key, kvs) :: groups =>
      match WriteKeyValues (default None (head choices)) kvs fs with
      | None => (fs, None)
      | Some (fs, filename) => write_groups groups (tail choices) fs (<[key := filename]> reduceTaskMap)
      end
  end.

(** [mapTask] up to its report: the file system and the request to send;
    [None] when the task fails with an error. *)
Definition mapTask_run (workerID : Z) (choices : list (option string))
    (range : gmap Z (list KeyValue) → list (Z * list KeyValue)) (task : MapTask) (fs : filesystem) :
    outcome (filesystem * option ReportMapTaskRequest) :=
  match readFileContent (MapTask_Id task) fs with
  | None => Ret (fs, None)
  | Some content =>
      let kva := mapf (MapTask_Id task) content in
      groups ← taskMap task kva;
      let '(fs, reduceTaskMap) := write_groups (range groups) choices fs ∅ in
      Ret (fs, mkReportMapTaskRequest workerID task <$> reduceTaskMap)
  end.

(** [reduceTask]: the pairs of all files (an unreadable file counts as empty), *)
Definition allKVs (task : ReduceTask) (fs : filesystem) : list KeyValue :=
  lo_flat_map (Filenames task) (λ item _, default [] (ReadKeyValues item fs)).

Definition reduce_groups (kvs : list KeyValue) : gmap string (list KeyValue) :=
  lo_group_by kvs Key.

(** the lines in the order of the range over [taskMap], *)
Definition reduce_lines (entries : list (string * list KeyValue)) : list string :=
  (λ e, output_line e.1 (reducef e.1 (lo_map e.2 (λ kv _, Value kv)))) <$> entries.

Definition reduce_content (range : gmap string (list KeyValue) → list (string * list KeyValue))
    (task : ReduceTask) (fs : filesystem) : string :=
  string_concat (reduce_lines (range (reduce_groups (allKVs task fs)))).

(** and the output file, [mr-out-] and the task number. *)
Definition out_name (r : Z) : string := ("mr-out-" +:+ Itoa r)%string.
End tasks.

(** ** The loops around the remote calls *)

Section loops.
Context {E : Type}.

(** [for i := range RPCRetryCount { if call(...) { return } }] *)
Fixpoint retry {R : Type} (n : nat) (call : E → E * option R) (e : E) : E * option R :=
  match n with
  | O => (e, None)
  | Datatypes.S n =>
      match call e with
      | (e, Some r) => (e, Some r)
      | (e, None) => retry n call e
      end
  end.

Context (call_Register : E → E * option Z)
        (call_AssignTask : E → E * option (option MapTask * option ReduceTask))
        (call_IsDone : E → E * option bool)
        (call_ReportMapTask : ReportMapTaskRequest → E → E * option unit)
        (call_ReportReduceTask : ReportReduceTaskRequest → E → E * option unit)
        (run_map : Z → MapTask → E → E * option ReportMapTaskRequest)
        (run_reduce : Z → ReduceTask → E → E * option ReportReduceTaskRequest).

(** [Register]: the worker id, when registered. *)
Definition Worker_Register (e : E) : E * option Z := retry RPCRetryCount call_Register e.

(** [mapTask], [reduceTask]: false stands for a non-nil error. *)
Definition mapTask (workerID : Z) (task : MapTask) (e : E) : E * bool :=
  match run_map workerID task e with
  | (e, None) => (e, false)
  | (e, Some req) =>
      let '(e, ok) := retry RPCRetryCount (call_ReportMapTask req) e in (e, bool_decide (is_Some ok))
  end.

Definition reduceTask (workerID : Z) (task : ReduceTask) (e : E) : E * bool :=
  match run_reduce workerID task e with
  | (e, None) => (e, false)
  | (e, Some req) =>
      let '(e, ok) := retry RPCRetryCount (call_ReportReduceTask req) e in (e, bool_decide (is_Some ok))
  end.

Definition Worker_AssignTask (workerID : Z) (e : E) : E * bool :=
  match retry RPCRetryCount call_AssignTask e with
  | (e, None) => (e, false)
  | (e, Some (mt, rt)) =>
      let '(e, ok) := match mt with Some task => mapTask workerID task e | None => (e, true) end in
      if negb ok then (e, false)
      else match rt with Some task => reduceTask workerID task e | None => (e, true) end
  end.

Definition IsWaiting (e : E) : E * bool :=
  match retry RPCRetryCount call_IsDone e with
  | (e, Some done) => (e, negb done)
  | (e, None) => (e, false)
  end.

(** The loop of [Worker]; [None] when the fuel is used up. *)
Fixpoint Worker_loop (fuel : nat) (workerID : Z) (e : E) : option E :=
  match fuel with
  | O => None
  | Datatypes.S fuel =>
      match IsWaiting e with
      | (e, false) => Some e
      | (e, true) => Worker_loop fuel workerID (Worker_AssignTask workerID e).1
      end
  end.

Definition Worker (fuel : nat) (e : E) : option E :=
  match Worker_Register e with
  | (e, None) => Some e
  | (e, Some workerID) => Worker_loop fuel workerID e
  end.
End loops.

(** ** Lemmas *)

Section files.

Lemma ihash_range key : 0 <= ihash key < 2 ^ 31.
Proof.
  unfold ihash. change 0x7fffffff with (Z.ones 31). rewrite Z.land_ones by lia.
  apply Z.mod_pos_bound. lia.
Qed.

Lemma part_range n key : 0 < n → 0 <= part n key < n.
Proof.
  intros Hn. unfold part. pose proof (ihash_range key).
  rewrite Z.rem_mod_nonneg by lia. apply Z.mod_pos_bound. lia.
Qed.

Lemma encode_kvs_cons kv kva : encode_kvs (kv :: kva) = (encode_kv kv +:+ encode_kvs kva)%string.
Proof. done. Qed.

(** The pairs end up in one new file. *)
Lemma WriteKeyValues_spec choice kva fs fs' name :
  WriteKeyValues choice kva fs = Some (fs', name) →
  (∃ suffix, choice = Some suffix ∧ name = (temp_prefix +:+ suffix)%string) ∧
  fs !! name = None ∧ fs' = <[name := encode_kvs kva]> fs.
Proof.
  unfold WriteKeyValues, CreateTemp. destruct choice as [suffix|]; [|done]. simpl.
  destruct (fs !! (temp_prefix +:+ suffix)%string) as [|] eqn:Hn; [done|]. simpl.
  intros [= <- <-]. split; [by eexists|]. split; [done|].
  set (name := (temp_prefix +:+ suffix)%string) in *.
  assert (Hg : ∀ pre, fold_left (λ fs kv, <[name := (lookup_zero "" name fs +:+ encode_kv kv)%string]> fs) kva
    (<[name := pre]> fs) = <[name := (pre +:+ encode_kvs kva)%string]> fs).
  { clear Hn. induction kva as [|kv kva IH]; intros pre; [by rewrite app_empty_r|].
    cbn [fold_left]. rewrite lookup_zero_insert, decide_True, insert_insert_eq by done.
    by rewrite IH, encode_kvs_cons, app_assoc_s. }
  by rewrite Hg.
Qed.

Lemma ReadKeyValues_encoded name kva fs :
  Forall kv_valid kva → fs !! name = Some (encode_kvs kva) → ReadKeyValues name fs = Some kva.
Proof. intros Hv Hn. unfold ReadKeyValues. rewrite Hn. simpl. by rewrite decode_encode_kvs. Qed.

Lemma out_name_inj r r' : out_name r = out_name r' → r = r'.
Proof. unfold out_name, Itoa. intros H. by apply (inj (String.append _)), (inj pretty) in H. Qed.

Lemma out_name_not_temp r suffix : out_name r ≠ (temp_prefix +:+ suffix)%string.
Proof. done. Qed.
End files.

(** C22 The intermediate files are faithful: what [WriteKeyValues] writes to a
    file that did not exist, [ReadKeyValues] reads back pair for pair and in
    order, for all pairs of valid UTF-8 strings, and no other file changes. *)
Theorem WriteKeyValues_ReadKeyValues choice kva fs fs' name :
  Forall kv_valid kva → WriteKeyValues choice kva fs = Some (fs', name) →
  ReadKeyValues name fs' = Some kva ∧ fs !! name = None ∧ ∀ f, f ≠ name → fs' !! f = fs !! f.
Proof.
  intros Hv (_ & Hn & ->)%WriteKeyValues_spec. split; [|split; [done|]].
  - apply ReadKeyValues_encoded; [done|]. by rewrite lookup_insert_eq.
  - intros f Hf. by rewrite lookup_insert_ne.
Qed.

Definition demo_kva : list KeyValue :=
  [mkKeyValue "a<b&c>" (String (of_byte 0xE2) (String (of_byte 0x80) (chr 0xA8))); mkKeyValue (chr 0x22) (chr 0x0A)].

Lemma WriteKeyValues_ReadKeyValues_witness :
  ∃ fs' name, WriteKeyValues (Some "1"%string) demo_kva ∅ = Some (fs', name) ∧
    ReadKeyValues name fs' = Some demo_kva.
Proof.
  destruct (WriteKeyValues (Some "1"%string) demo_kva ∅) as [[fs' name]|] eqn:E; [|by vm_compute in E].
  exists fs', name. split; [done|].
  apply (WriteKeyValues_ReadKeyValues (Some "1"%string) demo_kva ∅ fs' name); [|exact E].
  assert (Hc : ∀ s rcs, runes s = rcs → Forall (λ rc, valid_chunk rc.2) rcs → valid_utf8 s).
  { intros s rcs <-. done. }
  repeat constructor; try (eapply Hc; [by vm_compute|]);
    repeat constructor; simpl; try done; by intros [].
Defined.

(** ** The worker's loop *)

Section loop_facts.
Context {E : Type}.

(** [k] attempts in a row without a reply. *)
Fixpoint lost {R : Type} (call : E → E * option R) (k : nat) (e e' : E) : Prop :=
  match k with
  | O => e = e'
  | Datatypes.S k => ∃ e1, call e = (e1, None) ∧ lost call k e1 e'
  end.

Lemma retry_spec {R : Type} n (call : E → E * option R) e e' o :
  retry n call e = (e', o) ↔
  match o with
  | None => lost call n e e'
  | Some r => ∃ k e1, (k < n)%nat ∧ lost call k e e1 ∧ call e1 = (e', Some r)
  end.
Proof.
  revert e. induction n as [|n IH]; intros e; cbn [retry].
  - destruct o as [r|]; simpl; [split; [done | intros (k & ? & ? & _); lia]|].
    split; [by intros [= ->] | by intros ->].
  - destruct (call e) as [e1 [r1|]] eqn:Hc.
    + destruct o as [r|]; simpl.
      * split; [intros [= -> ->]; exists 0%nat, e; simpl; split; [lia | done]|].
        intros (k & e2 & Hk & Hl & He2). destruct k as [|k]; simpl in Hl; [subst; congruence|].
        destruct Hl as (? & ? & _). congruence.
      * split; [done|]. intros (? & ? & _). congruence.
    + rewrite IH. destruct o as [r|]; simpl.
      * split.
        -- intros (k & e2 & Hk & Hl & He2). exists (Datatypes.S k), e2. split; [lia|]. split; [|done].
           by exists e1.
        -- intros (k & e2 & Hk & Hl & He2). destruct k as [|k]; simpl in Hl; [subst; congruence|].
           destruct Hl as (e3 & He3 & Hl). assert (e3 = e1) as -> by congruence.
           exists k, e2. split; [lia | done].
      * split; [intros Hl; by exists e1|]. intros (e3 & He3 & Hl). congruence.
Qed.
End loop_facts.

(** Why a worker stops: it got no reply to three registrations in a row, or
    the coordinator answered that the job is done, or three requests for that
    answer in a row were lost. Nothing else ends it; in particular a task that
    failed or could not be fetched does not. And it does stop in the first
    round in which one of the last two holds. *)
Theorem Worker_exits {E : Type} reg asg (isd : E → E * option bool) rmap rred run_map run_reduce fuel e e' :
  (Worker reg asg isd rmap rred run_map run_reduce fuel e = Some e' →
    lost reg RPCRetryCount e e' ∨
    ∃ e1, lost isd RPCRetryCount e1 e' ∨
      ∃ k e2, (k < RPCRetryCount)%nat ∧ lost isd k e1 e2 ∧ isd e2 = (e', Some true)) ∧
  (∀ workerID rounds,
    (IsWaiting isd (Nat.iter rounds (λ e, (Worker_AssignTask asg rmap rred run_map run_reduce workerID
      (IsWaiting isd e).1).1) e)).2 = false →
    (rounds < fuel)%nat →
    is_Some (Worker_loop asg isd rmap rred run_map run_reduce fuel workerID e)).
Proof.
  split.
  - unfold Worker, Worker_Register. destruct (retry RPCRetryCount reg e) as [e0 [id|]] eqn:Hr.
    + clear Hr. revert e0. induction fuel as [|fuel IH]; intros e0; cbn [Worker_loop]; [done|].
      destruct (IsWaiting isd e0) as [e1 []] eqn:Hw; [apply IH|]. intros [= <-]. right.
      exists e0. unfold IsWaiting in Hw.
      destruct (retry RPCRetryCount isd e0) as [e2 [b|]] eqn:Hi; apply retry_spec in Hi.
      * injection Hw as -> Hb. apply negb_false_iff in Hb as ->. by right.
      * injection Hw as ->. by left.
    + intros [= <-]. left. by apply retry_spec in Hr.
  - intros id rounds. revert e fuel.
    induction rounds as [|rounds IH]; intros e fuel Hw Hf; (destruct fuel as [|fuel]; [lia|]); cbn [Worker_loop].
    + simpl in Hw. destruct (IsWaiting isd e) as [e1 b]. simpl in Hw. subst b. by eexists.
    + rewrite Nat.iter_succ_r in Hw.
      destruct (IsWaiting isd e) as [e1 []]; [|by eexists]. apply IH; [done | lia].
Qed.

(** A worker whose registration is lost once, and whose coordinator is done. *)
Lemma Worker_exits_witness :
  let reg (e : nat) := (Datatypes.S e, if decide (e = 0%nat) then None else Some 7) in
  let isd (e : nat) := (Datatypes.S e, Some (bool_decide (5 <= e)%nat)) in
  let asg (e : nat) := (Datatypes.S e, Some (None, None)) in
  Worker reg asg isd (λ _ e, (e, Some tt)) (λ _ e, (e, Some tt)) (λ _ _ e, (e, None)) (λ _ _ e, (e, None)) 10 0%nat = Some 7%nat ∧
  is_Some (Worker_loop asg isd (λ _ e, (e, Some tt)) (λ _ e, (e, Some tt)) (λ _ _ e, (e, None)) (λ _ _ e, (e, None)) 10 7 2%nat).
Proof.
  intros reg isd asg. split; [by vm_compute|].
  apply (proj2 (Worker_exits reg asg isd (λ _ e, (e, Some tt)) (λ _ e, (e, Some tt)) (λ _ _ e, (e, None))
    (λ _ _ e, (e, None)) 10 2%nat 0%nat) 7 2%nat); [by vm_compute | lia].
Defined.
