(* ===== verification/MRSystem.v ===== *)
(** * The whole MapReduce system: coordinator, workers and files

    The state joins the coordinator ([Coordinator.v]), the shared file system
    and everything workers may hold: responses not yet encoded, tasks received,
    reports ready to be sent, reduce executions and how far they got. Nothing
    is ever removed from these lists, so any of it may be used late, more than
    once, or never: lost and duplicated calls, slow workers, workers that crash
    at any point and re-executed tasks are all runs of this system. A label
    names the step and what the environment chooses in it. *)

From stdpp Require Import sorting.
From S2P Require Import Prelude Fnv Lo TaskManager Coordinator Utf8 Json MRApps Sequential Worker.

Open Scope list_scope.
Open Scope Z_scope.

(** ** State and steps *)

(** A reduce execution: it has computed its content, created (truncated) the
    output file, written it. *)
Inductive job_phase := JRead | JCreated | JWritten.

#[export] Instance job_phase_eq_dec : EqDecision job_phase.
Proof. solve_decision. Defined.

Record job := mkJob { job_task : ReduceTask; job_content : string; job_at : job_phase }.

Record mrsys := mkMR {
  mr_coord : sys;
  mr_fs : filesystem;
  mr_resps : list AssignTaskResponse;
  mr_maptasks : list MapTask;
  mr_redtasks : list ReduceTask;
  mr_mapreqs : list ReportMapTaskRequest;
  mr_jobs : list job
}.

Section system.
Context {L : Lo}.
(** [mapf] has the number of the attempt as first argument: two executions may
    emit their pairs in different orders. *)
Context (mapf : nat → string → string → list KeyValue) (reducef : string → list string → string).

Inductive mr_label :=
| MRegister
| MIsDone (seed : nat)
| MAssign (seed : nat) (now : Z)
| MEncode (resp : nat)
| MMap (attempt : nat) (workerID : Z) (task : nat) (choices : list (option string))
    (range : gmap Z (list KeyValue) → list (Z * list KeyValue))
| MReportMap (req : nat)
| MReduce (task : nat) (range : gmap string (list KeyValue) → list (string * list KeyValue))
| MCreate (j : nat)
| MWrite (j : nat)
| MReportReduce (workerID : Z) (j : nat).

Definition set_coord (s : mrsys) (c : sys) : mrsys :=
  mkMR c (mr_fs s) (mr_resps s) (mr_maptasks s) (mr_redtasks s) (mr_mapreqs s) (mr_jobs s).
Definition set_fs (s : mrsys) (fs : filesystem) : mrsys :=
  mkMR (mr_coord s) fs (mr_resps s) (mr_maptasks s) (mr_redtasks s) (mr_mapreqs s) (mr_jobs s).
Definition set_jobs (s : mrsys) (js : list job) : mrsys :=
  mkMR (mr_coord s) (mr_fs s) (mr_resps s) (mr_maptasks s) (mr_redtasks s) (mr_mapreqs s) js.

Definition option_cons {A} (o : option A) (l : list A) : list A :=
  match o with Some x => l ++ [x] | None => l end.

(** A report delivered to the coordinator. *)
Definition deliver_map (req : ReportMapTaskRequest) (s : sys) : sys :=
  mkSys (ReportMapTask req (coord s))
    (if MapTaskManager.IsTaskCompleted (MapTask_Id (rm_MapTask req)) (mapManager (coord s))
     then log s else log s ++ [(MapTask_Id (rm_MapTask req), rm_ReduceTaskMap req)]).

Definition deliver_reduce (req : ReportReduceTaskRequest) (s : sys) : sys :=
  mkSys (ReportReduceTask req (coord s)) (log s).

Definition mr_next (s : mrsys) (l : mr_label) : option mrsys :=
  let c := coord (mr_coord s) in
  match l with
  | MRegister => Some (set_coord s (mkSys (Register c).1 (log (mr_coord s))))
  | MIsDone _ => Some s
  | MAssign seed now =>
      let '(c', resp) := AssignTask seed now c in
      Some (mkMR (mkSys c' (log (mr_coord s))) (mr_fs s) (mr_resps s ++ [resp])
              (mr_maptasks s) (mr_redtasks s) (mr_mapreqs s) (mr_jobs s))
  | MEncode i =>
      resp ← mr_resps s !! i;
      Some (mkMR (mr_coord s) (mr_fs s) (mr_resps s)
              (option_cons (encode_MapTask c resp) (mr_maptasks s))
              (option_cons (encode_ReduceTask c resp) (mr_redtasks s)) (mr_mapreqs s) (mr_jobs s))
  | MMap attempt workerID i choices range =>
      task ← mr_maptasks s !! i;
      match mapTask_run (mapf attempt) workerID choices range task (mr_fs s) with
      | Ret (fs, req) =>
          Some (mkMR (mr_coord s) fs (mr_resps s) (mr_maptasks s) (mr_redtasks s)
                  (option_cons req (mr_mapreqs s)) (mr_jobs s))
      | _ => Some s
      end
  | MReportMap i =>
      req ← mr_mapreqs s !! i;
      Some (set_coord s (deliver_map req (mr_coord s)))
  | MReduce i range =>
      task ← mr_redtasks s !! i;
      Some (set_jobs s (mr_jobs s ++ [mkJob task (reduce_content reducef range task (mr_fs s)) JRead]))
  | MCreate j =>
      jb ← mr_jobs s !! j;
      if decide (job_at jb = JRead) then
        let s := set_jobs s (<[j := mkJob (job_task jb) (job_content jb) JCreated]> (mr_jobs s)) in
        Some (set_fs s (os_Create (out_name (ReduceTask_Id (job_task jb))) (mr_fs s)))
      else None
  | MWrite j =>
      jb ← mr_jobs s !! j;
      if decide (job_at jb = JCreated) then
        let s := set_jobs s (<[j := mkJob (job_task jb) (job_content jb) JWritten]> (mr_jobs s)) in
        Some (set_fs s (WriteString (out_name (ReduceTask_Id (job_task jb))) (job_content jb) (mr_fs s)))
      else None
  | MReportReduce workerID j =>
      jb ← mr_jobs s !! j;
      if decide (job_at jb = JWritten) then
        Some (set_coord s (deliver_reduce
          (mkReportReduceTaskRequest workerID (job_task jb) (out_name (ReduceTask_Id (job_task jb)))) (mr_coord s)))
      else None
  end.

Definition mr_step (s : mrsys) (l : mr_label) (s' : mrsys) : Prop := mr_next s l = Some s'.

Definition mr_init (files : list string) (n : Z) (fs : filesystem) : mrsys :=
  mkMR (mkSys (MakeCoordinator files n) []) fs [] [] [] [] [].

(** A range yields the entries of its map in some order. *)
Definition range_ok (l : mr_label) : Prop :=
  match l with
  | MMap _ _ _ _ range => ∀ m, range m ≡ₚ map_to_list m
  | MReduce _ range => ∀ m, range m ≡ₚ map_to_list m
  | _ => True
  end.

(** No reduce execution is stuck between truncating its output and writing it. *)
Definition no_truncated_output (s : mrsys) : Prop := Forall (λ jb, job_at jb ≠ JCreated) (mr_jobs s).

End system.

(** ** Files and contents *)

Section contents.
Context {L : Lo} {HL : LoLaws L}.

Definition is_temp (f : string) : Prop := ∃ suffix, f = (temp_prefix +:+ suffix)%string.

(** Everything that was there is still there, as it was. *)
Definition fs_keeps (fs fs' : filesystem) : Prop := ∀ f, is_Some (fs !! f) → fs' !! f = fs !! f.

#[local] Instance fs_keeps_refl : Reflexive fs_keeps.
Proof. by intros fs f. Qed.
#[local] Instance fs_keeps_trans : Transitive fs_keeps.
Proof. intros a b c Hab Hbc f Hf. rewrite Hbc; [by apply Hab | by rewrite Hab]. Qed.

Lemma fs_keeps_insert fs f x : fs !! f = None → fs_keeps fs (<[f := x]> fs).
Proof. intros Hf g Hg. rewrite lookup_insert_ne; [done|]. intros <-. rewrite Hf in Hg. by destruct Hg. Qed.

(** The group [r] of a map task has been written, when it has one. *)
Definition group_file (fs : filesystem) (rm : gmap Z string) (r : Z) (kvs : list KeyValue) : Prop :=
  ∃ f, rm !! r = Some f ∧ fs !! f = Some (encode_kvs kvs) ∧ is_temp f.

Lemma write_groups_spec groups choices fs rm fs' o :
  NoDup groups.*1 → write_groups groups choices fs rm = (fs', o) →
  fs_keeps fs fs' ∧
  (∀ f, fs' !! f = fs !! f ∨ is_temp f) ∧
  ∀ rm', o = Some rm' → ∀ r,
    match (list_to_map groups : gmap Z (list KeyValue)) !! r with
    | Some kvs => group_file fs' rm' r kvs
    | None => rm' !! r = rm !! r
    end.
Proof.
  revert choices fs rm. induction groups as [|[k kvs] groups IH]; intros choices fs rm Hnd; simpl.
  { intros [= <- <-]. split; [done|]. split; [by left|]. by intros rm' [= <-]. }
  apply NoDup_cons in Hnd as [Hk Hnd]. simpl in Hk.
  destruct (WriteKeyValues _ kvs fs) as [[fs1 f]|] eqn:Hw.
  2:{ intros [= <- <-]. split; [done|]. split; [by left | done]. }
  apply WriteKeyValues_spec in Hw as ((suffix & _ & ->) & Hf & ->).
  set (f := (temp_prefix +:+ suffix)%string) in *. intros Hrec.
  destruct (IH _ _ _ Hnd Hrec) as (Hkeep & Hout & Hres).
  split; [etrans; [by apply fs_keeps_insert | done]|]. split.
  { intros g. destruct (Hout g) as [Hg|]; [|by right]. rewrite Hg.
    destruct (decide (f = g)) as [<-|]; [right; by eexists | left; by rewrite lookup_insert_ne]. }
  intros rm' Hrm r. specialize (Hres rm' Hrm r). destruct (decide (k = r)) as [<-|Hne].
  - rewrite lookup_insert_eq. rewrite (not_elem_of_list_to_map_1 _ _ Hk) in Hres.
    rewrite lookup_insert_eq in Hres. exists f. split; [done|]. split; [|by eexists].
    rewrite Hkeep; by rewrite lookup_insert_eq.
  - rewrite lookup_insert_ne by done. rewrite lookup_insert_ne in Hres by done. done.
Qed.

Lemma length_string_concat_perm (l l' : list string) :
  l ≡ₚ l' → String.length (string_concat l) = String.length (string_concat l').
Proof.
  unfold string_concat. induction 1; simpl; rewrite ?length_app_s; try lia.
Qed.

Lemma string_drop_short n s : (String.length s <= n)%nat → string_drop n s = EmptyString.
Proof.
  revert n. induction s as [|c s IH]; intros [|n] Hn; simpl in *; try done; try lia. apply IH. lia.
Qed.
End contents.

(** ** Correctness *)

(** What the job gives: the files, their contents, the number of reduce tasks,
    and an application whose [Map] emits the same pairs on every attempt, up to
    order, and whose [Reduce] does not depend on the order of its values. *)
Record job_ok (mapf : nat → string → string → list KeyValue) (reducef : string → list string → string)
    (files : list string) (n : Z) (fs0 : filesystem) : Prop := {
  jo_n : 0 < n;
  jo_nodup : NoDup files;
  jo_read : ∀ f, f ∈ files → is_Some (fs0 !! f);
  jo_names : ∀ f r, f ∈ files → f ≠ out_name r;
  jo_map : ∀ a f c, f ∈ files → fs0 !! f = Some c →
    mapf a f c ≡ₚ mapf 0%nat f c ∧ Forall kv_valid (mapf a f c);
  jo_reduce : ∀ k vs vs', vs ≡ₚ vs' → reducef k vs = reducef k vs'
}.

(** The pairs of one file, of all files, and those of one reduce task. *)
Definition kvs_of (mapf : nat → string → string → list KeyValue) (fs0 : filesystem) (f : string) : list KeyValue :=
  default [] (mapf 0%nat f <$> fs0 !! f).
Definition all_kvs (mapf : nat → string → string → list KeyValue) (files : list string) (fs0 : filesystem) :
    list KeyValue :=
  concat (kvs_of mapf fs0 <$> files).
Definition part_kvs (n r : Z) (kvs : list KeyValue) : list KeyValue :=
  filter (λ kv, part n (Key kv) = r) kvs.

Section correctness.
Context {L : Lo} {HL : LoLaws L}.
Context (mapf : nat → string → string → list KeyValue) (reducef : string → list string → string).
Context (files : list string) (n : Z) (fs0 : filesystem).
Context (Hjob : job_ok mapf reducef files n fs0).

(** The file a map report names for each reduce task holds the pairs of that
    task, and there is one unless there are none. *)
Definition good_map (fs : filesystem) (id : string) (rm : gmap Z string) : Prop :=
  ∀ r, match rm !! r with
       | Some f => ∃ kvs, fs !! f = Some (encode_kvs kvs) ∧ Forall kv_valid kvs ∧
           kvs ≡ₚ part_kvs n r (kvs_of mapf fs0 id) ∧ is_temp f
       | None => part_kvs n r (kvs_of mapf fs0 id) = []
       end.

Definition valid_content (r : Z) (content : string) : Prop :=
  ∃ lines, content = string_concat lines ∧
    lines ≡ₚ spec_lines reducef (part_kvs n r (all_kvs mapf files fs0)).

Lemma part_kvs_perm r kvs kvs' : kvs ≡ₚ kvs' → part_kvs n r kvs ≡ₚ part_kvs n r kvs'.
Proof. intros Hp. unfold part_kvs. by rewrite Hp. Qed.

Lemma part_kvs_concat r kvss : part_kvs n r (concat kvss) = concat (part_kvs n r <$> kvss).
Proof.
  unfold part_kvs. induction kvss as [|kvs kvss IH]; [done|].
  rewrite fmap_cons. cbn [concat]. by rewrite filter_app, IH.
Qed.

Lemma valid_content_length r x y : valid_content r x → valid_content r y → String.length x = String.length y.
Proof.
  intros (lx & -> & Hx) (ly & -> & Hy). apply length_string_concat_perm. by rewrite Hx, Hy.
Qed.

Lemma good_map_mono fs fs' id rm :
  (∀ f, is_temp f → is_Some (fs !! f) → fs' !! f = fs !! f) → good_map fs id rm → good_map fs' id rm.
Proof.
  intros Hk Hg r. specialize (Hg r). destruct (rm !! r) as [f|]; [|done].
  destruct Hg as (kvs & Hf & Hv & Hp & Ht). exists kvs. rewrite Hk; [done..|]. by rewrite Hf.
Qed.

(** A map execution prepares a good report. *)
Lemma mapTask_run_good attempt workerID choices range id fs fs' o :
  (∀ m, range m ≡ₚ map_to_list m) → id ∈ files → fs !! id = fs0 !! id →
  mapTask_run (mapf attempt) workerID choices range (mkMapTask id n) fs = Ret (fs', o) →
  fs_keeps fs fs' ∧ (∀ f, fs' !! f = fs !! f ∨ is_temp f) ∧
  ∀ req, o = Some req → MapTask_Id (rm_MapTask req) = id ∧ good_map fs' id (rm_ReduceTaskMap req).
Proof using HL Hjob.
  intros Hrange Hid Hfs. destruct (jo_read _ _ _ _ _ Hjob id Hid) as [content Hc].
  destruct (jo_map _ _ _ _ _ Hjob attempt id content Hid Hc) as [Hperm Hvalid].
  unfold mapTask_run, readFileContent, taskMap. simpl. rewrite Hfs, Hc.
  pose proof (jo_n _ _ _ _ _ Hjob) as Hn. rewrite decide_False by (intros [? _]; lia). simpl.
  set (kva := mapf attempt id content) in *.
  set (g := lo_group_by kva (λ kv, part n (Key kv))).
  destruct (write_groups (range g) choices fs ∅) as [fs1 o1] eqn:Hw. intros [= <- <-].
  assert (Hnd : NoDup (range g).*1) by (rewrite Hrange; apply NoDup_fst_map_to_list).
  destruct (write_groups_spec _ _ _ _ _ _ Hnd Hw) as (Hkeep & Hout & Hres).
  split; [done|]. split; [done|]. intros req Hreq. apply fmap_Some in Hreq as (rm & Hrm & ->).
  split; [done|]. intros r. simpl. specialize (Hres rm Hrm r).
  assert (Hg : (list_to_map (range g) : gmap Z (list KeyValue)) !! r = g !! r).
  { rewrite <- (list_to_map_to_list g) at 2. f_equal. by apply list_to_map_proper. }
  rewrite Hg in Hres. unfold g in Hres. rewrite lo_group_by_spec in Hres.
  assert (Hpart : part_kvs n r (kvs_of mapf fs0 id) ≡ₚ filter (λ x, part n (Key x) = r) kva).
  { unfold kvs_of, part_kvs. rewrite Hc. simpl. by rewrite <- Hperm. }
  case_decide as Hd.
  - rewrite Hres, lookup_empty. rewrite Hd in Hpart. by apply Permutation_nil_r in Hpart.
  - destruct Hres as (f & -> & Hf & Ht). exists (filter (λ x, part n (Key x) = r) kva).
    split; [done|]. split; [|done]. apply Forall_forall. intros kv [_ Hin]%list_elem_of_filter.
    rewrite Forall_forall in Hvalid. by apply Hvalid.
Qed.

(** A reduce execution that reads a complete list of good files computes a
    valid content. *)
Lemma read_files r fs lg :
  Forall (λ e, good_map fs e.1 e.2) lg →
  concat ((λ item, default [] (ReadKeyValues item fs)) <$> files_for r lg) ≡ₚ
  part_kvs n r (concat (kvs_of mapf fs0 <$> lg.*1)).
Proof.
  induction 1 as [|[id rm] lg Hg Hlg IH]; [done|]. unfold files_for in *. cbn [omap list_omap].
  simpl in Hg. specialize (Hg r). rewrite !fmap_cons. cbn [concat fst]. unfold part_kvs at 1.
  rewrite filter_app. fold (part_kvs n r (kvs_of mapf fs0 id)).
  fold (part_kvs n r (concat (kvs_of mapf fs0 <$> lg.*1))). rewrite <- IH. cbn [snd].
  destruct (rm !! r) as [f|].
  - destruct Hg as (kvs & Hf & Hv & Hp & _). rewrite fmap_cons. cbn [concat].
    rewrite (ReadKeyValues_encoded f kvs fs Hv Hf). simpl. by rewrite Hp.
  - by rewrite Hg.
Qed.

Lemma reduce_lines_spec kvs entries :
  entries ≡ₚ map_to_list (reduce_groups kvs) → reduce_lines reducef entries ≡ₚ spec_lines reducef kvs.
Proof using HL.
  intros Hp.
  assert (Hin : ∀ k v, (k, v) ∈ entries ↔ v = filter (λ kv, Key kv = k) kvs ∧ v ≠ []).
  { intros k v. rewrite Hp, elem_of_map_to_list. unfold reduce_groups. rewrite lo_group_by_spec.
    case_decide as Hd; naive_solver. }
  assert (Hnd : NoDup entries.*1) by (rewrite Hp; apply NoDup_fst_map_to_list).
  rewrite <- (spec_lines_keys reducef entries.*1 kvs Hnd).
  - unfold reduce_lines. rewrite <- list_fmap_compose. apply eq_Permutation, list_fmap_ext.
    intros i [k v] Hi. apply list_elem_of_lookup_2, Hin in Hi as [-> _]. simpl. f_equal. f_equal.
    rewrite lo_map_spec. apply (imap_plain Value).
  - intros k. rewrite !list_elem_of_fmap. split.
    + intros ([k' v] & -> & [-> Hne]%Hin). simpl in *.
      destruct (filter (λ kv, Key kv = k') kvs) as [|kv l] eqn:E; [done|].
      assert (Hkv : kv ∈ filter (λ kv, Key kv = k') kvs) by (rewrite E; left).
      apply list_elem_of_filter in Hkv as [<- Hkv]. by exists kv.
    + intros (kv & -> & Hkv). exists (Key kv, filter (λ kv', Key kv' = Key kv) kvs). split; [done|].
      apply Hin. split; [done|]. intros E.
      assert (Hf : kv ∈ filter (λ kv', Key kv' = Key kv) kvs) by (by apply list_elem_of_filter).
      rewrite E in Hf. by apply elem_of_nil in Hf.
Qed.

Lemma reduce_content_valid range r fs lg :
  (∀ m, range m ≡ₚ map_to_list m) → Forall (λ e, good_map fs e.1 e.2) lg → lg.*1 ≡ₚ files →
  valid_content r (reduce_content reducef range (mkReduceTask r (files_for r lg)) fs).
Proof using HL Hjob.
  intros Hrange Hlg Hfiles. unfold reduce_content. eexists. split; [done|].
  rewrite reduce_lines_spec by apply Hrange.
  apply spec_lines_perm; [apply Hjob|]. unfold allKVs. rewrite lo_flat_map_spec. simpl.
  rewrite (imap_plain (λ item, default [] (ReadKeyValues item fs))).
  rewrite read_files by done. apply part_kvs_perm. unfold all_kvs. by rewrite Hfiles.
Qed.
(** *** The invariant *)

Definition resp_ok (c : Coordinator) (resp : AssignTaskResponse) : Prop :=
  (∀ k, resp_MapTask resp = Some k → handed_out (map_status c) k) ∧
  (∀ r, resp_ReduceTask resp = Some r →
     all_maps_completed c ∧ handed_out (red_status c) r ∧ 0 <= r < n).

Definition maptask_ok (c : Coordinator) (t : MapTask) : Prop :=
  handed_out (map_status c) (MapTask_Id t) ∧ NReduce t = n.

Definition redtask_ok (s : sys) (t : ReduceTask) : Prop :=
  all_maps_completed (coord s) ∧ handed_out (red_status (coord s)) (ReduceTask_Id t) ∧
  0 <= ReduceTask_Id t < n ∧ Filenames t = files_for (ReduceTask_Id t) (log s).

Definition mapreq_ok (fs : filesystem) (c : Coordinator) (req : ReportMapTaskRequest) : Prop :=
  handed_out (map_status c) (MapTask_Id (rm_MapTask req)) ∧
  good_map fs (MapTask_Id (rm_MapTask req)) (rm_ReduceTaskMap req).

Definition jb_id (jb : job) : Z := ReduceTask_Id (job_task jb).

(** A job has a valid content; once it has created its file, the file is empty
    or valid. *)
Definition jb_ok (fs : filesystem) (c : Coordinator) (jb : job) : Prop :=
  0 <= jb_id jb < n ∧ handed_out (red_status c) (jb_id jb) ∧ valid_content (jb_id jb) (job_content jb) ∧
  (job_at jb ≠ JRead → ∃ x, fs !! out_name (jb_id jb) = Some x ∧
    (x = EmptyString ∨ valid_content (jb_id jb) x)).

Definition has_job (js : list job) (r : Z) (ph : job_phase) : Prop :=
  ∃ jb, jb ∈ js ∧ jb_id jb = r ∧ job_at jb = ph.

Record mr_inv (s : mrsys) : Prop := {
  mi_exec : ∃ ls, exec coord_step (mkSys (MakeCoordinator files n) []) ls (mr_coord s);
  mi_inputs : ∀ f, f ∈ files → mr_fs s !! f = fs0 !! f;
  mi_resps : Forall (resp_ok (coord (mr_coord s))) (mr_resps s);
  mi_maptasks : Forall (maptask_ok (coord (mr_coord s))) (mr_maptasks s);
  mi_redtasks : Forall (redtask_ok (mr_coord s)) (mr_redtasks s);
  mi_mapreqs : Forall (mapreq_ok (mr_fs s) (coord (mr_coord s))) (mr_mapreqs s);
  mi_log : Forall (λ e, good_map (mr_fs s) e.1 e.2) (log (mr_coord s));
  mi_jobs : Forall (jb_ok (mr_fs s) (coord (mr_coord s))) (mr_jobs s);
  mi_out : ∀ r, has_job (mr_jobs s) r JWritten →
    has_job (mr_jobs s) r JCreated ∨ ∃ x, mr_fs s !! out_name r = Some x ∧ valid_content r x;
  mi_done : ∀ r, red_status (coord (mr_coord s)) !! r = Some TaskCompleted → has_job (mr_jobs s) r JWritten
}.

Lemma mr_inv_init : mr_inv (mr_init files n fs0).
Proof.
  split; simpl; try done; try (by apply Forall_nil).
  - eexists. constructor.
  - intros r (jb & Hin & _). by apply elem_of_nil in Hin.
  - intros r Hr. pose proof (coord_inv_init files n _ eq_refl) as Hi.
    destruct (red_New_lookup n r) as (_ & Hs & _). unfold red_status in Hr. simpl in Hr.
    rewrite Hs in Hr. by case_decide.
Qed.

(** The log names the input files, once each, when the map phase is over. *)
Lemma log_complete s :
  mr_inv s → all_maps_completed (coord (mr_coord s)) → (log (mr_coord s)).*1 ≡ₚ files.
Proof using Hjob HL.
  intros [[ls He] _ _ _ _ _ _ _ _ _] Hall.
  pose proof (coord_inv_exec _ _ _ (coord_inv_init files n _ eq_refl) He) as Hinv.
  apply NoDup_Permutation; [apply Hinv | apply Hjob |]. intros id.
  rewrite (ci_log _ Hinv). destruct (coord_exec_tasks _ _ _ _ He id) as [<- _]. split.
  - intros Hc. by eexists.
  - intros [st Hst]. by rewrite Hst, (Hall _ _ Hst).
Qed.

(** A step of the coordinator preserves what the rest of the system knows. *)
Lemma mr_inv_coord s l c' :
  mr_inv s → coord_step (mr_coord s) l c' →
  Forall (λ e, good_map (mr_fs s) e.1 e.2) (log c') →
  (∀ r, red_status (coord c') !! r = Some TaskCompleted → has_job (mr_jobs s) r JWritten) →
  mr_inv (set_coord s c').
Proof using HL.
  intros Hs Hst Hlog Hdone. destruct Hs as [[ls He] Hin Hresps Hmt Hrt Hmr _ Hj Hout _].
  pose proof (coord_inv_exec _ _ _ (coord_inv_init files n _ eq_refl) He) as Hinv.
  destruct (coord_step_forward _ _ _ Hinv Hst) as (Hm & Hr & _ & Hl).
  assert (Hall : all_maps_completed (coord (mr_coord s)) → all_maps_completed (coord c')).
  { intros H. by eapply statuses_le_all. }
  split; simpl; try done.
  - exists (ls ++ [l]). eapply exec_app; [exact He | by apply exec_one].
  - eapply Forall_impl; [exact Hresps|]. intros resp [H1 H2]. split.
    + intros k Hk. by eapply handed_out_mono, H1.
    + intros r Hr'. destruct (H2 r Hr') as (? & ? & ?). split; [auto|]. split; [|done].
      by eapply handed_out_mono.
  - eapply Forall_impl; [exact Hmt|]. intros t [H1 H2]. split; [by eapply handed_out_mono | done].
  - eapply Forall_impl; [exact Hrt|]. intros t (H1 & H2 & H3 & H4).
    split; [auto|]. split; [by eapply handed_out_mono|]. split; [done|]. by rewrite Hl.
  - eapply Forall_impl; [exact Hmr|]. intros req [H1 H2]. split; [by eapply handed_out_mono | done].
  - eapply Forall_impl; [exact Hj|]. intros jb (H1 & H2 & H3). split; [done|].
    split; [by eapply handed_out_mono | done].
Qed.

(** Growing the lists of the workers. *)
Lemma mr_inv_lists s resps mts rts mrs :
  mr_inv s → Forall (resp_ok (coord (mr_coord s))) resps → Forall (maptask_ok (coord (mr_coord s))) mts →
  Forall (redtask_ok (mr_coord s)) rts → Forall (mapreq_ok (mr_fs s) (coord (mr_coord s))) mrs →
  mr_inv (mkMR (mr_coord s) (mr_fs s) resps mts rts mrs (mr_jobs s)).
Proof. intros []. by split. Qed.

(** A change of the file system that keeps inputs, temporary files and outputs. *)
Lemma mr_inv_fs s fs' :
  mr_inv s → fs_keeps (mr_fs s) fs' → mr_inv (set_fs s fs').
Proof using Hjob.
  intros [He Hin Hresps Hmt Hrt Hmr Hlog Hj Hout Hdone] Hk.
  assert (Hg : ∀ id rm, good_map (mr_fs s) id rm → good_map fs' id rm).
  { intros id rm. apply good_map_mono. intros f _. apply Hk. }
  split; simpl; try done.
  - intros f Hf. rewrite Hk; [by apply Hin|]. rewrite Hin by done. by apply Hjob.
  - eapply Forall_impl; [exact Hmr|]. intros req [H1 H2]. split; [done | by apply Hg].
  - eapply Forall_impl; [exact Hlog|]. intros e. apply Hg.
  - eapply Forall_impl; [exact Hj|]. intros jb (H1 & H2 & H3 & H4). repeat split; try done; try lia.
    intros Hne. destruct (H4 Hne) as (x & Hx & Hor). exists x. split; [|done]. rewrite Hk; [done|]. by rewrite Hx.
  - intros r Hw. destruct (Hout r Hw) as [Hc|(x & Hx & Hv)]; [by left|right].
    exists x. split; [|done]. rewrite Hk; [done|]. by rewrite Hx.
Qed.

(** A job moves on: its output file now holds [x], empty or valid. *)
Lemma mr_inv_job s j jb ph x :
  mr_inv s → mr_jobs s !! j = Some jb → ph ≠ JRead →
  (x = EmptyString ∧ ph = JCreated ∧ job_at jb = JRead ∨
   valid_content (jb_id jb) x ∧ ph = JWritten) →
  mr_inv (set_fs (set_jobs s (<[j := mkJob (job_task jb) (job_content jb) ph]> (mr_jobs s)))
    (<[out_name (jb_id jb) := x]> (mr_fs s))).
Proof using Hjob.
  intros [He Hin Hresps Hmt Hrt Hmr Hlog Hj Hout Hdone] Hlk Hph Hx.
  set (r0 := jb_id jb) in *. set (jb' := mkJob (job_task jb) (job_content jb) ph).
  assert (Hg : ∀ id rm, good_map (mr_fs s) id rm → good_map (<[out_name r0 := x]> (mr_fs s)) id rm).
  { intros id rm. apply good_map_mono. intros f [suffix ->] _. rewrite lookup_insert_ne; [done|].
    apply out_name_not_temp. }
  assert (Hok : x = EmptyString ∨ valid_content r0 x) by naive_solver.
  assert (Hmem : ∀ k, k ∈ <[j := jb']> (mr_jobs s) → k = jb' ∨ k ∈ mr_jobs s).
  { intros k (i & Hi)%list_elem_of_lookup. apply list_lookup_insert_Some in Hi as [(_ & <- & _)|[_ Hi]];
      [by left | right; by eapply list_elem_of_lookup_2]. }
  assert (Hkeep : ∀ r ph', (ph' ≠ job_at jb ∨ r ≠ r0) → has_job (mr_jobs s) r ph' →
    has_job (<[j := jb']> (mr_jobs s)) r ph').
  { intros r ph' Hne (k & Hk & Hid & Hat). apply list_elem_of_lookup in Hk as [i Hi].
    exists k. split; [|done]. apply list_elem_of_lookup. exists i. rewrite list_lookup_insert_ne; [done|].
    intros ->. assert (k = jb) as -> by congruence. destruct Hne; [congruence|]. by subst r. }
  assert (Hjb : jb' ∈ <[j := jb']> (mr_jobs s)).
  { apply list_elem_of_lookup. exists j. apply list_lookup_insert_eq. by eapply lookup_lt_Some. }
  split; simpl; try done.
  - intros f Hf. rewrite lookup_insert_ne; [by apply Hin|]. intros Heq. by apply (jo_names _ _ _ _ _ Hjob f r0).
  - eapply Forall_impl; [exact Hmr|]. intros req [H1 H2]. split; [done | by apply Hg].
  - eapply Forall_impl; [exact Hlog|]. intros e. apply Hg.
  - rewrite Forall_forall in Hj |- *. intros k Hk.
    assert (Hfile : ∀ r, r = r0 ∨ (∃ y, mr_fs s !! out_name r = Some y ∧ (y = EmptyString ∨ valid_content r y)) →
      ∃ y, <[out_name r0 := x]> (mr_fs s) !! out_name r = Some y ∧ (y = EmptyString ∨ valid_content r y)).
    { intros r Hr. destruct (decide (r = r0)) as [->|Hne]; [exists x; by rewrite lookup_insert_eq|].
      destruct Hr as [?|Hr]; [done|]. rewrite lookup_insert_ne; [done|]. by intros ?%out_name_inj. }
    destruct (Hmem k Hk) as [->|Hk'].
    + destruct (Hj jb) as (H1 & H2 & H3 & _); [by eapply list_elem_of_lookup_2|].
      split; [done|]. split; [done|]. split; [done|]. intros _. apply Hfile. by left.
    + destruct (Hj k Hk') as (H1 & H2 & H3 & H4). split; [done|]. split; [done|]. split; [done|].
      intros Hne. apply Hfile. right. by apply H4.
  - intros r Hw. destruct (decide (r = r0)) as [->|Hne].
    + destruct Hx as [(_ & Hc & _)|[Hv _]].
      * left. exists jb'. split; [done|]. split; [done|]. by subst ph.
      * right. exists x. by rewrite lookup_insert_eq.
    + assert (Hw' : has_job (mr_jobs s) r JWritten).
      { destruct Hw as (k & Hk & Hid & Hat). destruct (Hmem k Hk) as [->|Hk']; [|by exists k].
        exfalso. by apply Hne. }
      destruct (Hout r Hw') as [Hc|(y & Hy & Hv)]; [left; apply Hkeep; [by right | done]|right].
      exists y. rewrite lookup_insert_ne; [done|]. by intros ?%out_name_inj.
  - intros r Hr. destruct (Hdone r Hr) as (k & Hk & Hid & Hat).
    destruct (decide (r = r0)) as [->|Hne]; [|apply Hkeep; [by right | by exists k]].
    destruct Hx as [(_ & _ & Hjr)|[_ Hphw]].
    + apply Hkeep; [left; by rewrite Hjr | by exists k].
    + exists jb'. split; [done|]. split; [done|]. by subst ph.
Qed.
(** *** Preservation, step by step *)

Lemma mr_coord_inv s : mr_inv s → coord_inv (mr_coord s).
Proof using HL. intros [[ls He] _ _ _ _ _ _ _ _ _]. by eapply coord_inv_exec, He; apply (coord_inv_init files n). Qed.

Lemma coord_eta (x : sys) : mkSys (coord x) (log x) = x.
Proof. by destruct x. Qed.

Lemma mr_step_assign s seed now c' resp :
  mr_inv s → AssignTask seed now (coord (mr_coord s)) = (c', resp) →
  mr_inv (set_coord s (mkSys c' (log (mr_coord s)))) ∧ resp_ok c' resp.
Proof using HL.
  intros Hs Ha. pose proof (mr_coord_inv s Hs) as Hinv. pose proof Hs as [[ls He] _ _ _ _ _ Hlog _ _ Hdone].
  destruct (coord_forward _ _ _ (coord_inv_init files n _ eq_refl) He) as (_ & _ & Hn & _). simpl in Hn.
  assert (Hst : coord_step (mr_coord s) (LAssign seed now) (mkSys c' (log (mr_coord s)))).
  { replace c' with (AssignTask seed now (coord (mr_coord s))).1 by (by rewrite Ha).
    rewrite <- (coord_eta (mr_coord s)) at 1. constructor. }
  set (c := coord (mr_coord s)) in *.
  destruct (AssignTask_cases seed now c) as [(k & Hk & E)|[(k & _ & Hall & Hk & E)|(_ & _ & E)]];
    rewrite Ha in E; injection E as -> ->.
  - split; [by apply (mr_inv_coord s _ _ Hs Hst)|].
    destruct (assign_map_spec c seed now k (ci_map _ Hinv) Hk) as (_ & Hsm & _).
    split; [|done]. intros k' [= <-]. left. unfold map_status. simpl. by rewrite Hsm, lookup_insert_eq.
  - destruct (assign_reduce_spec _ c seed now k (ci_red _ Hinv) Hk) as (_ & Hsm & _ & _ & st & Hst' & _).
    split.
    + apply (mr_inv_coord s _ _ Hs Hst); [done|]. simpl. intros r. unfold red_status. simpl. rewrite Hsm.
      intros [[? ?]|[_ Hr]]%lookup_insert_Some; [done | by apply Hdone].
    + split; [done|]. intros r [= <-]. split; [exact Hall|]. split.
      * left. unfold red_status. simpl. by rewrite Hsm, lookup_insert_eq.
      * destruct (ci_red _ Hinv) as ([Hd _] & _ & Hdom). rewrite <- Hn. apply Hdom, Hd. by eexists.
  - split; [by apply (mr_inv_coord s _ _ Hs Hst) | done].
Qed.

Lemma mr_step_encode s resp :
  mr_inv s → resp_ok (coord (mr_coord s)) resp →
  (∀ t, encode_MapTask (coord (mr_coord s)) resp = Some t → maptask_ok (coord (mr_coord s)) t) ∧
  (∀ t, encode_ReduceTask (coord (mr_coord s)) resp = Some t → redtask_ok (mr_coord s) t).
Proof using HL.
  intros [[ls He] _ _ _ _ _ _ _ _ _] [Hm Hr]. split; intros t Ht; apply bind_Some in Ht as (p & Hp & Ht).
  - destruct (coord_exec_tasks _ _ _ _ He p) as [_ Htask]. rewrite (Htask t Ht).
    split; [by apply Hm | done].
  - destruct (Hr p Hp) as (Hall & Ho & Hrange).
    rewrite (red_lookup files n ls _ p He Hrange) in Ht. injection Ht as <-.
    split; [exact Hall|]. split; [exact Ho|]. split; [exact Hrange | done].
Qed.

Lemma mr_step_map s attempt workerID choices range task fs' o :
  mr_inv s → maptask_ok (coord (mr_coord s)) task → (∀ m, range m ≡ₚ map_to_list m) →
  mapTask_run (mapf attempt) workerID choices range task (mr_fs s) = Ret (fs', o) →
  mr_inv (set_fs s fs') ∧ ∀ req, o = Some req → mapreq_ok fs' (coord (mr_coord s)) req.
Proof using HL Hjob.
  intros Hs [Ho Hn] Hrange Hrun. destruct task as [id n']. simpl in *. subst n'.
  pose proof Hs as [[ls He] Hin _ _ _ _ _ _ _ _].
  assert (Hid : id ∈ files).
  { apply (coord_exec_tasks _ _ _ _ He id). destruct Ho as [Ho|Ho]; by eexists. }
  destruct (mapTask_run_good _ _ _ _ _ _ _ _ Hrange Hid (Hin id Hid) Hrun) as (Hk & _ & Hreq).
  split; [by apply mr_inv_fs|]. intros req Hr. destruct (Hreq req Hr) as [<- Hg]. by split.
Qed.

Lemma mr_step_report_map s req :
  mr_inv s → mapreq_ok (mr_fs s) (coord (mr_coord s)) req →
  mr_inv (set_coord s (deliver_map req (mr_coord s))).
Proof using HL.
  intros Hs [Ho Hg]. pose proof Hs as [_ _ _ _ _ _ Hlog _ _ Hdone].
  eapply mr_inv_coord; [done | | |].
  - rewrite <- (coord_eta (mr_coord s)) at 1. apply step_report_map. exact Ho.
  - simpl. case_match; [done|]. apply Forall_app. split; [done|]. by constructor.
  - simpl. intros r Hr. apply Hdone. revert Hr. unfold ReportMapTask, red_status.
    case_match; [done|]. simpl.
    by destruct (AddFiles_rest (map_to_list (rm_ReduceTaskMap req)) (reduceMgr (coord (mr_coord s)))) as [-> _].
Qed.

Lemma mr_step_report_reduce s workerID jb f :
  mr_inv s → jb ∈ mr_jobs s → job_at jb = JWritten →
  mr_inv (set_coord s (deliver_reduce (mkReportReduceTaskRequest workerID (job_task jb) f) (mr_coord s))).
Proof using HL.
  intros Hs Hin Hat. pose proof Hs as [_ _ _ _ _ _ Hlog Hj _ Hdone].
  rewrite Forall_forall in Hj. destruct (Hj jb Hin) as (_ & Ho & _).
  eapply mr_inv_coord; [done | | done |].
  - rewrite <- (coord_eta (mr_coord s)) at 1. apply step_report_reduce. exact Ho.
  - simpl. intros r. unfold ReportReduceTask, red_status. case_match; [apply Hdone|]. simpl.
    rewrite red_CompleteTask_status, complete_task_status. case_decide as Hd; [|apply Hdone].
    destruct Hd as [-> _]. intros _. by exists jb.
Qed.

Lemma mr_step_reduce s task range :
  mr_inv s → redtask_ok (mr_coord s) task → (∀ m, range m ≡ₚ map_to_list m) →
  mr_inv (set_jobs s (mr_jobs s ++ [mkJob task (reduce_content reducef range task (mr_fs s)) JRead])).
Proof using HL Hjob.
  intros Hs (Hall & Ho & Hr & Hf) Hrange. pose proof (log_complete s Hs Hall) as Hlc.
  destruct Hs as [He Hin Hresps Hmt Hrt Hmr Hlog Hj Hout Hdone].
  set (jb := mkJob task _ JRead).
  assert (Hjob_app : ∀ r ph, has_job (mr_jobs s) r ph → has_job (mr_jobs s ++ [jb]) r ph).
  { intros r ph (k & Hk & Hid & Hat). exists k. split; [|done]. apply elem_of_app. by left. }
  split; simpl; try done.
  - apply Forall_app. split; [done|]. constructor; [|done].
    split; [done|]. split; [done|]. split; [|done]. unfold jb_id, jb. simpl.
    replace task with (mkReduceTask (ReduceTask_Id task) (files_for (ReduceTask_Id task) (log (mr_coord s))))
      by (destruct task; simpl in *; by subst).
    by apply reduce_content_valid.
  - intros r (k & Hk & Hid & Hat).
    assert (Hold : has_job (mr_jobs s) r JWritten).
    { apply elem_of_app in Hk as [Hk|Hk]; [by exists k|].
      apply list_elem_of_singleton in Hk as ->. done. }
    destruct (Hout r Hold) as [Hc|?]; [left; by apply Hjob_app | by right].
  - intros r Hr'. by apply Hjob_app, Hdone.
Qed.

Lemma mr_step_write s j jb :
  mr_inv s → mr_jobs s !! j = Some jb → job_at jb = JCreated →
  mr_inv (set_fs (set_jobs s (<[j := mkJob (job_task jb) (job_content jb) JWritten]> (mr_jobs s)))
    (WriteString (out_name (jb_id jb)) (job_content jb) (mr_fs s))).
Proof using Hjob.
  intros Hs Hlk Hat. pose proof (mi_jobs _ Hs) as Hj. rewrite Forall_forall in Hj.
  destruct (Hj jb) as (_ & _ & Hv & Hx); [by eapply list_elem_of_lookup_2|].
  destruct Hx as (x & Hx & Hor); [by rewrite Hat|].
  assert (E : WriteString (out_name (jb_id jb)) (job_content jb) (mr_fs s) =
    <[out_name (jb_id jb) := job_content jb]> (mr_fs s)).
  { unfold WriteString, lookup_zero. rewrite Hx. simpl. rewrite string_drop_short; [by rewrite app_empty_r|].
    destruct Hor as [->|Hvx]; [simpl; lia|].
    by rewrite (valid_content_length _ _ _ Hvx Hv). }
  rewrite E. apply mr_inv_job; [done | done | done |]. right. by split.
Qed.

Lemma Forall_lookup_Some {A} (P : A → Prop) l i x : Forall P l → l !! i = Some x → P x.
Proof. intros H. by apply Forall_lookup_1. Qed.

Lemma option_cons_Forall {A} (P : A → Prop) o l :
  (∀ x, o = Some x → P x) → Forall P l → Forall P (option_cons o l).
Proof.
  intros Ho Hl. destruct o as [x|]; [|done]. apply Forall_app. split; [done|]. constructor; [by apply Ho | done].
Qed.

Lemma mr_inv_step s l s' : mr_inv s → range_ok l → mr_step mapf reducef s l s' → mr_inv s'.
Proof using HL Hjob.
  intros Hs Hrange. unfold mr_step. destruct l; simpl in *.
  - intros [= <-]. eapply (mr_inv_coord s LRegister); [done | | apply Hs | apply Hs].
    rewrite <- (coord_eta (mr_coord s)) at 1. constructor.
  - by intros [= <-].
  - destruct (AssignTask seed now (coord (mr_coord s))) as [c' resp] eqn:Ha. intros [= <-].
    destruct (mr_step_assign s seed now c' resp Hs Ha) as [Hs' Hr].
    apply (mr_inv_lists _ _ _ _ _ Hs'); [|apply Hs'..].
    apply Forall_app. split; [apply Hs' | by constructor].
  - intros (resp' & Hlk & [= <-])%bind_Some.
    destruct (mr_step_encode s resp' Hs) as [H1 H2]; [by eapply Forall_lookup_Some, Hlk; apply Hs|].
    apply (mr_inv_lists s); [done | apply Hs | | | apply Hs]; apply option_cons_Forall; auto; apply Hs.
  - intros (t & Hlk & Hrun)%bind_Some.
    destruct (mapTask_run _ _ _ _ _ _) as [[fs' o]| |] eqn:E; [|by simplify_eq..].
    injection Hrun as <-.
    assert (Ht : maptask_ok (coord (mr_coord s)) t) by (eapply Forall_lookup_Some, Hlk; apply Hs).
    destruct (mr_step_map s _ _ _ _ _ _ _ Hs Ht Hrange E) as [Hs' Hreq].
    apply (mr_inv_lists _ _ _ _ _ Hs'); [apply Hs'.. |].
    apply option_cons_Forall; [done | apply Hs'].
  - intros (r & Hlk & [= <-])%bind_Some. apply mr_step_report_map; [done|].
    eapply Forall_lookup_Some, Hlk. apply Hs.
  - intros (t & Hlk & [= <-])%bind_Some. apply mr_step_reduce; [done | | done].
    eapply Forall_lookup_Some, Hlk. apply Hs.
  - intros (jb & Hlk & Hd)%bind_Some. case_decide as Hat; [|done]. injection Hd as <-.
    apply (mr_inv_job s j jb JCreated EmptyString); [done..|]. by left.
  - intros (jb & Hlk & Hd)%bind_Some. case_decide as Hat; [|done]. injection Hd as <-.
    by apply mr_step_write.
  - intros (jb & Hlk & Hd)%bind_Some. case_decide as Hat; [|done]. injection Hd as <-.
    apply mr_step_report_reduce; [done | by eapply list_elem_of_lookup_2 | done].
Qed.

Lemma mr_inv_exec s ls s' :
  mr_inv s → Forall range_ok ls → exec (mr_step mapf reducef) s ls s' → mr_inv s'.
Proof using HL Hjob.
  intros Hs Hr He. induction He as [s|s l s1 ls s2 Hst He IH]; [done|].
  apply Forall_cons in Hr as [Hl Hr]. apply IH; [|done]. by eapply mr_inv_step.
Qed.
End correctness.

(** ** Properties *)

Section properties.
Context {L : Lo} {HL : LoLaws L}.

Lemma choose_list {A} (P : nat → A → Prop) m :
  (∀ i, (i < m)%nat → ∃ x, P i x) → ∃ l, length l = m ∧ ∀ i x, l !! i = Some x → P i x.
Proof.
  induction m as [|m IH]; intros H; [by exists []|].
  destruct IH as (l & Hl & HP); [intros; apply H; lia|]. destruct (H m) as [x Hx]; [lia|].
  exists (l ++ [x]). rewrite length_app. split; [simpl; lia|]. intros i y.
  rewrite lookup_app_Some. intros [Hi|[Hi Hy]]; [by apply HP|].
  apply list_lookup_singleton_Some in Hy as [Hi' <-]. by replace i with m by lia.
Qed.

Lemma concat_perm (ls ls' : list (list string)) : Forall2 (≡ₚ) ls ls' → concat ls ≡ₚ concat ls'.
Proof. induction 1 as [|l l' ls ls' Hl Hls IH]; [done|]. cbn [concat]. by rewrite Hl, IH. Qed.

Lemma map_phase_spec mapf fs0 files acc :
  (∀ f, f ∈ files → is_Some (fs0 !! f)) →
  map_phase (mapf 0%nat) files fs0 acc = Some (acc ++ concat (kvs_of mapf fs0 <$> files)).
Proof.
  revert acc. induction files as [|f files IH]; intros acc Hr; simpl; [by rewrite app_nil_r|].
  destruct (Hr f) as [c Hc]; [left|]. rewrite Hc, IH by (intros; apply Hr; by right).
  unfold kvs_of at 2. by rewrite Hc, <- app_assoc.
Qed.

Lemma reduce_loop_lines reducef fuel : ∀ l, Forall (λ line, ∃ k v, line = output_line k v) (reduce_loop reducef fuel l).
Proof.
  induction fuel as [|fuel IH]; intros [|kv l]; cbn [reduce_loop]; try apply Forall_nil_2.
  destruct (take_run (Key kv) l) as [rn rest]. apply Forall_cons_2; [by eexists _, _ | apply IH].
Qed.

(** What the finished system leaves, with the shape of the lines. *)
Lemma mapreduce_outputs mapf reducef files n fs0 ls s seed sort_by_key :
  job_ok mapf reducef files n fs0 → Forall range_ok ls →
  exec (mr_step mapf reducef) (mr_init files n fs0) ls s →
  Done seed (coord (mr_coord s)) = true → no_truncated_output s →
  (∀ l, sorted_of (sort_by_key l) l) →
  ∃ (outs : list (list string)) (seq : list string),
    mrsequential reducef (mapf 0%nat) sort_by_key files fs0 = Some (string_concat seq) ∧
    length outs = Z.to_nat n ∧
    (∀ r, 0 <= r < n → mr_fs s !! out_name r = string_concat <$> outs !! Z.to_nat r) ∧
    concat outs ≡ₚ seq ∧ Forall (λ line, ∃ k v, line = output_line k v) seq.
Proof.
  intros Hjob Hrange He Hdone Htrunc Hsort.
  pose proof (mr_inv_exec mapf reducef files n fs0 Hjob _ _ _ (mr_inv_init _ _ _ _ _) Hrange He) as Hinv.
  pose proof (jo_n _ _ _ _ _ Hjob) as Hn.
  apply Done_spec in Hdone as [Hmaps Hreds].
  assert (Hout : ∀ i, (i < Z.to_nat n)%nat → ∃ lines, mr_fs s !! out_name (Z.of_nat i) = Some (string_concat lines) ∧
    lines ≡ₚ spec_lines reducef (part_kvs n (Z.of_nat i) (all_kvs mapf files fs0))).
  { intros i Hi. pose proof Hinv as [[ls' He'] _ _ _ _ _ _ _ Hout Hd].
    assert (Hc : red_status (coord (mr_coord s)) !! Z.of_nat i = Some TaskCompleted).
    { pose proof (red_lookup files n ls' _ (Z.of_nat i) He' ltac:(lia)) as Ht.
      destruct (ci_red _ (mr_coord_inv _ _ _ _ _ _ Hinv)) as ([Hdom _] & _).
      destruct (proj1 (Hdom (Z.of_nat i)) ltac:(by eexists)) as [st Hst].
      unfold red_status. rewrite Hst. by rewrite (Hreds _ _ Hst). }
    destruct (Hout _ (Hd _ Hc)) as [(jb & Hjb & _ & Hat)|(x & Hx & lines & -> & Hl)]; [|by eexists].
    exfalso. unfold no_truncated_output in Htrunc. rewrite Forall_forall in Htrunc. by apply (Htrunc jb Hjb). }
  destruct (choose_list _ _ Hout) as (outs & Hlen & Houts). clear Hout.
  exists outs, (seq_lines reducef (sort_by_key (all_kvs mapf files fs0))).
  split; [|split; [done|split; [|split]]].
  - unfold mrsequential. rewrite map_phase_spec by apply Hjob. done.
  - intros r Hr. destruct (lookup_lt_is_Some_2 outs (Z.to_nat r)) as [lines Hlines]; [lia|].
    rewrite Hlines. destruct (Houts _ _ Hlines) as [Hf _]. by rewrite Z2Nat.id in Hf by lia.
  - rewrite (sorted_of_lines reducef (jo_reduce _ _ _ _ _ Hjob) _ _ (Hsort _)).
    rewrite <- (spec_lines_partition reducef (part n) (all_kvs mapf files fs0) n);
      [|lia | intros kv _; by apply part_range].
    apply concat_perm, Forall2_same_length_lookup. rewrite length_fmap, length_seqZ. split; [done|].
    intros i x y Hx Hy. apply list_lookup_fmap_Some in Hy as (r & -> & Hr).
    apply lookup_seqZ in Hr as [-> _]. by apply Houts.
  - apply reduce_loop_lines.
Qed.

(** C2 Distributed and sequential MapReduce agree. The job ([job_ok]): the files
    can be read and are named differently from each other and from the outputs,
    [Map] emits the same pairs on every attempt up to order, in valid UTF-8, and
    [Reduce] does not depend on the order of its values. Then in a run of the
    system with any number of workers, lost or duplicated calls, crashes and
    re-executions, when the coordinator is done and no reduce execution, late or
    repeated, is between truncating and writing its output, the lines of the
    output files are, up to order, the lines of the sequential program. The last
    condition is needed: [late_reduce_truncates_output] is a run that violates
    it, with an empty output file. *)
Theorem mapreduce_equals_sequential mapf reducef files n fs0 ls s seed sort_by_key :
  job_ok mapf reducef files n fs0 → Forall range_ok ls →
  exec (mr_step mapf reducef) (mr_init files n fs0) ls s →
  Done seed (coord (mr_coord s)) = true → no_truncated_output s →
  (∀ l, sorted_of (sort_by_key l) l) →
  ∃ (outs : list (list string)) (seq : list string),
    mrsequential reducef (mapf 0%nat) sort_by_key files fs0 = Some (string_concat seq) ∧
    length outs = Z.to_nat n ∧
    (∀ r, 0 <= r < n → mr_fs s !! out_name r = string_concat <$> outs !! Z.to_nat r) ∧
    concat outs ≡ₚ seq.
Proof.
  intros Hjob Hrange He Hdone Htrunc Hsort.
  destruct (mapreduce_outputs mapf reducef files n fs0 ls s seed sort_by_key) as (outs & seq & H1 & H2 & H3 & H4 & _); [done..|].
  by exists outs, seq.
Qed.
End properties.

(** ** A concrete job: word count of two small files, two reduce tasks *)

Definition wc_mapf (_ : nat) : string → string → list KeyValue := wc.Map (λ _, false).
Definition demo_files : list string := ["x.txt"; "y.txt"]%string.
Definition demo_fs : filesystem := {["x.txt"%string := "a b a"%string; "y.txt"%string := "b"%string]}.

Lemma demo_job_ok : job_ok wc_mapf wc.Reduce demo_files 2 demo_fs.
Proof.
  split.
  - lia.
  - by apply (bool_decide_unpack _).
  - intros f [->|[->|[]%elem_of_nil]%elem_of_cons]%elem_of_cons; by eexists.
  - intros f r [->|[->|[]%elem_of_nil]%elem_of_cons]%elem_of_cons; done.
  - intros a f c _ _. split; [done|]. by apply wc_Map_valid.
  - intros k vs vs'. apply wc_Reduce_perm.
Qed.

(** Both map tasks; the second reduce task is executed twice, because the
    first execution was given up as too slow. *)
Definition demo_run : list mr_label :=
  [MRegister; MAssign 0 0; MAssign 0 0; MEncode 0; MEncode 1;
   MMap 0 1 0 [Some "1"; Some "2"]%string map_to_list; MMap 0 2 1 [Some "3"; Some "4"]%string map_to_list;
   MReportMap 1; MReportMap 0; MReportMap 0;
   MAssign 0 1; MAssign 0 1; MAssign 0 (20 * second);
   MEncode 2; MEncode 3; MEncode 4;
   MReduce 0 map_to_list; MReduce 1 map_to_list; MReduce 2 map_to_list;
   MCreate 0; MWrite 0; MReportReduce 1 0; MCreate 1; MWrite 1; MReportReduce 2 1].

Definition mr_demo (ls : list mr_label) : mrsys :=
  default (mr_init demo_files 2 demo_fs) (run (mr_next wc_mapf wc.Reduce) (mr_init demo_files 2 demo_fs) ls).

Lemma mr_demo_exec ls :
  is_Some (run (mr_next wc_mapf wc.Reduce) (mr_init demo_files 2 demo_fs) ls) →
  exec (mr_step wc_mapf wc.Reduce) (mr_init demo_files 2 demo_fs) ls (mr_demo ls).
Proof.
  intros [s Hs]. apply (run_exec _ (mr_next wc_mapf wc.Reduce)); [done|]. unfold mr_demo. by rewrite Hs.
Qed.

Definition sort_pairs (l : list KeyValue) : list KeyValue := merge_sort key_le l.

Lemma sort_pairs_ok l : sorted_of (sort_pairs l) l.
Proof.
  split; [apply merge_sort_Permutation|]. apply StronglySorted_merge_sort.
  - intros a b c. unfold key_le. apply string_le_trans.
  - intros a b. unfold key_le. apply string_le_total.
Qed.

Lemma mapreduce_equals_sequential_witness :
  ∃ outs seq, mrsequential wc.Reduce (wc_mapf 0%nat) sort_pairs demo_files demo_fs = Some (string_concat seq) ∧
    mr_fs (mr_demo demo_run) !! "mr-out-1"%string = string_concat <$> outs !! 1%nat ∧ concat outs ≡ₚ seq.
Proof.
  destruct (mapreduce_equals_sequential wc_mapf wc.Reduce demo_files 2 demo_fs demo_run (mr_demo demo_run)
    0 sort_pairs demo_job_ok) as (outs & seq & Hs & _ & Ho & Hp).
  - unfold demo_run. rewrite !Forall_cons. simpl. by rewrite Forall_nil.
  - apply mr_demo_exec. vm_compute. by eexists.
  - by vm_compute.
  - apply (bool_decide_unpack _). by vm_compute.
  - exact sort_pairs_ok.
  - exists outs, seq. split; [exact Hs|]. split; [exact (Ho 1 ltac:(lia)) | exact Hp].
Defined.

(** The output files are not replaced atomically: a run of the same job in
    which the coordinator is done, every output is complete, and then a slow
    second execution of a reduce task truncates its output: if its worker dies
    there, the output of the finished job stays empty. *)
Theorem late_reduce_truncates_output :
  exec (mr_step wc_mapf wc.Reduce) (mr_init demo_files 2 demo_fs) (demo_run ++ [MCreate 2])
    (mr_demo (demo_run ++ [MCreate 2])) ∧
  Done 0 (coord (mr_coord (mr_demo (demo_run ++ [MCreate 2])))) = true ∧
  mr_fs (mr_demo demo_run) !! out_name 1 = Some ("b 2" +:+ chr 0x0A)%string ∧
  mr_fs (mr_demo (demo_run ++ [MCreate 2])) !! out_name 1 = Some EmptyString.
Proof.
  split; [apply mr_demo_exec; vm_compute; by eexists|]. by vm_compute.
Qed.
