(* ===== verification/ShardCfg.v ===== *)
(** * Shard configurations: [shardkv1/shardcfg/shardcfg.go]

    A configuration assigns the twelve shards to replica groups. [Join] and
    [Leave] change the groups, [Rebalance] the assignment. Ranges over Go maps
    take the order of the entries as an argument where it can matter. *)

From stdpp Require Import sorting.
From S2P Require Import Prelude Fnv.

(** ** Data *)

Definition NShards : Z := 12.

Record ShardConfig := mkShardConfig {
  Num : Z;
  Shards : list Z;
  Groups : gmap Z (list string)
}.

Definition MakeShardConfig : ShardConfig := mkShardConfig 0 (replicate (Z.to_nat NShards) 0) ∅.

Definition set_Shards (c : ShardConfig) (s : list Z) : ShardConfig := mkShardConfig (Num c) s (Groups c).
Definition set_Groups (c : ShardConfig) (g : gmap Z (list string)) : ShardConfig := mkShardConfig (Num c) (Shards c) g.
Definition set_Num (c : ShardConfig) (n : Z) : ShardConfig := mkShardConfig n (Shards c) (Groups c).

(** [Shards] is an array of [NShards] elements. *)
Definition cfg_wf (c : ShardConfig) : Prop := length (Shards c) = Z.to_nat NShards.

(** ** Operations *)

Definition Key2Shard (key : string) : Z := Z.rem (fnv32a key) NShards.

(** [Copy]: new slices and a new map with the same contents. *)
Definition Copy (cfg : ShardConfig) : ShardConfig :=
  let c := set_Num MakeShardConfig (Num cfg) in
  let c := set_Shards c (Shards cfg) in
  fold_left (λ c e, set_Groups c (<[e.1 := e.2]> (Groups c))) (map_to_list (Groups cfg)) c.

(** [counts[g] += 1] for every shard. *)
Definition shard_counts (shards : list Z) : gmap Z Z :=
  fold_left (λ counts g, <[g := lookup_zero 0 g counts + 1]> counts) shards ∅.

(** mostgroup, mostn, leastgroup, leastn *)
Record stats := mkStats { st_mg : Z; st_mn : Z; st_lg : Z; st_ln : Z }.

Definition analyze_group (counts : gmap Z Z) (st : stats) (g : Z) : stats :=
  let n := lookup_zero 0 g counts in
  let st := if decide (n < st_ln st) then mkStats (st_mg st) (st_mn st) g n else st in
  if decide (n > st_mn st) then mkStats g n (st_lg st) (st_ln st) else st.

(** [order] is the order in which the range over [c.Groups] yields the keys;
    they are sorted before use ([slices.Sort]). *)
Definition analyze_in (order : list Z) (c : ShardConfig) : stats :=
  fold_left (analyze_group (shard_counts (Shards c))) (merge_sort Z.le order)
    (mkStats (-1) (-1) (-1) 257).

Definition analyze (c : ShardConfig) : stats := analyze_in (map_to_list (Groups c)).*1 c.

Definition least (c : ShardConfig) : Z := st_lg (analyze c).

(** The loop that assigns the unassigned shards, from shard [s] on. *)
Fixpoint assign_unassigned (s n : nat) (c : ShardConfig) : ShardConfig :=
  match n with
  | O => c
  | Datatypes.S n =>
      let c := match Shards c !! s with
               | Some g =>
                   match Groups c !! g with
                   | None => set_Shards c (<[s := least c]> (Shards c))
                   | Some _ => c
                   end
               | None => c
               end in
      assign_unassigned (Datatypes.S s) n c
  end.

(** Move the first shard of [mg] to [lg]. *)
Fixpoint move_first (mg lg : Z) (shards : list Z) : list Z :=
  match shards with
  | [] => []
  | g :: shards => if decide (g = mg) then lg :: shards else g :: move_first mg lg shards
  end.

(** The balancing loop; [None] when the fuel is used up. *)
Fixpoint balance_loop (fuel : nat) (c : ShardConfig) : option ShardConfig :=
  match fuel with
  | O => None
  | Datatypes.S fuel =>
      let st := analyze c in
      if decide (st_mn st < st_ln st + 2) then Some c
      else balance_loop fuel (set_Shards c (move_first (st_mg st) (st_lg st) (Shards c)))
  end.

Definition balance_fuel : nat := 145.

Definition Rebalance (c : ShardConfig) : option ShardConfig :=
  if decide (Z.of_nat (size (Groups c)) < 1) then
    Some (set_Shards c (replicate (length (Shards c)) 0))
  else balance_loop balance_fuel (assign_unassigned 0 (length (Shards c)) c).

(** One iteration of the loop of [Join]: [None] ends the loop with [false]. *)
Definition shares_server (servers : list string) (groups : gmap Z (list string)) : bool :=
  existsb (λ e, existsb (λ s1, existsb (λ s2, bool_decide (s1 = s2)) servers) e.2) (map_to_list groups).

Fixpoint Join_loop (entries : list (Z * list string)) (changed : bool) (cfg : ShardConfig) :
    outcome (ShardConfig * option bool) :=
  match entries with
  | [] => Ret (cfg, Some changed)
  | (gid, servers) :: entries =>
      match Groups cfg !! gid with
      | Some _ => Ret (cfg, None)
      | None =>
          if shares_server servers (Groups cfg) then Fatal
          else Join_loop entries true (set_Groups cfg (<[gid := servers]> (Groups cfg)))
      end
  end.

(** [Join]: the configuration it leaves (also when it returns false) and its
    result; [entries] is the argument in the order of the range. *)
Definition Join (entries : list (Z * list string)) (cfg : ShardConfig) : outcome (ShardConfig * bool) :=
  '(cfg, res) ← Join_loop entries false cfg;
  match res with
  | None => Ret (cfg, false)
  | Some false => Fatal
  | Some true => Ret (set_Num cfg (wrapS 64 (Num cfg + 1)), true)
  end.

Fixpoint Leave_loop (gids : list Z) (changed : bool) (cfg : ShardConfig) : ShardConfig * option bool :=
  match gids with
  | [] => (cfg, Some changed)
  | gid :: gids =>
      match Groups cfg !! gid with
      | None => (cfg, None)
      | Some _ => Leave_loop gids true (set_Groups cfg (delete gid (Groups cfg)))
      end
  end.

Definition Leave (gids : list Z) (cfg : ShardConfig) : outcome (ShardConfig * bool) :=
  let '(cfg, res) := Leave_loop gids false cfg in
  match res with
  | None => Ret (cfg, false)
  | Some false => Fatal
  | Some true => Ret (set_Num cfg (wrapS 64 (Num cfg + 1)), true)
  end.

(** [Rebalance] as a statement: running out of fuel would be divergence. *)
Definition rebalanced (r : outcome (ShardConfig * bool)) : option (outcome (ShardConfig * bool)) :=
  match r with
  | Ret (cfg, true) => (λ c, Ret (c, true)) <$> Rebalance cfg
  | r => Some r
  end.

Definition JoinBalance (entries : list (Z * list string)) (cfg : ShardConfig) := rebalanced (Join entries cfg).
Definition LeaveBalance (gids : list Z) (cfg : ShardConfig) := rebalanced (Leave gids cfg).

Definition GidServers (sh : Z) (cfg : ShardConfig) : outcome (Z * list string * bool) :=
  gid ← index (Shards cfg) sh;
  Ret (gid, lookup_zero [] gid (Groups cfg), bool_decide (is_Some (Groups cfg !! gid))).

Definition IsMember (gid : Z) (cfg : ShardConfig) : bool := existsb (λ g, bool_decide (g = gid)) (Shards cfg).

(** The most and least loaded group as [CheckConfig] computes them. *)
Definition check_min_max (counts : gmap Z Z) (acc : Z * Z) (g : Z) : Z * Z :=
  let n := lookup_zero 0 g counts in
  (if decide (n < acc.1) then n else acc.1, if decide (n > acc.2) then n else acc.2).

(** [CheckConfig]: [Fatal] when the test is failed. *)
Definition CheckConfig (groups : list Z) (cfg : ShardConfig) : outcome unit :=
  if decide (Z.of_nat (size (Groups cfg)) ≠ Z.of_nat (length groups)) then Fatal
  else if decide (¬ Forall (λ g, is_Some (Groups cfg !! g)) groups) then Fatal
  else if decide (Z.of_nat (length groups) > 0 ∧ ¬ Forall (λ g, is_Some (Groups cfg !! g)) (Shards cfg)) then Fatal
  else
    let '(min, max) := fold_left (check_min_max (shard_counts (Shards cfg))) (map_to_list (Groups cfg)).*1 (257, 0) in
    if decide (max > min + 1) then Fatal else Ret tt.

(** ** Counting shards *)

(** The number of shards of group [g]. *)
Fixpoint occ (g : Z) (shards : list Z) : Z :=
  match shards with
  | [] => 0
  | x :: shards => (if decide (x = g) then 1 else 0) + occ g shards
  end.

Section counting.

Lemma occ_range g l : 0 <= occ g l <= Z.of_nat (length l).
Proof. induction l as [|x l IH]; cbn [occ length]; [lia|]. case_decide; lia. Qed.

Lemma occ_app g l l' : occ g (l ++ l') = occ g l + occ g l'.
Proof. induction l as [|x l IH]; cbn [occ app]; [lia|]. case_decide; lia. Qed.

Lemma occ_pos g l : g ∈ l ↔ 0 < occ g l.
Proof.
  induction l as [|x l IH]; cbn [occ].
  - rewrite elem_of_nil. lia.
  - rewrite elem_of_cons. pose proof (occ_range g l). case_decide; naive_solver lia.
Qed.

Lemma shard_counts_lookup g l : lookup_zero 0 g (shard_counts l) = occ g l.
Proof.
  unfold shard_counts. induction l as [|x l IH] using rev_ind; [done|].
  rewrite fold_left_app, occ_app. cbn [fold_left occ].
  rewrite lookup_zero_insert. repeat case_decide; subst; try done; lia.
Qed.

Lemma length_move_first mg lg l : length (move_first mg lg l) = length l.
Proof. induction l as [|x l IH]; simpl; [done|]. case_decide; simpl; congruence. Qed.

Lemma occ_move_first mg lg l g :
  mg ∈ l →
  occ g (move_first mg lg l) =
  occ g l - (if decide (g = mg) then 1 else 0) + (if decide (g = lg) then 1 else 0).
Proof.
  induction l as [|x l IH]; [by intros ?%elem_of_nil|]. intros Hin.
  cbn [move_first]. destruct (decide (x = mg)) as [->|Hne]; cbn [occ].
  - repeat case_decide; subst; try done; lia.
  - assert (mg ∈ l) by (apply elem_of_cons in Hin; naive_solver).
    rewrite IH by done. repeat case_decide; subst; try done; lia.
Qed.

Lemma move_first_Forall (P : Z → Prop) mg lg l :
  P lg → Forall P l → Forall P (move_first mg lg l).
Proof. intros Hlg. induction 1; simpl; [done|]. case_decide; by constructor. Qed.

(** Sums over a list of groups. *)
Fixpoint sumZ (f : Z → Z) (ks : list Z) : Z :=
  match ks with [] => 0 | k :: ks => f k + sumZ f ks end.

Lemma sumZ_ext f f' ks : (∀ k, k ∈ ks → f k = f' k) → sumZ f ks = sumZ f' ks.
Proof.
  induction ks as [|k ks IH]; intros Hext; simpl; [done|].
  rewrite Hext by left. rewrite IH; [done|]. intros. apply Hext. by right.
Qed.

Lemma sumZ_update f a v ks :
  NoDup ks → a ∈ ks → sumZ (λ k, if decide (k = a) then v else f k) ks = sumZ f ks - f a + v.
Proof.
  induction 1 as [|k ks Hk Hnd IH]; [by intros ?%elem_of_nil|]. intros Hin. simpl.
  destruct (decide (k = a)) as [->|Hne].
  - rewrite (sumZ_ext _ f); [lia|]. intros k' Hk'. rewrite decide_False; [done|].
    by intros ->.
  - rewrite IH; [lia|]. apply elem_of_cons in Hin. naive_solver.
Qed.

Lemma sumZ_le f f' ks : (∀ k, f k <= f' k) → sumZ f ks <= sumZ f' ks.
Proof. intros Hle. induction ks as [|k ks IH]; simpl; [lia|]. specialize (Hle k). lia. Qed.

Lemma sumZ_mul a f ks : sumZ (λ k, a * f k) ks = a * sumZ f ks.
Proof. induction ks as [|k ks IH]; simpl; lia. Qed.

Lemma sumZ_occ ks l : NoDup ks → sumZ (λ k, occ k l) ks <= Z.of_nat (length l).
Proof.
  intros Hnd. induction l as [|x l IH]; cbn [occ length].
  - clear Hnd. induction ks; simpl; lia.
  - assert (Hone : sumZ (λ k, (if decide (x = k) then 1 else 0) + occ k l) ks <= 1 + sumZ (λ k, occ k l) ks).
    { clear IH. induction Hnd as [|k ks Hk Hnd IH]; cbn [sumZ]; [lia|].
      case_decide as Hd; [|lia]. subst k.
      rewrite (sumZ_ext _ (λ k, occ k l)); [lia|].
      intros k Hk'. rewrite decide_False; [lia|]. by intros ->. }
    lia.
Qed.

(** The potential of the balancing loop: the sum of the squared loads. *)
Definition potential (ks shards : list Z) : Z := sumZ (λ k, occ k shards * occ k shards) ks.

Lemma potential_bound ks l :
  NoDup ks → 0 <= potential ks l <= Z.of_nat (length l) * Z.of_nat (length l).
Proof.
  intros Hnd. unfold potential. split.
  - clear Hnd. induction ks as [|k ks IH]; simpl; [lia|]. nia.
  - trans (Z.of_nat (length l) * sumZ (λ k, occ k l) ks).
    + rewrite <- sumZ_mul. apply sumZ_le. intros k. pose proof (occ_range k l). nia.
    + apply Z.mul_le_mono_nonneg_l; [lia|]. by apply sumZ_occ.
Qed.

Lemma potential_move ks mg lg l :
  NoDup ks → mg ∈ ks → lg ∈ ks → mg ≠ lg → mg ∈ l →
  potential ks (move_first mg lg l) =
  potential ks l - 2 * (occ mg l - occ lg l) + 2.
Proof.
  intros Hnd Hmg Hlg Hne Hin. unfold potential.
  rewrite (sumZ_ext _ (λ k, if decide (k = mg) then (occ mg l - 1) * (occ mg l - 1) else
    (λ k, if decide (k = lg) then (occ lg l + 1) * (occ lg l + 1) else occ k l * occ k l) k)).
  - rewrite sumZ_update, sumZ_update by done. simpl.
    rewrite decide_False by done. lia.
  - intros k _. rewrite occ_move_first by done.
    repeat case_decide; subst; try done; lia.
Qed.
End counting.

(** ** [analyze] *)

Section analyze.

Definition is_group (c : ShardConfig) (g : Z) : Prop := is_Some (Groups c !! g).

#[export] Instance is_group_dec c g : Decision (is_group c g).
Proof. unfold is_group. apply _. Defined.

Lemma elem_of_keys c g : g ∈ (map_to_list (Groups c)).*1 ↔ is_group c g.
Proof.
  rewrite list_elem_of_fmap. split.
  - intros ([g' srvs] & -> & Hin%elem_of_map_to_list). by eexists.
  - intros [srvs Hg]. exists (g, srvs). by rewrite elem_of_map_to_list.
Qed.

Lemma keys_nodup c : NoDup (map_to_list (Groups c)).*1.
Proof. apply NoDup_fst_map_to_list. Qed.

(** The range order of the map does not matter: the keys are sorted. *)
Lemma analyze_order order c : order ≡ₚ (map_to_list (Groups c)).*1 → analyze_in order c = analyze c.
Proof.
  intros Hp. unfold analyze, analyze_in. f_equal.
  apply (StronglySorted_unique Z.le).
  - apply StronglySorted_merge_sort; apply _.
  - apply StronglySorted_merge_sort; apply _.
  - by rewrite !merge_sort_Permutation.
Qed.

(** The fold meets the extremes of the groups seen so far. *)
Lemma analyze_fold counts l :
  (∀ g, 0 <= lookup_zero 0 g counts < 257) →
  let st := fold_left (analyze_group counts) l (mkStats (-1) (-1) (-1) 257) in
  match l with
  | [] => st = mkStats (-1) (-1) (-1) 257
  | _ => st_mg st ∈ l ∧ st_lg st ∈ l ∧
      st_mn st = lookup_zero 0 (st_mg st) counts ∧ st_ln st = lookup_zero 0 (st_lg st) counts ∧
      ∀ g, g ∈ l → st_ln st <= lookup_zero 0 g counts <= st_mn st
  end.
Proof.
  intros Hc. induction l as [|x l IH] using rev_ind; [done|].
  rewrite fold_left_app. simpl in *. set (st := fold_left _ l _) in *.
  replace (match l ++ [x] with [] => _ | _ => _ end) with
    (let st' := analyze_group counts st x in
     st_mg st' ∈ l ++ [x] ∧ st_lg st' ∈ l ++ [x] ∧
     st_mn st' = lookup_zero 0 (st_mg st') counts ∧ st_ln st' = lookup_zero 0 (st_lg st') counts ∧
     ∀ g, g ∈ l ++ [x] → st_ln st' <= lookup_zero 0 g counts <= st_mn st') by (by destruct l).
  specialize (Hc x) as Hx. unfold analyze_group. destruct l as [|y l].
  - rewrite IH. clear st IH. simpl. repeat (case_decide; simpl in *; try lia).
    split; [left|]. split; [left|]. split; [done|]. split; [done|].
    intros g ->%list_elem_of_singleton. lia.
  - destruct IH as (Hmg & Hlg & Hmn & Hln & Hall).
    setoid_rewrite elem_of_app. setoid_rewrite list_elem_of_singleton.
    destruct (decide (lookup_zero 0 x counts < st_ln st)); simpl;
      (case_decide; simpl; repeat split; try tauto; try done;
       match goal with H : _ ∨ _ |- _ => destruct H as [Hg| ->] end; try apply Hall in Hg; lia).
Qed.

Lemma analyze_spec c :
  length (Shards c) = Z.to_nat NShards → (∃ g, is_group c g) →
  let st := analyze c in
  is_group c (st_mg st) ∧ is_group c (st_lg st) ∧
  st_mn st = occ (st_mg st) (Shards c) ∧ st_ln st = occ (st_lg st) (Shards c) ∧
  ∀ g, is_group c g → st_ln st <= occ g (Shards c) <= st_mn st.
Proof.
  intros Hwf [g0 Hg0]. pose proof (analyze_fold (shard_counts (Shards c))
    (merge_sort Z.le (map_to_list (Groups c)).*1)) as Hf.
  unfold analyze, analyze_in. simpl in *. set (st := fold_left _ _ _) in *.
  assert (Hin : ∀ g, g ∈ merge_sort Z.le (map_to_list (Groups c)).*1 ↔ is_group c g).
  { intros g. by rewrite merge_sort_Permutation, elem_of_keys. }
  destruct (merge_sort Z.le (map_to_list (Groups c)).*1) as [|k ks].
  { apply Hin, elem_of_nil in Hg0. done. }
  setoid_rewrite Hin in Hf. rewrite !shard_counts_lookup in Hf.
  setoid_rewrite shard_counts_lookup in Hf. apply Hf. intros g.
  pose proof (occ_range g (Shards c)) as Hr. rewrite Hwf in Hr.
  change (Z.of_nat (Z.to_nat NShards)) with 12 in Hr. lia.
Qed.
End analyze.

(** ** [Rebalance] *)

(** Every shard belongs to a group, and no group has two shards more than another. *)
Definition assigned (c : ShardConfig) : Prop := Forall (is_group c) (Shards c).
Definition balanced (c : ShardConfig) : Prop :=
  ∀ g g', is_group c g → is_group c g' → occ g (Shards c) <= occ g' (Shards c) + 1.

#[export] Instance assigned_dec c : Decision (assigned c).
Proof. unfold assigned. apply _. Defined.

Section rebalance.

Lemma assign_unassigned_spec n s c :
  length (Shards c) = Z.to_nat NShards → (∃ g, is_group c g) →
  let c' := assign_unassigned s n c in
  Groups c' = Groups c ∧ Num c' = Num c ∧ length (Shards c') = length (Shards c) ∧
  ∀ i g', Shards c' !! i = Some g' →
    (s <= i < s + n → is_group c g')%nat ∧
    ∃ g, Shards c !! i = Some g ∧ (is_group c g ∨ (i < s)%nat → g' = g).
Proof.
  revert s c. induction n as [|n IH]; intros s c Hwf Hne.
  { simpl. repeat split; [lia|]. eauto. }
  cbn [assign_unassigned].
  set (c1 := match Shards c !! s with Some g => _ | None => c end).
  assert (H1 : Groups c1 = Groups c ∧ Num c1 = Num c ∧ length (Shards c1) = length (Shards c) ∧
    ∀ i g', Shards c1 !! i = Some g' → (i = s → is_group c g') ∧
      ∃ g, Shards c !! i = Some g ∧ (is_group c g ∨ i ≠ s → g' = g)).
  { unfold c1. destruct (Shards c !! s) as [g|] eqn:Hs.
    - destruct (Groups c !! g) as [srvs|] eqn:Hg; simpl.
      + repeat split; [|eauto]. intros ->. rewrite Hs in H. simplify_eq. by eexists.
      + rewrite length_insert. split; [done|]. split; [done|]. split; [done|]. intros i g'.
        destruct (analyze_spec c Hwf Hne) as (_ & Hlg & _).
        rewrite list_lookup_insert_Some. intros [(<- & <- & _)|[Hi Hg']].
        * split; [done|]. exists g. split; [done|]. intros [[? ?]|?]; [congruence | done].
        * split; [intros; congruence|]. exists g'. split; [done | by intros].
    - repeat split; [|eauto]. intros ->. congruence. }
  destruct H1 as (HG & HN & Hl & H1).
  destruct (IH (Datatypes.S s) c1) as (HG' & HN' & Hl' & H2);
    [congruence | unfold is_group; by rewrite HG |].
  rewrite HG', HN', Hl'. split; [done|]. split; [done|]. split; [done|].
  intros i g' Hi. destruct (H2 _ _ Hi) as (Hr & g1 & Hg1 & Heq).
  destruct (H1 _ _ Hg1) as (Hr1 & g & Hg & Heq1).
  unfold is_group in Hr, Heq. rewrite HG in Hr, Heq. split.
  - intros Hrange. destruct (decide (i = s)) as [->|Hne']; [|apply Hr; lia].
    rewrite Heq by (right; lia). by apply Hr1.
  - exists g. split; [done|]. intros Hor. destruct (decide (i = s)) as [->|Hne'].
    + rewrite Heq by (right; lia). apply Heq1. destruct Hor; [by left | lia].
    + destruct Hor as [Hg0|Hlt].
      * assert (g1 = g) as -> by (apply Heq1; by left). apply Heq. by left.
      * rewrite Heq by (right; lia). apply Heq1. right. lia.
Qed.

Lemma balance_step c :
  length (Shards c) = Z.to_nat NShards → (∃ g, is_group c g) → assigned c →
  let st := analyze c in
  let c' := set_Shards c (move_first (st_mg st) (st_lg st) (Shards c)) in
  st_ln st + 2 <= st_mn st →
  assigned c' ∧
  potential (map_to_list (Groups c')).*1 (Shards c') + 2 <= potential (map_to_list (Groups c)).*1 (Shards c).
Proof.
  intros Hwf Hne Has st c' Hmn. destruct (analyze_spec c Hwf Hne) as (Hmg & Hlg & Em & El & _).
  fold st in Hmg, Hlg, Em, El. pose proof (occ_range (st_lg st) (Shards c)).
  assert (st_mg st ∈ Shards c) by (apply occ_pos; lia).
  split; [by apply move_first_Forall|]. unfold c'. simpl.
  rewrite potential_move; [lia | apply keys_nodup | by apply elem_of_keys.. | | done].
  intros Heq. rewrite Heq in Em. lia.
Qed.

Lemma balance_loop_spec fuel c :
  length (Shards c) = Z.to_nat NShards → (∃ g, is_group c g) → assigned c →
  potential (map_to_list (Groups c)).*1 (Shards c) < Z.of_nat fuel →
  ∃ c', balance_loop fuel c = Some c' ∧
    Groups c' = Groups c ∧ Num c' = Num c ∧ length (Shards c') = length (Shards c) ∧
    assigned c' ∧ balanced c'.
Proof.
  revert c. induction fuel as [|fuel IH]; intros c Hwf Hne Has Hpot.
  { pose proof (potential_bound _ (Shards c) (keys_nodup c)). lia. }
  cbn [balance_loop]. case_decide as Hmn.
  - exists c. repeat split; try done. intros g g' Hg Hg'.
    destruct (analyze_spec c Hwf Hne) as (_ & _ & _ & _ & Hall).
    apply Hall in Hg, Hg'. lia.
  - destruct (balance_step c Hwf Hne Has) as [Has' Hpot']; [lia|].
    destruct (IH (set_Shards c (move_first (st_mg (analyze c)) (st_lg (analyze c)) (Shards c))))
      as (c' & Hc' & HG & HN & Hl & H1 & H2);
      [simpl; by rewrite length_move_first | done | done | lia |].
    exists c'. rewrite Hl. simpl. rewrite length_move_first. done.
Qed.

Lemma no_groups c : Z.of_nat (size (Groups c)) < 1 ↔ Groups c = ∅.
Proof. rewrite <- map_size_empty_iff. lia. Qed.

Lemma has_group c : Groups c ≠ ∅ → ∃ g, is_group c g.
Proof. intros (g & srvs & Hg)%map_choose. exists g. by eexists. Qed.

Lemma Rebalance_total c :
  cfg_wf c →
  ∃ c', Rebalance c = Some c' ∧ Groups c' = Groups c ∧ Num c' = Num c ∧ cfg_wf c' ∧
    (Groups c = ∅ → Shards c' = replicate (Z.to_nat NShards) 0) ∧
    (Groups c ≠ ∅ → assigned c') ∧ balanced c'.
Proof.
  intros Hwf. unfold Rebalance, cfg_wf in *. case_decide as Hd; rewrite no_groups in Hd.
  - eexists. split; [done|]. rewrite Hwf. simpl. repeat split; try done.
    intros g g' [srvs Hg]. simpl in Hg. rewrite Hd, lookup_empty in Hg. done.
  - destruct (assign_unassigned_spec (length (Shards c)) 0 c Hwf (has_group _ Hd)) as (HG & HN & Hl & Hi).
    set (c1 := assign_unassigned 0 (length (Shards c)) c) in *.
    assert (Has : assigned c1).
    { apply Forall_lookup. intros i g Hg. unfold is_group. rewrite HG.
      apply (Hi i g Hg). apply lookup_lt_Some in Hg. lia. }
    destruct (balance_loop_spec balance_fuel c1) as (c' & Hc' & HG' & HN' & Hl' & H1 & H2).
    + congruence.
    + apply has_group. by rewrite HG.
    + done.
    + destruct (potential_bound (map_to_list (Groups c1)).*1 (Shards c1)) as [_ Hb]; [apply keys_nodup|].
      rewrite Hl, Hwf in Hb. change (Z.of_nat (Z.to_nat NShards)) with 12 in Hb.
      change (Z.of_nat balance_fuel) with 145. lia.
    + exists c'. rewrite HG', HN', Hl', Hl. repeat split; try done; congruence.
Qed.

(** A group of the configuration that has a shard keeps one. *)
Lemma balance_loop_keeps fuel c c' g :
  length (Shards c) = Z.to_nat NShards → (∃ g, is_group c g) → assigned c →
  balance_loop fuel c = Some c' → g ∈ Shards c → g ∈ Shards c'.
Proof.
  revert c. induction fuel as [|fuel IH]; intros c Hwf Hne Has; [done|]. cbn [balance_loop].
  destruct (analyze_spec c Hwf Hne) as (Hmg & Hlg & Em & El & _). case_decide as Hmn; [by intros [= ->]|].
  intros Hb Hg. eapply IH; [..|exact Hb|].
  - simpl. by rewrite length_move_first.
  - done.
  - by apply move_first_Forall.
  - cbn [set_Shards Shards]. apply occ_pos in Hg. apply occ_pos. pose proof (occ_range (st_lg (analyze c)) (Shards c)).
    rewrite occ_move_first by (apply occ_pos; lia). repeat case_decide; subst; lia.
Qed.

Lemma Rebalance_keeps c c' g : cfg_wf c → Rebalance c = Some c' → is_group c g → g ∈ Shards c → g ∈ Shards c'.
Proof.
  intros Hwf Hr Hg Hin. unfold Rebalance, cfg_wf in *. case_decide as Hd; rewrite no_groups in Hd.
  { destruct Hg as [? Hg]. by rewrite Hd, lookup_empty in Hg. }
  destruct (assign_unassigned_spec (length (Shards c)) 0 c Hwf (has_group _ Hd)) as (HG & _ & Hl & Hi).
  set (c1 := assign_unassigned 0 (length (Shards c)) c) in *.
  eapply balance_loop_keeps; [| | |exact Hr|].
  - congruence.
  - apply has_group. by rewrite HG.
  - apply Forall_lookup. intros i g' Hg'. unfold is_group. rewrite HG. apply (Hi i g' Hg'). apply lookup_lt_Some in Hg'. lia.
  - apply list_elem_of_lookup in Hin as [i Hgi]. destruct (lookup_lt_is_Some_2 (Shards c1) i) as [g' Hg'].
    { rewrite Hl. by eapply lookup_lt_Some. }
    destruct (Hi i g' Hg') as (_ & g0 & Hg0 & Heq). assert (g0 = g) as -> by congruence.
    rewrite Heq in Hg' by (by left). by eapply list_elem_of_lookup_2.
Qed.

(** With at most as many groups as shards, every group has a shard. *)
Lemma balanced_owns c g :
  cfg_wf c → assigned c → balanced c → (size (Groups c) <= Z.to_nat NShards)%nat → is_group c g → g ∈ Shards c.
Proof.
  intros Hwf Has Hb Hsz Hg. destruct (decide (g ∈ Shards c)) as [?|Hni]; [done|exfalso].
  assert (Hz : occ g (Shards c) = 0) by (pose proof (occ_range g (Shards c)); rewrite occ_pos in Hni; lia).
  assert (Hsum : sumZ (λ k, occ k (Shards c)) (map_to_list (Groups c)).*1 = Z.of_nat (length (Shards c))).
  { clear Hb Hsz Hz Hni Hg. unfold assigned in Has. revert Has. generalize (Shards c) as l. intros l Hl.
    pose proof (keys_nodup c) as Hnd. induction Hl as [|x l Hx Hl IH]; cbn [length occ].
    { generalize ((map_to_list (Groups c)).*1). intros ks. induction ks; simpl; lia. }
    rewrite (sumZ_ext _ (λ k, if decide (k = x) then occ x l + 1 else occ k l)).
    - rewrite sumZ_update by (done || by apply elem_of_keys). lia.
    - intros k _. repeat case_decide; subst; try done; lia. }
  assert (Hle : sumZ (λ k, occ k (Shards c)) (map_to_list (Groups c)).*1 <=
    sumZ (λ k, if decide (k = g) then 0 else 1) (map_to_list (Groups c)).*1).
  { assert (Hk : ∀ k, k ∈ (map_to_list (Groups c)).*1 → occ k (Shards c) <= if decide (k = g) then 0 else 1).
    { intros k Hk%elem_of_keys. case_decide as Hd; [subst; lia|]. specialize (Hb k g Hk Hg). lia. }
    clear Hsum. induction ((map_to_list (Groups c)).*1) as [|k ks IH]; cbn [sumZ]; [lia|].
    specialize (IH (λ k' H, Hk k' (list_elem_of_further _ _ _ H))). specialize (Hk k (list_elem_of_here _ _)). lia. }
  rewrite (sumZ_update (λ _, 1) g 0) in Hle by (apply keys_nodup || by apply elem_of_keys).
  assert (H1 : ∀ ks : list Z, sumZ (λ _, 1) ks = Z.of_nat (length ks)) by (induction ks; cbn [sumZ length]; lia).
  rewrite H1, length_fmap, length_map_to_list in Hle. unfold cfg_wf in Hwf. lia.
Qed.
End rebalance.

(** ** [CheckConfig] *)

Section check_config.

Lemma check_fold counts l acc b :
  (b <= (fold_left (check_min_max counts) l acc).1 ↔
     b <= acc.1 ∧ ∀ g, g ∈ l → b <= lookup_zero 0 g counts) ∧
  ((fold_left (check_min_max counts) l acc).2 <= b ↔
     acc.2 <= b ∧ ∀ g, g ∈ l → lookup_zero 0 g counts <= b).
Proof.
  revert acc. induction l as [|g l IH]; intros acc; simpl.
  - split; (split; [intros; split; [done | by intros ? ?%elem_of_nil] | tauto]).
  - destruct (IH (check_min_max counts acc g)) as [-> ->].
    setoid_rewrite elem_of_cons. unfold check_min_max. simpl.
    repeat case_decide; naive_solver lia.
Qed.

Lemma check_balanced c :
  length (Shards c) = Z.to_nat NShards →
  let mm := fold_left (check_min_max (shard_counts (Shards c))) (map_to_list (Groups c)).*1 (257, 0) in
  ¬ mm.2 > mm.1 + 1 ↔ balanced c.
Proof.
  intros Hwf mm. unfold balanced.
  assert (Hn : ∀ g, 0 <= occ g (Shards c) <= 12).
  { intros g. pose proof (occ_range g (Shards c)). rewrite Hwf in H. exact H. }
  assert (H1 : ∀ b, b <= mm.1 ↔ b <= 257 ∧ ∀ g, is_group c g → b <= occ g (Shards c)).
  { intros b. unfold mm. rewrite (proj1 (check_fold _ _ _ _)). setoid_rewrite elem_of_keys.
    by setoid_rewrite shard_counts_lookup. }
  assert (H2 : ∀ b, mm.2 <= b ↔ 0 <= b ∧ ∀ g, is_group c g → occ g (Shards c) <= b).
  { intros b. unfold mm. rewrite (proj2 (check_fold _ _ _ _)). setoid_rewrite elem_of_keys.
    by setoid_rewrite shard_counts_lookup. }
  clearbody mm. split.
  - intros Hm g g' Hg Hg'. assert (mm.2 <= mm.1 + 1) as Hle by lia.
    apply H2 in Hle as [_ Hle]. apply Hle in Hg.
    assert (mm.1 <= mm.1) as Hle'%H1 by lia. destruct Hle' as [_ Hle']. apply Hle' in Hg'. lia.
  - intros Hb. enough (mm.2 <= mm.1 + 1) by lia. apply H2. split.
    + enough (0 <= mm.1) by lia. apply H1. split; [lia|]. intros g _. apply Hn.
    + intros g Hg. enough (occ g (Shards c) - 1 <= mm.1) by lia. apply H1.
      split; [specialize (Hn g); lia|]. intros g' Hg'. specialize (Hb g g' Hg Hg'). lia.
Qed.

(** [CheckConfig] passes exactly on the expected groups with a balanced
    assignment that leaves no shard out. *)
Lemma CheckConfig_spec groups c :
  cfg_wf c →
  CheckConfig groups c = Ret tt ↔
  size (Groups c) = length groups ∧ Forall (is_group c) groups ∧
  (groups ≠ [] → assigned c) ∧ balanced c.
Proof.
  intros Hwf. rewrite <- (check_balanced c Hwf). unfold CheckConfig. simpl.
  destruct (fold_left _ _ _) as [mn mx]. simpl.
  change (Forall (λ g, is_Some (Groups c !! g)) groups) with (Forall (is_group c) groups).
  change (Forall (λ g, is_Some (Groups c !! g)) (Shards c)) with (assigned c).
  assert (Hlen : groups ≠ [] ↔ Z.of_nat (length groups) > 0) by (destruct groups; simpl; split; intros; [done|lia|lia|done]).
  rewrite Hlen. repeat (case_decide; [split; [done|]; intros (?&?&?&?); solve [lia | tauto]|]).
  split; [intros _ | done]. split; [lia|]. split; [done|]. split; [|done].
  intros Hpos. apply dec_stable. tauto.
Qed.

Lemma CheckConfig_keys groups c :
  cfg_wf c → groups ≡ₚ (map_to_list (Groups c)).*1 → (Groups c ≠ ∅ → assigned c) → balanced c →
  CheckConfig groups c = Ret tt.
Proof.
  intros Hwf Hp Has Hb. apply CheckConfig_spec; [done|]. split.
  { rewrite Hp, length_fmap. by rewrite length_map_to_list. }
  split; [|split; [|done]].
  - apply Forall_forall. intros g Hg. rewrite Hp in Hg. by apply elem_of_keys.
  - intros Hne. apply Has. intros He. apply Hne. rewrite He, map_to_list_empty in Hp.
    by apply Permutation_nil_r.
Qed.
End check_config.

(** ** [Join] and [Leave] *)

Definition servers_disjoint (groups : gmap Z (list string)) : Prop :=
  ∀ g g' l l' s, g ≠ g' → groups !! g = Some l → groups !! g' = Some l' → s ∈ l → s ∉ l'.

Section join_leave.

Lemma shares_server_spec servers groups :
  shares_server servers groups = true ↔ ∃ g l s, groups !! g = Some l ∧ s ∈ l ∧ s ∈ servers.
Proof.
  unfold shares_server. rewrite existsb_exists. setoid_rewrite existsb_exists.
  setoid_rewrite existsb_exists. setoid_rewrite <- list_elem_of_In.
  setoid_rewrite bool_decide_eq_true. split.
  - intros ([g l] & Hin%elem_of_map_to_list & s & Hs & s' & Hs' & <-).
    by exists g, l, s.
  - intros (g & l & s & Hg & Hs & Hs'). exists (g, l). rewrite elem_of_map_to_list. eauto 10.
Qed.

Lemma servers_disjoint_insert gid servers groups :
  groups !! gid = None → servers_disjoint groups →
  servers_disjoint (<[gid:=servers]> groups) ↔ shares_server servers groups = false.
Proof.
  intros Hg Hd. rewrite <- not_true_iff_false, shares_server_spec. split.
  - intros Hd' (g & l & s & Hl & Hs & Hs'). destruct (decide (g = gid)) as [->|Hne]; [congruence|].
    refine (Hd' g gid l servers s Hne _ _ Hs Hs'); by simplify_map_eq.
  - intros Hn g g' l l' s Hne Hl Hl' Hs Hs'.
    rewrite lookup_insert_Some in Hl, Hl'.
    destruct Hl as [[<- <-]|[? Hl]], Hl' as [[? <-]|[? Hl']]; [done | | | exact (Hd _ _ _ _ _ Hne Hl Hl' Hs Hs')];
      apply Hn; eauto 10.
Qed.

Lemma servers_disjoint_subseteq groups groups' :
  groups ⊆ groups' → servers_disjoint groups' → servers_disjoint groups.
Proof.
  intros Hsub Hd g g' l l' s Hne Hl Hl'. eapply Hd; [done | |]; by eapply lookup_weaken.
Qed.

(** The loop of [Join], by the kind of its result. *)
Lemma Join_loop_spec entries ch c :
  NoDup entries.*1 → servers_disjoint (Groups c) →
  match Join_loop entries ch c with
  | Ret (c', Some ch') =>
      c' = set_Groups c (list_to_map entries ∪ Groups c) ∧ ch' = (ch || negb (bool_decide (entries = []))) ∧
      (∀ gid, gid ∈ entries.*1 → Groups c !! gid = None) ∧
      servers_disjoint (list_to_map entries ∪ Groups c)
  | Ret (c', None) =>
      Shards c' = Shards c ∧ Num c' = Num c ∧ Groups c ⊆ Groups c' ∧
      ∃ gid, gid ∈ entries.*1 ∧ Groups c !! gid ≠ None
  | Fatal =>
      (∀ gid, gid ∈ entries.*1 → Groups c !! gid = None) → ¬ servers_disjoint (list_to_map entries ∪ Groups c)
  | Panic => False
  end.
Proof.
  revert ch c. induction entries as [|[gid servers] entries IH]; intros ch c Hnd Hd.
  { simpl. rewrite (left_id_L ∅ (∪)).
    rewrite orb_false_r. destruct c. repeat split; try done. by intros ? ?%elem_of_nil. }
  rewrite fmap_cons, NoDup_cons in Hnd. destruct Hnd as [Hni Hnd]. simpl in Hni. cbn [Join_loop].
  destruct (Groups c !! gid) as [old|] eqn:Hg.
  { repeat split; try done. exists gid. split; [left | congruence]. }
  simpl list_to_map. rewrite <- insert_union_l.
  assert (Hni' : (list_to_map entries : gmap Z (list string)) !! gid = None)
    by (by apply not_elem_of_list_to_map_1).
  rewrite (insert_union_r _ _ _ _ Hni').
  destruct (shares_server servers (Groups c)) eqn:Hsh.
  { intros Hfresh Hd'. apply (not_true_iff_false (shares_server servers (Groups c))); [|done].
    apply (servers_disjoint_insert gid); [done..|]. eapply servers_disjoint_subseteq; [|done].
    apply map_union_subseteq_r. apply map_disjoint_insert_r_2; [done|].
    apply map_disjoint_spec. intros g l l' Hl Hl'.
    apply elem_of_list_to_map_2 in Hl. rewrite (Hfresh g) in Hl'; [done|].
    right. apply list_elem_of_fmap. by exists (g, l). }
  set (c1 := set_Groups c (<[gid:=servers]> (Groups c))).
  assert (Hd1 : servers_disjoint (Groups c1)) by (by apply servers_disjoint_insert).
  assert (Hmono : ∀ g, g ∈ entries.*1 → Groups c1 !! g = Groups c !! g).
  { intros g Hin. simpl. rewrite lookup_insert_ne; [done|]. by intros <-. }
  specialize (IH true c1 Hnd Hd1). cbn [Groups set_Groups c1] in IH.
  destruct (Join_loop entries true c1) as [[c' [ch'|]]| |].
  - destruct IH as (-> & -> & Hf & Hd'). simpl. rewrite orb_true_r. repeat split; try done.
    intros g [->|Hin]%elem_of_cons; [done|]. specialize (Hmono g Hin). simpl in Hmono. rewrite <- Hmono. by apply Hf.
  - destruct IH as (-> & -> & Hsub & g & Hin & Hne). repeat split; try done.
    + etrans; [|exact Hsub]. by apply insert_subseteq.
    + exists g. split; [by right|]. specialize (Hmono g Hin). simpl in Hmono. by rewrite <- Hmono.
  - intros Hfresh. apply IH. intros g Hin. specialize (Hmono g Hin). simpl in Hmono. rewrite Hmono.
    apply Hfresh. by right.
  - done.
Qed.

Lemma foldr_delete_swap gid gids (m : gmap Z (list string)) :
  foldr delete (delete gid m) gids = delete gid (foldr delete m gids).
Proof. induction gids as [|g gids IH]; simpl; [done|]. by rewrite IH, delete_delete. Qed.

Lemma Leave_loop_spec gids ch c :
  match Leave_loop gids ch c with
  | (c', Some ch') =>
      c' = set_Groups c (foldr delete (Groups c) gids) ∧ ch' = (ch || negb (bool_decide (gids = []))) ∧
      NoDup gids ∧ ∀ gid, gid ∈ gids → is_group c gid
  | (c', None) =>
      Shards c' = Shards c ∧ Num c' = Num c ∧ Groups c' ⊆ Groups c ∧
      ¬ (NoDup gids ∧ ∀ gid, gid ∈ gids → is_group c gid)
  end.
Proof.
  revert ch c. induction gids as [|gid gids IH]; intros ch c.
  { simpl. rewrite orb_false_r. destruct c.
    repeat split; try done; [constructor|]. by intros ? ?%elem_of_nil. }
  cbn [Leave_loop]. destruct (Groups c !! gid) as [old|] eqn:Hg.
  2:{ repeat split; try done. intros [_ Hall]. destruct (Hall gid) as [? ?]; [left | congruence]. }
  set (c1 := set_Groups c (delete gid (Groups c))).
  assert (Hin1 : ∀ g, is_group c1 g ↔ g ≠ gid ∧ is_group c g).
  { intros g. unfold is_group. simpl. rewrite lookup_delete_is_Some. naive_solver. }
  specialize (IH true c1).
  destruct (Leave_loop gids true c1) as [c' [ch'|]].
  - destruct IH as (-> & -> & Hnd & Hall). setoid_rewrite Hin1 in Hall. simpl.
    rewrite orb_true_r. rewrite foldr_delete_swap. repeat split; try done.
    + constructor; [|done]. intros Hin. by apply Hall in Hin as [? _].
    + intros g [->|Hin]%elem_of_cons; [by eexists|]. by apply Hall.
  - destruct IH as (-> & -> & Hsub & Hn). repeat split; try done.
    + etrans; [exact Hsub|]. apply delete_subseteq.
    + intros [Hnd Hall]. apply NoDup_cons in Hnd as [Hni Hnd]. apply Hn. split; [done|].
      intros g Hin. apply Hin1. split; [by intros ->|]. apply Hall. by right.
Qed.
End join_leave.

(** ** Served keys and results of the operations *)

Section results.

Lemma Key2Shard_range key : 0 <= Key2Shard key < NShards.
Proof.
  unfold Key2Shard. pose proof (fnv32a_range key). rewrite Z.rem_mod_nonneg by (unfold NShards; lia).
  apply Z.mod_pos_bound. by unfold NShards.
Qed.

Lemma IsMember_spec gid c : IsMember gid c = true ↔ gid ∈ Shards c.
Proof.
  unfold IsMember. rewrite existsb_exists. setoid_rewrite <- list_elem_of_In.
  setoid_rewrite bool_decide_eq_true. naive_solver.
Qed.

Lemma GidServers_assigned sh c :
  cfg_wf c → assigned c → 0 <= sh < NShards →
  ∃ gid srvs, GidServers sh c = Ret (gid, srvs, true) ∧ Groups c !! gid = Some srvs ∧ IsMember gid c = true.
Proof.
  intros Hwf Has Hsh. destruct (lookup_lt_is_Some_2 (Shards c) (Z.to_nat sh)) as [gid Hgid].
  { rewrite Hwf. lia. }
  assert (Hg : is_group c gid) by (by eapply Forall_lookup_1).
  assert (Hm : IsMember gid c = true) by (apply IsMember_spec; by eapply list_elem_of_lookup_2).
  destruct Hg as [srvs Hg]. exists gid, srvs. split; [|done]. unfold GidServers.
  assert (index (Shards c) sh = Ret gid) as -> by (apply index_Ret; split; [lia|done]). simpl.
  unfold lookup_zero. by rewrite Hg.
Qed.

Lemma Join_wf entries c c' b : cfg_wf c → Join entries c = Ret (c', b) → cfg_wf c'.
Proof.
  intros Hwf. unfold Join, cfg_wf in *. assert (Hl : ∀ ch c0 c1 r,
    Join_loop entries ch c0 = Ret (c1, r) → Shards c1 = Shards c0).
  { induction entries as [|[gid srvs] entries IH]; simpl; intros ch c0 c1 r Hj; [by simplify_eq|].
    repeat case_match; simplify_eq; [done|]. by apply IH in Hj. }
  destruct (Join_loop entries false c) as [[c1 [[]|]]| |] eqn:E; simpl; intros; simplify_eq/=;
    apply Hl in E; congruence.
Qed.

Lemma Leave_wf gids c c' b : cfg_wf c → Leave gids c = Ret (c', b) → cfg_wf c'.
Proof.
  intros Hwf. unfold Leave, cfg_wf in *. assert (Hl : ∀ ch c0, Shards (Leave_loop gids ch c0).1 = Shards c0).
  { induction gids as [|gid gids IH]; simpl; intros ch c0; [done|]. case_match; [by rewrite IH | done]. }
  specialize (Hl false c). destruct (Leave_loop gids false c) as [c1 [[]|]]; simpl in *; intros; simplify_eq/=;
    congruence.
Qed.

(** A configuration with groups that serves every key: it is balanced, and each
    key's shard belongs to a group of it, whose servers [GidServers] finds. *)
Definition serves_all_keys (c : ShardConfig) : Prop :=
  cfg_wf c ∧
  (∀ groups, groups ≡ₚ (map_to_list (Groups c)).*1 → CheckConfig groups c = Ret tt) ∧
  ∀ key, ∃ gid srvs,
    GidServers (Key2Shard key) c = Ret (gid, srvs, true) ∧ Groups c !! gid = Some srvs ∧
    IsMember gid c = true.

(** One without groups: no key is served, every shard being unassigned. *)
Definition serves_no_key (c : ShardConfig) : Prop :=
  cfg_wf c ∧ Groups c = ∅ ∧ Shards c = replicate (Z.to_nat NShards) 0 ∧ CheckConfig [] c = Ret tt ∧
  ∀ key, GidServers (Key2Shard key) c = Ret (0, [], false).

Lemma Rebalance_serves c c' : cfg_wf c → Groups c ≠ ∅ → Rebalance c = Some c' → serves_all_keys c'.
Proof.
  intros Hwf Hne Hr. destruct (Rebalance_total c Hwf) as (c1 & Hr1 & HG & HN & Hwf1 & _ & Has & Hb).
  assert (c1 = c') as -> by congruence. specialize (Has Hne). split; [done|]. split.
  - intros groups Hp. by apply CheckConfig_keys.
  - intros key. apply GidServers_assigned; [done | done | apply Key2Shard_range].
Qed.

Lemma Rebalance_serves_none c c' : cfg_wf c → Groups c = ∅ → Rebalance c = Some c' → serves_no_key c'.
Proof.
  intros Hwf He Hr. destruct (Rebalance_total c Hwf) as (c1 & Hr1 & HG & HN & Hwf1 & Hs & _ & Hb).
  assert (c1 = c') as -> by congruence. specialize (Hs He). split; [done|]. split; [congruence|]. split; [done|]. split.
  - apply CheckConfig_keys; [done | by rewrite HG, He, map_to_list_empty | by rewrite HG, He | done].
  - intros key. pose proof (Key2Shard_range key) as Hk. unfold GidServers.
    assert (index (Shards c') (Key2Shard key) = Ret 0) as ->.
    { apply index_Ret. split; [lia|]. rewrite Hs. apply lookup_replicate_2. lia. }
    cbn [mbind outcome_bind]. unfold lookup_zero. by rewrite HG, He, lookup_empty.
Qed.

(** What a successful change, balanced, leaves: nothing keeps it from
    returning, and the groups are those of the change. *)
Lemma rebalanced_Ret c :
  cfg_wf c → ∃ c', rebalanced (Ret (c, true)) = Some (Ret (c', true)) ∧ Groups c' = Groups c ∧ cfg_wf c' ∧
    if decide (Groups c' = ∅) then serves_no_key c' else serves_all_keys c'.
Proof.
  intros Hwf. destruct (Rebalance_total c Hwf) as (c' & Hr & HG & _ & Hwf' & _). exists c'. cbn [rebalanced]. rewrite Hr.
  do 3 (split; [done|]). rewrite HG. case_decide; [by apply (Rebalance_serves_none c) | by apply (Rebalance_serves c)].
Qed.

(** Two groups, one of them among those that join, have a server in common. *)
Definition shared (entries : list (Z * list string)) (groups : gmap Z (list string)) : Prop :=
  ∃ g g' l l' s, g ≠ g' ∧ (g, l) ∈ entries ∧ ((g', l') ∈ entries ∨ groups !! g' = Some l') ∧ s ∈ l ∧ s ∈ l'.

(** A successful [Join] leaves a group; it stops the program only if there is
    nothing to join or a server would be in two groups. *)
Lemma Join_loop_result entries : ∀ ch c,
  (ch = true → Groups c ≠ ∅) →
  match Join_loop entries ch c with
  | Ret (c', Some ch') => if ch' : bool then Groups c' ≠ ∅ else entries = []
  | Ret (_, None) => True
  | Fatal => shared entries (Groups c)
  | Panic => False
  end.
Proof.
  induction entries as [|[g l] entries IH]; intros ch c Hch; [cbn; destruct ch; auto|]. cbn [Join_loop].
  destruct (Groups c !! g) as [old|] eqn:Hg; [done|]. destruct (shares_server l (Groups c)) eqn:Hs.
  - apply shares_server_spec in Hs as (g' & l' & s & Hl' & Hs' & Hs). exists g, g', l, l', s.
    split; [by intros <-; congruence|]. split; [left|]. by split; [right|].
  - specialize (IH true (set_Groups c (<[g := l]> (Groups c))) ltac:(intros _; apply insert_non_empty)).
    destruct (Join_loop entries true _) as [[c' [[]|]]| |] eqn:E; [done| |done| |done].
    + exfalso. clear -E. revert E. generalize (set_Groups c (<[g := l]> (Groups c))).
      induction entries as [|[h m] entries IH]; intros d; cbn [Join_loop]; [done|]. destruct (Groups d !! h); [done|].
      destruct (shares_server m _); [done|]. apply IH.
    + destruct IH as (a & b & la & lb & s & Hne & Ha & Hb & Hsa & Hsb).
      cbn [Groups set_Groups] in Hb. rewrite lookup_insert_Some in Hb. destruct Hb as [Hb|[[<- <-]|[_ Hb]]].
      * exists a, b, la, lb, s. split; [done|]. split; [by right|]. split; [left; by right|done].
      * exists a, g, la, l, s. split; [done|]. split; [by right|]. split; [left; left|done].
      * exists a, b, la, lb, s. split; [done|]. split; [by right|]. by split; [right|].
Qed.

Lemma Copy_same c : cfg_wf c → Copy c = c.
Proof.
  intros Hwf. unfold Copy. assert (Hf : ∀ l n s g,
    fold_left (λ c e, set_Groups c (<[e.1 := e.2]> (Groups c))) l (mkShardConfig n s g) =
    mkShardConfig n s (list_to_map (reverse l) ∪ g)).
  { induction l as [|[k v] l IH]; intros n s g; simpl; [by rewrite (left_id_L ∅ (∪))|].
    unfold set_Groups at 2. simpl. rewrite IH. f_equal. rewrite reverse_cons, list_to_map_app.
    simpl. rewrite <- map_union_assoc. by rewrite <- insert_union_l, (left_id_L ∅ (∪)). }
  change (set_Shards (set_Num MakeShardConfig (Num c)) (Shards c)) with (mkShardConfig (Num c) (Shards c) ∅).
  rewrite Hf. rewrite (right_id_L ∅ (∪)). destruct c as [n s g]; simpl. f_equal.
  rewrite <- (list_to_map_to_list g) at 2. apply list_to_map_proper; [|apply reverse_Permutation].
  rewrite reverse_Permutation. apply NoDup_fst_map_to_list.
Qed.
End results.

(** ** Properties *)

(** C18 [Rebalance] terminates on every configuration, keeps the groups and the
    number, unassigns every shard when there is no group, and leaves a
    configuration that [CheckConfig] accepts for its groups in any order: no
    shard without a group and loads that differ by at most one. *)
Theorem Rebalance_balances c :
  cfg_wf c →
  ∃ c', Rebalance c = Some c' ∧ Groups c' = Groups c ∧ Num c' = Num c ∧ cfg_wf c' ∧
    (Groups c = ∅ → Shards c' = replicate (Z.to_nat NShards) 0) ∧
    ∀ groups, groups ≡ₚ (map_to_list (Groups c)).*1 → CheckConfig groups c' = Ret tt.
Proof.
  intros Hwf. destruct (Rebalance_total c Hwf) as (c' & Hr & HG & HN & Hwf' & He & Has & Hb).
  exists c'. repeat split; try done. intros groups Hp. rewrite <- HG in Hp, Has.
  by apply CheckConfig_keys.
Qed.

(** [Rebalance] moves nothing when nothing is to be done: a configuration
    whose shards are all assigned and balanced is left as it is. *)
Theorem Rebalance_stable c :
  cfg_wf c → Groups c ≠ ∅ → CheckConfig (map_to_list (Groups c)).*1 c = Ret tt → Rebalance c = Some c.
Proof.
  intros Hwf Hne Hc. apply CheckConfig_spec in Hc as (_ & _ & Has & Hb); [|done].
  assert (Hk : (map_to_list (Groups c)).*1 ≠ []) by (intros ?%fmap_nil_inv; by apply map_to_list_empty_iff in H).
  specialize (Has Hk). unfold Rebalance. rewrite decide_False by (by rewrite no_groups).
  assert (Hid : ∀ n s, assign_unassigned s n c = c).
  { induction n as [|n IH]; intros s; [done|]. cbn [assign_unassigned].
    destruct (Shards c !! s) as [g|] eqn:Hs; [|apply IH].
    destruct (Forall_lookup_1 _ _ _ _ Has Hs) as [srvs ->]. apply IH. }
  rewrite Hid. change balance_fuel with (Datatypes.S 144). generalize 144%nat. intros fuel. cbn [balance_loop].
  destruct (analyze_spec c Hwf (has_group c Hne)) as (Hmg & Hlg & -> & -> & _).
  rewrite decide_True; [done|]. specialize (Hb _ _ Hmg Hlg). lia.
Qed.

(** [Join] and [Leave] succeed exactly when they should (new group ids,
    no server in two groups; groups that are there, each named once; at least
    one change) and then change the groups as asked and advance the number. *)
Theorem Join_Leave_spec entries gids c c' :
  NoDup entries.*1 → servers_disjoint (Groups c) →
  (Join entries c = Ret (c', true) ↔
    entries ≠ [] ∧ (∀ gid, gid ∈ entries.*1 → Groups c !! gid = None) ∧
    servers_disjoint (list_to_map entries ∪ Groups c) ∧
    c' = mkShardConfig (wrapS 64 (Num c + 1)) (Shards c) (list_to_map entries ∪ Groups c)) ∧
  (Leave gids c = Ret (c', true) ↔
    gids ≠ [] ∧ NoDup gids ∧ (∀ gid, gid ∈ gids → is_Some (Groups c !! gid)) ∧
    c' = mkShardConfig (wrapS 64 (Num c + 1)) (Shards c) (foldr delete (Groups c) gids)).
Proof.
  intros Hnd Hd. split.
  - pose proof (Join_loop_spec entries false c Hnd Hd) as Hl. unfold Join.
    destruct (Join_loop entries false c) as [[c1 [b|]]| |]; simpl.
    + destruct Hl as (-> & -> & Hf & Hdj). destruct entries as [|e entries].
      * split; [done | by intros [? _]].
      * split; [intros [= <-]; repeat split; done | by intros (_ & _ & _ & ->)].
    + destruct Hl as (_ & _ & _ & gid & Hin & Hne). split; [done|]. intros (_ & Hf & _).
      by apply Hf in Hin.
    + split; [done|]. intros (_ & Hf & Hdj & _). by destruct Hl.
    + done.
  - pose proof (Leave_loop_spec gids false c) as Hl. unfold Leave.
    destruct (Leave_loop gids false c) as [c1 [b|]].
    + destruct Hl as (-> & -> & Hnd' & Hall). destruct gids as [|g gids].
      * split; [done | by intros [? _]].
      * split; [intros [= <-]; repeat split; done | by intros (_ & _ & _ & ->)].
    + destruct Hl as (_ & _ & _ & Hn). split; [done|]. intros (_ & Hnd' & Hall & _). by destruct Hn.
Qed.

(** C23 What [JoinBalance] and [LeaveBalance] do to a well-formed configuration.
    They never diverge or panic; they stop the program only if nothing is to
    join or leave, or if a joining group has a server in common with another
    group; whatever they return, the configuration stays well-formed. A
    successful join leaves a balanced configuration that serves every key: its
    shard is in range and belongs to a group of the configuration, whose servers
    [GidServers] finds. So does a successful leave, unless the last group has
    left: then every shard is unassigned and [GidServers] finds no group for any
    key. *)
Theorem balanced_operations_serve entries gids c :
  cfg_wf c →
  match JoinBalance entries c with
  | Some (Ret (c', joined)) => cfg_wf c' ∧ (joined = true → entries ≠ [] ∧ serves_all_keys c')
  | Some Fatal => entries = [] ∨ shared entries (Groups c)
  | _ => False
  end ∧
  match LeaveBalance gids c with
  | Some (Ret (c', gone)) =>
      cfg_wf c' ∧ (gone = true → gids ≠ [] ∧ if decide (Groups c' = ∅) then serves_no_key c' else serves_all_keys c')
  | Some Fatal => gids = []
  | _ => False
  end.
Proof.
  intros Hwf. split.
  - pose proof (Join_loop_result entries false c ltac:(done)) as Hl. pose proof (Join_wf entries c) as Hj.
    unfold JoinBalance, Join in *. destruct (Join_loop entries false c) as [[c1 [[]|]]| |] eqn:E; cbn [mbind outcome_bind] in *.
    + destruct (rebalanced_Ret _ (Hj _ _ Hwf eq_refl)) as (c' & -> & HG & Hwf' & Hs). split; [done|]. intros _.
      split; [by intros ->|]. rewrite decide_False in Hs by (by rewrite HG). done.
    + by left.
    + split; [by eapply Hj | done].
    + by right.
    + done.
  - pose proof (Leave_loop_spec gids false c) as Hl. pose proof (Leave_wf gids c) as Hj.
    unfold LeaveBalance, Leave in *. destruct (Leave_loop gids false c) as [c1 [[]|]] eqn:E.
    + destruct (rebalanced_Ret _ (Hj _ _ Hwf eq_refl)) as (c' & -> & _ & Hwf' & Hs). split; [done|]. intros _.
      split; [|done]. intros ->. by destruct Hl as (_ & Hl & _).
    + destruct Hl as (_ & Hl & _). destruct gids; [done|by cbn in Hl].
    + split; [by eapply Hj | done].
Qed.

(** ** A concrete configuration *)

Definition cfg1 : ShardConfig :=
  mkShardConfig 1 (replicate 12 1) {[1 := ["x"; "y"; "z"]%string]}.
Definition cfg2 : ShardConfig :=
  mkShardConfig 2 [2; 2; 2; 2; 2; 2; 1; 1; 1; 1; 1; 1] {[1 := ["x"; "y"; "z"]%string; 2 := ["a"]%string]}.

Example join_balance_first : JoinBalance [(1, ["x"; "y"; "z"]%string)] MakeShardConfig = Some (Ret (cfg1, true)).
Proof. vm_compute. reflexivity. Qed.
Example join_balance_second : JoinBalance [(2, ["a"]%string)] cfg1 = Some (Ret (cfg2, true)).
Proof. vm_compute. reflexivity. Qed.

(** [Leave] is not atomic: it has removed group 1 when it finds no group 9. *)
Example leave_not_atomic :
  Leave [1; 9] cfg2 = Ret (mkShardConfig 2 (Shards cfg2) {[2 := ["a"]%string]}, false).
Proof. vm_compute. reflexivity. Qed.

Lemma Rebalance_balances_witness :
  ∃ c', Rebalance (set_Groups cfg1 {[1 := []; 7 := []]}) = Some c' ∧ CheckConfig [7; 1] c' = Ret tt.
Proof.
  destruct (Rebalance_balances (set_Groups cfg1 {[1 := []; 7 := []]}) eq_refl)
    as (c' & Hr & _ & _ & _ & _ & Hc).
  exists c'. split; [exact Hr|]. apply Hc. vm_compute. first [apply Permutation_refl | apply perm_swap].
Defined.

Lemma Rebalance_stable_witness : Rebalance cfg2 = Some cfg2.
Proof. apply Rebalance_stable; [done | by vm_compute | by vm_compute]. Defined.

Lemma Join_Leave_spec_witness :
  Join [(2, ["a"]%string)] cfg1 = Ret (mkShardConfig 2 (Shards cfg1) (Groups cfg2), true) ∧
  Leave [1] cfg1 = Ret (mkShardConfig 2 (Shards cfg1) ∅, true).
Proof.
  assert (Hd : servers_disjoint (Groups cfg1)).
  { simpl. intros g g' l l' s Hne [<- _]%lookup_singleton_Some [<- _]%lookup_singleton_Some. done. }
  split.
  - apply (Join_Leave_spec [(2, ["a"]%string)] []); [by apply (bool_decide_unpack _) | exact Hd |].
    split; [done|]. split; [by intros gid ->%list_elem_of_singleton|].
    split; [|by vm_compute].
    intros g g' l l' s Hne Hl Hl' Hs Hs'.
    simpl in Hl, Hl'. rewrite insert_empty in Hl, Hl'.
    apply lookup_union_Some_raw in Hl as [Hl|[_ Hl]], Hl' as [Hl'|[_ Hl']];
      apply lookup_singleton_Some in Hl as [<- <-], Hl' as [<- <-]; try done; simpl in *;
      rewrite ?elem_of_cons, ?elem_of_nil in *; naive_solver.
  - apply (Join_Leave_spec [] [1]); [constructor | exact Hd |].
    split; [done|]. split; [by apply (bool_decide_unpack _)|].
    split; [|by vm_compute]. intros gid ->%list_elem_of_singleton. by eexists.
Defined.

Lemma balanced_operations_serve_witness :
  serves_all_keys cfg2 ∧
  ∃ c', LeaveBalance [1] cfg1 = Some (Ret (c', true)) ∧ serves_no_key c' ∧ GidServers 3 c' = Ret (0, [], false).
Proof.
  destruct (balanced_operations_serve [(2, ["a"]%string)] [1] cfg1 eq_refl) as [HJ HL].
  rewrite join_balance_second in HJ. split; [by apply HJ|].
  destruct (LeaveBalance [1] cfg1) as [[[c' []]| |]|] eqn:E; [|by vm_compute in E..].
  vm_compute in E. injection E as <-. eexists. split; [reflexivity|]. split; [|reflexivity].
  destruct HL as (_ & H). destruct (H eq_refl) as [_ Hs]. rewrite decide_True in Hs by reflexivity. exact Hs.
Defined.
