(* ===== verification/ShardJson.v ===== *)
(** * Shard configurations as strings: [String] and [FromString] of
    [shardkv1/shardcfg/shardcfg.go]

    The controller keeps configurations in the key/value server, as JSON.
    [json.Marshal] writes the fields in their order and a map by its keys as
    strings, sorted; the decoder accepts any layout and any order of the members,
    finds them whatever the case of their names, skips the others, takes [null]
    as no change, and refuses numbers and keys that do not fit an [int]. A nil map
    or slice and an empty one are not told apart, and array elements after the
    last are integers or [null] here. *)

From Stdlib Require Import Ascii.
From stdpp Require Import pretty sorting.
From S2P Require Import Prelude Utf8 Json JsonInt MRApps ShardCfg.

Open Scope string_scope.
Open Scope list_scope.
Open Scope Z_scope.

(** ** Sequences *)

Definition comma : string := ",".

(** Elements between brackets. *)
Fixpoint encode_rest {A} (enc : A → string) (close : string) (l : list A) : string :=
  match l with [] => close | x :: l => comma +:+ enc x +:+ encode_rest enc close l end.
Definition encode_seq {A} (enc : A → string) (opn close : string) (l : list A) : string :=
  match l with [] => opn +:+ close | x :: l => opn +:+ enc x +:+ encode_rest enc close l end.

Fixpoint decode_items {A} (dec : string → option (A * string)) (close : Z) (fuel : nat) (s : string) : option (list A * string) :=
  match fuel with
  | O => None
  | Datatypes.S fuel =>
      '(x, s) ← dec s;
      match expect 0x2C s with
      | Some s => '(l, s) ← decode_items dec close fuel s; Some (x :: l, s)
      | None => s ← expect close s; Some ([x], s)
      end
  end.
Definition decode_seq {A} (dec : string → option (A * string)) (opn close : Z) (s : string) : option (list A * string) :=
  s ← expect opn s;
  match expect close s with
  | Some s => Some ([], s)
  | None => decode_items dec close (String.length s) s
  end.

(** The literal [c :: w]. *)
Fixpoint strip (w : list Z) (s : string) : option string :=
  match w, s with
  | [], _ => Some s
  | b :: w, String c s => if decide (byte_of c = b) then strip w s else None
  | _, EmptyString => None
  end.
Definition decode_null (s : string) : option string := s ← expect 0x6E s; strip [0x75; 0x6C; 0x6C] s.
Definition decode_true (s : string) : option string := s ← expect 0x74 s; strip [0x72; 0x75; 0x65] s.
Definition decode_false (s : string) : option string := s ← expect 0x66 s; strip [0x61; 0x6C; 0x73; 0x65] s.

(** ** Values of members that are not fields: checked and dropped *)

Definition skip_digits (s : string) : option string :=
  match s with
  | String c _ => _ ← digit_value c; Some (decode_digits 0 s).2
  | EmptyString => None
  end.
Definition skip_fraction (s : string) : option string :=
  match s with
  | String c s' => if decide (byte_of c = 0x2E) then skip_digits s' else Some s
  | EmptyString => Some s
  end.
Definition skip_sign (s : string) : string :=
  match s with
  | String c s' => if decide (byte_of c = 0x2B ∨ byte_of c = 0x2D) then s' else s
  | EmptyString => s
  end.
Definition skip_exponent (s : string) : option string :=
  match s with
  | String c s' => if decide (byte_of c = 0x45 ∨ byte_of c = 0x65) then skip_digits (skip_sign s') else Some s
  | EmptyString => Some s
  end.
Definition skip_number (s : string) : option string := '(_, s) ← decode_int s; s ← skip_fraction s; skip_exponent s.

Fixpoint skip_value (fuel : nat) (s : string) : option (unit * string) :=
  match fuel with
  | O => None
  | Datatypes.S fuel =>
      let skip_pair s := '(_, s) ← decode_string s; s ← expect 0x3A s; skip_value fuel s in
      match expect 0x22 s, expect 0x5B s, expect 0x7B s with
      | Some _, _, _ => '(_, s) ← decode_string s; Some ((), s)
      | _, Some _, _ => '(_, s) ← decode_seq (skip_value fuel) 0x5B 0x5D s; Some ((), s)
      | _, _, Some _ => '(_, s) ← decode_seq skip_pair 0x7B 0x7D s; Some ((), s)
      | None, None, None =>
          s ← match decode_null s, decode_true s, decode_false s with
              | Some s, _, _ | _, Some s, _ | _, _, Some s => Some s
              | None, None, None => skip_number s
              end;
          Some ((), s)
      end
  end.

(** The name of a field: ASCII letters in upper case, and the long s, whose
    upper case is S as well. *)
Fixpoint fold_name (s : string) : string :=
  match s with
  | EmptyString => EmptyString
  | String c s' =>
      match s' with
      | String d s'' =>
          if decide (byte_of c = 0xC5 ∧ byte_of d = 0xBF) then String "S"%char (fold_name s'')
          else String (if decide (0x61 <= byte_of c <= 0x7A) then of_byte (byte_of c - 0x20) else c) (fold_name s')
      | EmptyString => String (if decide (0x61 <= byte_of c <= 0x7A) then of_byte (byte_of c - 0x20) else c) EmptyString
      end
  end.

(** ** [String] *)

Definition encode_ints (l : list Z) : string := encode_seq encode_int "[" "]" l.
Definition encode_strings (l : list string) : string := encode_seq encode_string "[" "]" l.
Definition encode_group (e : Z * list string) : string := encode_string (pretty e.1) +:+ ":" +:+ encode_strings e.2.

(** Maps are written in the order of their keys as strings. *)
Definition group_le (a b : Z * list string) : Prop := string_le (pretty a.1) (pretty b.1).
#[export] Instance group_le_dec a b : Decision (group_le a b).
Proof. unfold group_le. apply _. Defined.
Definition sorted_groups (m : gmap Z (list string)) : list (Z * list string) := merge_sort group_le (map_to_list m).
Definition encode_groups (m : gmap Z (list string)) : string := encode_seq encode_group "{" "}" (sorted_groups m).

Definition cfg_String (cfg : ShardConfig) : string :=
  "{" +:+ encode_string "Num" +:+ ":" +:+ encode_int (Num cfg) +:+ comma +:+
  encode_string "Shards" +:+ ":" +:+ encode_ints (Shards cfg) +:+ comma +:+
  encode_string "Groups" +:+ ":" +:+ encode_groups (Groups cfg) +:+ "}".

(** ** [FromString] *)

Definition in_int (z : Z) : Prop := - 2 ^ 63 <= z < 2 ^ 63.
#[export] Instance in_int_dec z : Decision (in_int z).
Proof. unfold in_int. apply _. Defined.

Definition decode_int64 (s : string) : option (Z * string) :=
  '(z, s) ← decode_int s; if decide (in_int z) then Some (z, s) else None.

(** An element of the array: [null] leaves it as it is. *)
Definition decode_element (s : string) : option (option Z * string) :=
  match decode_null s with
  | Some s => Some (None, s)
  | None => '(z, s) ← decode_int64 s; Some (Some z, s)
  end.

(** An array takes as many elements as it has; missing ones become zero. *)
Definition to_array (old : list Z) (l : list (option Z)) : list Z :=
  imap (λ i x, match l !! i with Some (Some z) => z | Some None => x | None => 0 end) old.

Definition decode_server (s : string) : option (string * string) :=
  match decode_null s with Some s => Some (EmptyString, s) | None => decode_string s end.

Definition decode_strings (s : string) : option (list string * string) :=
  match decode_null s with Some s => Some ([], s) | None => decode_seq decode_server 0x5B 0x5D s end.

Definition decode_group (s : string) : option (Z * list string * string) :=
  '(key, s) ← decode_string s;
  gid ← Atoi key;
  s ← expect 0x3A s;
  '(srvs, s) ← decode_strings s;
  Some (gid, srvs, s).

Definition decode_member (name : string) (s : string) (cfg : ShardConfig) : option (ShardConfig * string) :=
  if decide (fold_name name = "NUM") then
    match decode_null s with
    | Some s => Some (cfg, s)
    | None => '(z, s) ← decode_int64 s; Some (set_Num cfg z, s)
    end
  else if decide (fold_name name = "SHARDS") then
    match decode_null s with
    | Some s => Some (cfg, s)
    | None => '(l, s) ← decode_seq decode_element 0x5B 0x5D s; Some (set_Shards cfg (to_array (Shards cfg) l), s)
    end
  else if decide (fold_name name = "GROUPS") then
    match decode_null s with
    | Some s => Some (set_Groups cfg ∅, s)
    | None =>
        '(l, s) ← decode_seq decode_group 0x7B 0x7D s;
        Some (set_Groups cfg (fold_left (λ m e, <[e.1 := e.2]> m) l (Groups cfg)), s)
    end
  else '(_, s) ← skip_value (String.length s) s; Some (cfg, s).

Fixpoint decode_cfg_members (fuel : nat) (s : string) (cfg : ShardConfig) : option (ShardConfig * string) :=
  match fuel with
  | O => None
  | Datatypes.S fuel =>
      '(name, s) ← decode_string s;
      s ← expect 0x3A s;
      '(cfg, s) ← decode_member name s cfg;
      match expect 0x2C s with
      | Some s => decode_cfg_members fuel s cfg
      | None => s ← expect 0x7D s; Some (cfg, s)
      end
  end.

(** Into a zeroed configuration; an error is fatal. *)
Definition FromString (s : string) : outcome ShardConfig :=
  let zero := mkShardConfig 0 (replicate (Z.to_nat NShards) 0) ∅ in
  let r :=
    match decode_null s with
    | Some s => Some (zero, s)
    | None =>
        s ← expect 0x7B s;
        match expect 0x7D s with
        | Some s => Some (zero, s)
        | None => decode_cfg_members (String.length s) s zero
        end
    end in
  match r ≫= at_end with Some cfg => Ret cfg | None => Fatal end.

(** ** Lemmas *)

(** What [enc] writes, [dec] reads as [into] before something that is no digit; it starts with a
    visible character that neither closes a sequence nor starts a [null]. *)
Record codec {A B} (enc : A → string) (dec : string → option (B * string)) (into : A → B) (P : A → Prop) : Prop := {
  co_dec x t : P x → no_digit t → dec (enc x +:+ t) = Some (into x, t);
  co_start x : ∃ c s, enc x = String c s ∧ is_space c = false ∧ byte_of c ∉ [0x5D; 0x7D; 0x6E]
}.

Section codec.
Context {A B : Type} (enc : A → string) (dec : string → option (B * string)) (into : A → B) (P : A → Prop).
Context (Hc : codec enc dec into P).
Context (closing : Ascii.ascii) (Hclose : byte_of closing = 0x5D ∨ byte_of closing = 0x7D).
Let close : string := String closing EmptyString.

Lemma expect_close x t : expect (byte_of closing) (enc x +:+ t) = None.
Proof.
  destruct (co_start _ _ _ _ Hc x) as (c & s & -> & Hsp & Hn). change (String c s +:+ t) with (String c (s +:+ t)).
  unfold expect. cbn [skip_space]. rewrite Hsp, decide_False; [done|]. rewrite !elem_of_cons in Hn. intuition congruence.
Qed.

Lemma is_space_range c : is_space c = true → byte_of c <= 0x20.
Proof. unfold is_space. intros H%bool_decide_eq_true. rewrite !elem_of_cons, elem_of_nil in H. lia. Qed.

Lemma expect_byte c t : 0x20 < byte_of c → expect (byte_of c) (String c t) = Some t.
Proof.
  intros Hb. unfold expect. cbn [skip_space]. destruct (is_space c) eqn:E; [apply is_space_range in E; lia|]. by rewrite decide_True.
Qed.

Lemma expect_not b c t : 0x20 < byte_of c → byte_of c ≠ b → expect b (String c t) = None.
Proof.
  intros Hb Hne. unfold expect. cbn [skip_space]. destruct (is_space c) eqn:E; [apply is_space_range in E; lia|]. by rewrite decide_False.
Qed.

Lemma no_digit_close t : no_digit (String closing t).
Proof. cbn. unfold digit_value. rewrite decide_False; [done|]. lia. Qed.

Lemma no_digit_rest l t : no_digit (encode_rest enc close l +:+ t).
Proof. destruct l; [apply no_digit_close|]. reflexivity. Qed.

Lemma decode_encode_items fuel x l t :
  Forall P (x :: l) → (length l < fuel)%nat →
  decode_items dec (byte_of closing) fuel (enc x +:+ (encode_rest enc close l +:+ t)) = Some (into <$> x :: l, t).
Proof.
  revert x fuel. induction l as [|y l IH]; intros x [|fuel] [Hx Hl]%Forall_cons Hf; [lia| |lia|].
  - cbn [decode_items]. rewrite (co_dec _ _ _ _ Hc) by (done || apply no_digit_rest). cbn [mbind option_bind].
    change (encode_rest enc close [] +:+ t) with (String closing t).
    rewrite expect_not, expect_byte by lia. done.
  - cbn [decode_items]. rewrite (co_dec _ _ _ _ Hc) by (done || apply no_digit_rest). cbn [mbind option_bind encode_rest].
    rewrite app_assoc_s. change (expect 44 (comma +:+ ?x)) with (Some x). cbn match.
    rewrite app_assoc_s, IH; [done|done|simpl in Hf; lia].
Qed.

Lemma length_encode_rest l : (length l < String.length (encode_rest enc close l))%nat.
Proof. induction l as [|x l IH]; [simpl; lia|]. cbn [encode_rest length]. rewrite !length_app_s. change (String.length comma) with 1%nat. lia. Qed.

Lemma decode_encode_seq opening l t :
  0x20 < byte_of opening → Forall P l →
  decode_seq dec (byte_of opening) (byte_of closing) (encode_seq enc (String opening EmptyString) close l +:+ t) = Some (into <$> l, t).
Proof.
  intros Ho Hl. unfold decode_seq. destruct l as [|x l]; cbn [encode_seq]; rewrite !app_assoc_s;
    change (String opening EmptyString +:+ ?x) with (String opening x); rewrite expect_byte by done; cbn [mbind option_bind].
  - change (close +:+ t) with (String closing t). by rewrite expect_byte by lia.
  - rewrite expect_close. apply decode_encode_items; [done|].
    pose proof (length_encode_rest l). rewrite !length_app_s. lia.
Qed.

Lemma decode_null_enc x t : decode_null (enc x +:+ t) = None.
Proof using Hc.
  clear close Hclose closing.
  destruct (co_start _ _ _ _ Hc x) as (c & s & -> & Hsp & Hn). change (String c s +:+ t) with (String c (s +:+ t)).
  unfold decode_null, expect. cbn [skip_space]. rewrite Hsp, decide_False; [done|]. rewrite !elem_of_cons in Hn. intuition congruence.
Qed.
End codec.

(** Numbers are ASCII and start with a digit or a minus sign. *)
Fixpoint ascii_only (s : string) : Prop := match s with EmptyString => True | String c s => byte_of c < RuneSelf ∧ ascii_only s end.

Lemma ascii_valid s : ascii_only s → valid_utf8 s.
Proof.
  intros H. assert (E : ∃ cs, s = string_concat cs ∧ Forall valid_chunk cs).
  { induction s as [|c s IH]; [by exists []|]. destruct H as [Hc Hs]. destruct (IH Hs) as (cs & -> & Hcs).
    exists (String c EmptyString :: cs). split; [done|]. constructor; [by apply ascii_chunk | done]. }
  destruct E as (cs & -> & Hcs). by apply valid_concat.
Qed.

Lemma digit_ascii (d : N) : (d < 10)%N → byte_of (pretty_N_char d) < RuneSelf.
Proof.
  intros Hd. pose proof (digit_value_char d Hd) as H. unfold digit_value in H. case_decide; [|done]. unfold RuneSelf. lia.
Qed.

Lemma pretty_N_go_ascii x : ∀ s, ascii_only s → ascii_only (pretty_N_go x s).
Proof.
  induction x as [x IH] using (well_founded_induction N.lt_wf_0). intros s Hs.
  destruct (decide (x = 0)%N) as [->|Hx]; [done|]. rewrite pretty_N_go_step by lia. apply IH; [by apply N.div_lt; lia|].
  split; [|done]. apply digit_ascii. by apply N.mod_lt.
Qed.

Lemma pretty_ascii (z : Z) : ascii_only (pretty z).
Proof.
  assert (H : ∀ n : N, ascii_only (pretty n)).
  { intros n. unfold pretty, pretty_N. case_decide; [by split|]. by apply pretty_N_go_ascii. }
  destruct z as [|p|p]; [by split | apply (H (Npos p)) |].
  change (pretty (Z.neg p)) with (String "-"%char (pretty (Npos p))). split; [done | apply H].
Qed.

Lemma int_start z : ∃ c s, encode_int z = String c s ∧ is_space c = false ∧ byte_of c ∉ [0x5D; 0x7D; 0x6E].
Proof.
  unfold encode_int. assert (E : ∃ c s, pretty z = String c s ∧ (0x30 <= byte_of c <= 0x39 ∨ byte_of c = 0x2D)).
  { destruct (Z.lt_ge_cases z 0) as [Hz|Hz].
    - destruct z as [|p|p]; [lia..|]. eexists _, _. split; [reflexivity | by right].
    - destruct (pretty_nonneg z Hz) as (c & s & E & Hd & _). exists c, s. split; [done|]. left. unfold digit_value in Hd.
      by case_decide. }
  destruct E as (c & s & E & Hb). exists c, s. split; [done|]. split.
  - destruct (is_space c) eqn:Hs; [apply is_space_range in Hs; lia | done].
  - rewrite !elem_of_cons, elem_of_nil. lia.
Qed.

Lemma int_codec : codec encode_int decode_int64 id in_int.
Proof.
  split; [|exact int_start]. intros z t Hz Ht. unfold decode_int64. rewrite decode_encode_int by done. cbn [mbind option_bind].
  by rewrite decide_True.
Qed.

Lemma element_codec : codec encode_int decode_element Some in_int.
Proof.
  split; [|exact int_start]. intros z t Hz Ht. unfold decode_element. rewrite (decode_null_enc _ _ _ _ int_codec).
  by rewrite (co_dec _ _ _ _ int_codec).
Qed.

(** What starts with a quote, a bracket or a brace. *)
Ltac visible := eexists _, _; (split; [reflexivity|]); (split; [done|]); apply (bool_decide_unpack _); by vm_compute.

Lemma server_codec : codec encode_string decode_server id valid_utf8.
Proof. split; [intros s t Hs _; by apply decode_encode_string|]. intros s. visible. Qed.

Lemma encode_seq_null {A} (enc : A → string) c close l t :
  byte_of c ∈ [0x5B; 0x7B] → decode_null (encode_seq enc (String c EmptyString) close l +:+ t) = None.
Proof.
  intros Hc. assert (E : ∃ u, encode_seq enc (String c EmptyString) close l +:+ t = String c u) by (destruct l; by eexists).
  destruct E as [u ->]. unfold decode_null. rewrite !elem_of_cons, elem_of_nil in Hc. by rewrite expect_not by lia.
Qed.

Lemma strings_codec : codec encode_strings decode_strings id (Forall valid_utf8).
Proof.
  split; [|intros l; destruct l; visible]. intros l t Hl Ht. unfold decode_strings, encode_strings.
  rewrite (encode_seq_null encode_string "["%char) by (by left).
  etrans; [apply (decode_encode_seq _ _ _ _ server_codec "]"%char (or_introl eq_refl) "["%char l t); done|]. by rewrite list_fmap_id.
Qed.

Definition group_ok (e : Z * list string) : Prop := in_int e.1 ∧ Forall valid_utf8 e.2.

Lemma group_codec : codec encode_group decode_group id group_ok.
Proof.
  split; [|intros e; visible].
  intros [g l] t [Hg Hl] Ht. cbn [fst snd] in *. unfold encode_group, decode_group. cbn [fst snd]. rewrite !app_assoc_s.
  rewrite decode_encode_string by (apply ascii_valid, pretty_ascii). cbn [mbind option_bind].
  rewrite Atoi_pretty by done. cbn [mbind option_bind]. change (expect 58 (":" +:+ ?x)) with (Some x). cbn [mbind option_bind].
  by rewrite (co_dec _ _ _ _ strings_codec).
Qed.

(** One member of the configuration, whatever was there before. *)
Lemma decode_step fuel name x t cfg cfg' :
  valid_utf8 name → decode_member name (x +:+ t) cfg = Some (cfg', t) →
  decode_cfg_members (Datatypes.S fuel) (encode_string name +:+ (":" +:+ (x +:+ t))) cfg =
  match expect 0x2C t with Some s => decode_cfg_members fuel s cfg' | None => s ← expect 0x7D t; Some (cfg', s) end.
Proof.
  intros Hn Hm. cbn [decode_cfg_members]. rewrite decode_encode_string by done. cbn [mbind option_bind].
  change (expect 58 (":" +:+ ?y)) with (Some y). cbn [mbind option_bind]. by rewrite Hm.
Qed.

Lemma decode_Num z t cfg : in_int z → no_digit t → decode_member "Num" (encode_int z +:+ t) cfg = Some (set_Num cfg z, t).
Proof.
  intros Hz Ht. unfold decode_member. rewrite decide_True by done. rewrite (decode_null_enc _ _ _ _ int_codec).
  by rewrite (co_dec _ _ _ _ int_codec).
Qed.

Lemma to_array_full old l : length l = length old → to_array old (Some <$> l) = l.
Proof.
  intros Hl. apply list_eq. intros i. unfold to_array. rewrite list_lookup_imap, list_lookup_fmap.
  destruct (old !! i) eqn:E, (l !! i) eqn:F; cbn; try done.
  - apply lookup_lt_Some in E. apply lookup_ge_None in F. lia.
  - apply lookup_lt_Some in F. apply lookup_ge_None in E. lia.
Qed.

Lemma decode_Shards l t cfg :
  Forall in_int l → length l = length (Shards cfg) → decode_member "Shards" (encode_ints l +:+ t) cfg = Some (set_Shards cfg l, t).
Proof.
  intros Hl Hlen. unfold decode_member. rewrite decide_False, decide_True by done. unfold encode_ints.
  rewrite (encode_seq_null encode_int "["%char) by (by left).
  pose proof (decode_encode_seq _ _ _ _ element_codec "]"%char (or_introl eq_refl) "["%char l t eq_refl Hl) as E.
  change (byte_of "["%char) with 0x5B in E. change (byte_of "]"%char) with 0x5D in E. rewrite E.
  cbn [mbind option_bind]. by rewrite to_array_full.
Qed.

Lemma fold_insert_map (l : list (Z * list string)) (m : gmap Z (list string)) :
  l ≡ₚ map_to_list m → fold_left (λ m e, <[e.1 := e.2]> m) l ∅ = m.
Proof.
  intros Hl. rewrite <- fold_left_rev_right. rewrite <- (list_to_map_to_list m).
  rewrite <- (list_to_map_proper (rev l) (map_to_list m)).
  - induction (rev l) as [|[k v] r IH]; [done|]. cbn. by rewrite IH.
  - rewrite <- Permutation_rev. rewrite Hl. apply NoDup_fst_map_to_list.
  - by rewrite <- Permutation_rev.
Qed.

Lemma decode_Groups m t cfg :
  map_Forall (λ g l, group_ok (g, l)) m → Groups cfg = ∅ →
  decode_member "Groups" (encode_groups m +:+ t) cfg = Some (set_Groups cfg m, t).
Proof.
  intros Hm He. unfold decode_member. rewrite !decide_False, decide_True by done. unfold encode_groups.
  rewrite (encode_seq_null encode_group "{"%char) by (by right; left).
  assert (Hp : sorted_groups m ≡ₚ map_to_list m) by apply merge_sort_Permutation.
  assert (Ho : Forall group_ok (sorted_groups m)).
  { rewrite Hp. apply Forall_forall. intros [g l] Hin%elem_of_map_to_list. by apply (Hm g l). }
  pose proof (decode_encode_seq _ _ _ _ group_codec "}"%char (or_intror eq_refl) "{"%char _ t eq_refl Ho) as E.
  change (byte_of "{"%char) with 0x7B in E. change (byte_of "}"%char) with 0x7D in E. rewrite E.
  cbn [mbind option_bind]. by rewrite list_fmap_id, He, (fold_insert_map _ m Hp).
Qed.

(** Numbers that fit an [int], an array of [NShards], and names of servers that
    are valid UTF-8, which Go's strings need not be: [encoding/json] replaces
    other bytes ([Json.invalid_utf8_replaced]). *)
Definition cfg_ok (cfg : ShardConfig) : Prop :=
  length (Shards cfg) = Z.to_nat NShards ∧ in_int (Num cfg) ∧ Forall in_int (Shards cfg) ∧ map_Forall (λ g l, group_ok (g, l)) (Groups cfg).

Lemma cfg_String_tail cfg t : cfg_String cfg +:+ t =
  "{" +:+ (encode_string "Num" +:+ (":" +:+ (encode_int (Num cfg) +:+ ("," +:+
  (encode_string "Shards" +:+ (":" +:+ (encode_ints (Shards cfg) +:+ ("," +:+
  (encode_string "Groups" +:+ (":" +:+ (encode_groups (Groups cfg) +:+ ("}" +:+ t)))))))))))).
Proof. unfold cfg_String. by rewrite !app_assoc_s. Qed.

(** C33 [FromString] reads back what [String] writes, if the numbers fit an
    [int] and the names of the servers are valid UTF-8 ([cfg_ok]): the number, the
    twelve shards and the groups with their servers. Other names come back with
    each invalid byte replaced by U+FFFD. *)
Theorem FromString_String (cfg : ShardConfig) : cfg_ok cfg → FromString (cfg_String cfg) = Ret cfg.
Proof.
  intros (Hlen & Hnum & Hsh & Hgr). rewrite <- (app_nil_s (cfg_String cfg)), cfg_String_tail. unfold FromString.
  change (decode_null ("{" +:+ ?x)) with (@None string). change (expect 123 ("{" +:+ ?x)) with (Some x). cbn [mbind option_bind].
  set (s := encode_string "Num" +:+ _).
  assert (E : expect 125 s = None) by reflexivity. rewrite E.
  assert (L : (3 <= String.length s)%nat) by (unfold s; rewrite !length_app_s; simpl; lia).
  destruct (String.length s) as [|[|[|fuel]]]; [lia..|].
  unfold s. erewrite (decode_step _ "Num"); [|by apply ascii_valid | by apply decode_Num].
  change (expect 44 ("," +:+ ?x)) with (Some x). cbn match.
  erewrite (decode_step _ "Shards"); [|by apply ascii_valid | by apply decode_Shards].
  change (expect 44 ("," +:+ ?x)) with (Some x). cbn match.
  erewrite (decode_step _ "Groups"); [|by apply ascii_valid | by apply decode_Groups].
  change (expect 44 ("}" +:+ ?x)) with (@None string). change (expect 125 ("}" +:+ ?x)) with (Some x). by destruct cfg.
Qed.

Example cfg2_written : cfg_String cfg2 =
  string_concat ["{"; quote; "Num"; quote; ":2,"; quote; "Shards"; quote; ":[2,2,2,2,2,2,1,1,1,1,1,1],"; quote; "Groups"; quote; ":{";
    quote; "1"; quote; ":["; quote; "x"; quote; ","; quote; "y"; quote; ","; quote; "z"; quote; "],";
    quote; "2"; quote; ":["; quote; "a"; quote; "]}}"]%string.
Proof. vm_compute. reflexivity. Qed.

Lemma FromString_String_witness : cfg_ok cfg2 ∧ FromString (cfg_String cfg2) = Ret cfg2.
Proof.
  assert (H : cfg_ok cfg2).
  { split; [reflexivity|]. split; [apply (bool_decide_unpack _); vm_compute; exact I|].
    split; [apply (bool_decide_unpack _); vm_compute; exact I|].
    unfold cfg2. cbn [Groups]. intros g l [[<- <-]|[_ [<- <-]%lookup_singleton_Some]]%lookup_insert_Some.
    all: split; [apply (bool_decide_unpack _); vm_compute; exact I|].
    all: repeat (constructor; [by apply ascii_valid|]); constructor. }
  split; [exact H | exact (FromString_String cfg2 H)].
Defined.

(** Layout, case, order, unknown members and [null]; what does not fit is fatal. *)
Example from_other_layout :
  FromString (string_concat ["{ "; quote; "shards"; quote; " : [3, null, 4], "; quote; "x"; quote; ":[true,{";
    quote; "y"; quote; ":-1.5e+3}], "; quote; "NUM"; quote; ": 7 } "]%string) =
  Ret (mkShardConfig 7 ([3; 0; 4] ++ replicate 9 0) ∅).
Proof. vm_compute. reflexivity. Qed.
Example from_null : FromString "null" = Ret (mkShardConfig 0 (replicate 12 0) ∅).
Proof. vm_compute. reflexivity. Qed.
Example from_bad :
  FromString (string_concat ["{"; quote; "Num"; quote; ":9223372036854775808}"]%string) = Fatal ∧
  FromString (string_concat ["{"; quote; "Num"; quote; ":1.5}"]%string) = Fatal ∧ FromString "" = Fatal ∧ FromString "{} x" = Fatal.
Proof. vm_compute. repeat split. Qed.
