(* ===== verification/KvModel.v ===== *)
(** * The linearizability model of the tester: [models1/kv.go], and the
      operation log of [kvtest1/porcupine.go]

    The checker [porcupine] is third-party: it searches for an order of the
    logged operations that respects real time and that [KvModel.Step] accepts
    for every key. [KvLinear.v] proves that such an order exists for every
    history the clerks and the server of this repository can produce. *)

From stdpp Require Import pretty sorting.
From S2P Require Import Prelude Rpc MRApps.

Open Scope list_scope.
Open Scope Z_scope.

(** ** Inputs, outputs, operations *)

Record KvInput := mkKvInput { Op : Z; InKey : string; InValue : string; InVersion : Z }.
Record KvOutput := mkKvOutput { OutValue : string; OutVersion : Z; OutErr : string }.
Record KvState := mkKvState { StValue : string; StVersion : Z }.

#[export] Instance KvInput_eq_dec : EqDecision KvInput.
Proof. solve_decision. Defined.
#[export] Instance KvOutput_eq_dec : EqDecision KvOutput.
Proof. solve_decision. Defined.
#[export] Instance KvState_eq_dec : EqDecision KvState.
Proof. solve_decision. Defined.

(** [porcupine.Operation] *)
Record Operation := mkOperation {
  Input : KvInput; Output : KvOutput; CallTime : Z; ReturnTime : Z; ClientId : Z
}.

#[export] Instance Operation_eq_dec : EqDecision Operation.
Proof. solve_decision. Defined.

(** ** The model *)

(** [Partition]: the histories of the keys, in the order of the keys; [range]
    is the order of the range over the map. *)
Definition group_history (history : list Operation) : gmap string (list Operation) :=
  fold_left (λ m v, let key := InKey (Input v) in <[key := lookup_zero [] key m ++ [v]]> m) history ∅.

Definition Partition (range : gmap string (list Operation) → list (string * list Operation))
    (history : list Operation) : list (list Operation) :=
  let m := group_history history in
  let keys := fold_left (λ keys e, keys ++ [e.1]) (range m) [] in
  fold_left (λ ret k, ret ++ [lookup_zero [] k m]) (sort_Strings keys) [].

Definition Init : KvState := mkKvState "" 0.

(** [Step]; the state of an invalid operation code is not used. *)
Definition Step (st : KvState) (inp : KvInput) (out : KvOutput) : bool * KvState :=
  if decide (Op inp = 0) then (bool_decide (OutValue out = StValue st), st)
  else if decide (Op inp = 1) then
    if decide (StVersion st = InVersion inp) then
      (bool_decide (OutErr out = OK ∨ OutErr out = ErrMaybe), mkKvState (InValue inp) (wrapU 64 (StVersion st + 1)))
    else (bool_decide (OutErr out = ErrVersion ∨ OutErr out = ErrMaybe), st)
  else (false, st).

Definition DescribeOperation (inp : KvInput) (out : KvOutput) : string :=
  if decide (Op inp = 0) then
    "get('" +:+ InKey inp +:+ "') -> ('" +:+ OutValue out +:+ "', '" +:+ pretty (OutVersion out) +:+ "', '" +:+
    OutErr out +:+ "')"
  else if decide (Op inp = 1) then
    "put('" +:+ InKey inp +:+ "', '" +:+ InValue inp +:+ "', '" +:+ pretty (InVersion inp) +:+ "') -> ('" +:+
    OutErr out +:+ "')"
  else "<invalid>".

(** A sequential history of one key is accepted from a state. *)
Fixpoint accepted (st : KvState) (history : list Operation) : bool :=
  match history with
  | [] => true
  | o :: history =>
      let '(ok, st') := Step st (Input o) (Output o) in ok && accepted st' history
  end.

(** What [porcupine.CheckOperations] looks for: an order of the operations
    that respects real time, whose parts are all accepted. *)
Definition respects_real_time (order : list Operation) : Prop :=
  ∀ i j a b, order !! i = Some a → order !! j = Some b → (i < j)%nat → ¬ (ReturnTime b < CallTime a).

Definition linearizable (history : list Operation) : Prop :=
  ∃ order, order ≡ₚ history ∧ respects_real_time order ∧
    ∀ range, (∀ m, range m ≡ₚ map_to_list m) → Forall (λ part, accepted Init part = true) (Partition range order).

(** ** [OpLog] *)

Definition OpLog_Append (op : Operation) (log : list Operation) : list Operation := log ++ [op].
Definition OpLog_Len (log : list Operation) : Z := Z.of_nat (length log).
Definition OpLog_Read (log : list Operation) : list Operation := log.

(** The operations that the tester's [Get] and [Put] log around a clerk call. *)
Definition get_operation (key : string) (val : string) (ver : Z) (err : string) (start end_ cli : Z) : Operation :=
  mkOperation (mkKvInput 0 key "" 0) (mkKvOutput val ver err) start end_ cli.
Definition put_operation (key value : string) (version : Z) (err : string) (start end_ cli : Z) : Operation :=
  mkOperation (mkKvInput 1 key value version) (mkKvOutput "" 0 err) start end_ cli.

(** ** Lemmas *)

Section partition.

Definition history_of (k : string) (history : list Operation) : list Operation :=
  filter (λ o, InKey (Input o) = k) history.

Lemma group_history_lookup history k :
  group_history history !! k = (if decide (history_of k history = []) then None else Some (history_of k history)).
Proof.
  unfold group_history. induction history as [|o history IH] using rev_ind; [done|].
  rewrite fold_left_app. cbn [fold_left]. unfold history_of in *. rewrite filter_app, filter_cons.
  set (m := fold_left _ history ∅) in *. cbn zeta. destruct (decide (InKey (Input o) = k)) as [Hk|Hk].
  - subst k. rewrite lookup_insert_eq. rewrite decide_False by (by intros [_ ?]%app_nil).
    unfold lookup_zero. rewrite IH.
    rewrite filter_nil. case_decide as Hd; simpl; [by rewrite Hd | done].
  - rewrite lookup_insert_ne by done. rewrite filter_nil, app_nil_r. done.
Qed.

Lemma sort_Strings_Permutation l : sort_Strings l ≡ₚ l.
Proof. apply merge_sort_Permutation. Qed.

Lemma fold_left_snoc_fmap {A B} (f : A → B) l acc :
  fold_left (λ acc x, acc ++ [f x]) l acc = acc ++ (f <$> l).
Proof. exact (fold_left_snoc f l acc). Qed.

(** The parts are the histories of the keys that occur, each one once. *)
Lemma Partition_spec range history :
  (∀ m, range m ≡ₚ map_to_list m) →
  ∃ keys, Partition range history = (λ k, history_of k history) <$> keys ∧
    NoDup keys ∧ (∀ k, k ∈ keys ↔ k ∈ (InKey ∘ Input) <$> history) ∧
    keys = sort_Strings keys.
Proof.
  intros Hrange. unfold Partition. rewrite !fold_left_snoc_fmap. simpl.
  set (m := group_history history).
  exists (sort_Strings (range m).*1).
  assert (Hkeys : ∀ k, k ∈ sort_Strings (range m).*1 ↔ is_Some (m !! k)).
  { intros k. rewrite sort_Strings_Permutation, Hrange, list_elem_of_fmap. split.
    - intros ([k' v] & -> & Hin%elem_of_map_to_list). by eexists.
    - intros [v Hv]. exists (k, v). by rewrite elem_of_map_to_list. }
  split; [|split; [|split]].
  - apply list_fmap_ext. intros i k Hk. apply list_elem_of_lookup_2, Hkeys in Hk.
    unfold lookup_zero, m in *. rewrite group_history_lookup in *. case_decide; [by destruct Hk | done].
  - rewrite sort_Strings_Permutation, Hrange. apply NoDup_fst_map_to_list.
  - intros k. rewrite Hkeys. unfold m. rewrite group_history_lookup, list_elem_of_fmap. unfold history_of.
    case_decide as Hd.
    + split; [by intros []|]. intros (o & -> & Ho).
      assert (Hf : o ∈ filter (λ o', InKey (Input o') = InKey (Input o)) history)
        by (by apply list_elem_of_filter).
      simpl in Hd. rewrite Hd in Hf. by apply elem_of_nil in Hf.
    + split; [|by eexists]. intros _.
      destruct (filter (λ o, InKey (Input o) = k) history) as [|o l] eqn:E; [done|].
      assert (Hf : o ∈ filter (λ o, InKey (Input o) = k) history) by (rewrite E; left).
      apply list_elem_of_filter in Hf as [<- Ho]. by exists o.
  - apply sort_Strings_perm. by rewrite sort_Strings_Permutation.
Qed.
End partition.
