(* ===== verification/KvLinear.v ===== *)
(** * Linearizability of the key/value service

    Any number of clerks call the server over the lossy network, attempt by
    attempt; every completed operation is logged with its call and return
    times, as [kvtest1/porcupine.go] does. The ghost list [l_lin] records the
    operations at their linearization points: a [Put] when a handler execution
    installs its value, and every other operation when it returns. The theorem
    shows that this order explains every history to the tester's model. *)

From stdpp Require Import sorting.
From S2P Require Import Prelude Rpc KVServer KVClerk MRApps KvModel.

Open Scope list_scope.
Open Scope Z_scope.

(** ** The system *)

(** A client inside [Clerk.Get] or [Clerk.Put]. *)
Record busy := mkBusy { b_in : KvInput; b_call : Z; b_pc : put_pc; b_inst : bool }.

(** An operation at its linearization point; no result while it is pending. *)
Record entry := mkEntry {
  e_cli : Z; e_in : KvInput; e_call : Z; e_time : Z; e_res : option (KvOutput * Z)
}.

Record lsys := mkL {
  l_srv : KVServer;
  l_now : Z;
  l_cl : gmap Z busy;
  l_hist : list Operation;
  l_lin : list entry
}.

Definition l_init : lsys := mkL MakeKVServer 0 ∅ [] [].

Inductive l_label :=
| LInvoke (cli : Z) (inp : KvInput)
| LAttempt (cli : Z) (r : netres).

Definition put_args (inp : KvInput) : PutArgs := mkPutArgs (InKey inp) (InValue inp) (InVersion inp).

(** The pending entry of a client gets its result. *)
Definition complete (cli : Z) (res : KvOutput * Z) (lin : list entry) : list entry :=
  (λ e, if decide (e_cli e = cli ∧ e_res e = None)
        then mkEntry (e_cli e) (e_in e) (e_call e) (e_time e) (Some res) else e) <$> lin.

Definition put_output (err : string) : KvOutput := mkKvOutput "" 0 err.

(** One attempt of a [Get]. *)
Definition attempt_get (s : lsys) (cli : Z) (b : busy) (r : netres) : lsys :=
  match call_get r (l_srv s) (mkGetArgs (InKey (b_in b))) with
  | Some reply =>
      let out := mkKvOutput (GetValue reply) (GetVersion reply) (GetErr reply) in
      mkL (l_srv s) (l_now s + 1) (delete cli (l_cl s))
        (OpLog_Append (get_operation (InKey (b_in b)) (GetValue reply) (GetVersion reply) (GetErr reply)
           (b_call b) (l_now s) cli) (l_hist s))
        (l_lin s ++ [mkEntry cli (b_in b) (b_call b) (l_now s) (Some (out, l_now s))])
  | None => mkL (l_srv s) (l_now s + 1) (l_cl s) (l_hist s) (l_lin s)
  end.

(** One attempt of a [Put]. *)
Definition attempt_put (s : lsys) (cli : Z) (b : busy) (r : netres) : lsys :=
  let '(kv, execs, next) := put_attempt (b_pc b) r (l_srv s) (put_args (b_in b)) in
  let now_inst := bool_decide (OK ∈ execs) in
  let inst := b_inst b || now_inst in
  let lin :=
    if now_inst then l_lin s ++ [mkEntry cli (b_in b) (b_call b) (l_now s) None] else l_lin s in
  match next with
  | inl pc => mkL kv (l_now s + 1) (<[cli := mkBusy (b_in b) (b_call b) pc inst]> (l_cl s)) (l_hist s) lin
  | inr err =>
      mkL kv (l_now s + 1) (delete cli (l_cl s))
        (OpLog_Append (put_operation (InKey (b_in b)) (InValue (b_in b)) (InVersion (b_in b)) err
           (b_call b) (l_now s) cli) (l_hist s))
        (if inst then complete cli (put_output err, l_now s) lin
         else lin ++ [mkEntry cli (b_in b) (b_call b) (l_now s) (Some (put_output err, l_now s))])
  end.

(** The inputs the tester's [Get] and [Put] log. *)
Definition input_ok (inp : KvInput) : Prop :=
  (Op inp = 0 ∧ inp = mkKvInput 0 (InKey inp) "" 0) ∨ (Op inp = 1 ∧ 0 <= InVersion inp < 2 ^ 64).

#[export] Instance input_ok_dec inp : Decision (input_ok inp).
Proof. unfold input_ok. apply _. Defined.

Definition l_next (s : lsys) (l : l_label) : option lsys :=
  match l with
  | LInvoke cli inp =>
      if decide (l_cl s !! cli = None ∧ input_ok inp) then
        Some (mkL (l_srv s) (l_now s + 1) (<[cli := mkBusy inp (l_now s) PutFirst false]> (l_cl s))
                (l_hist s) (l_lin s))
      else None
  | LAttempt cli r =>
      match l_cl s !! cli with
      | Some b => Some (if decide (Op (b_in b) = 0) then attempt_get s cli b r else attempt_put s cli b r)
      | None => None
      end
  end.

Definition l_step (s : lsys) (l : l_label) (s' : lsys) : Prop := l_next s l = Some s'.

(** ** Replaying the linearization *)

(** The logged operation of a completed entry. *)
Definition op_of (e : entry) : option Operation :=
  '(out, ret) ← e_res e; Some (mkOperation (e_in e) out (e_call e) ret (e_cli e)).

(** A [Put] that found no key: the one answer the model does not know. *)
Definition no_key_put (inp : KvInput) (out : KvOutput) : Prop := Op inp = 1 ∧ OutErr out = ErrNoKey.

#[export] Instance no_key_put_dec inp out : Decision (no_key_put inp out).
Proof. unfold no_key_put. apply _. Defined.

(** The model's state after the entries; a pending one must match its version. *)
Definition replay1 (st : KvState) (e : entry) : option KvState :=
  match e_res e with
  | Some (out, _) =>
      let '(ok, st') := Step st (e_in e) out in
      if ok || bool_decide (no_key_put (e_in e) out) then Some st' else None
  | None =>
      if decide (Op (e_in e) = 1 ∧ StVersion st = InVersion (e_in e))
      then Some (mkKvState (InValue (e_in e)) (wrapU 64 (StVersion st + 1))) else None
  end.

Fixpoint replay (st : KvState) (es : list entry) : option KvState :=
  match es with
  | [] => Some st
  | e :: es => st' ← replay1 st e; replay st' es
  end.

Definition on_key (k : string) (es : list entry) : list entry := filter (λ e, InKey (e_in e) = k) es.

(** What the server holds for a key, as a state of the model. *)
Definition srv_state (kv : KVServer) (k : string) : KvState :=
  mkKvState (lookup_zero "" k (data kv)) (version_of kv k).

Section replay_facts.

Lemma replay_app st es es' : replay st (es ++ es') = st' ← replay st es; replay st' es'.
Proof.
  revert st. induction es as [|e es IH]; intros st; [done|]. cbn [app replay].
  destruct (replay1 st e); [apply IH | done].
Qed.

Lemma on_key_app k es es' : on_key k (es ++ es') = on_key k es ++ on_key k es'.
Proof. apply filter_app. Qed.

Lemma on_key_one k e : on_key k [e] = if decide (InKey (e_in e) = k) then [e] else [].
Proof. unfold on_key. rewrite filter_cons. by case_decide. Qed.

(** Completing a pending entry with one of the answers of an applied [Put]. *)
Lemma replay_complete cli err ret st es st' :
  err = OK ∨ err = ErrMaybe → replay st es = Some st' →
  replay st (complete cli (put_output err, ret) es) = Some st'.
Proof.
  intros Herr. revert st. induction es as [|e es IH]; intros st; [done|].
  unfold complete. rewrite fmap_cons. fold (complete cli (put_output err, ret) es). cbn [replay].
  intros (st1 & H1 & H2)%bind_Some. case_decide as Hd.
  - assert (E : replay1 st (mkEntry (e_cli e) (e_in e) (e_call e) (e_time e) (Some (put_output err, ret))) = Some st1).
    { unfold replay1 in *. destruct Hd as [_ Hd]. rewrite Hd in H1. simpl.
      case_decide as Hm; [|done]. destruct Hm as [Hop Hver]. unfold Step.
      rewrite decide_False by lia. rewrite decide_True by done. rewrite decide_True by done.
      simpl. by rewrite bool_decide_true. }
    rewrite E. by apply IH.
  - rewrite H1. by apply IH.
Qed.

Lemma on_key_complete k cli res es : on_key k (complete cli res es) = complete cli res (on_key k es).
Proof.
  unfold on_key, complete. induction es as [|e es IH]; [done|].
  rewrite fmap_cons, !filter_cons, IH.
  assert (E : InKey (e_in (if decide (e_cli e = cli ∧ e_res e = None)
    then mkEntry (e_cli e) (e_in e) (e_call e) (e_time e) (Some res) else e)) = InKey (e_in e)) by (by case_decide).
  rewrite E. destruct (decide (InKey (e_in e) = k)); [by rewrite fmap_cons | done].
Qed.

(** A replayed sequence of completed operations is accepted by the model. *)
Lemma replay_accepted st es st' :
  replay st es = Some st' →
  (∀ e out ret, e ∈ es → e_res e = Some (out, ret) → ¬ no_key_put (e_in e) out) →
  (∀ e, e ∈ es → e_res e ≠ None) →
  accepted st (omap op_of es) = true.
Proof.
  revert st. induction es as [|e es IH]; intros st; [done|]. cbn [replay omap list_omap].
  intros (st1 & H1 & H2)%bind_Some Hkey Hdone.
  destruct (e_res e) as [[out ret]|] eqn:He; [|by destruct (Hdone e ltac:(left))].
  unfold op_of at 1. rewrite He. simpl. unfold replay1 in H1. rewrite He in H1.
  destruct (Step st (e_in e) out) as [ok st2] eqn:Hs.
  rewrite (bool_decide_false (no_key_put (e_in e) out)), orb_false_r in H1
    by (by eapply Hkey; [left|]).
  destruct ok; [|done]. injection H1 as ->. simpl. apply IH; [done | |].
  - intros. eapply Hkey; [by right | done].
  - intros. apply Hdone. by right.
Qed.
End replay_facts.

(** ** The invariant *)

(** [m] is the number of steps that may still follow: versions stay below
    [2^64]. *)
Record l_inv (m : nat) (s : lsys) : Prop := {
  li_wf : wf (l_srv s);
  li_bound : ∀ k, version_of (l_srv s) k + Z.of_nat m < 2 ^ 64;
  li_replay : ∀ k, replay Init (on_key k (l_lin s)) = Some (srv_state (l_srv s) k);
  li_sorted : StronglySorted Z.lt (e_time <$> l_lin s);
  li_times : ∀ e, e ∈ l_lin s → e_call e < e_time e < l_now s ∧
    ∀ out ret, e_res e = Some (out, ret) → e_time e <= ret;
  li_hist : l_hist s ≡ₚ omap op_of (l_lin s);
  li_busy : ∀ cli b, l_cl s !! cli = Some b →
    input_ok (b_in b) ∧ b_call b < l_now s ∧
    (b_inst b = true → Op (b_in b) = 1 ∧ b_pc b = PutRetry ∧ stale (put_args (b_in b)) (l_srv s) ∧
      ∃ e, e ∈ l_lin s ∧ e_cli e = cli ∧ e_res e = None ∧ e_in e = b_in b ∧ e_call e = b_call b);
  li_pending : ∀ e, e ∈ l_lin s → e_res e = None → ∃ b, l_cl s !! e_cli e = Some b ∧ b_inst b = true;
  li_unique : NoDup (e_cli <$> filter (λ e, e_res e = None) (l_lin s))
}.

Section moves.

Lemma srv_state_install kv inp k :
  Put_guard kv (put_args inp) = None →
  srv_state (Put_install kv (put_args inp)) k =
  if decide (InKey inp = k) then mkKvState (InValue inp) (wrapU 64 (version_of kv k + 1)) else srv_state kv k.
Proof.
  intros Hg. unfold srv_state. rewrite version_Put_install. simpl. rewrite lookup_zero_insert.
  repeat case_decide; congruence.
Qed.

Lemma StronglySorted_snoc (l : list Z) x :
  StronglySorted Z.lt l → (∀ y, y ∈ l → y < x) → StronglySorted Z.lt (l ++ [x]).
Proof.
  induction 1 as [|y l Hs IH Hy]; intros Hx; simpl; [repeat constructor|].
  constructor.
  - apply IH. intros z Hz. apply Hx. by right.
  - apply Forall_app. split; [done|]. constructor; [apply Hx; left | done].
Qed.

Lemma inv_tick m s : l_inv m s → l_inv m (mkL (l_srv s) (l_now s + 1) (l_cl s) (l_hist s) (l_lin s)).
Proof.
  intros []. split; simpl; try done.
  - intros e He. destruct (li_times0 e He) as [? ?]. split; [lia | done].
  - intros cli b Hb. destruct (li_busy0 cli b Hb) as (? & ? & ?). split; [done|]. split; [lia | done].
Qed.

Lemma inv_weaken m s : l_inv (Datatypes.S m) s → l_inv m s.
Proof. intros []. split; try done. intros k. specialize (li_bound0 k). lia. Qed.

(** The client changes, without consequences for the server or the log. *)
Lemma inv_client m s cli b b' :
  l_inv m s → l_cl s !! cli = Some b → b_in b' = b_in b → b_call b' = b_call b → b_inst b' = b_inst b →
  b_pc b' = PutRetry →
  l_inv m (mkL (l_srv s) (l_now s) (<[cli := b']> (l_cl s)) (l_hist s) (l_lin s)).
Proof.
  intros [] Hb Hin Hcall Hinst Hpc. split; simpl; try done.
  - intros cli' c. rewrite lookup_insert_Some. intros [[<- <-]|[_ Hc]]; [|by apply li_busy0].
    rewrite Hin, Hcall, Hinst, Hpc. destruct (li_busy0 cli b Hb) as (? & ? & Hi). split; [done|]. split; [done|].
    intros Ht. destruct (Hi Ht) as (? & _ & ? & ?). done.
  - intros e He Hr. destruct (li_pending0 e He Hr) as (c & Hc & Hi).
    destruct (decide (cli = e_cli e)) as [->|Hne].
    + exists b'. rewrite lookup_insert_eq. split; [done|]. congruence.
    + exists c. by rewrite lookup_insert_ne.
Qed.

(** A handler execution installs the value of a client's [Put]. *)
Lemma inv_install m s cli b :
  l_inv (Datatypes.S m) s → l_cl s !! cli = Some b → b_inst b = false → Op (b_in b) = 1 →
  Put_guard (l_srv s) (put_args (b_in b)) = None →
  l_inv m (mkL (Put_install (l_srv s) (put_args (b_in b))) (l_now s + 1)
    (<[cli := mkBusy (b_in b) (b_call b) PutRetry true]> (l_cl s)) (l_hist s)
    (l_lin s ++ [mkEntry cli (b_in b) (b_call b) (l_now s) None])).
Proof.
  intros [] Hb Hinst Hop Hg. set (e0 := mkEntry cli (b_in b) (b_call b) (l_now s) None).
  assert (Hno : ∀ e, e ∈ l_lin s → e_res e = None → e_cli e ≠ cli).
  { intros e He Hr Heq. destruct (li_pending0 e He Hr) as (c & Hc & Hi). rewrite Heq in Hc. congruence. }
  destruct (li_busy0 cli b Hb) as (Hok & Hcall & _).
  assert (Hv : ∀ k, version_of (Put_install (l_srv s) (put_args (b_in b))) k <= version_of (l_srv s) k + 1).
  { intros k. rewrite version_Put_install. pose proof (wf_version (l_srv s) k li_wf0).
    specialize (li_bound0 k). case_decide; [rewrite wrapU_small|]; lia. }
  assert (Hstale : stale (put_args (b_in b)) (Put_install (l_srv s) (put_args (b_in b)))).
  { apply install_stale; [done | | done]. specialize (li_bound0 (PutKey (put_args (b_in b)))). lia. }
  split; simpl.
  - by apply wf_Put_install.
  - intros k. specialize (Hv k). specialize (li_bound0 k). lia.
  - intros k. rewrite on_key_app, on_key_one, srv_state_install by done. simpl.
    case_decide as Hk.
    + rewrite replay_app, li_replay0. simpl. unfold replay1. simpl. subst k.
      apply Put_guard_version in Hg. simpl in Hg. by rewrite decide_True.
    + by rewrite app_nil_r, li_replay0.
  - rewrite fmap_app. apply StronglySorted_snoc; [done|]. intros y (e & -> & He)%list_elem_of_fmap.
    apply li_times0 in He as [? _]. simpl. lia.
  - intros e [He| ->%list_elem_of_singleton]%elem_of_app.
    + destruct (li_times0 e He) as [? ?]. split; [lia | done].
    + simpl. split; [lia | done].
  - rewrite omap_app. simpl. by rewrite app_nil_r.
  - intros cli' c. rewrite lookup_insert_Some. intros [[<- <-]|[Hne Hc]]; simpl.
    + split; [done|]. split; [lia|]. intros _. split; [done|]. split; [done|]. split; [done|].
      exists e0. split; [apply elem_of_app; right; left | done].
    + destruct (li_busy0 cli' c Hc) as (? & ? & Hi). split; [done|]. split; [lia|]. intros Ht.
      destruct (Hi Ht) as (? & ? & [Hs1 Hs2] & e & He & ?). split; [done|]. split; [done|]. split.
      * split; [apply (run_keeps_key _ [OpPut (put_args (b_in b))]) in Hs1; simpl in Hs1;
          unfold Put in Hs1; by rewrite Hg in Hs1|].
        rewrite version_Put_install. pose proof (wf_version (l_srv s) (PutKey (put_args (b_in c))) li_wf0).
        specialize (li_bound0 (PutKey (put_args (b_in c)))). case_decide; [rewrite wrapU_small|]; lia.
      * exists e. split; [apply elem_of_app; by left | done].
  - intros e [He| ->%list_elem_of_singleton]%elem_of_app Hr.
    + destruct (li_pending0 e He Hr) as (c & Hc & Hi). exists c. rewrite lookup_insert_ne; [done|].
      intros Heq. by apply (Hno e).
    + simpl. eexists. by rewrite lookup_insert_eq.
  - rewrite filter_app, fmap_app, filter_cons_True by done. simpl. apply NoDup_app.
    split; [done|]. split; [|apply NoDup_singleton].
    intros c (e & -> & [Hr He]%list_elem_of_filter)%list_elem_of_fmap. rewrite list_elem_of_singleton.
    by apply Hno.
Qed.

(** A client returns with an operation that takes effect now. *)
Lemma inv_return m s cli b out :
  l_inv m s → l_cl s !! cli = Some b → b_inst b = false →
  replay1 (srv_state (l_srv s) (InKey (b_in b))) (mkEntry cli (b_in b) (b_call b) (l_now s) (Some (out, l_now s))) =
    Some (srv_state (l_srv s) (InKey (b_in b))) →
  l_inv m (mkL (l_srv s) (l_now s + 1) (delete cli (l_cl s))
    (l_hist s ++ [mkOperation (b_in b) out (b_call b) (l_now s) cli])
    (l_lin s ++ [mkEntry cli (b_in b) (b_call b) (l_now s) (Some (out, l_now s))])).
Proof.
  intros [] Hb Hinst Hrep. set (e0 := mkEntry _ _ _ _ _) in *.
  destruct (li_busy0 cli b Hb) as (Hok & Hcall & _).
  assert (Hno : ∀ e, e ∈ l_lin s → e_res e = None → e_cli e ≠ cli).
  { intros e He Hr Heq. destruct (li_pending0 e He Hr) as (c & Hc & Hi). rewrite Heq in Hc. congruence. }
  split; simpl; try done.
  - intros k. rewrite on_key_app, on_key_one. simpl. case_decide as Hk; [|by rewrite app_nil_r].
    rewrite replay_app, li_replay0. simpl. subst k. by rewrite Hrep.
  - rewrite fmap_app. apply StronglySorted_snoc; [done|]. intros y (e & -> & He)%list_elem_of_fmap.
    apply li_times0 in He as [? _]. simpl. lia.
  - intros e [He| ->%list_elem_of_singleton]%elem_of_app.
    + destruct (li_times0 e He) as [? ?]. split; [lia | done].
    + simpl. split; [lia|]. intros ? ? [= <- <-]. lia.
  - rewrite omap_app, li_hist0. done.
  - intros cli' c. rewrite lookup_delete_Some. intros [Hne Hc].
    destruct (li_busy0 cli' c Hc) as (? & ? & Hi). split; [done|]. split; [lia|]. intros Ht.
    destruct (Hi Ht) as (? & ? & ? & e & He & ?). repeat (split; [done|]).
    exists e. split; [apply elem_of_app; by left | done].
  - intros e [He| ->%list_elem_of_singleton]%elem_of_app Hr; [|done].
    destruct (li_pending0 e He Hr) as (c & Hc & Hi). exists c. rewrite lookup_delete_ne; [done|].
    intros Heq. by apply (Hno e).
  - rewrite filter_app, fmap_app. rewrite (filter_cons_False _ e0) by done. by rewrite filter_nil, app_nil_r.
Qed.

(** The pending entry of a client is unique: completing it changes it alone. *)
Lemma complete_split cli res lin e :
  NoDup (e_cli <$> filter (λ e, e_res e = None) lin) → e ∈ lin → e_cli e = cli → e_res e = None →
  ∃ l1 l2, lin = l1 ++ e :: l2 ∧
    complete cli res lin = l1 ++ mkEntry (e_cli e) (e_in e) (e_call e) (e_time e) (Some res) :: l2.
Proof.
  intros Hnd Hin Hcli Hres. apply list_elem_of_split in Hin as (l1 & l2 & ->).
  exists l1, l2. split; [done|]. rewrite filter_app, filter_cons_True, fmap_app, fmap_cons in Hnd by done.
  apply NoDup_app in Hnd as (_ & H1 & H2). apply NoDup_cons in H2 as [H2 _].
  assert (Hid : ∀ l, (∀ e', e' ∈ l → e_res e' = None → e_cli e' ≠ cli) → complete cli res l = l).
  { clear. intros l. induction l as [|e' l IH]; intros H; [done|]. unfold complete in *. rewrite fmap_cons.
    rewrite IH by (intros; apply H; [by right | done]). rewrite decide_False; [done|].
    intros [Hc Hr]. by apply (H e'); [left|..]. }
  unfold complete at 1. rewrite fmap_app, fmap_cons. rewrite decide_True by done.
  f_equal; [|f_equal]; apply Hid; intros e' He' Hr Hc.
  - apply (H1 (e_cli e')); [apply list_elem_of_fmap; exists e'; split; [done|]; by apply list_elem_of_filter|].
    rewrite Hc, <- Hcli. left.
  - apply H2. rewrite Hcli, <- Hc. apply list_elem_of_fmap. exists e'. split; [done|]. by apply list_elem_of_filter.
Qed.

(** A client whose [Put] has been installed returns. *)
Lemma inv_finish m s cli b err ret :
  l_inv m s → l_cl s !! cli = Some b → b_inst b = true → err = OK ∨ err = ErrMaybe →
  (∀ e, e ∈ l_lin s → e_time e <= ret) → ret < l_now s →
  l_inv m (mkL (l_srv s) (l_now s) (delete cli (l_cl s))
    (l_hist s ++ [mkOperation (b_in b) (put_output err) (b_call b) ret cli])
    (complete cli (put_output err, ret) (l_lin s))).
Proof.
  intros [] Hb Hinst Herr Hret Hnow.
  destruct (li_busy0 cli b Hb) as (_ & _ & Hi). destruct (Hi Hinst) as (_ & _ & _ & e & He & Hcli & Hres & Hin & Hcall).
  destruct (complete_split cli (put_output err, ret) _ e li_unique0 He Hcli Hres) as (l1 & l2 & Hsplit & Hcomp).
  assert (Htimes : e_time <$> complete cli (put_output err, ret) (l_lin s) = e_time <$> l_lin s).
  { rewrite Hcomp, Hsplit. by rewrite !fmap_app, !fmap_cons. }
  assert (Hpend : filter (λ e, e_res e = None) (complete cli (put_output err, ret) (l_lin s)) =
    filter (λ e, e_res e = None) l1 ++ filter (λ e, e_res e = None) l2).
  { rewrite Hcomp, filter_app. by rewrite filter_cons_False. }
  pose proof li_unique0 as Hu. rewrite Hsplit, filter_app, filter_cons_True, fmap_app, fmap_cons in Hu by done.
  assert (Hu' : NoDup (e_cli e :: (e_cli <$> filter (λ e, e_res e = None) l1) ++ (e_cli <$> filter (λ e, e_res e = None) l2))).
  { by rewrite Permutation_middle. }
  apply NoDup_cons in Hu' as [Hni Hu'].
  split; simpl; try done.
  - intros k. rewrite on_key_complete. by apply replay_complete.
  - by rewrite Htimes.
  - intros e' He'. unfold complete in He'. apply list_elem_of_fmap in He' as (e1 & -> & He1).
    destruct (li_times0 e1 He1) as [? ?]. specialize (Hret e1 He1). case_decide; simpl; [|done].
    split; [done|]. intros ? ? [= <- <-]. done.
  - rewrite li_hist0, Hcomp, Hsplit, !omap_app. cbn [omap list_omap]. unfold op_of at 2 4. rewrite Hres. simpl.
    rewrite Hin, Hcall, Hcli. rewrite <- app_assoc. apply Permutation_app_head. symmetry. apply Permutation_cons_append.
  - intros cli' c. rewrite lookup_delete_Some. intros [Hne Hc].
    destruct (li_busy0 cli' c Hc) as (? & ? & Hi'). split; [done|]. split; [done|]. intros Ht.
    destruct (Hi' Ht) as (? & ? & ? & e' & He' & Hc' & ?). repeat (split; [done|]).
    exists e'. split; [|done]. rewrite Hcomp. rewrite Hsplit in He'.
    apply elem_of_app in He' as [?|He']; [apply elem_of_app; by left|].
    apply elem_of_cons in He' as [->|?]; [congruence|]. apply elem_of_app. right. by right.
  - intros e' He' Hr.
    assert (Hf : e' ∈ filter (λ e, e_res e = None) l1 ++ filter (λ e, e_res e = None) l2).
    { rewrite <- Hpend. by apply list_elem_of_filter. }
    assert (Hin' : e' ∈ l_lin s).
    { rewrite Hsplit. apply elem_of_app in Hf as [[_ ?]%list_elem_of_filter|[_ ?]%list_elem_of_filter];
        apply elem_of_app; [by left | right; by right]. }
    destruct (li_pending0 e' Hin' Hr) as (c & Hc & Hi'). exists c. rewrite lookup_delete_ne; [done|].
    intros Heq. apply Hni. rewrite Hcli, Heq, <- fmap_app. by apply list_elem_of_fmap_2.
  - by rewrite Hpend, fmap_app.
Qed.
End moves.

(** ** Steps *)

Section steps.

Lemma l_inv_init m : Z.of_nat m < 2 ^ 64 → l_inv m l_init.
Proof.
  intros Hm. split; simpl; try done; try (by intros e ?%elem_of_nil); constructor.
Qed.

Lemma inv_invoke m s cli inp :
  l_inv m s → l_cl s !! cli = None → input_ok inp →
  l_inv m (mkL (l_srv s) (l_now s + 1) (<[cli := mkBusy inp (l_now s) PutFirst false]> (l_cl s))
    (l_hist s) (l_lin s)).
Proof.
  intros Hs Hc Hok. apply inv_tick in Hs as []. simpl in *. split; simpl; try done.
  - intros cli' b. rewrite lookup_insert_Some. intros [[<- <-]|[_ Hb]]; [|by apply li_busy0].
    simpl. split; [done|]. split; [lia | done].
  - intros e He Hr. destruct (li_pending0 e He Hr) as (b & Hb & Hi). exists b.
    rewrite lookup_insert_ne; [done|]. intros Heq. rewrite <- Heq in Hb. congruence.
Qed.

(** What [Get] answers is the model's value. *)
Lemma get_value kv k : GetValue (Get kv (mkGetArgs k) GetReply0) = lookup_zero "" k (data kv).
Proof. unfold Get, lookup_zero. simpl. by destruct (data kv !! k). Qed.

Lemma inv_attempt_get m s cli b r :
  l_inv m s → l_cl s !! cli = Some b → Op (b_in b) = 0 → l_inv m (attempt_get s cli b r).
Proof.
  intros Hs Hb Hop. unfold attempt_get. destruct (call_get r _ _) as [reply|] eqn:Hr; [|by apply inv_tick].
  pose proof (li_busy _ _ Hs cli b Hb) as (Hok & _ & Hi).
  destruct Hok as [[_ Hin]|[? _]]; [|congruence].
  assert (Hni : b_inst b = false).
  { destruct (b_inst b); [|done]. destruct (Hi eq_refl) as (? & _). congruence. }
  unfold OpLog_Append, get_operation. rewrite <- Hin.
  apply inv_return; [done..|]. unfold replay1, Step. simpl. rewrite decide_True by done.
  destruct r; simplify_eq/=. rewrite get_value. by rewrite bool_decide_true.
Qed.

(** A refused handler execution, by the reason. *)
Lemma refused_step m s b err :
  l_inv m s → Op (b_in b) = 1 → Put_guard (l_srv s) (put_args (b_in b)) = Some err →
  ∀ err' cli ret, (err' = err ∨ err = ErrVersion ∧ err' = ErrMaybe) →
  replay1 (srv_state (l_srv s) (InKey (b_in b)))
    (mkEntry cli (b_in b) (b_call b) ret (Some (put_output err', ret))) =
  Some (srv_state (l_srv s) (InKey (b_in b))).
Proof.
  intros Hs Hop Hg err' cli ret Herr. unfold replay1, Step. simpl.
  rewrite decide_False by lia. rewrite decide_True by done.
  assert (Hne : version_of (l_srv s) (InKey (b_in b)) ≠ InVersion (b_in b)).
  { unfold Put_guard in Hg. unfold version_of, lookup_zero. simpl in Hg.
    destruct (dataVersion (l_srv s) !! InKey (b_in b)); simpl; case_decide; simplify_eq; congruence. }
  rewrite decide_False by done.
  apply Put_guard_Some in Hg as [-> | ->].
  - rewrite bool_decide_true; [done|]. simpl. naive_solver.
  - destruct Herr as [-> | [? _]]; [|done]. rewrite (bool_decide_true (no_key_put _ _)); [by rewrite orb_true_r|].
    done.
Qed.

Lemma inv_attempt_put m s cli b r :
  l_inv (Datatypes.S m) s → l_cl s !! cli = Some b → Op (b_in b) = 1 → l_inv m (attempt_put s cli b r).
Proof.
  intros Hs Hb Hop. unfold attempt_put.
  destruct (b_inst b) eqn:Hinst.
  - pose proof (li_busy _ _ Hs cli b Hb) as (Hok & _ & Hi). destruct (Hi Hinst) as (_ & Hpc & Hst & _).
    rewrite Hpc, (put_attempt_stale _ _ _ Hst).
    assert (Hno : bool_decide (OK ∈ match r with DropRequest => [] | _ => [ErrVersion] end) = false)
      by (by destruct r).
    rewrite Hno. apply inv_weaken, inv_tick in Hs. simpl orb.
    destruct r.
    1, 2: by apply (inv_client _ _ cli b (mkBusy (b_in b) (b_call b) PutRetry true) Hs Hb).
    pose proof Hs as Ht. destruct Ht. simpl in *.
    destruct (li_busy0 cli b Hb) as ([[? _]|[_ Hv]] & _); [congruence|].
    unfold OpLog_Append, put_operation.
    replace (mkKvInput 1 (InKey (b_in b)) (InValue (b_in b)) (InVersion (b_in b))) with (b_in b)
      by (destruct (b_in b); simpl in *; congruence).
    apply (inv_finish _ _ cli b ErrMaybe (l_now s) Hs Hb Hinst); [by right | | simpl; lia].
    intros e He. apply li_times0 in He as [? _]. lia.
  - pose proof (li_busy _ _ Hs cli b Hb) as (Hok & _ & _).
    assert (Hin : mkKvInput 1 (InKey (b_in b)) (InValue (b_in b)) (InVersion (b_in b)) = b_in b)
      by (destruct (b_in b); simpl in *; congruence).
    rewrite put_attempt_live. simpl orb.
    destruct (Put_guard (l_srv s) (put_args (b_in b))) as [e|] eqn:Hg.
    + assert (Hno : bool_decide (OK ∈ match r with DropRequest => [] | _ => [e] end) = false).
      { apply bool_decide_eq_false. apply Put_guard_Some in Hg.
        destruct r; rewrite ?list_elem_of_singleton, ?elem_of_nil; naive_solver. }
      rewrite Hno. apply inv_weaken in Hs. destruct r.
      1, 2: apply inv_tick in Hs; by apply (inv_client _ _ cli b (mkBusy (b_in b) (b_call b) PutRetry false) Hs Hb).
      unfold OpLog_Append, put_operation. rewrite Hin.
      apply inv_return; [done..|]. eapply refused_step; [done..|].
      destruct (decide (b_pc b = PutRetry ∧ e = ErrVersion)) as [[_ ->]|_]; [by right | by left].
    + destruct r.
      * apply inv_weaken, inv_tick in Hs. by apply (inv_client _ _ cli b (mkBusy (b_in b) (b_call b) PutRetry false) Hs Hb).
      * rewrite bool_decide_true by left. simpl. by apply inv_install.
      * rewrite bool_decide_true by left. unfold OpLog_Append, put_operation. rewrite Hin. cbv iota.
        pose proof (inv_install m s cli b Hs Hb Hinst Hop Hg) as Hs1.
        set (b1 := mkBusy (b_in b) (b_call b) PutRetry true) in *.
        pose proof (inv_finish m _ cli b1 OK (l_now s) Hs1) as Hf. simpl in Hf.
        rewrite delete_insert_eq in Hf. apply Hf.
        -- by rewrite lookup_insert_eq.
        -- done.
        -- by left.
        -- intros e He. destruct Hs1. simpl in *. apply li_times0 in He as [? _]. lia.
        -- lia.
Qed.

Lemma l_inv_step m s l s' : l_inv (Datatypes.S m) s → l_step s l s' → l_inv m s'.
Proof.
  unfold l_step. intros Hs. destruct l as [cli inp|cli r]; simpl.
  - case_decide as Hd; [|done]. intros [= <-]. apply inv_invoke; [by apply inv_weaken | tauto..].
  - destruct (l_cl s !! cli) as [b|] eqn:Hb; [|done]. intros [= <-].
    pose proof (li_busy _ _ Hs cli b Hb) as ([[? _]|[? _]] & _); case_decide; try lia.
    + apply inv_attempt_get; [by apply inv_weaken | done..].
    + by apply inv_attempt_put.
Qed.

Lemma l_inv_exec ls s : Z.of_nat (length ls) < 2 ^ 64 → exec l_step l_init ls s → l_inv 0 s.
Proof.
  intros Hlen He. apply (exec_preserves_bounded l_step l_inv 0 l_init ls s); [apply l_inv_step | | done].
  apply l_inv_init. done.
Qed.
End steps.

(** ** Properties *)

Section properties.

Lemma quiescent_done m s e : l_inv m s → l_cl s = ∅ → e ∈ l_lin s → e_res e ≠ None.
Proof.
  intros [] Hq He Hr. destruct (li_pending0 e He Hr) as (b & Hb & _). by rewrite Hq, lookup_empty in Hb.
Qed.

Lemma history_of_on_key k es : history_of k (omap op_of es) = omap op_of (on_key k es).
Proof.
  unfold history_of, on_key. induction es as [|e es IH]; [done|].
  rewrite filter_cons. cbn [omap list_omap]. unfold op_of at 1.
  destruct (e_res e) as [[out ret]|] eqn:Hr; simpl.
  - rewrite filter_cons. simpl. rewrite IH. case_decide; [|done]. cbn [omap list_omap]. unfold op_of at 2. by rewrite Hr.
  - rewrite IH. case_decide; [|done]. cbn [omap list_omap]. unfold op_of at 2. by rewrite Hr.
Qed.

Lemma lookup_omap_done (es : list entry) i o :
  (∀ e, e ∈ es → e_res e ≠ None) → omap op_of es !! i = Some o →
  ∃ e, es !! i = Some e ∧ op_of e = Some o.
Proof.
  revert i. induction es as [|e es IH]; intros i Hd; [done|]. cbn [omap list_omap].
  unfold op_of at 1. destruct (e_res e) as [[out ret]|] eqn:Hr; [|by destruct (Hd e ltac:(left))]. simpl.
  destruct i as [|i]; simpl.
  - intros [= <-]. exists e. split; [done|]. unfold op_of. by rewrite Hr.
  - apply IH. intros. apply Hd. by right.
Qed.

Lemma sorted_lookup (l : list Z) i j a b :
  StronglySorted Z.lt l → l !! i = Some a → l !! j = Some b → (i < j)%nat → a < b.
Proof.
  intros Hs. revert i j. induction Hs as [|x l Hs IH Hx]; intros i j; [done|].
  destruct i as [|i], j as [|j]; simpl; try lia.
  - intros [= ->] Hj _. rewrite Forall_forall in Hx. apply Hx. by eapply list_elem_of_lookup_2.
  - intros Hi Hj Hij. eapply IH; [done..|lia].
Qed.

(** The entries in the order of the ghost list explain the history. *)
Lemma quiescent_linearizable ls s :
  exec l_step l_init ls s → Z.of_nat (length ls) < 2 ^ 64 → l_cl s = ∅ →
  (∀ o, o ∈ l_hist s → Op (Input o) = 1 → OutErr (Output o) ≠ ErrNoKey) →
  linearizable (l_hist s).
Proof.
  intros He Hlen Hq Hnk. pose proof (l_inv_exec ls s Hlen He) as Hinv.
  assert (Hdone : ∀ e, e ∈ l_lin s → e_res e ≠ None) by (intros e; by eapply quiescent_done).
  exists (omap op_of (l_lin s)). split; [symmetry; apply Hinv|]. split.
  - intros i j a b Ha Hb Hij.
    apply lookup_omap_done in Ha as (ea & Hea & Ha); [|done]. apply lookup_omap_done in Hb as (eb & Heb & Hb); [|done].
    assert (Htime : e_time ea < e_time eb).
    { eapply (sorted_lookup (e_time <$> l_lin s) i j); [apply Hinv | | | done];
        rewrite list_lookup_fmap; by rewrite ?Hea, ?Heb. }
    apply list_elem_of_lookup_2 in Hea, Heb.
    destruct (li_times _ _ Hinv ea Hea) as [? _]. destruct (li_times _ _ Hinv eb Heb) as [_ Hret].
    unfold op_of in Ha, Hb. apply bind_Some in Ha as ([outa reta] & _ & [= <-]).
    apply bind_Some in Hb as ([outb retb] & Hrb & [= <-]). simpl. specialize (Hret _ _ Hrb). lia.
  - intros range Hrange. destruct (Partition_spec range (omap op_of (l_lin s)) Hrange) as (keys & -> & _ & _ & _).
    apply Forall_fmap, Forall_forall. intros k _. simpl. rewrite history_of_on_key.
    eapply replay_accepted; [apply Hinv | |].
    + intros e out ret [_ Hin]%list_elem_of_filter Hr [Hop Herr].
      apply (Hnk (mkOperation (e_in e) out (e_call e) ret (e_cli e))); [|done|done].
      rewrite (li_hist _ _ Hinv). apply list_elem_of_omap. exists e. split; [done|]. unfold op_of. by rewrite Hr.
    + intros e [_ Hin]%list_elem_of_filter. by apply Hdone.
Qed.

(** C5 The service is linearizable: for any number of clerks, any interleaving
    of their attempts, any loss of requests and replies and any retries, once
    all calls have returned, the logged history has an order that respects
    real time and that [KvModel.Step] accepts for every key, provided no [Put]
    was answered [ErrNoKey]. *)
Theorem histories_linearizable ls s :
  exec l_step l_init ls s → Z.of_nat (length ls) < 2 ^ 64 → l_cl s = ∅ →
  (∀ o, o ∈ l_hist s → Op (Input o) = 1 → OutErr (Output o) ≠ ErrNoKey) →
  linearizable (l_hist s).
Proof. exact (quiescent_linearizable ls s). Qed.

(** The model does not know the answer the server promises for a [Put] to a
    missing key with a non-zero version: the history of that single call,
    which the system produces, has no accepted order. *)
Theorem model_rejects_ErrNoKey :
  let ls := [LInvoke 1 (mkKvInput 1 "k" "v" 1); LAttempt 1 Deliver] in
  let h := [put_operation "k" "v" 1 ErrNoKey 0 1 1] in
  (∃ s, exec l_step l_init ls s ∧ l_cl s = ∅ ∧ l_hist s = h) ∧ ¬ linearizable h.
Proof.
  split.
  - eexists. split; [|split].
    + eapply exec_cons; [by vm_compute|]. eapply exec_cons; [by vm_compute|]. apply exec_nil.
    + done.
    + done.
  - intros (order & Hp & _ & Hacc). apply Permutation_singleton_r in Hp as ->.
    specialize (Hacc map_to_list (λ _, Permutation_refl _)).
    apply Forall_cons in Hacc as [Hacc _]. by vm_compute in Hacc.
Qed.
End properties.

(** Two clients put to one key; a reply is lost and the loser reads. *)
Definition demo_ops : list l_label :=
  [LInvoke 1 (mkKvInput 1 "k" "v" 0); LInvoke 2 (mkKvInput 1 "k" "w" 0); LAttempt 1 DropReply;
   LAttempt 2 Deliver; LInvoke 2 (mkKvInput 0 "k" "" 0); LAttempt 1 Deliver; LAttempt 2 DropRequest;
   LAttempt 2 Deliver].

Lemma histories_linearizable_witness :
  linearizable
    [put_operation "k" "w" 0 ErrVersion 1 3 2; put_operation "k" "v" 0 ErrMaybe 0 5 1;
     get_operation "k" "v" 1 OK 4 7 2].
Proof.
  assert (Hr : ∃ s, run l_next l_init demo_ops = Some s ∧ l_cl s = ∅ ∧
    l_hist s = [put_operation "k" "w" 0 ErrVersion 1 3 2; put_operation "k" "v" 0 ErrMaybe 0 5 1;
     get_operation "k" "v" 1 OK 4 7 2]).
  { vm_compute. eexists. split; [reflexivity|]. by split. }
  destruct Hr as (s & Hrun & Hcl & Hh). rewrite <- Hh.
  apply (histories_linearizable demo_ops s).
  - apply (run_exec l_step l_next); [done | exact Hrun].
  - by vm_compute.
  - exact Hcl.
  - rewrite Hh. intros o Ho. repeat (apply elem_of_cons in Ho as [->|Ho]; [done|]). by apply elem_of_nil in Ho.
Defined.
