(* ===== verification/KvTest.v ===== *)
(** * The testers of the key/value service: [kvtest1/kvtest.go]

    Concurrent clients put to shared keys ([OneClientPut]) through clerks over
    the lossy network, one attempt at a time, and the tester compares their
    counts with the version at the server ([CheckPutConcurrent]). Helpers that
    work alone on a key ([PutAtLeastOnce], [SpreadPuts], [CheckGet]) run against
    the schedules of [KVClerk]. Random numbers and the [done] channel are
    arguments; annotations and the operation log do not act on the clients. *)

From stdpp Require Import pretty.
From S2P Require Import Prelude Rpc KVServer KVClerk Utf8 Json JsonInt.

Open Scope string_scope.
Open Scope list_scope.
Open Scope Z_scope.

(** ** Values *)

(** [type EntryV struct { Id int; V rpc.Tversion }] *)
Abbreviation EntryV := (Z * Z)%type (only parsing).
Definition Id_field : field := int_field "Id".
Definition V_field : field := uint64_field "V".

Definition Marshal_EntryV (e : EntryV) : string := encode_object Id_field V_field e.
Definition Unmarshal_EntryV (s : string) : option EntryV := unmarshal_object Id_field V_field s.

(** [GetJson] on the answer of the clerk. *)
Definition GetJson {A} (Unmarshal : string → option A) (answer : string * Tversion * Err) : outcome (A * Tversion) :=
  let '(val, ver, err) := answer in
  if decide (err = OK) then
    match Unmarshal val with Some v => Ret (v, ver) | None => Fatal end
  else Fatal.

(** ** [OnePut] *)

(** What [OnePut] does with the error of [PutJson], before its [GetJson]. *)
Definition OnePut_error (err : Err) : outcome Err :=
  if decide (err = OK ∨ err = ErrVersion ∨ err = ErrMaybe) then Ret err else Fatal.

(** What it does with the answer of the clerk's [Get]: it goes round with a
    new version, or returns a version and whether its put succeeded. *)
Definition OnePut_check (me : Z) (ver : Tversion) (err : Err) (answer : string * Tversion * Err) :
    outcome (Tversion + Tversion * bool) :=
  '(e, ver0) ← GetJson Unmarshal_EntryV answer;
  if decide ((err = OK ∧ ver0 = wrapU 64 (ver + 1)) ∧ e.1 ≠ me ∧ e.2 ≠ ver) then Fatal
  else if decide (err = OK ∨ err = ErrMaybe) then Ret (inr (ver0, bool_decide (err = OK)))
  else Ret (inl ver0).

(** ** [OneClientPut] *)

Record ClntRes := mkRes { Nok : Z; Nmaybe : Z }.

Inductive clnt_pc :=
| Select                                                (* at the [select] *)
| Putting (k : string) (ver : Tversion) (p : put_pc)     (* in [ck.Put] *)
| Getting (k : string) (ver : Tversion) (err : Err)      (* in [ck.Get] *)
| Finished                                              (* returned on [done] *)
| Stopped.                                              (* [Fatalf] *)

#[export] Instance clnt_pc_eq_dec : EqDecision clnt_pc.
Proof. solve_decision. Defined.

Record clnt := mkClnt { c_verm : gmap string Tversion; c_res : ClntRes; c_pc : clnt_pc }.

Definition count_put (ok : bool) (r : ClntRes) : ClntRes :=
  if ok then mkRes (wrapS 64 (Nok r + 1)) (Nmaybe r) else mkRes (Nok r) (wrapS 64 (Nmaybe r + 1)).

Definition set_pc (pc : clnt_pc) (c : clnt) : clnt := mkClnt (c_verm c) (c_res c) pc.

(** The inputs of one step: whether [done] is ready, the random number and the
    fate of the attempt. *)
Record choice := mkChoice { ch_done : bool; ch_rand : Z; ch_net : netres }.

(** The key of the next put. *)
Definition pick_key (randomkeys : bool) (ka : list string) (r : Z) : outcome string :=
  if randomkeys then index ka (r `mod` Z.of_nat (length ka)) else index ka 0.

(** One step of the client [me]: the [select], or one attempt of a call. *)
Definition OneClientPut_step (randomkeys : bool) (ka : list string) (me : Z) (ch : choice) (kv : KVServer) (c : clnt) :
    KVServer * clnt :=
  match c_pc c with
  | Select =>
      if ch_done ch then (kv, set_pc Finished c)
      else match pick_key randomkeys ka (ch_rand ch) with
           | Ret k => (kv, set_pc (Putting k (lookup_zero 0 k (c_verm c)) PutFirst) c)
           | _ => (kv, set_pc Stopped c)
           end
  | Putting k ver p =>
      let '(kv', _, next) := put_attempt p (ch_net ch) kv (mkPutArgs k (Marshal_EntryV (me, ver)) ver) in
      match next with
      | inl p' => (kv', set_pc (Putting k ver p') c)
      | inr err => (kv', set_pc (match OnePut_error err with Ret err => Getting k ver err | _ => Stopped end) c)
      end
  | Getting k ver err =>
      match call_get (ch_net ch) kv (mkGetArgs k) with
      | None => (kv, c)
      | Some reply =>
          match OnePut_check me ver err (GetValue reply, GetVersion reply, GetErr reply) with
          | Ret (inl ver0) => (kv, set_pc (Putting k ver0 PutFirst) c)
          | Ret (inr (ver0, ok)) => (kv, mkClnt (<[k := ver0]> (c_verm c)) (count_put ok (c_res c)) Select)
          | _ => (kv, set_pc Stopped c)
          end
      end
  | Finished | Stopped => (kv, c)
  end.

(** [verm] starts with a zero for every key. *)
Definition OneClientPut_start (ka : list string) : clnt :=
  mkClnt (fold_left (λ m k, <[k := 0]> m) ka ∅) (mkRes 0 0) Select.

(** ** [SpawnClientsAndWait] *)

Record world := mkWorld { srv : KVServer; clnts : list clnt }.

Section system.
Context (randomkeys : bool) (ka : list string).

Definition spawn (nclnt : nat) : world := mkWorld MakeKVServer (replicate nclnt (OneClientPut_start ka)).

(** Client [i] makes a step. *)
Definition spawn_do (w : world) (i : nat) (ch : choice) : option world :=
  c ← clnts w !! i;
  let '(kv, c') := OneClientPut_step randomkeys ka (Z.of_nat i) ch (srv w) c in
  Some (mkWorld kv (<[i := c']> (clnts w))).

(** A reliable network delivers every attempt. *)
Definition spawn_step (reliable : bool) (w : world) (l : nat * choice) (w' : world) : Prop :=
  (reliable = true → ch_net l.2 = Deliver) ∧ spawn_do w l.1 l.2 = Some w'.

(** The results it returns, once all clients are done. *)
Definition results (w : world) : option (list ClntRes) :=
  if decide (Forall (λ c, c_pc c = Finished) (clnts w)) then Some (c_res <$> clnts w) else None.
End system.

(** ** [CheckPutConcurrent] *)

Definition add_res (res r : ClntRes) : ClntRes :=
  mkRes (wrapS 64 (Nok res + Nok r)) (wrapS 64 (Nmaybe res + Nmaybe r)).

(** [answer] is what the clerk's [Get] of the key returns; the result is the
    new [res]. *)
Definition CheckPutConcurrent (answer : string * Tversion * Err) (rs : list ClntRes) (res : ClntRes) (reliable : bool) :
    outcome ClntRes :=
  '(_, ver0) ← GetJson Unmarshal_EntryV answer;
  let res := fold_left add_res rs res in
  if reliable then
    if decide (ver0 ≠ wrapU 64 (Nok res)) then Fatal else Ret res
  else if decide (ver0 > wrapU 64 (wrapS 64 (Nok res + Nmaybe res))) then Fatal else Ret res.

(** ** One client at a time *)

(** [PutAtLeastOnce], a schedule per call of the clerk; no version when the
    schedules run out before it returns. *)
Fixpoint PutAtLeastOnce (kv : KVServer) (key value : string) (ver : Tversion) (scheds : list schedule) :
    KVServer * outcome (option Tversion) :=
  match scheds with
  | [] => (kv, Ret None)
  | sched :: scheds =>
      let '(kv', _, res) := Clerk_Put kv key value ver sched in
      match res with
      | None => (kv', Ret None)
      | Some err =>
          if decide (err = OK) then (kv', Ret (Some (wrapU 64 (ver + 1))))
          else if decide (err = ErrMaybe ∨ err = ErrVersion) then
            PutAtLeastOnce kv' key value (wrapU 64 (ver + 1)) scheds
          else if decide (ver ≠ 0) then (kv', Fatal)
          else PutAtLeastOnce kv' key value ver scheds
      end
  end.

(** [PutAtLeastOnceJson]; [value] is the marshalled text. Its put is always at
    version zero. *)
Fixpoint PutAtLeastOnceJson (kv : KVServer) (key value : string) (ver : Tversion) (scheds : list schedule) :
    KVServer * option Tversion :=
  match scheds with
  | [] => (kv, None)
  | sched :: scheds =>
      let '(kv', _, res) := Clerk_Put kv key value 0 sched in
      match res with
      | None => (kv', None)
      | Some err =>
          if decide (err ≠ ErrMaybe) then (kv', Some ver)
          else PutAtLeastOnceJson kv' key value (wrapU 64 (ver + 1)) scheds
      end
  end.

(** It returns 3 for a key whose put at version 3 was refused, and 0 for one
    that is now at version 1. *)
Example PutAtLeastOnceJson_stale :
  let kv := (Put MakeKVServer (mkPutArgs "k" "old" 0) PutReply0).1 in
  PutAtLeastOnceJson kv "k" "new" 3 [[([], Deliver)]] = (kv, Some 3) ∧
  (PutAtLeastOnceJson MakeKVServer "k" "new" 0 [[([], Deliver)]]).2 = Some 0.
Proof. vm_compute. done. Qed.

(** [RandValue], one random number per letter. *)
Definition letterBytes : string := "abcdefghijklmnopqrstuvwxyzABCDEFGHIJKLMNOPQRSTUVWXYZ".
Fixpoint RandValue (rs : list Z) : string :=
  match rs with
  | [] => ""
  | r :: rs =>
      match String.get (Z.to_nat (r `mod` Z.of_nat (String.length letterBytes))) letterBytes with
      | Some c => String c (RandValue rs)
      | None => RandValue rs
      end
  end.

(** [CheckGet] on the answer of the clerk. *)
Definition CheckGet (answer : string * Tversion * Err) (value : string) (version : Tversion) : outcome unit :=
  let '(val, ver, err) := answer in
  if decide (err ≠ OK) then Fatal
  else if decide (val ≠ value ∨ ver ≠ version) then Fatal
  else Ret tt.

Definition MakeKeys (n : nat) : list string := map (λ i, "k" +:+ pretty (Z.of_nat i)) (seq 0 n).

(** The two loops of [SpreadPutsSize]; a call that does not return leaves no
    answer. *)
Fixpoint spread_puts (kv : KVServer) (kvs : list (string * string)) (scheds : list schedule) : option KVServer :=
  match kvs, scheds with
  | [], _ => Some kv
  | (k, v) :: kvs, sched :: scheds =>
      let '(kv', _, res) := Clerk_Put kv k v 0 sched in
      match res with Some _ => spread_puts kv' kvs scheds | None => None end
  | _ :: _, [] => None
  end.
Fixpoint spread_gets (kv : KVServer) (kvs : list (string * string)) (scheds : list schedule) : option (outcome KVServer) :=
  match kvs, scheds with
  | [], _ => Some (Ret kv)
  | (k, v) :: kvs, sched :: scheds =>
      match Clerk_Get kv k sched with
      | (kv', Some answer) =>
          match CheckGet answer v 1 with Ret _ => spread_gets kv' kvs scheds | _ => Some Fatal end
      | (_, None) => None
      end
  | _ :: _, [] => None
  end.

(** [SpreadPutsSize] with the random values [va]. *)
Definition SpreadPutsSize (kv : KVServer) (va : list string) (puts gets : list schedule) :
    option (outcome (KVServer * (list string * list string))) :=
  let ka := MakeKeys (length va) in
  kv ← spread_puts kv (zip ka va) puts;
  r ← spread_gets kv (zip ka va) gets;
  Some (kv ← r; Ret (kv, (ka, va))).

(** ** Sums *)

Definition zsum (l : list Z) : Z := foldr Z.add 0 l.

Lemma zsum_insert l (i : nat) x y : l !! i = Some x → zsum (<[i := y]> l) = zsum l - x + y.
Proof.
  revert i. induction l as [|z l IH]; intros [|i]; simpl; [done..| |].
  - intros [= ->]. lia.
  - intros Hi. rewrite (IH i Hi). lia.
Qed.

Lemma zsum_replicate_0 n : zsum (replicate n 0) = 0.
Proof. induction n as [|n IH]; [done|]. simpl. by rewrite IH. Qed.

(** Changing the summand of one element of a duplicate-free list. *)
Lemma zsum_fmap_update {A} `{EqDecision A} (f f' : A → Z) (d : Z) x l :
  NoDup l → x ∈ l → f' x = f x + d → (∀ y, y ≠ x → f' y = f y) → zsum (f' <$> l) = zsum (f <$> l) + d.
Proof.
  intros Hnd Hx Hf Hne. induction Hnd as [|y l Hy Hnd IH]; [by apply not_elem_of_nil in Hx|].
  rewrite !fmap_cons. cbn [zsum foldr]. fold (zsum (f' <$> l)) (zsum (f <$> l)).
  apply elem_of_cons in Hx as [<-|Hx].
  - rewrite Hf. assert (E : f' <$> l = f <$> l); [|rewrite E; lia].
    apply list_fmap_ext. intros j z Hz. apply Hne. intros ->. apply Hy. by eapply list_elem_of_lookup_2.
  - rewrite (IH Hx), Hne by (by intros ->). lia.
Qed.

Lemma zsum_Forall2 {A} (P : A → Z → Prop) (f g : A → Z) l ns :
  Forall2 P l ns → (∀ x n, P x n → f x <= n <= g x) → zsum (f <$> l) <= zsum ns <= zsum (g <$> l).
Proof.
  intros Hp Hb. induction Hp as [|x n l ns Hx Hp IH]; [simpl; lia|].
  rewrite !fmap_cons. cbn [zsum foldr]. pose proof (Hb x n Hx). unfold zsum in IH. lia.
Qed.

Lemma zsum_add {A} (f g : A → Z) l : zsum ((λ x, f x + g x) <$> l) = zsum (f <$> l) + zsum (g <$> l).
Proof. induction l as [|x l IH]; [done|]. rewrite !fmap_cons. cbn [zsum foldr]. unfold zsum in IH. lia. Qed.

Lemma zsum_nonneg l : Forall (λ z, 0 <= z) l → 0 <= zsum l.
Proof. induction 1; simpl; lia. Qed.

Lemma zsum_zero l : Forall (λ z, z = 0) l → zsum l = 0.
Proof. induction 1; simpl; lia. Qed.

Lemma zsum_member l x : Forall (λ z, 0 <= z) l → x ∈ l → x <= zsum l.
Proof.
  induction 1 as [|y l Hy Hl IH]; [intros Hx; by apply not_elem_of_nil in Hx|].
  intros [->|Hx]%elem_of_cons; pose proof (zsum_nonneg l Hl); [simpl; lia|].
  specialize (IH Hx). simpl. lia.
Qed.

(** ** Concurrent puts *)

Section puts.
Context (randomkeys : bool) (ka : list string).
Hypothesis keys : NoDup ka.

Definition total (c : clnt) : Z := Nok (c_res c) + Nmaybe (c_res c).

(** [n] of the installed values are this client's. *)
Definition counts (kv : KVServer) (c : clnt) (n : Z) : Prop :=
  let ok := Nok (c_res c) in let may := Nmaybe (c_res c) in
  0 <= ok ∧ 0 <= may ∧
  match c_pc c with
  | Select | Finished | Putting _ _ PutFirst => ok <= n <= ok + may
  | Putting k ver PutRetry => ok <= n <= ok + may ∨ (ver < version_of kv k ∧ ok <= n <= ok + may + 1)
  | Getting k ver err =>
      (err = OK ∧ ok + 1 <= n <= ok + may + 1) ∨ (err = ErrMaybe ∧ ok <= n <= ok + may + 1) ∨
      (err = ErrVersion ∧ ok <= n <= ok + may)
  | Stopped => False
  end.

(** What a client knows of the server: its versions are not from the future,
    and right after its put the value is its own. *)
Definition knows (me : Z) (kv : KVServer) (c : clnt) : Prop :=
  ((∀ k, 0 <= lookup_zero 0 k (c_verm c) <= version_of kv k) ∧
   (0 < total c → ∃ k, k ∈ ka ∧ is_Some (dataVersion kv !! k))) ∧
  match c_pc c with
  | Putting k ver _ => k ∈ ka ∧ 0 <= ver <= version_of kv k
  | Getting k ver err =>
      k ∈ ka ∧ 0 <= ver <= version_of kv k ∧ is_Some (dataVersion kv !! k) ∧
      (err = OK → ver < version_of kv k ∧ (version_of kv k = ver + 1 → data kv !! k = Some (Marshal_EntryV (me, ver))))
  | _ => True
  end.

Definition EntryV_ok (e : EntryV) : Prop := fits Id_field V_field e.

(** The server: well formed, far from overflow, and with decodable values. *)
Record srv_ok (m : Z) (kv : KVServer) : Prop := {
  so_wf : wf kv;
  so_bound : ∀ k, version_of kv k + m < 2 ^ 63;
  so_values : ∀ k v, data kv !! k = Some v → ∃ e, v = Marshal_EntryV e ∧ EntryV_ok e
}.

Lemma Unmarshal_Marshal e : EntryV_ok e → Unmarshal_EntryV (Marshal_EntryV e) = Some e.
Proof.
  intros He. apply unmarshal_encode_object; [|done]. split; [|split; [|done]];
    unfold valid_utf8, runes; simpl; repeat (constructor; [by apply ascii_chunk|]); constructor.
Qed.

(** An installation of a client's value: what changes at the server. *)
Lemma version_install m kv k v ver k' :
  srv_ok m kv → 0 <= m →
  version_of (Put_install kv (mkPutArgs k v ver)) k' = version_of kv k' + (if decide (k = k') then 1 else 0).
Proof.
  intros [Hwf Hb _] Hm. rewrite version_Put_install. cbn [PutKey]. pose proof (wf_version kv k' Hwf).
  specialize (Hb k'). case_decide; [rewrite wrapU_small|]; lia.
Qed.

Lemma install_srv_ok m kv k e ver :
  srv_ok (m + 1) kv → 0 <= m → EntryV_ok e → srv_ok m (Put_install kv (mkPutArgs k (Marshal_EntryV e) ver)).
Proof.
  intros Hs Hm He. pose proof Hs as [Hwf Hb Hv]. split.
  - by apply wf_Put_install.
  - intros k'. rewrite (version_install (m + 1)) by (done || lia). specialize (Hb k'). case_decide; lia.
  - intros k' v. cbn [data Put_install PutKey PutValue]. rewrite lookup_insert_Some.
    intros [[_ <-]|[_ Hk]]; [by exists e | by eapply Hv].
Qed.

Lemma srv_ok_less m m' kv : m' <= m → srv_ok m kv → srv_ok m' kv.
Proof. intros Hm [? Hb ?]. split; [done| |done]. intros k. specialize (Hb k). lia. Qed.

(** Another client's installation keeps what a client knows and counts. *)
Lemma install_counts m kv k v ver c n :
  srv_ok m kv → 0 <= m → counts kv c n → counts (Put_install kv (mkPutArgs k v ver)) c n.
Proof.
  intros Hs Hm. unfold counts. destruct (c_pc c) as [|k' ver' [|]|k' ver' err| |]; try done.
  rewrite (version_install m) by done. case_decide; naive_solver lia.
Qed.

Lemma install_key kv args k : is_Some (dataVersion kv !! k) → is_Some (dataVersion (Put_install kv args) !! k).
Proof. intros Hk. cbn [dataVersion Put_install]. rewrite lookup_insert_is_Some. destruct (decide (PutKey args = k)); auto. Qed.

Lemma install_knows m kv k v ver me c :
  srv_ok m kv → 0 <= m → knows me kv c → knows me (Put_install kv (mkPutArgs k v ver)) c.
Proof.
  intros Hs Hm [[Hv Hx] Hk]. pose proof (version_install m kv k v ver) as Hi. split; [split|].
  - intros k'. rewrite Hi by done. specialize (Hv k'). case_decide; lia.
  - intros Ht. destruct (Hx Ht) as (k' & ? & ?). exists k'. split; [done | by apply install_key].
  - destruct (c_pc c) as [|k' ver' p|k' ver' err| |]; [done| | |done..].
    + rewrite Hi by done. destruct Hk. case_decide; lia || naive_solver lia.
    + destruct Hk as (? & ? & ? & Hok). split; [done|]. rewrite Hi by done.
      split; [case_decide; lia|]. split; [by apply install_key|]. intros He. destruct (Hok He) as [Hlt Hd].
      split; [case_decide; lia|]. case_decide; [lia|]. intros Hv1. cbn [data Put_install PutKey].
      rewrite lookup_insert_ne by done. apply Hd. lia.
Qed.

(** What a step does to the server. *)
Definition step_effect (me : Z) (kv kv' : KVServer) (n n' : Z) : Prop :=
  (kv' = kv ∧ n' = n) ∨
  (∃ k ver, k ∈ ka ∧ 0 <= ver < 2 ^ 63 ∧ kv' = Put_install kv (mkPutArgs k (Marshal_EntryV (me, ver)) ver) ∧ n' = n + 1).

(** ** One step of a client *)

Record step_ok (me : Z) (kv kv' : KVServer) (c c' : clnt) (n : Z) : Prop := {
  st_effect : ∃ n', step_effect me kv kv' n n' ∧ counts kv' c' n';
  st_knows : knows me kv' c';
  st_total : total c' <= total c + 1
}.

Lemma set_pc_total pc c : total (set_pc pc c) = total c.
Proof. done. Qed.

Lemma guard_known kv k v ver e :
  0 <= ver <= version_of kv k → Put_guard kv (mkPutArgs k v ver) = Some e →
  e = ErrVersion ∧ ver < version_of kv k ∧ is_Some (dataVersion kv !! k).
Proof.
  unfold Put_guard, version_of, lookup_zero. cbn [PutKey PutVersion].
  destruct (dataVersion kv !! k) as [w|]; simpl; intros Hv; case_decide; intros; simplify_eq; [|lia].
  split; [done|]. split; [lia | done].
Qed.

(** A put that the server refuses: the answer, if it arrives, is about a
    version of the past. *)
Lemma refused_step_ok me kv c n k ver p (r : netres) :
  c_pc c = Putting k ver p → counts kv c n → knows me kv c →
  ver < version_of kv k → is_Some (dataVersion kv !! k) →
  step_ok me kv kv c
    (set_pc (match r with
             | Deliver => Getting k ver (if decide (p = PutRetry) then ErrMaybe else ErrVersion)
             | _ => Putting k ver PutRetry
             end) c) n.
Proof.
  intros Hpc Hc [Hv Hk] Hlt Hs. unfold counts in Hc. rewrite Hpc in Hc, Hk. destruct Hk as [Hin Hver]. split.
  - exists n. split; [by left|]. unfold counts. cbn [set_pc c_res c_pc].
    destruct Hc as (? & ? & Hc). split; [done|]. split; [done|].
    destruct r, p; try (by left); try done; simpl; naive_solver lia.
  - split; [done|]. cbn [set_pc c_pc]. destruct r; [done..|]. split; [done|]. split; [done|]. split; [done|].
    by case_decide.
  - rewrite set_pc_total. lia.
Qed.

(** A put that the server accepts. *)
Lemma accepted_step_ok m me kv c n k ver p (arrived : bool) :
  srv_ok (m + 1) kv → 0 <= m → c_pc c = Putting k ver p → counts kv c n → knows me kv c →
  version_of kv k = ver →
  step_ok me kv (Put_install kv (mkPutArgs k (Marshal_EntryV (me, ver)) ver)) c
    (set_pc (if arrived then Getting k ver OK else Putting k ver PutRetry) c) n.
Proof.
  intros Hs Hm Hpc Hc Hkn Hver. pose proof Hkn as [[Hv _] Hk]. unfold counts in Hc. rewrite Hpc in Hc, Hk.
  destruct Hk as [Hin _]. pose proof (version_install (m + 1) kv k (Marshal_EntryV (me, ver)) ver) as Hi.
  assert (Hb := so_bound _ _ Hs k). pose proof (wf_version kv k (so_wf _ _ Hs)).
  set (kv' := Put_install _ _) in *. destruct Hc as (? & ? & Hc).
  assert (Hn : Nok (c_res c) <= n <= Nok (c_res c) + Nmaybe (c_res c)) by (destruct p; naive_solver lia).
  split.
  - exists (n + 1). split; [right; exists k, ver; split; [done|]; split; [lia|done]|].
    unfold counts. cbn [set_pc c_res c_pc]. split; [done|]. split; [done|]. destruct arrived; [left; split; [done|lia]|].
    right. rewrite Hi by (done || lia). rewrite decide_True by done. lia.
  - assert (Hv' : ∀ k', version_of kv k' <= version_of kv' k') by (intros k'; rewrite Hi by (done || lia); case_decide; lia).
    split; [split|].
    { intros k'; cbn [set_pc c_verm]; specialize (Hv k'); specialize (Hv' k'); lia. }
    { intros _. exists k. split; [done|]. cbn [dataVersion kv' Put_install PutKey]. rewrite lookup_insert_eq. eauto. }
    assert (Hk' : version_of kv' k = ver + 1) by (rewrite Hi, decide_True by (done || lia); lia).
    cbn [set_pc c_pc]. destruct arrived; [|split; [done|lia]]. split; [done|]. split; [lia|]. split.
    + cbn [dataVersion kv' Put_install PutKey]. rewrite lookup_insert_eq. eauto.
    + intros _. split; [lia|]. intros _. cbn [data kv' Put_install PutKey PutValue]. by rewrite lookup_insert_eq.
  - rewrite set_pc_total. lia.
Qed.

Lemma put_step_ok m me ch kv c n k ver p kv' c' :
  srv_ok (m + 1) kv → 0 <= m → c_pc c = Putting k ver p → counts kv c n → knows me kv c →
  OneClientPut_step randomkeys ka me ch kv c = (kv', c') → step_ok me kv kv' c c' n.
Proof.
  intros Hs Hm Hpc Hc Hk. unfold OneClientPut_step. rewrite Hpc, put_attempt_live.
  assert (Hv : 0 <= ver <= version_of kv k) by (destruct Hk as [_ Hk]; rewrite Hpc in Hk; apply Hk).
  destruct (Put_guard kv (mkPutArgs k (Marshal_EntryV (me, ver)) ver)) as [e|] eqn:Hg.
  - apply guard_known in Hg as (-> & Hlt & Hkey); [|done].
    pose proof (refused_step_ok me kv c n k ver p (ch_net ch) Hpc Hc Hk Hlt Hkey) as Hst.
    destruct (ch_net ch), p; intros [= <- <-]; exact Hst.
  - apply Put_guard_version in Hg. cbn [PutKey PutVersion] in Hg.
    pose proof (λ b, accepted_step_ok m me kv c n k ver p b Hs Hm Hpc Hc Hk Hg) as Hst.
    destruct (ch_net ch); intros [= <- <-]; [|exact (Hst false)|exact (Hst true)].
    split; [|split|].
    + exists n. split; [by left|]. unfold counts in *. rewrite Hpc in Hc. cbn [set_pc c_res c_pc].
      destruct p; naive_solver.
    + apply Hk.
    + destruct Hk as [_ Hk]. rewrite Hpc in Hk. exact Hk.
    + rewrite set_pc_total. lia.
Qed.

(** The answer of the clerk's [Get] for a key that has a value. *)
Lemma get_known m kv k :
  srv_ok m kv → is_Some (dataVersion kv !! k) →
  ∃ e, EntryV_ok e ∧ data kv !! k = Some (Marshal_EntryV e) ∧
    Get kv (mkGetArgs k) GetReply0 = mkGetReply (Marshal_EntryV e) (version_of kv k) OK ∧
    GetJson Unmarshal_EntryV (Marshal_EntryV e, version_of kv k, OK) = Ret (e, version_of kv k).
Proof.
  intros [Hwf _ Hv] Hk. apply wf_dom_lookup in Hk as [v Hd]; [|done]. destruct (Hv k v Hd) as (e & -> & He).
  exists e. split; [done|]. split; [done|]. split; [unfold Get; cbn [GetKey]; by rewrite Hd|].
  unfold GetJson. rewrite decide_True by done. by rewrite Unmarshal_Marshal.
Qed.

Lemma get_step_ok m me ch kv c n k ver err kv' c' :
  srv_ok m kv → 0 <= m → 0 <= me < 2 ^ 63 → c_pc c = Getting k ver err → counts kv c n → knows me kv c → total c + 1 < 2 ^ 63 →
  OneClientPut_step randomkeys ka me ch kv c = (kv', c') → step_ok me kv kv' c c' n.
Proof.
  intros Hs Hm Hme Hpc Hc Hk Hb. pose proof Hk as [[Hv Hx] Hk']. unfold counts in Hc. rewrite Hpc in Hc, Hk'.
  destruct Hk' as (Hin & Hver & Hkey & Hok). destruct (get_known m kv k Hs Hkey) as (e & He & Hd & Hget & Hj).
  pose proof (so_bound _ _ Hs k) as Hb'.
  assert (Hsame : step_ok me kv kv c c n).
  { split; [exists n; split; [by left|] | done | lia]. unfold counts. by rewrite Hpc. }
  unfold OneClientPut_step. rewrite Hpc. destruct (ch_net ch); cbn [call_get]; [by intros [= <- <-]..|].
  rewrite Hget. cbn [GetValue GetVersion GetErr]. unfold OnePut_check. rewrite Hj. cbn [mbind outcome_bind].
  assert (Hmine : ¬ ((err = OK ∧ version_of kv k = wrapU 64 (ver + 1)) ∧ e.1 ≠ me ∧ e.2 ≠ ver)).
  { intros [[-> Hv1] [Hne _]]. rewrite wrapU_small in Hv1 by lia. destruct (Hok eq_refl) as [_ Hd'].
    rewrite (Hd' Hv1) in Hd. apply (inj Some) in Hd.
    apply (f_equal Unmarshal_EntryV) in Hd. rewrite !Unmarshal_Marshal in Hd; [|done|].
    - by injection Hd as <-.
    - unfold EntryV_ok, fits, in_field. simpl. lia. }
  rewrite decide_False by done. clear Hmine. destruct Hc as (? & ? & Hc).
  destruct Hc as [[-> Hc]|[[-> Hc]|[-> Hc]]]; simpl; intros [= <- <-]; split; simpl; try done.
  all: try (exists n; split; [by left|]; unfold counts; simpl; rewrite ?wrapS_small by (unfold total in Hb; lia); lia).
  all: try (unfold total; simpl; rewrite ?wrapS_small by (unfold total in Hb; lia); lia).
  all: split; [split; [intros k'; specialize (Hv k'); simpl; rewrite ?lookup_zero_insert; try case_decide; subst; lia
    | intros _; by exists k] |].
  all: simpl; try exact I. split; [done|lia].
Qed.

Lemma pick_key_in r k : pick_key randomkeys ka r = Ret k → k ∈ ka.
Proof.
  unfold pick_key. destruct randomkeys; intros [_ Hk]%index_Ret; by eapply list_elem_of_lookup_2.
Qed.

Lemma pick_key_Ret r : ka ≠ [] → ∃ k, pick_key randomkeys ka r = Ret k.
Proof.
  intros Hne. assert (0 < Z.of_nat (length ka)) by (destruct ka; [done | simpl; lia]). unfold pick_key.
  destruct randomkeys; [destruct (index_in_range ka (r `mod` Z.of_nat (length ka))) as (k & -> & _)|
    destruct (index_in_range ka 0) as (k & -> & _)]; eauto; [apply Z.mod_pos_bound|]; lia.
Qed.

Lemma client_step_ok m me ch kv c n kv' c' :
  ka ≠ [] → srv_ok (m + 1) kv → 0 <= m → 0 <= me < 2 ^ 63 → counts kv c n → knows me kv c → total c + 1 < 2 ^ 63 →
  OneClientPut_step randomkeys ka me ch kv c = (kv', c') → step_ok me kv kv' c c' n.
Proof.
  intros Hne Hs Hm Hme Hc Hk Hb. destruct (c_pc c) as [|k ver p|k ver err| |] eqn:Hpc.
  - unfold OneClientPut_step. rewrite Hpc. destruct (pick_key_Ret (ch_rand ch) Hne) as [k E]. rewrite E.
    unfold counts in Hc. rewrite Hpc in Hc. destruct Hk as [Hv _].
    destruct (ch_done ch); intros [= <- <-]; (split; [exists n; split; [by left | done] | | rewrite set_pc_total; lia]);
      (split; [done|]); simpl; [done|]. split; [by eapply pick_key_in | apply Hv].
  - by eapply put_step_ok.
  - apply (get_step_ok m me ch kv c n k ver err); try done. apply (srv_ok_less (m + 1)); [lia | done].
  - unfold OneClientPut_step. rewrite Hpc. intros [= <- <-]. split; [exists n; split; [by left | done] | exact Hk | lia].
  - unfold counts in Hc. rewrite Hpc in Hc. tauto.
Qed.

(** ** The invariant of the system *)

Record puts_inv (m : Z) (w : world) : Prop := {
  pi_srv : srv_ok m (srv w);
  pi_knows : ∀ i c, clnts w !! i = Some c → knows (Z.of_nat i) (srv w) c;
  pi_counts : ∃ ns, Forall2 (counts (srv w)) (clnts w) ns ∧ zsum (version_of (srv w) <$> ka) = zsum ns;
  pi_total : zsum (total <$> clnts w) + m < 2 ^ 63;
  pi_clients : Z.of_nat (length (clnts w)) <= 2 ^ 63
}.

Lemma counts_total kv c n : counts kv c n → 0 <= total c.
Proof. unfold counts, total. lia. Qed.

Lemma client_total kv l ns c : Forall2 (counts kv) l ns → c ∈ l → total c <= zsum (total <$> l).
Proof.
  intros Hf Hc. apply zsum_member; [|by apply list_elem_of_fmap_2].
  apply Forall_forall. intros z (c' & -> & Hc')%list_elem_of_fmap. apply list_elem_of_lookup in Hc' as [j Hj].
  destruct (Forall2_lookup_l _ _ _ _ _ Hf Hj) as (n & _ & Hn). by eapply counts_total.
Qed.

Lemma puts_inv_step m w i ch w' :
  ka ≠ [] → 0 <= m → puts_inv (m + 1) w → spawn_do randomkeys ka w i ch = Some w' → puts_inv m w'.
Proof.
  intros Hne Hm [Hs Hk (ns & Hc & Hsum) Ht Hl] (c & Hi & Hw)%bind_Some.
  destruct (OneClientPut_step randomkeys ka (Z.of_nat i) ch (srv w) c) as [kv' c'] eqn:Hst. injection Hw as <-.
  destruct (Forall2_lookup_l _ _ _ _ _ Hc Hi) as (n & Hn & Hcn).
  assert (Htc : total c <= zsum (total <$> clnts w)) by (eapply client_total; [done | by eapply list_elem_of_lookup_2]).
  assert (Hli : (i < length (clnts w))%nat) by (by eapply lookup_lt_Some).
  destruct (client_step_ok m (Z.of_nat i) ch (srv w) c n kv' c' Hne Hs Hm ltac:(lia) Hcn (Hk i c Hi) ltac:(lia) Hst)
    as [(n' & He & Hcn') Hk' Ht'].
  assert (Htot : zsum (total <$> <[i := c']> (clnts w)) + m < 2 ^ 63).
  { rewrite list_fmap_insert, (zsum_insert _ _ (total c)) by (by rewrite list_lookup_fmap, Hi). lia. }
  destruct He as [[-> ->]|(k & ver & Hin & Hver & -> & ->)].
  - split; cbn [srv clnts]; [by eapply srv_ok_less; [|done]; lia| | |done|by rewrite length_insert].
    + intros j d [(<- & <- & _)|[_ Hj]]%list_lookup_insert_Some; auto.
    + exists ns. split; [|done]. rewrite <- (list_insert_id ns i n Hn). by apply Forall2_insert.
  - assert (Hm1 : 0 <= m + 1) by lia.
    split; cbn [srv clnts]; [apply install_srv_ok; [done..|unfold EntryV_ok, fits, in_field; simpl; lia]| | |done|by rewrite length_insert].
    + intros j d [(<- & <- & _)|[_ Hj]]%list_lookup_insert_Some; [done|]. by eapply install_knows; eauto.
    + exists (<[i := n + 1]> ns). split.
      * apply Forall2_insert; [|done]. eapply Forall2_impl; [done|]. intros d z Hd. by eapply install_counts.
      * rewrite (zsum_insert _ _ n) by done. rewrite (zsum_fmap_update (version_of (srv w)) _ 1 k); [lia|done..| |].
        -- rewrite (version_install (m + 1)), decide_True by done. done.
        -- intros k' Hk''. rewrite (version_install (m + 1)), decide_False by done. lia.
Qed.

Lemma start_verm k l (m : gmap string Tversion) : lookup_zero 0 k m = 0 → lookup_zero 0 k (fold_left (λ m k, <[k := 0]> m) l m) = 0.
Proof.
  revert m. induction l as [|k' l IH]; intros m Hm; [done|]. apply IH. rewrite lookup_zero_insert. by case_decide.
Qed.

Lemma puts_inv_init nclnt m :
  0 <= m < 2 ^ 63 → Z.of_nat nclnt <= 2 ^ 63 → puts_inv m (spawn ka nclnt).
Proof.
  intros Hm Hn. assert (Hv : ∀ k, version_of MakeKVServer k = 0) by (intros k; apply lookup_zero_empty).
  split; cbn [spawn srv clnts].
  - split; [apply wf_Make|intros k; rewrite Hv; lia|]. intros k v Hd. cbn [data MakeKVServer] in Hd. by rewrite lookup_empty in Hd.
  - intros i c Hi. apply lookup_replicate in Hi as [-> _]. split; [|done]. split; [intros k | done]. cbn [OneClientPut_start c_verm].
    rewrite start_verm by apply lookup_zero_empty. by rewrite Hv.
  - exists (replicate nclnt 0). split.
    + apply Forall2_replicate. unfold counts. simpl. lia.
    + rewrite zsum_replicate_0. clear keys. induction ka as [|k l IH]; [done|]. rewrite fmap_cons. cbn [zsum foldr].
      unfold zsum in IH. by rewrite IH, Hv.
  - rewrite fmap_replicate. change (total (OneClientPut_start ka)) with 0. rewrite zsum_replicate_0. lia.
  - rewrite length_replicate. done.
Qed.

Lemma puts_inv_exec reliable nclnt ls w :
  ka ≠ [] → Z.of_nat nclnt <= 2 ^ 63 → Z.of_nat (length ls) < 2 ^ 63 →
  exec (spawn_step randomkeys ka reliable) (spawn ka nclnt) ls w → puts_inv 0 w.
Proof.
  intros Hne Hn Hls He. apply (exec_preserves_bounded _ (λ n w, puts_inv (Z.of_nat n) w)) with (n:=0%nat) in He; [done| |].
  - intros n w1 [i ch] w2 Hi [_ Hd]. eapply (puts_inv_step (Z.of_nat n)); [done|lia| |exact Hd].
    by replace (Z.of_nat n + 1) with (Z.of_nat (S n)) by lia.
  - apply puts_inv_init; simpl; lia.
Qed.

(** ** Reliable networks *)

Definition sure (c : clnt) : Prop :=
  Nmaybe (c_res c) = 0 ∧
  match c_pc c with Putting _ _ PutRetry => False | Getting _ _ err => err ≠ ErrMaybe | _ => True end.

Lemma sure_step me ch kv c kv' c' :
  sure c → ch_net ch = Deliver → OneClientPut_step randomkeys ka me ch kv c = (kv', c') → sure c'.
Proof.
  intros [Hm Hp] Hn. unfold OneClientPut_step. rewrite Hn. destruct (c_pc c) as [|k ver p|k ver err| |] eqn:Hpc.
  - destruct (ch_done ch); [by intros [= <- <-]|]. destruct (pick_key _ _ _); by intros [= <- <-].
  - destruct p; [|done]. rewrite put_attempt_live. destruct (Put_guard _ _) as [e|] eqn:Hg.
    + apply Put_guard_Some in Hg as [-> | ->]; by intros [= <- <-].
    + by intros [= <- <-].
  - cbn [call_get]. destruct (OnePut_check _ _ _ _) as [[ver0|[ver0 ok]]| |] eqn:Hck; intros [= <- <-]; [done| |done..].
    unfold OnePut_check in Hck. destruct (GetJson _ _) as [[e ver1]| |]; [|done..]. cbn [mbind outcome_bind] in Hck.
    case_decide; [done|]. case_decide as Ho; [|done]. injection Hck as <- <-.
    destruct Ho as [->|]; [|done]. by split.
  - intros [= <- <-]. split; [done|]. by rewrite Hpc.
  - intros [= <- <-]. split; [done|]. by rewrite Hpc.
Qed.

Lemma sure_exec nclnt ls w :
  exec (spawn_step randomkeys ka true) (spawn ka nclnt) ls w → Forall sure (clnts w).
Proof.
  apply (exec_preserves _ (λ w, Forall sure (clnts w))).
  - intros w1 [i ch] w2 Hw [Hd (c & Hi & Hst)%bind_Some].
    destruct (OneClientPut_step _ _ _ _ _ _) as [kv' c'] eqn:E. injection Hst as <-.
    apply Forall_insert; [done|]. eapply sure_step; [|by apply Hd|exact E].
    by eapply Forall_lookup_1 in Hw.
  - apply Forall_replicate. by split.
Qed.
End puts.

(** ** The tester's check *)

Lemma fold_add_res rs res :
  Forall (λ r, 0 <= Nok r ∧ 0 <= Nmaybe r) rs → 0 <= Nok res → 0 <= Nmaybe res →
  Nok res + Nmaybe res + zsum ((λ r, Nok r + Nmaybe r) <$> rs) < 2 ^ 63 →
  fold_left add_res rs res = mkRes (Nok res + zsum (Nok <$> rs)) (Nmaybe res + zsum (Nmaybe <$> rs)).
Proof.
  intros Hrs. revert res. induction Hrs as [|r rs [H1 H2] Hrs IH]; intros res Hr1 Hr2 Hb; [destruct res; simpl; f_equal; lia|].
  rewrite fmap_cons in Hb. cbn [zsum foldr] in Hb. fold (zsum ((λ r, Nok r + Nmaybe r) <$> rs)) in Hb. cbn beta in Hb.
  assert (0 <= zsum ((λ r, Nok r + Nmaybe r) <$> rs)).
  { apply zsum_nonneg, Forall_fmap. eapply Forall_impl; [done|]. simpl. lia. }
  cbn [fold_left]. assert (E : add_res res r = mkRes (Nok res + Nok r) (Nmaybe res + Nmaybe r)).
  { unfold add_res. f_equal; apply wrapS_small; lia. }
  rewrite E, IH; cbn [Nok Nmaybe]; [|lia..]. rewrite !fmap_cons. unfold zsum. cbn [foldr]. f_equal; lia.
Qed.

Lemma Clerk_Get_quiet kv k sched kv' answer :
  Forall (λ a, a.1 = []) sched → Clerk_Get kv k sched = (kv', Some answer) →
  kv' = kv ∧ answer = let r := Get kv (mkGetArgs k) GetReply0 in (GetValue r, GetVersion r, GetErr r).
Proof.
  induction 1 as [|[others r] sched Ho Hs IH]; [done|]. simpl in Ho. subst others. cbn [Clerk_Get kv_run fold_left].
  destruct r; cbn [call_get]; [exact IH..|]. by intros [= <- <-].
Qed.

(** Finished clients know how many values they may have installed. *)
Lemma finished_counts kv l ns :
  Forall (λ c, c_pc c = Finished) l → Forall2 (counts kv) l ns →
  zsum (Nok <$> (c_res <$> l)) <= zsum ns <= zsum (Nok <$> (c_res <$> l)) + zsum (Nmaybe <$> (c_res <$> l)).
Proof.
  intros Hl Hc. rewrite <- zsum_add. rewrite <- !(list_fmap_compose c_res). unfold compose.
  eapply (zsum_Forall2 (λ c n, Nok (c_res c) <= n <= Nok (c_res c) + Nmaybe (c_res c))); [|done].
  induction Hc as [|c n l ns Hcn Hc IH]; [constructor|]. apply Forall_cons in Hl as [Hp Hl].
  constructor; [|by apply IH]. unfold counts in Hcn. rewrite Hp in Hcn. tauto.
Qed.

(** C16 Clients that put to one key through clerks, over a lossy network and
    in any interleaving, never stop the test; if they all end, at least one
    having put, then [CheckPutConcurrent] passes, in its strict form if the
    network was reliable. The version it reads lies between the puts that were
    answered [OK] and these plus the doubtful ones. *)
Theorem concurrent_puts_pass randomkeys reliable k nclnt ls w :
  Z.of_nat nclnt <= 2 ^ 63 → Z.of_nat (length ls) < 2 ^ 63 →
  exec (spawn_step randomkeys [k] reliable) (spawn [k] nclnt) ls w →
  Forall (λ c, c_pc c ≠ Stopped) (clnts w) ∧
  ∀ rs sched kv answer, results w = Some rs → Exists (λ r, 0 < Nok r + Nmaybe r) rs →
    Forall (λ a, a.1 = []) sched → Clerk_Get (srv w) k sched = (kv, Some answer) →
    ∃ res, CheckPutConcurrent answer rs (mkRes 0 0) reliable = Ret res ∧
      Nok res <= answer.1.2 <= Nok res + Nmaybe res ∧ (reliable = true → Nmaybe res = 0).
Proof.
  intros Hn Hls He. assert (Hk1 : NoDup [k]) by apply NoDup_singleton.
  pose proof (puts_inv_exec randomkeys [k] Hk1 reliable nclnt ls w ltac:(done) Hn Hls He) as [Hs Hk (ns & Hc & Hsum) Ht _].
  split.
  { apply Forall_forall. intros c Hin Hpc. apply list_elem_of_lookup in Hin as [i Hi].
    destruct (Forall2_lookup_l _ _ _ _ _ Hc Hi) as (n & _ & Hcn). unfold counts in Hcn. rewrite Hpc in Hcn. tauto. }
  intros rs sched kv answer Hr Hex Hsch Hget. unfold results in Hr. case_decide as Hfin; [|done]. injection Hr as <-.
  assert (Hkey : is_Some (dataVersion (srv w) !! k)).
  { apply Exists_exists in Hex as (r & (c & -> & Hin)%list_elem_of_fmap & Hpos). apply list_elem_of_lookup in Hin as [i Hi].
    destruct (Hk i c Hi) as [[_ Hx] _]. destruct (Hx Hpos) as (k' & ->%list_elem_of_singleton & ?). done. }
  destruct (get_known 0 (srv w) k Hs Hkey) as (e & _ & _ & Hg & Hj).
  destruct (Clerk_Get_quiet _ _ _ _ _ Hsch Hget) as [-> ->]. rewrite Hg.
  cbn [GetValue GetVersion GetErr]. cbn zeta. unfold CheckPutConcurrent. rewrite Hj. cbn [mbind outcome_bind].
  assert (Hpos : Forall (λ r, 0 <= Nok r ∧ 0 <= Nmaybe r) (c_res <$> clnts w)).
  { apply Forall_fmap, Forall_forall. intros c [i Hi]%list_elem_of_lookup.
    destruct (Forall2_lookup_l _ _ _ _ _ Hc Hi) as (n & _ & Hcn). unfold counts in Hcn. simpl. tauto. }
  assert (Htot : zsum (total <$> clnts w) = zsum ((λ r, Nok r + Nmaybe r) <$> (c_res <$> clnts w)))
    by (by rewrite <- list_fmap_compose).
  rewrite Htot in Ht. rewrite (fold_add_res _ (mkRes 0 0)) by (done || simpl; lia).
  pose proof (finished_counts _ _ _ Hfin Hc) as Hc'. rewrite zsum_add in Ht.
  rewrite <- Hsum in Hc'. cbn [fmap list_fmap zsum foldr] in Hc'. rewrite Z.add_0_r in Hc'.
  set (a := zsum (Nok <$> _)) in *. set (b := zsum (Nmaybe <$> _)) in *. cbn [Nok Nmaybe]. rewrite !Z.add_0_l.
  pose proof (so_bound _ _ Hs k). pose proof (wf_version (srv w) k (so_wf _ _ Hs)).
  assert (Ha : 0 <= a) by (apply zsum_nonneg, Forall_fmap; eapply Forall_impl; [exact Hpos | simpl; tauto]).
  assert (Hb : 0 <= b) by (apply zsum_nonneg, Forall_fmap; eapply Forall_impl; [exact Hpos | simpl; tauto]).
  exists (mkRes a b). destruct reliable.
  - assert (Hb0 : b = 0).
    { apply sure_exec in He. unfold b. apply zsum_zero, Forall_fmap, Forall_fmap.
      eapply Forall_impl; [exact He|]. by intros c [? _]. }
    rewrite decide_False by (rewrite wrapU_small; lia). split; [done|]. simpl. split; [lia | done].
  - rewrite decide_False by (rewrite wrapS_small, wrapU_small; lia). split; [done|]. simpl. split; [lia | done].
Qed.

(** ** Private keys *)

(** What the server holds for a key. *)
Definition slot (kv : KVServer) (k : string) : option string * option Tversion := (data kv !! k, dataVersion kv !! k).

(** The other clients do not put to [k]. *)
Definition no_put (k : string) (op : kv_op) : Prop := match op with OpPut args => PutKey args ≠ k | OpGet _ => True end.
Definition quiet (k : string) (sched : schedule) : Prop := Forall (λ a, Forall (no_put k) a.1) sched.

#[export] Instance no_put_dec k op : Decision (no_put k op).
Proof. destruct op; apply _. Defined.
#[export] Instance quiet_dec k sched : Decision (quiet k sched).
Proof. unfold quiet. apply _. Defined.

Lemma slot_install_ne kv args k : PutKey args ≠ k → slot (Put_install kv args) k = slot kv k.
Proof. intros Hne. unfold slot. cbn [data dataVersion Put_install]. by rewrite !lookup_insert_ne. Qed.

Lemma slot_run kv ops k : Forall (no_put k) ops → slot (kv_run kv ops) k = slot kv k.
Proof.
  intros Ho. revert kv. induction Ho as [|op ops Hop Ho IH]; intros kv; [done|]. cbn [kv_run fold_left].
  fold (kv_run (kv_exec kv op).1 ops). rewrite IH. destruct op as [|args]; [done|]. simpl.
  unfold Put. destruct (Put_guard kv args); [done | by apply slot_install_ne].
Qed.

Lemma guard_slot kv kv' args : slot kv' (PutKey args) = slot kv (PutKey args) → Put_guard kv' args = Put_guard kv args.
Proof. intros [= _ E]. unfold Put_guard. by rewrite E. Qed.

Lemma version_slot kv kv' k : slot kv' k = slot kv k → version_of kv' k = version_of kv k.
Proof. intros [= _ E]. unfold version_of, lookup_zero. by rewrite E. Qed.

(** A [Clerk.Put] leaves the other keys alone. *)
Lemma put_loop_frame pc kv args sched k :
  quiet k sched → PutKey args ≠ k → slot (put_loop pc kv args sched).1.1 k = slot kv k.
Proof.
  intros Hq Hne. revert pc kv. induction Hq as [|[others r] sched Ho Hq IH]; intros pc kv; [done|].
  rewrite put_loop_cons, put_attempt_live. rewrite <- (slot_run kv others k Ho). set (kv1 := kv_run kv others).
  assert (Hrec : ∀ s (f : list Err → list Err), slot s k = slot kv1 k →
    slot (let '(kv2, ex', res) := put_loop PutRetry s args sched in (kv2, f ex', res)).1.1 k = slot kv1 k).
  { intros s f <-. specialize (IH PutRetry s). by destruct (put_loop PutRetry s args sched) as [[??]?]. }
  pose proof (slot_install_ne kv1 args k Hne). destruct (Put_guard kv1 args) as [e|], r; simpl; try done;
    first [by apply (Hrec _ (λ l, l)) | by apply (Hrec _ (λ l, _ :: l))].
Qed.

(** What a refused or an accepted put does, when nobody else puts to its key. *)
Definition refused (kv kv' : KVServer) (args : PutArgs) (err : Err) : Prop :=
  slot kv' (PutKey args) = slot kv (PutKey args) ∧ (err = ErrVersion ∨ err = ErrMaybe).
Definition accepted (kv' : KVServer) (args : PutArgs) (err : Err) : Prop :=
  slot kv' (PutKey args) = (Some (PutValue args), Some (wrapU 64 (PutVersion args + 1))) ∧ (err = OK ∨ err = ErrMaybe).

Lemma put_loop_refused pc kv args sched kv' execs err :
  quiet (PutKey args) sched → Put_guard kv args = Some ErrVersion →
  put_loop pc kv args sched = (kv', execs, Some err) → refused kv kv' args err.
Proof.
  intros Hq. revert pc kv kv' execs. induction Hq as [|[others r] sched Ho Hq IH]; intros pc kv kv' execs Hg Hl; [done|].
  rewrite put_loop_cons, put_attempt_live in Hl. pose proof (slot_run kv others (PutKey args) Ho) as Hs.
  rewrite (guard_slot kv) in Hl by done. rewrite Hg in Hl.
  assert (Hg1 : Put_guard (kv_run kv others) args = Some ErrVersion) by (by rewrite (guard_slot kv)).
  unfold refused. rewrite <- Hs. destruct r; simpl in Hl.
  - destruct (put_loop _ _ _ _) as [[kv2 ex2] res2] eqn:E. injection Hl as -> <- ->. by eapply IH.
  - destruct (put_loop _ _ _ _) as [[kv2 ex2] res2] eqn:E. injection Hl as -> <- ->. by eapply IH.
  - injection Hl as <- <- <-. split; [done|]. case_decide; auto.
Qed.

Lemma install_slot kv args : Put_guard kv args = None → wf kv →
  slot (Put_install kv args) (PutKey args) = (Some (PutValue args), Some (wrapU 64 (PutVersion args + 1))).
Proof.
  intros Hg Hwf. apply Put_guard_version in Hg. unfold slot. cbn [data dataVersion Put_install].
  rewrite !lookup_insert_eq. unfold version_of in Hg. by rewrite Hg.
Qed.

Lemma put_loop_accepted pc kv args sched kv' execs err :
  quiet (PutKey args) sched → wf kv → Put_guard kv args = None → 0 <= PutVersion args < 2 ^ 64 - 1 →
  put_loop pc kv args sched = (kv', execs, Some err) → accepted kv' args err.
Proof.
  intros Hq Hwf Hg Hv. revert pc kv kv' execs Hwf Hg.
  induction Hq as [|[others r] sched Ho Hq IH]; intros pc kv kv' execs Hwf Hg Hl; [done|].
  rewrite put_loop_cons, put_attempt_live in Hl. pose proof (slot_run kv others (PutKey args) Ho) as Hs.
  pose proof (wf_run kv others Hwf) as Hwf1. rewrite (guard_slot kv) in Hl by done. rewrite Hg in Hl.
  assert (Hg1 : Put_guard (kv_run kv others) args = None) by (by rewrite (guard_slot kv)).
  pose proof (install_slot _ _ Hg1 Hwf1) as Hi. destruct r; simpl in Hl.
  - destruct (put_loop _ _ _ _) as [[kv2 ex2] res2] eqn:E. injection Hl as -> <- ->. by eapply IH.
  - destruct (put_loop _ _ _ _) as [[kv2 ex2] res2] eqn:E. injection Hl as -> <- ->.
    pose proof E as E'. apply put_loop_refused in E as [E1 E2]; [|done|].
    + split; [by rewrite E1|]. destruct E2 as [-> | ->]; [|by right].
      by apply put_loop_retry_ErrVersion in E'.
    + unfold Put_guard. apply (f_equal snd) in Hi. cbn [snd slot] in Hi. rewrite Hi.
      by rewrite decide_True by (rewrite wrapU_small; lia).
  - injection Hl as <- <- <-. by split; [|left].
Qed.

Lemma wf_put_loop pc kv args sched : wf kv → wf (put_loop pc kv args sched).1.1.
Proof.
  revert pc kv. induction sched as [|[others r] sched IH]; intros pc kv Hwf; [done|]. rewrite put_loop_cons.
  pose proof (wf_put_attempt pc r (kv_run kv others) args (wf_run kv others Hwf)) as Hw.
  destruct (put_attempt _ _ _ _) as [[kv1 ex] [pc'|err]]; [|done]. specialize (IH pc' kv1 Hw).
  by destruct (put_loop pc' kv1 args sched) as [[??]?].
Qed.

(** The two ways a [Clerk.Put] to a private key ends. *)
Lemma private_put kv key value ver sched kv' execs err :
  wf kv → quiet key sched → 0 <= ver <= version_of kv key → version_of kv key < 2 ^ 64 - 1 →
  Clerk_Put kv key value ver sched = (kv', execs, Some err) →
  wf kv' ∧
  ((ver = version_of kv key ∧ accepted kv' (mkPutArgs key value ver) err) ∨
   (ver < version_of kv key ∧ refused kv kv' (mkPutArgs key value ver) err)).
Proof.
  intros Hwf Hq Hv Hb Hl. split.
  { pose proof (wf_put_loop PutFirst kv (mkPutArgs key value ver) sched Hwf) as Hw. unfold Clerk_Put in Hl. by rewrite Hl in Hw. }
  destruct (Put_guard kv (mkPutArgs key value ver)) as [e|] eqn:Hg.
  - right. apply guard_known in Hg as Hg'; [|done]. destruct Hg' as (-> & Hlt & _). split; [done|].
    by eapply put_loop_refused.
  - left. apply Put_guard_version in Hg as Hver. cbn [PutKey PutVersion] in Hver. split; [done|].
    eapply put_loop_accepted; try done. cbn [PutVersion]. lia.
Qed.

Lemma slot_version kv k v ver : slot kv k = (v, Some ver) → version_of kv k = ver.
Proof. intros [= _ E]. unfold version_of, lookup_zero. by rewrite E. Qed.

(** No reply is lost before the first one that arrives. *)
Fixpoint clean (sched : schedule) : bool :=
  match sched with
  | [] => false
  | (_, DropRequest) :: sched => clean sched
  | (_, DropReply) :: _ => false
  | (_, Deliver) :: _ => true
  end.

Lemma clean_put pc kv args sched :
  quiet (PutKey args) sched → Put_guard kv args = None → clean sched = true → (put_loop pc kv args sched).2 = Some OK.
Proof.
  intros Hq. revert pc kv. induction Hq as [|[others r] sched Ho Hq IH]; intros pc kv Hg Hc; [done|].
  rewrite put_loop_cons, put_attempt_live.
  assert (Hg1 : Put_guard (kv_run kv others) args = None) by (rewrite <- Hg; by apply guard_slot, slot_run).
  rewrite Hg1. destruct r; [|done|done]. specialize (IH PutRetry _ Hg1 Hc). cbv beta iota zeta.
  by destruct (put_loop PutRetry (kv_run kv others) args sched) as [[??]?].
Qed.

Definition delivered (sched : schedule) : Prop := Exists (λ a, a.2 = Deliver) sched.

(** One round of [PutAtLeastOnce] that goes round again. *)
Lemma PutAtLeastOnce_cons kv key value ver sched scheds :
  wf kv → quiet key sched → 0 <= ver <= version_of kv key → version_of kv key < 2 ^ 64 - 1 →
  let '(kv1, _, res) := Clerk_Put kv key value ver sched in
  match res with
  | None => PutAtLeastOnce kv key value ver (sched :: scheds) = (kv1, Ret None)
  | Some err =>
      wf kv1 ∧ (err = OK → ver = version_of kv key ∧ slot kv1 key = (Some value, Some (ver + 1))) ∧
      PutAtLeastOnce kv key value ver (sched :: scheds) =
        (if decide (err = OK) then (kv1, Ret (Some (ver + 1))) else PutAtLeastOnce kv1 key value (ver + 1) scheds) ∧
      version_of kv1 key = Z.max (version_of kv key) (ver + 1)
  end.
Proof.
  intros Hwf Hq Hv Hb. cbn [PutAtLeastOnce]. destruct (Clerk_Put kv key value ver sched) as [[kv1 ex] [err|]] eqn:E; [|done].
  destruct (private_put _ _ _ _ _ _ _ _ Hwf Hq Hv Hb E) as [Hwf1 [[Hver [Hs He]]|[Hlt [Hs He]]]]; split; try done.
  - cbn [PutKey PutValue PutVersion] in Hs. rewrite wrapU_small in Hs by lia. split; [done|].
    rewrite wrapU_small by lia. rewrite (slot_version _ _ _ _ Hs). split; [|lia]. by destruct He as [-> | ->].
  - split; [intros ->; by destruct He|]. rewrite wrapU_small by lia. rewrite (version_slot kv kv1) by done.
    split; [|lia]. by destruct He as [-> | ->].
Qed.

Lemma PutAtLeastOnce_returns key value scheds kv ver kv' r :
  wf kv → Forall (quiet key) scheds → 0 <= ver <= version_of kv key →
  version_of kv key + Z.of_nat (length scheds) < 2 ^ 64 - 1 →
  PutAtLeastOnce kv key value ver scheds = (kv', r) →
  ∃ o, r = Ret o ∧ (∀ ver', o = Some ver' → version_of kv key < ver' ∧ slot kv' key = (Some value, Some ver')).
Proof.
  intros Hwf Hq. revert kv ver Hwf. induction Hq as [|sched scheds Hq Hqs IH]; intros kv ver Hwf Hv Hb.
  { intros [= <- <-]. by exists None. }
  cbn [length] in Hb. pose proof (PutAtLeastOnce_cons kv key value ver sched scheds Hwf Hq Hv ltac:(lia)) as Hc.
  destruct (Clerk_Put kv key value ver sched) as [[kv1 ex] [err|]].
  - destruct Hc as (Hwf1 & Hok & -> & Hmax). case_decide as He.
    + intros [= <- <-]. destruct (Hok He). exists (Some (ver + 1)). split; [done|]. intros ? [= <-]. split; [lia | done].
    + intros Hr. destruct (IH kv1 (ver + 1) Hwf1 ltac:(lia) ltac:(lia) Hr) as (o & -> & Ho). exists o. split; [done|].
      intros ver' Hver'. destruct (Ho ver' Hver'). split; [lia | done].
  - rewrite Hc. intros [= <- <-]. by exists None.
Qed.

Lemma PutAtLeastOnce_live key value scheds kv ver j s :
  wf kv → Forall (quiet key) scheds → 0 <= ver <= version_of kv key →
  version_of kv key + Z.of_nat (length scheds) < 2 ^ 64 - 1 →
  scheds !! j = Some s → clean s = true → version_of kv key - ver <= Z.of_nat j → Forall delivered scheds →
  (PutAtLeastOnce kv key value ver scheds).2 ≠ Ret None.
Proof.
  intros Hwf Hq. revert kv ver j Hwf. induction Hq as [|sched scheds Hq Hqs IH]; intros kv ver j Hwf Hv Hb Hj Hs Hle Hd; [done|].
  apply Forall_cons in Hd as [Hd Hds]. cbn [length] in Hb.
  pose proof (PutAtLeastOnce_cons kv key value ver sched scheds Hwf Hq Hv ltac:(lia)) as Hc.
  pose proof (put_loop_returns PutFirst kv (mkPutArgs key value ver) sched Hd) as [err He].
  fold (Clerk_Put kv key value ver sched) in He.
  destruct (Clerk_Put kv key value ver sched) as [[kv1 ex] res] eqn:E. simpl in He. subst res.
  destruct Hc as (Hwf1 & _ & -> & Hmax). case_decide as He; [done|]. destruct j as [|j].
  - injection Hj as ->. destruct He. assert (Hg : Put_guard kv (mkPutArgs key value ver) = None).
    { destruct (Put_guard kv (mkPutArgs key value ver)) eqn:Hg; [|done]. apply guard_known in Hg; [lia | done]. }
    pose proof (clean_put PutFirst kv (mkPutArgs key value ver) s Hq Hg Hs) as Hok.
    unfold Clerk_Put in E. rewrite E in Hok. by injection Hok.
  - apply (IH _ _ j); try done; lia.
Qed.

Lemma Clerk_Get_private kv k sched kv' answer :
  quiet k sched → Clerk_Get kv k sched = (kv', Some answer) →
  answer = let r := Get kv (mkGetArgs k) GetReply0 in (GetValue r, GetVersion r, GetErr r).
Proof.
  intros Hq. revert kv. induction Hq as [|[others r] sched Ho Hq IH]; intros kv; [done|]. cbn [Clerk_Get].
  assert (E : Get (kv_run kv others) (mkGetArgs k) GetReply0 = Get kv (mkGetArgs k) GetReply0).
  { pose proof (slot_run kv others k Ho) as [= E1 E2]. unfold Get, lookup_zero. cbn [GetKey]. by rewrite E1, E2. }
  destruct r; cbn [call_get]; [rewrite <- E; apply IH..|]. rewrite E. by intros [= <- <-].
Qed.

Lemma CheckGet_private kv k sched kv' answer value ver :
  slot kv k = (Some value, Some ver) → quiet k sched → Clerk_Get kv k sched = (kv', Some answer) →
  CheckGet answer value ver = Ret tt.
Proof.
  intros Hs Hq Hg. rewrite (Clerk_Get_private _ _ _ _ _ Hq Hg). unfold Get, lookup_zero. cbn [GetKey].
  injection Hs as -> ->. simpl. by rewrite decide_False by naive_solver.
Qed.

(** [PutAtLeastOnce] on a key that no other client puts to, started with a
    version that is not ahead of the server's: it never stops the test; if it
    returns, the value was installed during the call and the server holds it
    with the returned version, so that [CheckGet] passes; and it does return if
    the network lets every call of the clerk return and, once the version has
    caught up, one call loses no reply. *)
Theorem PutAtLeastOnce_puts key value scheds kv ver kv' r :
  wf kv → Forall (quiet key) scheds → 0 <= ver <= version_of kv key →
  version_of kv key + Z.of_nat (length scheds) < 2 ^ 64 - 1 →
  PutAtLeastOnce kv key value ver scheds = (kv', r) →
  ∃ o, r = Ret o ∧
    (∀ ver', o = Some ver' → version_of kv key < ver' ∧ version_of kv' key = ver' ∧ data kv' !! key = Some value ∧
       ∀ sched kv'' answer, quiet key sched → Clerk_Get kv' key sched = (kv'', Some answer) → CheckGet answer value ver' = Ret tt) ∧
    (∀ j s, scheds !! j = Some s → clean s = true → version_of kv key - ver <= Z.of_nat j → Forall delivered scheds → o ≠ None).
Proof.
  intros Hwf Hq Hv Hb Hr. destruct (PutAtLeastOnce_returns key value scheds kv ver kv' r Hwf Hq Hv Hb Hr) as (o & -> & Ho).
  exists o. split; [done|]. split.
  - intros ver' Hver'. destruct (Ho ver' Hver') as [Hlt Hs]. split; [done|]. split; [by eapply slot_version|].
    split; [by injection Hs|]. intros sched kv'' answer. by apply CheckGet_private.
  - intros j s Hj Hs Hle Hd ->. pose proof (PutAtLeastOnce_live key value scheds kv ver j s Hwf Hq Hv Hb Hj Hs Hle Hd) as Hl.
    by rewrite Hr in Hl.
Qed.


(** ** Spreading keys *)

Lemma MakeKeys_NoDup n : NoDup (MakeKeys n).
Proof.
  unfold MakeKeys. apply NoDup_fmap_2; [|apply NoDup_seq]. intros i j E.
  apply (inj (String.append "k")), (inj pretty) in E. lia.
Qed.

Lemma length_MakeKeys n : length (MakeKeys n) = n.
Proof. unfold MakeKeys. by rewrite length_map, length_seq. Qed.

Definition all_quiet (ks : list string) (scheds : list schedule) : Prop := Forall (λ s, Forall (λ k, quiet k s) ks) scheds.

Lemma all_quiet_cons ks s scheds k : all_quiet ks (s :: scheds) → k ∈ ks → quiet k s.
Proof. intros [Hs _]%Forall_cons Hk. rewrite Forall_forall in Hs. by apply Hs. Qed.

Lemma Clerk_Put_frame kv k v ver sched k' : quiet k' sched → k ≠ k' → slot (Clerk_Put kv k v ver sched).1.1 k' = slot kv k'.
Proof. intros Hq Hne. by apply put_loop_frame. Qed.

Lemma spread_puts_frame ks kvs scheds kv kv' k :
  all_quiet ks scheds → k ∈ ks → k ∉ kvs.*1 → spread_puts kv kvs scheds = Some kv' → slot kv' k = slot kv k.
Proof.
  revert kv scheds. induction kvs as [|[k1 v1] kvs IH]; intros kv [|s scheds] Hq Hk Hn; [by intros [= <-]..|done|].
  apply not_elem_of_cons in Hn as [Hne Hn]. cbn [spread_puts]. pose proof (all_quiet_cons _ _ _ _ Hq Hk) as Hks.
  pose proof (Clerk_Put_frame kv k1 v1 0 s k Hks (not_eq_sym Hne)) as Hf.
  destruct (Clerk_Put kv k1 v1 0 s) as [[kv1 ex] [err|]]; [|done]. intros Hr. apply Forall_cons in Hq as [_ Hq].
  rewrite (IH kv1 scheds) by done. done.
Qed.

Lemma spread_puts_slots ks kvs scheds kv kv' :
  wf kv → all_quiet ks scheds → NoDup (kvs.*1) → kvs.*1 ⊆ ks → (∀ k, k ∈ kvs.*1 → slot kv k = (None, None)) →
  spread_puts kv kvs scheds = Some kv' → ∀ k v, (k, v) ∈ kvs → slot kv' k = (Some v, Some 1).
Proof.
  revert kv scheds. induction kvs as [|[k1 v1] kvs IH]; intros kv [|s scheds] Hwf Hq Hnd Hsub He Hr k v Hkv;
    [by apply not_elem_of_nil in Hkv..|done|].
  cbn [spread_puts] in Hr. destruct (Clerk_Put kv k1 v1 0 s) as [[kv1 ex] [err|]] eqn:E; [|done].
  apply NoDup_cons in Hnd as [Hn Hnd]. pose proof (He k1 (list_elem_of_here _ _)) as Hk1.
  assert (Hv1 : version_of kv k1 = 0) by (injection Hk1 as _ E2; unfold version_of, lookup_zero; by rewrite E2).
  assert (Hin1 : k1 ∈ ks) by (apply Hsub; left). pose proof (all_quiet_cons _ _ _ _ Hq Hin1) as Hq1.
  destruct (private_put kv k1 v1 0 s kv1 ex err Hwf Hq1 ltac:(lia) ltac:(lia) E) as [Hwf1 [[_ [Ha _]]|[? _]]]; [|lia].
  cbn [PutKey PutValue PutVersion] in Ha. change (wrapU 64 (0 + 1)) with 1 in Ha.
  apply Forall_cons in Hq as Hqs. destruct Hqs as [Hs Hqs].
  apply elem_of_cons in Hkv as [[= -> ->]|Hkv].
  - by rewrite (spread_puts_frame ks kvs scheds kv1 kv' k1).
  - eapply (IH kv1 scheds); try done; [intros x Hx; apply Hsub; by right|]. intros k' Hk'.
    assert (Hne : k1 ≠ k') by (by intros ->). rewrite <- (He k') by (by right).
    pose proof (Clerk_Put_frame kv k1 v1 0 s k') as Hf. rewrite E in Hf. apply Hf; [|done].
    apply (all_quiet_cons _ _ _ _ Hq). apply Hsub. by right.
Qed.

Lemma Clerk_Get_slot kv k sched k' : quiet k' sched → slot (Clerk_Get kv k sched).1 k' = slot kv k'.
Proof.
  intros Hq. revert kv. induction Hq as [|[others r] sched Ho Hq IH]; intros kv; [done|]. cbn [Clerk_Get].
  rewrite <- (slot_run kv others k' Ho). destruct r; cbn [call_get]; [apply IH..|done].
Qed.

Lemma spread_gets_pass ks kvs scheds kv r :
  all_quiet ks scheds → kvs.*1 ⊆ ks → (∀ k v, (k, v) ∈ kvs → slot kv k = (Some v, Some 1)) →
  spread_gets kv kvs scheds = Some r → ∃ kv', r = Ret kv' ∧ ∀ k, k ∈ ks → slot kv' k = slot kv k.
Proof.
  revert kv scheds. induction kvs as [|[k v] kvs IH]; intros kv [|s scheds] Hq Hsub He; cbn [spread_gets];
    [by intros [= <-]; exists kv..|done|].
  pose proof (all_quiet_cons _ _ _ k Hq ltac:(apply Hsub; left)) as Hk.
  assert (Hf : ∀ k', k' ∈ ks → slot (Clerk_Get kv k s).1 k' = slot kv k')
    by (intros k' Hk'; by apply Clerk_Get_slot, (all_quiet_cons _ _ _ _ Hq)).
  destruct (Clerk_Get kv k s) as [kv1 [answer|]] eqn:E; [|done]. simpl in Hf.
  rewrite (CheckGet_private kv k s kv1 answer v 1) by (try done; apply He; left).
  apply Forall_cons in Hq as [_ Hq]. intros Hr. apply IH in Hr; [|done|intros x Hx; apply Hsub; by right|].
  - destruct Hr as (kv' & -> & Hs). exists kv'. split; [done|]. intros k' Hk'. rewrite Hs by done. by apply Hf.
  - intros k' v' Hkv. rewrite Hf; [apply He; by right|]. apply Hsub. right. by apply (list_elem_of_fmap_2 fst _ (k', v')).
Qed.

Lemma spread_puts_returns kvs scheds kv : (length kvs <= length scheds)%nat → Forall delivered scheds → is_Some (spread_puts kv kvs scheds).
Proof.
  revert kv scheds. induction kvs as [|[k v] kvs IH]; intros kv [|s scheds] Hl Hd; simpl in *; try lia; [by eexists..|].
  apply Forall_cons in Hd as [Hs Hd]. pose proof (put_loop_returns PutFirst kv (mkPutArgs k v 0) s Hs) as [err He].
  fold (Clerk_Put kv k v 0 s) in He. destruct (Clerk_Put kv k v 0 s) as [[kv1 ex] res]. simpl in He. subst res.
  apply IH; [lia | done].
Qed.

Lemma Clerk_Get_returns kv k s : delivered s → is_Some (Clerk_Get kv k s).2.
Proof.
  revert kv. induction s as [|[others r] s IH]; intros kv Hd; [by inversion Hd|]. cbn [Clerk_Get].
  destruct r; cbn [call_get]; [| |by eexists]; apply IH; inversion Hd; naive_solver.
Qed.

Lemma spread_gets_returns kvs scheds kv : (length kvs <= length scheds)%nat → Forall delivered scheds → is_Some (spread_gets kv kvs scheds).
Proof.
  revert kv scheds. induction kvs as [|[k v] kvs IH]; intros kv [|s scheds] Hl Hd; simpl in *; try lia; [by eexists..|].
  apply Forall_cons in Hd as [Hs Hd]. pose proof (Clerk_Get_returns kv k s Hs) as [answer Ha].
  destruct (Clerk_Get kv k s) as [kv1 res]. simpl in Ha. subst res.
  destruct (CheckGet answer v 1); [apply IH; [lia|done]|by eexists..].
Qed.

(** [SpreadPuts] on a server that has none of its keys, nobody else putting
    to them: on any network its checks pass, every key [k0], [k1], ... holds its
    value at version one, and it returns once every clerk call gets an answer. *)
Theorem SpreadPuts_pass kv va puts gets :
  wf kv → all_quiet (MakeKeys (length va)) (puts ++ gets) →
  (∀ k, k ∈ MakeKeys (length va) → slot kv k = (None, None)) →
  (∀ r, SpreadPutsSize kv va puts gets = Some r →
     ∃ kv', r = Ret (kv', (MakeKeys (length va), va)) ∧
       ∀ i k v, MakeKeys (length va) !! i = Some k → va !! i = Some v → data kv' !! k = Some v ∧ version_of kv' k = 1) ∧
  ((length va <= length puts)%nat → (length va <= length gets)%nat → Forall delivered (puts ++ gets) →
     SpreadPutsSize kv va puts gets ≠ None).
Proof.
  intros Hwf [Hqp Hqg]%Forall_app He. set (ka := MakeKeys (length va)) in *.
  assert (Hlen : length ka = length va) by apply length_MakeKeys.
  assert (Hfst : (zip ka va).*1 = ka) by (rewrite fst_zip; [done | lia]). split.
  - intros r (kv1 & Hp & (r' & Hg & Hr)%bind_Some)%bind_Some. injection Hr as <-.
    pose proof (spread_puts_slots ka (zip ka va) puts kv kv1 Hwf Hqp) as Hs. rewrite Hfst in Hs.
    specialize (Hs (MakeKeys_NoDup _) ltac:(done) He Hp).
    destruct (spread_gets_pass ka (zip ka va) gets kv1 r' Hqg ltac:(by rewrite Hfst) Hs Hg) as (kv' & -> & Hf).
    exists kv'. split; [done|]. intros i k v Hk Hv.
    assert (Hkv : slot kv' k = (Some v, Some 1)).
    { rewrite Hf by (by eapply list_elem_of_lookup_2). apply Hs. eapply list_elem_of_lookup_2.
      apply lookup_zip_Some. split; [exact Hk | exact Hv]. }
    split; [by injection Hkv | by eapply slot_version].
  - intros Hlp Hlg [Hdp Hdg]%Forall_app. unfold SpreadPutsSize. fold ka.
    assert (Hz : length (zip ka va) = length va) by (rewrite length_zip_with; lia).
    destruct (spread_puts_returns (zip ka va) puts kv) as [kv1 ->]; [lia|done|]. cbn [mbind option_bind].
    by destruct (spread_gets_returns (zip ka va) gets kv1) as [r ->]; [lia|done|].
Qed.

(** ** Witnesses *)

Module PutEx.
Definition next (w : world) (l : nat * choice) : option world :=
  if decide (ch_net l.2 = Deliver) then spawn_do false ["k"] w l.1 l.2 else None.
Lemma puts_next_step w l w' : next w l = Some w' → spawn_step false ["k"] true w l w'.
Proof. unfold next. case_decide; [|done]. intros Hd. by split. Qed.

Definition go (i : nat) : nat * choice := (i, mkChoice false 0 Deliver).
Definition stop (i : nat) : nat * choice := (i, mkChoice true 0 Deliver).
(** Both clients put at version 0; the second one goes round. *)
Definition labels : list (nat * choice) :=
  [go 0; go 1; go 0; go 1; go 0; go 1; go 1; go 1; stop 0; stop 1].
Definition final : world := default (spawn ["k"] 2) (run next (spawn ["k"] 2) labels).
End PutEx.

Lemma concurrent_puts_pass_witness :
  results PutEx.final = Some [mkRes 1 0; mkRes 1 0] ∧
  ∃ answer res, Clerk_Get (srv PutEx.final) "k" [([], Deliver)] = (srv PutEx.final, Some answer) ∧
    CheckPutConcurrent answer [mkRes 1 0; mkRes 1 0] (mkRes 0 0) true = Ret res ∧ Nmaybe res = 0.
Proof.
  assert (H1 : exec (spawn_step false ["k"] true) (spawn ["k"] 2) PutEx.labels PutEx.final)
    by (apply (run_exec _ PutEx.next); [apply PutEx.puts_next_step | vm_compute; reflexivity]).
  assert (H2 : results PutEx.final = Some [mkRes 1 0; mkRes 1 0]) by (vm_compute; reflexivity).
  split; [exact H2|].
  assert (H3 : Clerk_Get (srv PutEx.final) "k" [([], Deliver)] =
    (srv PutEx.final, Some (Marshal_EntryV (1, 1), 2, OK))) by (vm_compute; reflexivity).
  assert (H4 : Z.of_nat 2 <= 2 ^ 63 ∧ Z.of_nat (length PutEx.labels) < 2 ^ 63) by (split; vm_compute; congruence).
  destruct (concurrent_puts_pass false true "k" 2 PutEx.labels PutEx.final (proj1 H4) (proj2 H4) H1) as [_ H].
  destruct (H _ [([], Deliver)] (srv PutEx.final) (Marshal_EntryV (1, 1), 2, OK) H2) as (res & Hr & _ & Hm).
  - constructor. vm_compute. reflexivity.
  - by constructor.
  - exact H3.
  - exists (Marshal_EntryV (1, 1), 2, OK), res. split; [exact H3|]. split; [exact Hr | by apply Hm].
Defined.

(** The first put's reply is lost: it is repeated at version 1. *)
Lemma PutAtLeastOnce_puts_witness :
  let scheds := [[([], DropReply); ([], Deliver)]; [([], Deliver)]] in
  ∃ kv', PutAtLeastOnce MakeKVServer "1" "13" 0 scheds = (kv', Ret (Some 2)) ∧ data kv' !! "1" = Some "13" ∧ version_of kv' "1" = 2.
Proof.
  intros scheds. set (kv' := (PutAtLeastOnce MakeKVServer "1" "13" 0 scheds).1).
  assert (E : PutAtLeastOnce MakeKVServer "1" "13" 0 scheds = (kv', Ret (Some 2))) by (vm_compute; reflexivity).
  assert (Hq : Forall (quiet "1") scheds) by (apply (bool_decide_unpack _); vm_compute; exact I).
  assert (Hv : 0 <= 0 <= version_of MakeKVServer "1") by (split; vm_compute; congruence).
  assert (Hb : version_of MakeKVServer "1" + Z.of_nat (length scheds) < 2 ^ 64 - 1) by (vm_compute; reflexivity).
  destruct (PutAtLeastOnce_puts "1" "13" scheds MakeKVServer 0 kv' _ wf_Make Hq Hv Hb E) as (o & Ho & H & _).
  injection Ho as <-. destruct (H 2 eq_refl) as (_ & H1 & H2 & _). exists kv'.
  split; [exact E|]. split; [exact H2 | exact H1].
Defined.

Lemma SpreadPuts_pass_witness :
  SpreadPutsSize MakeKVServer ["a"; "b"] [[([], DropReply); ([], Deliver)]; [([], Deliver)]]
    [[([], Deliver)]; [([], DropRequest); ([], Deliver)]] ≠ None.
Proof.
  assert (Hq : all_quiet (MakeKeys 2) ([[([], DropReply); ([], Deliver)]; [([], Deliver)]] ++
    [[([], Deliver)]; [([], DropRequest); ([], Deliver)]])) by (repeat constructor).
  assert (He : ∀ k, k ∈ MakeKeys 2 → slot MakeKVServer k = (None, None))
    by (intros k _; unfold slot; simpl; by rewrite !lookup_empty).
  apply (SpreadPuts_pass MakeKVServer ["a"; "b"] [[([], DropReply); ([], Deliver)]; [([], Deliver)]]
    [[([], Deliver)]; [([], DropRequest); ([], Deliver)]] wf_Make Hq He); [simpl; lia..|].
  apply (bool_decide_unpack _). vm_compute. exact I.
Defined.
