(* ===== verification/KvAppend.v ===== *)
(** * Concurrent appends: [OneClientAppend] and [CheckAppends] of [kvtest1/kvtest.go]

    Clients append pairs of their number and a counter to one key: each reads
    the list, and puts it back with its own pair at the end, with the version it
    read. Clerks retry over the lossy network, one attempt at a time. The check
    at the end accounts for every pair. *)

From S2P Require Import Prelude Rpc KVServer KVClerk Utf8 Json JsonInt KvTest.

Open Scope string_scope.
Open Scope list_scope.
Open Scope Z_scope.

(** [type entry struct { Id int; N int }] *)
Abbreviation entry := (Z * Z)%type (only parsing).
Definition N_field : field := int_field "N".

Definition Marshal_entries (es : list entry) : string := encode_list Id_field N_field es.
Definition Unmarshal_entries (s : string) : option (list entry) := unmarshal_list Id_field N_field s.

(** ** [OneClientAppend] *)

Inductive app_pc :=
| ASelect                                                   (* at the [select] *)
| AGet                                                      (* in [ck.Get] *)
| APut (es : list entry) (ver : Tversion) (p : put_pc)      (* in [ck.Put] *)
| AFinished                                                 (* returned on [done] *)
| AStopped.                                                 (* [Fatalf] *)

#[export] Instance app_pc_eq_dec : EqDecision app_pc.
Proof. solve_decision. Defined.

(** [i] and the two counters. *)
Record appender := mkAppender { a_i : Z; a_nok : Z; a_nmay : Z; a_pc : app_pc }.

Definition goto (pc : app_pc) (c : appender) : appender := mkAppender (a_i c) (a_nok c) (a_nmay c) pc.

(** What the inner loop does with the error of [PutJson]. *)
Definition append_error (err : Err) (c : appender) : appender :=
  if decide (err = OK) then mkAppender (wrapS 64 (a_i c + 1)) (wrapS 64 (a_nok c + 1)) (a_nmay c) ASelect
  else if decide (err = ErrMaybe) then mkAppender (wrapS 64 (a_i c + 1)) (a_nok c) (wrapS 64 (a_nmay c + 1)) ASelect
  else goto AGet c.

(** One step of client [me]: the [select], or one attempt of a call. *)
Definition OneClientAppend_step (me : Z) (ch : choice) (kv : KVServer) (c : appender) : KVServer * appender :=
  match a_pc c with
  | ASelect => (kv, goto (if ch_done ch then AFinished else AGet) c)
  | AGet =>
      match call_get (ch_net ch) kv (mkGetArgs "k") with
      | None => (kv, c)
      | Some reply =>
          match GetJson Unmarshal_entries (GetValue reply, GetVersion reply, GetErr reply) with
          | Ret (es, ver) => (kv, goto (APut (es ++ [(me, a_i c)]) ver PutFirst) c)
          | _ => (kv, goto AStopped c)
          end
      end
  | APut es ver p =>
      let '(kv', _, next) := put_attempt p (ch_net ch) kv (mkPutArgs "k" (Marshal_entries es) ver) in
      match next with
      | inl p' => (kv', goto (APut es ver p') c)
      | inr err => (kv', append_error err c)
      end
  | AFinished | AStopped => (kv, c)
  end.

Definition OneClientAppend_start : appender := mkAppender 0 0 0 ASelect.

Record appends := mkAppends { asrv : KVServer; appenders : list appender }.

(** The key starts with an empty list, put at version zero. *)
Definition appends_init (nclnt : nat) : appends :=
  mkAppends (Put MakeKVServer (mkPutArgs "k" (Marshal_entries []) 0) PutReply0).1 (replicate nclnt OneClientAppend_start).

Definition appends_do (w : appends) (i : nat) (ch : choice) : option appends :=
  c ← appenders w !! i;
  let '(kv, c') := OneClientAppend_step (Z.of_nat i) ch (asrv w) c in
  Some (mkAppends kv (<[i := c']> (appenders w))).

Definition appends_step (w : appends) (l : nat * choice) (w' : appends) : Prop := appends_do w l.1 l.2 = Some w'.

Definition append_results (w : appends) : option (list ClntRes) :=
  if decide (Forall (λ c, a_pc c = AFinished) (appenders w))
  then Some ((λ c, mkRes (a_nok c) (a_nmay c)) <$> appenders w) else None.

(** ** [CheckAppends] *)

(** The loop over the entries, on the maps [expect] and [skipped]. *)
Fixpoint expect_loop (es : list entry) (expect skipped : gmap Z Z) : outcome (gmap Z Z * gmap Z Z) :=
  match es with
  | [] => Ret (expect, skipped)
  | (id, n) :: es =>
      let x := lookup_zero 0 id expect in
      if decide (x > n) then Fatal
      else if decide (x = n) then expect_loop es (<[id := wrapS 64 (x + 1)]> expect) skipped
      else
        expect_loop es (<[id := wrapS 64 (n + 1)]> expect)
          (<[id := wrapS 64 (lookup_zero 0 id skipped + wrapS 64 (n - x))]> skipped)
  end.

Definition zero_map (n : nat) : gmap Z Z := fold_left (λ m i, <[i := 0]> m) (seqZ 0 (Z.of_nat n)) ∅.

(** The loop over the clients; [order] is how the map is ranged over. *)
Definition check_client (rs : list ClntRes) (skipped : gmap Z Z) (cn : Z * Z) (_ : unit) : outcome unit :=
  let '(c, n) := cn in
  r ← index rs c;
  if decide (lookup_zero 0 c skipped > Nmaybe r) then Fatal
  else if decide (n > wrapS 64 (Nok r + Nmaybe r)) then Fatal
  else Ret tt.

Definition CheckAppends (order : gmap Z Z → list (Z * Z)) (es : list entry) (nclnt : nat) (rs : list ClntRes) (ver : Tversion) :
    outcome unit :=
  '(expect, skipped) ← expect_loop es (zero_map nclnt) (zero_map nclnt);
  if decide (wrapS 64 (Z.of_nat (length es) + 1) ≠ wrapS 64 ver) then Fatal
  else for_each (check_client rs skipped) (order expect) tt.

(** ** The entries of one client *)

Definition of_client (c : Z) (es : list entry) : list Z := snd <$> filter (λ e, e.1 = c) es.

(** Strictly increasing from [lo] on, and the least value that may follow. *)
Fixpoint increasing (lo : Z) (l : list Z) : Prop :=
  match l with [] => True | x :: l => lo <= x ∧ increasing (x + 1) l end.
Fixpoint following (lo : Z) (l : list Z) : Z := match l with [] => lo | x :: l => following (x + 1) l end.

Lemma of_client_app c es es' : of_client c (es ++ es') = of_client c es ++ of_client c es'.
Proof. unfold of_client. by rewrite filter_app, fmap_app. Qed.

Lemma of_client_cons c id n es : of_client c ((id, n) :: es) = if decide (id = c) then n :: of_client c es else of_client c es.
Proof. unfold of_client. rewrite filter_cons. simpl. by case_decide. Qed.

Lemma increasing_snoc lo l x : increasing lo (l ++ [x]) ↔ increasing lo l ∧ following lo l <= x.
Proof. revert lo. induction l as [|y l IH]; intros lo; simpl; [tauto|]. rewrite IH. tauto. Qed.

Lemma following_snoc lo l x : following lo (l ++ [x]) = x + 1.
Proof. revert lo. induction l as [|y l IH]; intros lo; simpl; [done|]. apply IH. Qed.

Lemma following_le lo l : increasing lo l → lo + Z.of_nat (length l) <= following lo l.
Proof.
  revert lo. induction l as [|y l IH]; intros lo; simpl; [lia|]. intros [? Hl]. specialize (IH _ Hl). lia.
Qed.

Lemma increasing_member lo l x : increasing lo l → x ∈ l → lo <= x < following lo l.
Proof.
  revert lo. induction l as [|y l IH]; intros lo Hi; [intros Hx; by apply not_elem_of_nil in Hx|].
  destruct Hi as [Hy Hi]. simpl. pose proof (following_le _ _ Hi).
  intros [->|Hx]%elem_of_cons; [lia|]. specialize (IH _ Hi Hx). lia.
Qed.

(** ** The check on increasing entries *)

Section check.
Context (B : Z).
Hypothesis small : 0 <= B < 2 ^ 62.

(** The maps stay below [B] while every entry is. *)
Lemma expect_loop_spec es E S :
  (∀ c, 0 <= lookup_zero 0 c E <= B) → (∀ c, 0 <= lookup_zero 0 c S <= lookup_zero 0 c E) →
  (∀ c, increasing (lookup_zero 0 c E) (of_client c es)) → Forall (λ e, e.2 < B) es →
  ∃ E' S', expect_loop es E S = Ret (E', S') ∧ dom E' ⊆ dom E ∪ list_to_set es.*1 ∧
    ∀ c, lookup_zero 0 c E' = following (lookup_zero 0 c E) (of_client c es) ∧
      lookup_zero 0 c S' = lookup_zero 0 c S + (lookup_zero 0 c E' - lookup_zero 0 c E - Z.of_nat (length (of_client c es))).
Proof.
  revert E S. induction es as [|[id n] es IH]; intros E S HE HS Hi Hb.
  { exists E, S. split; [done|]. split; [set_solver|]. intros c. simpl. lia. }
  apply Forall_cons in Hb as [Hn Hb]. simpl in Hn. cbn [expect_loop]. set (x := lookup_zero 0 id E).
  pose proof (HE id) as HEid. pose proof (HS id) as HSid. fold x in HEid, HSid.
  pose proof (Hi id) as Hid. rewrite of_client_cons, decide_True in Hid by done. destruct Hid as [Hx Hid]. fold x in Hx.
  assert (Hnext : ∀ S2, (∀ c, lookup_zero 0 c S2 = if decide (c = id) then lookup_zero 0 c S + (n - x) else lookup_zero 0 c S) →
    ∃ E' S', expect_loop es (<[id := n + 1]> E) S2 = Ret (E', S') ∧ dom E' ⊆ dom E ∪ list_to_set ((id, n) :: es).*1 ∧
    ∀ c, lookup_zero 0 c E' = following (lookup_zero 0 c E) (of_client c ((id, n) :: es)) ∧
      lookup_zero 0 c S' = lookup_zero 0 c S +
        (lookup_zero 0 c E' - lookup_zero 0 c E - Z.of_nat (length (of_client c ((id, n) :: es))))).
  { intros S2 HS2. destruct (IH (<[id := n + 1]> E) S2) as (E' & S' & Hl & Hd & Hc).
    - intros c. rewrite lookup_zero_insert. case_decide; [lia | apply HE].
    - intros c. rewrite HS2, lookup_zero_insert. case_decide; [subst; lia | apply HS].
    - intros c. rewrite lookup_zero_insert. specialize (Hi c). rewrite of_client_cons in Hi.
      destruct (decide (c = id)) as [->|]; [done|]. by rewrite decide_False in Hi by congruence.
    - done.
    - exists E', S'. split; [done|]. split; [rewrite dom_insert in Hd; set_solver|]. intros c. destruct (Hc c) as [H1 H2].
      rewrite lookup_zero_insert in H1, H2. rewrite HS2 in H2. rewrite of_client_cons.
      destruct (decide (c = id)) as [->|Hne]; [rewrite decide_True by done | by rewrite decide_False by congruence].
      fold x. cbn [following length]. split; [done|]. lia. }
  rewrite decide_False by lia. case_decide as Hxn.
  - rewrite wrapS_small, Hxn by lia. apply Hnext. intros c. case_decide; [lia | done].
  - rewrite !wrapS_small by (rewrite ?wrapS_small; lia). apply Hnext. intros c. rewrite lookup_zero_insert.
    by case_decide; subst.
Qed.

Lemma zero_map_lookup n c : lookup_zero 0 c (zero_map n) = 0.
Proof.
  unfold zero_map. assert (H : lookup_zero 0 c (∅ : gmap Z Z) = 0) by apply lookup_zero_empty.
  revert H. generalize (∅ : gmap Z Z). induction (seqZ 0 (Z.of_nat n)) as [|i l IH]; intros m Hm; [done|].
  apply IH. rewrite lookup_zero_insert. by case_decide.
Qed.

Lemma zero_map_dom n c : c ∈ dom (zero_map n) → 0 <= c < Z.of_nat n.
Proof.
  rewrite elem_of_dom. unfold zero_map. intros Hc. rewrite <- (Z.add_0_l (Z.of_nat n)). apply elem_of_seqZ.
  assert (Hg : ∀ l (m : gmap Z Z), is_Some (fold_left (λ m i, <[i := 0]> m) l m !! c) → c ∈ l ∨ is_Some (m !! c)).
  { clear. induction l as [|i l IH]; intros m Hm; [by right|]. destruct (IH _ Hm) as [?|[->|[_ ?]]%lookup_insert_is_Some].
    - left. by right.
    - left. by left.
    - by right. }
  destruct (Hg _ _ Hc) as [?|[? H]]; [done|]. by rewrite lookup_empty in H.
Qed.

(** The pairs are accounted for: every client's are increasing, not more than
    its [ok] and doubtful appends can be missing, and each [ok] one is there. *)
Definition accounted (c : Z) (r : ClntRes) (es : list entry) : Prop :=
  0 <= Nok r ∧ 0 <= Nmaybe r ∧ Nok r + Nmaybe r <= B ∧ increasing 0 (of_client c es) ∧
  following 0 (of_client c es) <= Nok r + Nmaybe r ∧ Nok r <= Z.of_nat (length (of_client c es)).

Lemma CheckAppends_passes order es rs ver :
  (∀ m, order m ≡ₚ map_to_list m) → (∀ c r, rs !! c = Some r → accounted (Z.of_nat c) r es) →
  Forall (λ e, 0 <= e.1 < Z.of_nat (length rs)) es → ver = Z.of_nat (length es) + 1 →
  CheckAppends order es (length rs) rs ver = Ret tt.
Proof.
  intros Ho Hacc Hid ->.
  assert (Hget : ∀ c, 0 <= c < Z.of_nat (length rs) → ∃ r, index rs c = Ret r ∧ accounted c r es).
  { intros c Hc. destruct (index_in_range rs c Hc) as (r & Hr & Hl). exists r. split; [done|].
    specialize (Hacc _ _ Hl). by rewrite Z2Nat.id in Hacc by lia. }
  assert (Hinc : ∀ c, increasing 0 (of_client c es)).
  { intros c. destruct (of_client c es) eqn:E; [done|]. rewrite <- E.
    assert (Hc : ∃ e, e ∈ es ∧ e.1 = c).
    { assert (Hz : z ∈ of_client c es) by (rewrite E; left). apply list_elem_of_fmap in Hz as (e & _ & [? ?]%list_elem_of_filter). eauto. }
    destruct Hc as (e & He & <-). rewrite Forall_forall in Hid. destruct (Hget _ (Hid e He)) as (r & _ & Ha). apply Ha. }
  assert (Hb : Forall (λ e, e.2 < B) es).
  { apply Forall_forall. intros e He. rewrite Forall_forall in Hid. destruct (Hget _ (Hid e He)) as (r & _ & Ha).
    assert (Hm : e.2 ∈ of_client e.1 es) by (apply list_elem_of_fmap; exists e; split; [done|]; by apply list_elem_of_filter).
    pose proof (increasing_member _ _ _ (Hinc e.1) Hm). unfold accounted in Ha. lia. }
  destruct (expect_loop_spec es (zero_map (length rs)) (zero_map (length rs))) as (E & S & Hl & Hd & Hc).
  - intros c. rewrite zero_map_lookup. lia.
  - intros c. rewrite zero_map_lookup. lia.
  - intros c. rewrite zero_map_lookup. apply Hinc.
  - done.
  - unfold CheckAppends. rewrite Hl. cbn [mbind outcome_bind]. rewrite decide_False by tauto.
    assert (Hall : Forall (λ cn, check_client rs S cn tt = Ret tt) (order E)).
    { apply Forall_forall. intros [c n] Hcn. rewrite Ho in Hcn. apply elem_of_map_to_list in Hcn.
      assert (Hr : 0 <= c < Z.of_nat (length rs)).
      { assert (Hdc : c ∈ dom E) by (by apply elem_of_dom_2 in Hcn). apply Hd, elem_of_union in Hdc as [Hz|Hz].
        - by apply zero_map_dom in Hz.
        - apply elem_of_list_to_set, list_elem_of_fmap in Hz as (e & -> & He). rewrite Forall_forall in Hid. by apply Hid. }
      destruct (Hget c Hr) as (r & Hi & Ha). destruct (Hc c) as [H1 H2]. rewrite !zero_map_lookup in H1, H2.
      assert (En : lookup_zero 0 c E = n) by (unfold lookup_zero; by rewrite Hcn). rewrite En in H1, H2.
      unfold check_client. rewrite Hi. cbn [mbind outcome_bind]. unfold accounted in Ha.
      rewrite decide_False by lia. by rewrite decide_False by (rewrite wrapS_small; lia). }
    clear Hl. induction (order E) as [|cn l IH]; [done|]. apply Forall_cons in Hall as [H1 H2]. cbn [for_each].
    rewrite H1. by apply IH.
Qed.
End check.

(** ** The system *)

Section system.

Definition entries_ok (es : list entry) : Prop := Forall (fits Id_field N_field) es.

Lemma Unmarshal_Marshal_entries es : entries_ok es → Unmarshal_entries (Marshal_entries es) = Some es.
Proof.
  intros He. apply unmarshal_encode_list; [|done]. split; [|split; [|done]];
    unfold valid_utf8, runes; simpl; repeat (constructor; [by apply ascii_chunk|]); constructor.
Qed.

(** The key holds the list [es], put [length es + 1] times. *)
Record holds (kv : KVServer) (es : list entry) : Prop := {
  ho_data : data kv !! "k" = Some (Marshal_entries es);
  ho_version : dataVersion kv !! "k" = Some (Z.of_nat (length es) + 1);
  ho_entries : entries_ok es
}.

(** What a client has appended: [here] if the pair of its current round is in. *)
Definition appended (me : Z) (es : list entry) (c : appender) (here : bool) : Prop :=
  let l := of_client me es in
  0 <= a_nok c ∧ 0 <= a_nmay c ∧ a_i c = a_nok c + a_nmay c ∧ increasing 0 l ∧
  if here then following 0 l = a_i c + 1 ∧ a_nok c + 1 <= Z.of_nat (length l)
  else following 0 l <= a_i c ∧ a_nok c <= Z.of_nat (length l).

Definition appender_ok (me : Z) (es : list entry) (c : appender) : Prop :=
  match a_pc c with
  | ASelect | AGet | AFinished => appended me es c false
  | APut es' ver p =>
      0 <= ver <= Z.of_nat (length es) + 1 ∧
      ((appended me es c false ∧ (ver = Z.of_nat (length es) + 1 → es' = es ++ [(me, a_i c)])) ∨
       (p = PutRetry ∧ ver < Z.of_nat (length es) + 1 ∧ appended me es c true))
  | AStopped => False
  end.

(** What a step of client [me] does to the list. *)
Definition append_effect (me : Z) (kv kv' : KVServer) (es es' : list entry) : Prop :=
  (kv' = kv ∧ es' = es) ∨ (holds kv' es' ∧ ∃ n, es' = es ++ [(me, n)]).

Lemma goto_ok me es c pc :
  appended me es (goto pc c) false ↔ appended me es c false.
Proof. done. Qed.

Lemma append_error_ok me es c err (here : bool) :
  a_i c < 2 ^ 62 → appended me es c here →
  (err = OK ∧ here = true) ∨ err = ErrMaybe ∨ (err = ErrVersion ∧ here = false) →
  appender_ok me es (append_error err c) ∧ a_i (append_error err c) <= a_i c + 1.
Proof.
  intros Hi (Hok & Hmay & Hsum & Hinc & Hh) He. unfold append_error, appender_ok.
  destruct He as [[-> ->]|[-> |[-> ->]]]; simpl; unfold appended; simpl;
    rewrite ?wrapS_small by lia; try destruct here; (split; [split_and!|]); try done; lia.
Qed.

Lemma holds_install kv es me n :
  holds kv es → fits Id_field N_field (me, n) → Z.of_nat (length es) + 2 < 2 ^ 64 →
  holds (Put_install kv (mkPutArgs "k" (Marshal_entries (es ++ [(me, n)])) (Z.of_nat (length es) + 1))) (es ++ [(me, n)]).
Proof.
  intros [Hd Hv He] Hf Hb. split; cbn [data dataVersion Put_install PutKey PutValue].
  - by rewrite lookup_insert_eq.
  - rewrite lookup_insert_eq. unfold lookup_zero. rewrite Hv. simpl. rewrite wrapU_small by lia.
    rewrite length_app. simpl. f_equal. lia.
  - apply Forall_app. by split; [|constructor].
Qed.

Lemma appended_now me es c : appended me es c false → appended me (es ++ [(me, a_i c)]) c true.
Proof.
  intros (? & ? & ? & Hi & Hf & Hl). unfold appended. rewrite of_client_app, of_client_cons, decide_True by done.
  rewrite increasing_snoc, following_snoc, length_app. simpl. split_and!; try done; lia.
Qed.

Lemma appended_other me es c here me' n : me' ≠ me → appended me es c here → appended me (es ++ [(me', n)]) c here.
Proof. intros Hne. unfold appended. rewrite of_client_app, of_client_cons, decide_False by done. by rewrite app_nil_r. Qed.

Lemma appender_other me es c me' n : me' ≠ me → appender_ok me es c → appender_ok me (es ++ [(me', n)]) c.
Proof.
  intros Hne. unfold appender_ok. destruct (a_pc c); try (by apply appended_other); [|done].
  rewrite length_app. simpl. intros [Hv Hc]. split; [lia|]. destruct Hc as [[Ha _]|(-> & Hlt & Ha)].
  - left. split; [by apply appended_other | lia].
  - right. split; [done|]. split; [lia | by apply appended_other].
Qed.

(** A read answers the current list. *)
Lemma get_holds kv es : holds kv es →
  Get kv (mkGetArgs "k") GetReply0 = mkGetReply (Marshal_entries es) (Z.of_nat (length es) + 1) OK ∧
  GetJson Unmarshal_entries (Marshal_entries es, Z.of_nat (length es) + 1, OK) = Ret (es, Z.of_nat (length es) + 1).
Proof.
  intros [Hd Hv He]. split.
  - unfold Get, lookup_zero. cbn [GetKey]. by rewrite Hd, Hv.
  - unfold GetJson. rewrite decide_True by done. by rewrite Unmarshal_Marshal_entries.
Qed.

Lemma guard_holds kv es v ver : holds kv es →
  Put_guard kv (mkPutArgs "k" v ver) = if decide (ver = Z.of_nat (length es) + 1) then None else Some ErrVersion.
Proof.
  intros [_ Hv _]. unfold Put_guard. cbn [PutKey PutVersion]. rewrite Hv. repeat case_decide; try done; congruence.
Qed.

Lemma fits_entry me n : 0 <= me < 2 ^ 63 → 0 <= n < 2 ^ 63 → fits Id_field N_field (me, n).
Proof. intros Hm Hn. unfold fits, in_field. simpl. lia. Qed.

(** One attempt of a put by client [me]. *)
Lemma append_put_ok me ch kv es c es' ver p kv' c' :
  0 <= me < 2 ^ 63 → Z.of_nat (length es) + 2 < 2 ^ 62 → 0 <= a_i c < 2 ^ 62 → holds kv es →
  a_pc c = APut es' ver p → appender_ok me es c → OneClientAppend_step me ch kv c = (kv', c') →
  ∃ es2, append_effect me kv kv' es es2 ∧ appender_ok me es2 c' ∧ a_i c' <= a_i c + 1.
Proof.
  intros Hme Hb Hi Hh Hpc Hok. pose proof Hok as Hok'. unfold appender_ok in Hok'. rewrite Hpc in Hok'. destruct Hok' as [Hver Hc].
  unfold OneClientAppend_step. rewrite Hpc, put_attempt_live, (guard_holds kv es) by done.
  assert (Hretry : ver < Z.of_nat (length es) + 1 →
    (appended me es c false ∧ (ver = Z.of_nat (length es) + 1 → es' = es ++ [(me, a_i c)])) ∨
    (PutRetry = PutRetry ∧ ver < Z.of_nat (length es) + 1 ∧ appended me es c true)).
  { intros Hlt. destruct Hc as [[Ha _]|(_ & _ & Ha)]; [left; split; [done|lia] | by right]. }
  destruct (decide (ver = Z.of_nat (length es) + 1)) as [->|Hne].
  - destruct Hc as [[Ha Hes]|(_ & ? & _)]; [|lia]. specialize (Hes eq_refl). subst es'.
    pose proof (holds_install kv es me (a_i c) Hh (fits_entry me (a_i c) Hme ltac:(lia)) ltac:(lia)) as Hinst.
    pose proof (appended_now me es c Ha) as Hnow.
    destruct (ch_net ch); intros [= <- <-].
    + exists es. split; [by left|]. split; [|simpl; lia]. unfold appender_ok. simpl. split; [done|]. left. by split.
    + exists (es ++ [(me, a_i c)]). split; [right; split; [done | by eexists]|]. split; [|simpl; lia].
      unfold appender_ok. simpl. rewrite length_app. simpl. split; [lia|]. right. split; [done|]. split; [lia | done].
    + exists (es ++ [(me, a_i c)]). split; [right; split; [done | by eexists]|].
      apply (append_error_ok _ _ _ _ true); [lia | done | by left].
  - assert (Hlt : ver < Z.of_nat (length es) + 1) by lia. specialize (Hretry Hlt).
    assert (Hsame : appender_ok me es (goto (APut es' ver PutRetry) c)) by (split; [exact Hver | exact Hretry]).
    destruct (ch_net ch); intros [= <- <-]; exists es; (split; [by left|]); [split; [done|simpl; lia]..|].
    destruct Hc as [[Ha _]|(-> & _ & Ha)].
    + apply (append_error_ok _ _ _ _ false); [lia | done |]. destruct p; simpl; auto.
    + apply (append_error_ok _ _ _ _ true); [lia | done |]. simpl. auto.
Qed.

Lemma append_step_ok me ch kv es c kv' c' :
  0 <= me < 2 ^ 63 → Z.of_nat (length es) + 2 < 2 ^ 62 → 0 <= a_i c < 2 ^ 62 → holds kv es →
  appender_ok me es c → OneClientAppend_step me ch kv c = (kv', c') →
  ∃ es2, append_effect me kv kv' es es2 ∧ appender_ok me es2 c' ∧ a_i c' <= a_i c + 1.
Proof.
  intros Hme Hb Hi Hh Hok Hst. destruct (a_pc c) as [| |es' ver p| |] eqn:Hpc.
  - unfold OneClientAppend_step in Hst. rewrite Hpc in Hst. injection Hst as <- <-. exists es. split; [by left|].
    unfold appender_ok in *. rewrite Hpc in Hok. destruct (ch_done ch); (split; [done | simpl; lia]).
  - unfold OneClientAppend_step in Hst. rewrite Hpc in Hst. exists es. destruct (get_holds kv es Hh) as [Hg Hj].
    destruct (ch_net ch); cbn [call_get] in Hst; [injection Hst as <- <-; split; [by left | split; [done | lia]]..|].
    rewrite Hg in Hst. cbn [GetValue GetVersion GetErr] in Hst. rewrite Hj in Hst. injection Hst as <- <-.
    split; [by left|]. unfold appender_ok in *. rewrite Hpc in Hok. simpl. split; [|lia]. split; [lia|]. left. by split.
  - by eapply append_put_ok.
  - unfold OneClientAppend_step in Hst. rewrite Hpc in Hst. injection Hst as <- <-. exists es.
    split; [by left | split; [done | lia]].
  - unfold appender_ok in Hok. rewrite Hpc in Hok. done.
Qed.

Record appends_inv (m : Z) (w : appends) (es : list entry) : Prop := {
  ai_holds : holds (asrv w) es;
  ai_length : Z.of_nat (length es) + 2 + m < 2 ^ 62;
  ai_clients : ∀ i c, appenders w !! i = Some c → appender_ok (Z.of_nat i) es c ∧ 0 <= a_i c /\ a_i c + m < 2 ^ 62;
  ai_ids : Forall (λ e, 0 <= e.1 < Z.of_nat (length (appenders w))) es;
  ai_count : Z.of_nat (length (appenders w)) <= 2 ^ 63
}.

Lemma appender_ok_i me es c : appender_ok me es c → 0 <= a_i c.
Proof.
  unfold appender_ok, appended. destruct (a_pc c); try tauto; lia.
Qed.

Lemma appends_inv_step m w es i ch w' :
  0 <= m → appends_inv (m + 1) w es → appends_do w i ch = Some w' → ∃ es', appends_inv m w' es'.
Proof.
  intros Hm [Hh Hl Hc Hid Hn] (c & Hi & Hw)%bind_Some.
  destruct (OneClientAppend_step (Z.of_nat i) ch (asrv w) c) as [kv' c'] eqn:Hst. injection Hw as <-.
  destruct (Hc i c Hi) as (Hok & Hi0 & Hib). assert (Hli : (i < length (appenders w))%nat) by (by eapply lookup_lt_Some).
  destruct (append_step_ok (Z.of_nat i) ch (asrv w) es c kv' c' ltac:(lia) ltac:(lia) ltac:(lia) Hh Hok Hst)
    as (es' & He & Hok' & Hi'). pose proof (appender_ok_i _ _ _ Hok') as Hi0'.
  exists es'. destruct He as [[-> ->]|[Hh' [n ->]]]; split; cbn [asrv appenders]; try done; try lia; rewrite ?length_insert; try done.
  - intros j d [(<- & <- & _)|[_ Hj]]%list_lookup_insert_Some; [split; [done|lia]|].
    destruct (Hc j d Hj) as (? & ? & ?). split; [done | lia].
  - rewrite length_app. simpl. lia.
  - intros j d [(<- & <- & _)|[Hne Hj]]%list_lookup_insert_Some; [split; [done|lia]|].
    destruct (Hc j d Hj) as (? & ? & ?). split; [apply appender_other; [lia | done] | lia].
  - apply Forall_app. split; [done|]. constructor; [simpl; lia | done].
Qed.

Lemma appends_inv_init nclnt m : 0 <= m < 2 ^ 62 - 2 → Z.of_nat nclnt <= 2 ^ 63 → appends_inv m (appends_init nclnt) [].
Proof.
  intros Hm Hn. split; cbn [appends_init asrv appenders]; [split| | | |].
  - reflexivity.
  - reflexivity.
  - constructor.
  - simpl. lia.
  - intros i c Hi. apply lookup_replicate in Hi as [-> _]. split; [|simpl; lia]. unfold appender_ok, appended. simpl. lia.
  - constructor.
  - by rewrite length_replicate.
Qed.

Lemma appends_inv_exec nclnt ls w :
  Z.of_nat nclnt <= 2 ^ 63 → Z.of_nat (length ls) < 2 ^ 62 - 2 →
  exec appends_step (appends_init nclnt) ls w → ∃ es, appends_inv 0 w es.
Proof.
  intros Hn Hls He. apply (exec_preserves_bounded _ (λ n w, ∃ es, appends_inv (Z.of_nat n) w es)) with (n:=0%nat) in He; [done| |].
  - intros n w1 [i ch] w2 [es Hi] Hd. eapply (appends_inv_step (Z.of_nat n)); [lia| |exact Hd].
    by replace (Z.of_nat n + 1) with (Z.of_nat (S n)) by lia.
  - exists []. apply appends_inv_init; simpl; lia.
Qed.
End system.

(** C15 Clients that append to one list through clerks, over a lossy network
    and in any interleaving, never stop the test; when they have all ended, the
    key still decodes to a list, put once more than it is long, and
    [CheckAppends] accepts it, whatever the order of the map: every append
    answered [OK] is there, each client's are in order, and no more are missing
    than were doubtful. *)
Theorem concurrent_appends_pass order nclnt ls w :
  (∀ m, order m ≡ₚ map_to_list m) → Z.of_nat nclnt <= 2 ^ 63 → Z.of_nat (length ls) < 2 ^ 62 - 2 →
  exec appends_step (appends_init nclnt) ls w →
  Forall (λ c, a_pc c ≠ AStopped) (appenders w) ∧
  ∀ rs, append_results w = Some rs →
    ∃ es ver, GetJson Unmarshal_entries
        (let r := Get (asrv w) (mkGetArgs "k") GetReply0 in (GetValue r, GetVersion r, GetErr r)) = Ret (es, ver) ∧
      CheckAppends order es (length rs) rs ver = Ret tt ∧
      ∀ c r, rs !! c = Some r → accounted (2 ^ 62 - 1) (Z.of_nat c) r es.
Proof.
  intros Ho Hn Hls He. destruct (appends_inv_exec nclnt ls w Hn Hls He) as (es & [Hh Hl Hc Hid Hcnt]). split.
  { apply Forall_forall. intros c [i Hi]%list_elem_of_lookup Hpc. destruct (Hc i c Hi) as [Hok _].
    unfold appender_ok in Hok. by rewrite Hpc in Hok. }
  intros rs Hr. unfold append_results in Hr. case_decide as Hfin; [|done]. injection Hr as <-.
  destruct (get_holds (asrv w) es Hh) as [Hg Hj]. rewrite Hg. exists es, (Z.of_nat (length es) + 1). split; [exact Hj|].
  assert (Hacc : ∀ c r, ((λ c, mkRes (a_nok c) (a_nmay c)) <$> appenders w) !! c = Some r →
    accounted (2 ^ 62 - 1) (Z.of_nat c) r es).
  { intros i r Hi. rewrite list_lookup_fmap in Hi. destruct (appenders w !! i) as [c|] eqn:Hci; [|done].
    injection Hi as <-. destruct (Hc i c Hci) as (Hok & H1 & H2). unfold appender_ok in Hok.
    rewrite Forall_forall in Hfin. rewrite (Hfin c) in Hok by (by eapply list_elem_of_lookup_2).
    unfold appended, accounted in *. simpl. split_and!; try apply Hok; lia. }
  split; [|exact Hacc]. apply (CheckAppends_passes (2 ^ 62 - 1)); try done. by rewrite length_fmap.
Qed.

(** ** Witness *)

Module AppendEx.
Definition nxt (w : appends) (l : nat * choice) : option appends := appends_do w l.1 l.2.
Definition go (i : nat) (r : netres) : nat * choice := (i, mkChoice false 0 r).
Definition stop (i : nat) : nat * choice := (i, mkChoice true 0 Deliver).
(** Client 0 loses the reply of its second append; client 1 is overtaken once. *)
Definition labels : list (nat * choice) :=
  [go 0 Deliver; go 1 Deliver; go 0 Deliver; go 1 Deliver; go 0 Deliver; go 1 Deliver;
   go 0 Deliver; go 0 Deliver; go 0 DropReply; go 0 Deliver; go 1 Deliver; go 1 Deliver; stop 0; stop 1].
Definition final : appends := default (appends_init 2) (run nxt (appends_init 2) labels).
End AppendEx.

Lemma concurrent_appends_pass_witness :
  ∃ es ver, CheckAppends map_to_list es 2 [mkRes 1 1; mkRes 1 0] ver = Ret tt ∧ ver = 4 ∧ es = [(0, 0); (0, 1); (1, 0)].
Proof.
  assert (H1 : exec appends_step (appends_init 2) AppendEx.labels AppendEx.final)
    by (apply (run_exec _ AppendEx.nxt); [by intros | vm_compute; reflexivity]).
  assert (H2 : append_results AppendEx.final = Some [mkRes 1 1; mkRes 1 0]) by (vm_compute; reflexivity).
  assert (H3 : Z.of_nat 2 <= 2 ^ 63 ∧ Z.of_nat (length AppendEx.labels) < 2 ^ 62 - 2) by (split; vm_compute; congruence).
  destruct (concurrent_appends_pass map_to_list 2 AppendEx.labels AppendEx.final (λ m, Permutation_refl _)
    (proj1 H3) (proj2 H3) H1) as [_ H].
  destruct (H _ H2) as (es & ver & Hg & Hc & _). exists es, ver. split; [exact Hc|].
  vm_compute in Hg. injection Hg as <- <-. split; reflexivity.
Defined.
