(* ===== verification/LabRPC.v ===== *)
(** * The simulated network: [labrpc/labrpc.go]

    [Network] is the state the mutex [rn.mu] protects; servers are objects
    behind pointers, here keys of a heap. Each request is handled by a
    goroutine running [processReq], and the handler by another one: both are
    the automaton [proc], whose steps are the points between which other
    goroutines, including the tester that disables ends and deletes servers,
    can run. Random numbers are arguments of the steps; delays are the freedom
    to take a step late. [St] is the state of the objects behind the services;
    arguments and replies are byte strings, encoded by [labgob]. *)

From S2P Require Import Prelude.

Open Scope list_scope.
Open Scope Z_scope.

Abbreviation bytes := string (only parsing).

Definition len (b : bytes) : Z := Z.of_nat (String.length b).

Record reqMsg := mkReq { endname : string; svcMeth : string; args : bytes }.
Record replyMsg := mkReply { ok : bool; reply : bytes }.

#[export] Instance replyMsg_eq_dec : EqDecision replyMsg.
Proof. solve_decision. Defined.

(** ** [strings.LastIndex(s, ".")], as the pair of slices around the dot *)

Definition dot : Ascii.ascii := Ascii.ascii_of_N 46.

Fixpoint split_last_dot (s : string) : option (string * string) :=
  match s with
  | EmptyString => None
  | String c s' =>
      match split_last_dot s' with
      | Some (a, b) => Some (String c a, b)
      | None => if decide (c = dot) then Some (EmptyString, s') else None
      end
  end.

Section labrpc.
Context {St : Type}.

(** A method found by reflection, with what [MakeService] asks of it. *)
Record Method := mkMethod {
  PkgPath : string; MName : string; NumIn : Z; In2Ptr : bool; NumOut : Z;
  (** decode the argument, call, encode the reply; [Fatal] when decoding fails *)
  Func : bytes → St → outcome (bytes * St)
}.

Record Service := mkService { svc_name : string; methods : gmap string Method }.

Record Server := mkServer {
  services : gmap string Service;
  scount : Z;
  dispatchf : option (string → bytes → St → bytes * bool * St)
}.

Record Network := mkNetwork {
  reliable : bool;
  longDelays : bool;
  longReordering : bool;
  ends : gset string;
  enabled : gmap string bool;
  servers : gmap string (option nat);
  connections : gmap string (option string);
  ncount : Z;
  nbytes : Z;
  heap : gmap nat Server
}.

(** ** Services and servers *)

Definition suitable (m : Method) : bool :=
  negb (bool_decide (PkgPath m ≠ EmptyString) || bool_decide (NumIn m ≠ 3) || negb (In2Ptr m) ||
        bool_decide (NumOut m ≠ 0)).

Definition MakeService (name : string) (ms : list Method) : Service :=
  mkService name (fold_left (λ r m, if suitable m then <[MName m := m]> r else r) ms ∅).

Definition Service_dispatch (svc : Service) (methname : string) (req : reqMsg) (st : St) :
    outcome (replyMsg * St) :=
  match methods svc !! methname with
  | Some method => '(rb, st) ← Func method (args req) st; Ret (mkReply true rb, st)
  | None => Fatal
  end.

Definition MakeServer : Server := mkServer ∅ 0 None.
Definition SetDispatch (f : string → bytes → St → bytes * bool * St) (rs : Server) : Server :=
  mkServer (services rs) (scount rs) (Some f).
Definition AddService (svc : Service) (rs : Server) : Server :=
  mkServer (<[svc_name svc := svc]> (services rs)) (scount rs) (dispatchf rs).
Definition Server_GetCount (rs : Server) : Z := scount rs.

(** [svcMeth[:dot]] with [dot = -1] is a slice panic. *)
Definition Server_dispatch (rs : Server) (req : reqMsg) (st : St) : outcome (Server * replyMsg * St) :=
  let rs := mkServer (services rs) (wrapS 64 (scount rs + 1)) (dispatchf rs) in
  match split_last_dot (svcMeth req) with
  | None => Panic
  | Some (serviceName, methodName) =>
      match dispatchf rs with
      | Some f => let '(rep, ok, st) := f (svcMeth req) (args req) st in Ret (rs, mkReply ok rep, st)
      | None =>
          match services rs !! serviceName with
          | Some service => '(r, st) ← Service_dispatch service methodName req st; Ret (rs, r, st)
          | None => Fatal
          end
      end
  end.

(** [Dispatch], for requests that arrive from another process. *)
Definition Dispatch (rs : Server) (svcMeth clnt : string) (args : bytes) (st : St) :
    outcome (Server * (bytes * bool) * St) :=
  '(rs, rep, st) ← Server_dispatch rs (mkReq clnt svcMeth args) st; Ret (rs, (reply rep, ok rep), st).

(** ** The network's operations *)

Definition MakeNetwork : Network := mkNetwork true false false ∅ ∅ ∅ ∅ 0 0 ∅.

Definition Reliable (yes : bool) (rn : Network) : Network :=
  mkNetwork yes (longDelays rn) (longReordering rn) (ends rn) (enabled rn) (servers rn) (connections rn)
    (ncount rn) (nbytes rn) (heap rn).
Definition IsReliable (rn : Network) : bool := reliable rn.
Definition LongReordering (yes : bool) (rn : Network) : Network :=
  mkNetwork (reliable rn) (longDelays rn) yes (ends rn) (enabled rn) (servers rn) (connections rn)
    (ncount rn) (nbytes rn) (heap rn).
Definition LongDelays (yes : bool) (rn : Network) : Network :=
  mkNetwork (reliable rn) yes (longReordering rn) (ends rn) (enabled rn) (servers rn) (connections rn)
    (ncount rn) (nbytes rn) (heap rn).
Definition IsLongDelays (rn : Network) : bool := longDelays rn.

Definition with_tables (rn : Network) (es : gset string) (en : gmap string bool)
    (ss : gmap string (option nat)) (cs : gmap string (option string)) : Network :=
  mkNetwork (reliable rn) (longDelays rn) (longReordering rn) es en ss cs (ncount rn) (nbytes rn) (heap rn).

Definition MakeEnd (e : string) (rn : Network) : outcome Network :=
  if decide (e ∈ ends rn) then Fatal
  else Ret (with_tables rn ({[e]} ∪ ends rn) (<[e := false]> (enabled rn)) (servers rn)
              (<[e := None]> (connections rn))).

Definition LookupEnd (e : string) (rn : Network) : outcome string :=
  if decide (e ∈ ends rn) then Ret e else Fatal.

Definition DeleteEnd (e : string) (rn : Network) : outcome Network :=
  if decide (e ∈ ends rn) then
    Ret (with_tables rn (ends rn ∖ {[e]}) (delete e (enabled rn)) (servers rn) (delete e (connections rn)))
  else Fatal.

(** [AddServer]; the object is put on the heap under its address. *)
Definition AddServer (servername : string) (rs : nat) (obj : Server) (rn : Network) : Network :=
  mkNetwork (reliable rn) (longDelays rn) (longReordering rn) (ends rn) (enabled rn)
    (<[servername := Some rs]> (servers rn)) (connections rn) (ncount rn) (nbytes rn) (<[rs := obj]> (heap rn)).

Definition DeleteServer (servername : string) (rn : Network) : Network :=
  with_tables rn (ends rn) (enabled rn) (<[servername := None]> (servers rn)) (connections rn).

Definition Connect (e servername : string) (rn : Network) : Network :=
  with_tables rn (ends rn) (enabled rn) (servers rn) (<[e := Some servername]> (connections rn)).

Definition Enable (e : string) (yes : bool) (rn : Network) : Network :=
  with_tables rn (ends rn) (<[e := yes]> (enabled rn)) (servers rn) (connections rn).

(** [GetCount] of a deleted server is a nil dereference. *)
Definition GetCount (servername : string) (rn : Network) : outcome Z :=
  match lookup_zero None servername (servers rn) with
  | Some rs => match heap rn !! rs with Some obj => Ret (Server_GetCount obj) | None => Panic end
  | None => Panic
  end.
Definition GetTotalCount (rn : Network) : Z := ncount rn.
Definition GetTotalBytes (rn : Network) : Z := nbytes rn.

Definition add_bytes (n : Z) (rn : Network) : Network :=
  mkNetwork (reliable rn) (longDelays rn) (longReordering rn) (ends rn) (enabled rn) (servers rn)
    (connections rn) (ncount rn) (wrapS 64 (nbytes rn + n)) (heap rn).
Definition add_count (rn : Network) : Network :=
  mkNetwork (reliable rn) (longDelays rn) (longReordering rn) (ends rn) (enabled rn) (servers rn)
    (connections rn) (wrapS 32 (ncount rn + 1)) (nbytes rn) (heap rn).
Definition set_obj (rs : nat) (obj : Server) (rn : Network) : Network :=
  mkNetwork (reliable rn) (longDelays rn) (longReordering rn) (ends rn) (enabled rn) (servers rn)
    (connections rn) (ncount rn) (nbytes rn) (<[rs := obj]> (heap rn)).

(** ** [processReq] *)

(** What [readEndnameInfo] found, when the request can be delivered. *)
Record info := mkInfo { i_servername : string; i_server : nat; i_reliable : bool; i_longreordering : bool }.

Definition readEndnameInfo (e : string) (rn : Network) : bool * option string * option nat * bool * bool :=
  let servername := lookup_zero None e (connections rn) in
  let server := match servername with Some n => lookup_zero None n (servers rn) | None => None end in
  (lookup_zero false e (enabled rn), servername, server, reliable rn, longReordering rn).

Definition isServerDead (e servername : string) (server : nat) (rn : Network) : bool :=
  negb (lookup_zero false e (enabled rn)) || bool_decide (lookup_zero None servername (servers rn) ≠ Some server).

(** Where the goroutine stands: about to read the tables; waiting before it
    reports a failure; about to deliver; waiting for the handler; deciding, with
    the handler's reply or without; holding back a reply; replied. *)
Inductive proc_pc :=
| PRead
| PDisabled
| PSend (i : info)
| PWait (i : info)
| PDecide (i : info) (r : option replyMsg)
| PReorder (r : replyMsg)
| PReplied (r : replyMsg).

(** The goroutine and the one it starts for the handler ([p_handler] is the
    reply in [ech], [p_run] the server it runs on once started). *)
Record proc := mkProc { p_req : reqMsg; p_pc : proc_pc; p_run : option nat; p_handler : option replyMsg }.

Definition new_proc (req : reqMsg) : proc := mkProc req PRead None None.

Definition failure : replyMsg := mkReply false EmptyString.

#[export] Instance info_eq_dec : EqDecision info.
Proof. solve_decision. Defined.

Inductive proc_label :=
| DoRead
| DoSend (rnd : Z)
| DoHandler
| DoReply
| DoTimeout
| DoDecide (rnd rnd2 : Z)
| DoFire.

#[export] Instance proc_label_eq_dec : EqDecision proc_label.
Proof. solve_decision. Defined.

Definition goto (p : proc) (pc : proc_pc) : proc := mkProc (p_req p) pc (p_run p) (p_handler p).

(** One step of a request; [None] when the label does not apply. *)
Definition proc_next (rn : Network) (st : St) (p : proc) (l : proc_label) : option (outcome (Network * St * proc)) :=
  match l, p_pc p with
  | DoRead, PRead =>
      match readEndnameInfo (endname (p_req p)) rn with
      | (true, Some servername, Some server, reliable, longreordering) =>
          Some (Ret (rn, st, goto p (PSend (mkInfo servername server reliable longreordering))))
      | _ => Some (Ret (rn, st, goto p PDisabled))
      end
  | DoSend rnd, PSend i =>
      if negb (i_reliable i) && bool_decide (Z.rem rnd 1000 < 100)
      then Some (Ret (rn, st, goto p (PReplied failure)))
      else Some (Ret (rn, st, mkProc (p_req p) (PWait i) (Some (i_server i)) (p_handler p)))
  | DoHandler, _ =>
      match p_run p, p_handler p with
      | Some rs, None =>
          match heap rn !! rs with
          | Some obj =>
              Some ('(obj, r, st) ← Server_dispatch obj (p_req p) st;
                    Ret (set_obj rs obj rn, st, mkProc (p_req p) (p_pc p) (p_run p) (Some r)))
          | None => Some Panic
          end
      | _, _ => None
      end
  | DoReply, PWait i =>
      match p_handler p with
      | Some r => Some (Ret (rn, st, goto p (PDecide i (Some r))))
      | None => None
      end
  | DoTimeout, PWait i =>
      if isServerDead (endname (p_req p)) (i_servername i) (i_server i) rn
      then Some (Ret (rn, st, goto p (PDecide i None)))
      else Some (Ret (rn, st, p))
  | DoDecide rnd rnd2, PDecide i r =>
      match r, isServerDead (endname (p_req p)) (i_servername i) (i_server i) rn with
      | Some r, false =>
          if negb (i_reliable i) && bool_decide (Z.rem rnd 1000 < 100)
          then Some (Ret (rn, st, goto p (PReplied failure)))
          else if i_longreordering i && bool_decide (rnd2 < 600)
          then Some (Ret (rn, st, goto p (PReorder r)))
          else Some (Ret (add_bytes (len (reply r)) rn, st, goto p (PReplied r)))
      | _, _ => Some (Ret (rn, st, goto p (PReplied failure)))
      end
  | DoFire, PReorder r => Some (Ret (add_bytes (len (reply r)) rn, st, goto p (PReplied r)))
  | DoFire, PDisabled => Some (Ret (rn, st, goto p (PReplied failure)))
  | _, _ => None
  end.

(** ** The whole network *)

Inductive config_op :=
| CReliable (yes : bool)
| CLongReordering (yes : bool)
| CLongDelays (yes : bool)
| CMakeEnd (e : string)
| CDeleteEnd (e : string)
| CAddServer (servername : string) (rs : nat) (obj : Server)
| CDeleteServer (servername : string)
| CConnect (e servername : string)
| CEnable (e : string) (yes : bool).

Definition config (op : config_op) (rn : Network) : outcome Network :=
  match op with
  | CReliable yes => Ret (Reliable yes rn)
  | CLongReordering yes => Ret (LongReordering yes rn)
  | CLongDelays yes => Ret (LongDelays yes rn)
  | CMakeEnd e => MakeEnd e rn
  | CDeleteEnd e => DeleteEnd e rn
  | CAddServer servername rs obj => Ret (AddServer servername rs obj rn)
  | CDeleteServer servername => Ret (DeleteServer servername rn)
  | CConnect e servername => Ret (Connect e servername rn)
  | CEnable e yes => Ret (Enable e yes rn)
  end.

(** The state of the process, the requests by number, and (a ghost) the
    handler executions that have completed. *)
Record netsys := mkNet {
  n_net : Network; n_st : St; n_procs : gmap nat proc; n_execs : list (nat * replyMsg);
  n_done : bool;      (* the channel [done] is closed *)
  n_running : bool    (* the goroutine that reads [endCh] has not returned *)
}.

Inductive net_label :=
| NConfig (op : config_op)
| NRequest (id : nat) (req : reqMsg)
| NProc (id : nat) (l : proc_label)
| NCleanup
| NExit.

(** The tester registers every server object once, when it has made it. *)
Definition fresh_server (op : config_op) (rn : Network) : bool :=
  match op with
  | CAddServer _ rs _ => bool_decide (heap rn !! rs = None)
  | _ => true
  end.

(** A step of the network. *)
Definition net_next (s : netsys) (l : net_label) : option netsys :=
  match l with
  | NConfig op =>
      if negb (fresh_server op (n_net s)) then None
      else match config op (n_net s) with
           | Ret rn => Some (mkNet rn (n_st s) (n_procs s) (n_execs s) (n_done s) (n_running s))
           | _ => None
           end
  | NRequest id req =>
      match n_procs s !! id, n_running s with
      | None, true =>
          Some (mkNet (add_bytes (len (args req)) (add_count (n_net s))) (n_st s)
                  (<[id := new_proc req]> (n_procs s)) (n_execs s) (n_done s) true)
      | _, _ => None
      end
  | NProc id pl =>
      p ← n_procs s !! id;
      r ← proc_next (n_net s) (n_st s) p pl;
      match r with
      | Ret (rn, st, p') =>
          Some (mkNet rn st (<[id := p']> (n_procs s))
                  (match p_handler p, p_handler p' with
                   | None, Some rep => n_execs s ++ [(id, rep)]
                   | _, _ => n_execs s
                   end)
                  (n_done s) (n_running s))
      | _ => None
      end
  | NCleanup => if n_done s then None else Some (mkNet (n_net s) (n_st s) (n_procs s) (n_execs s) true (n_running s))
  | NExit => if n_done s then Some (mkNet (n_net s) (n_st s) (n_procs s) (n_execs s) true false) else None
  end.

Definition net_step (s : netsys) (l : net_label) (s' : netsys) : Prop := net_next s l = Some s'.

Definition net_init (st : St) : netsys := mkNet MakeNetwork st ∅ [] false true.

(** ** The client's end *)

Section client.
Context {A R : Type} (Marshall : A → outcome bytes) (Unmarshall : bytes → R → outcome R).

(** [Call]: the request it sends; and what it returns, with the reply object,
    given the reply or, when [done] was closed first, nothing. *)
Definition Call_request (e svcMeth : string) (a : A) : outcome reqMsg :=
  args ← Marshall a; Ret (mkReq e svcMeth args).

Definition Call_result (rep : option replyMsg) (r : R) : outcome (bool * R) :=
  match rep with
  | None => Ret (false, r)
  | Some rep => if ok rep then r ← Unmarshall (reply rep) r; Ret (true, r) else Ret (false, r)
  end.

(** [Call] of an end with a function in place of the network ([SetCall]). *)
Definition Call_callf (f : string → string → bytes → bytes * bool) (e svcMeth : string) (a : A) (r : R) :
    outcome (bool * R) :=
  args ← Marshall a; let '(rep, ok) := f e svcMeth args in Call_result (Some (mkReply ok rep)) r.

Definition Forward_result (rep : option replyMsg) : bytes * bool :=
  match rep with None => (EmptyString, false) | Some rep => (reply rep, ok rep) end.
End client.
End labrpc.

(** ** Lemmas *)

Section facts.
Context {St : Type}.
Implicit Types (rn : Network (St:=St)) (s : netsys (St:=St)) (p : proc).

Lemma split_last_dot_None (s : string) : split_last_dot s = None ↔ ∀ a b, s ≠ (a +:+ String dot b)%string.
Proof.
  induction s as [|c s IH]; simpl.
  - split; [|done]. by intros _ [] b.
  - destruct (split_last_dot s) as [[a b]|] eqn:E.
    + split; [done|]. intros H. exfalso.
      assert (Hs : ∃ a b, s = (a +:+ String dot b)%string).
      { clear IH H. revert a b E. induction s as [|c' s IH]; simpl; [done|]. intros a b.
        destruct (split_last_dot s) as [[a' b']|] eqn:E'.
        - intros [= <- <-]. destruct (IH a' b' eq_refl) as (a1 & b1 & ->). by exists (String c' a1), b1.
        - case_decide as Hd; [|done]. intros [= <- <-]. subst c'. by exists EmptyString, s. }
      destruct Hs as (a1 & b1 & ->). by apply (H (String c a1) b1).
    + case_decide as Hd.
      * split; [done|]. intros H. subst c. by destruct (H EmptyString s).
      * split; [|done]. intros _ [|c' a] b; [intros [= -> _]; done|]. intros [= _ Hs].
        by apply IH in Hs.
Qed.

(** The method is what follows the last dot. *)
Lemma split_last_dot_app a b :
  split_last_dot b = None → split_last_dot (a +:+ String dot b)%string = Some (a, b).
Proof.
  intros Hb. induction a as [|c a IH].
  - change ("" +:+ String dot b)%string with (String dot b). simpl. by rewrite Hb.
  - change (String c a +:+ String dot b)%string with (String c (a +:+ String dot b)%string). simpl. by rewrite IH.
Qed.

(** The handler executions of a request. *)
Definition execs_of (id : nat) (log : list (nat * replyMsg)) : list (nat * replyMsg) :=
  filter (λ e, e.1 = id) log.

Definition proc_ok (p : proc) : Prop :=
  match p_pc p with
  | PDecide _ (Some r) | PReorder r => p_handler p = Some r
  | PReplied r => r = failure ∨ p_handler p = Some r
  | _ => True
  end.

Definition net_inv s : Prop :=
  ∀ id, match n_procs s !! id with
        | Some p =>
            execs_of id (n_execs s) = match p_handler p with Some r => [(id, r)] | None => [] end ∧ proc_ok p
        | None => execs_of id (n_execs s) = []
        end.

(** A step of a goroutine: at most its handler runs, and its result is kept. *)
Lemma proc_next_handler rn (st : St) p l rn' st' p' :
  proc_next rn st p l = Some (Ret (rn', st', p')) → proc_ok p →
  (p_handler p' = p_handler p ∨ p_handler p = None) ∧ proc_ok p'.
Proof.
  intros H Hok. unfold proc_next, proc_ok, goto in *.
  destruct l, (p_pc p) eqn:Hpc; simpl in H; try done;
    repeat (case_match; simplify_eq/=); try (by rewrite ?Hpc in *; eauto);
    try (destruct (Server_dispatch _ _ _) as [[[? ?] ?]| |]; simplify_eq/=; rewrite ?Hpc; eauto; naive_solver).
Qed.

Lemma net_inv_step s l s' : net_inv s → net_step s l s' → net_inv s'.
Proof.
  unfold net_step. intros Hs. destruct l as [op|id req|id pl| |]; simpl;
    [| | |by destruct (n_done s); intros [= <-]..].
  - destruct (negb _); [done|]. destruct (config op (n_net s)); intros; simplify_eq. exact Hs.
  - destruct (n_procs s !! id) eqn:Hid, (n_running s); intros; simplify_eq. intros id'. simpl.
    specialize (Hs id') as Hi. destruct (decide (id = id')) as [<-|].
    + rewrite lookup_insert_eq. rewrite Hid in Hi. by split.
    + by rewrite lookup_insert_ne.
  - intros (p & Hid & (r & Hr & Hn)%bind_Some)%bind_Some. destruct r as [[[rn st] p']| |]; simplify_eq.
    pose proof (Hs id) as Hi. rewrite Hid in Hi. destruct Hi as [Hlog Hok].
    destruct (proc_next_handler _ _ _ _ _ _ _ Hr Hok) as [Hh Hok'].
    intros id'. simpl. specialize (Hs id') as Hi'. destruct (decide (id = id')) as [<-|Hne].
    + rewrite lookup_insert_eq. split; [|done].
      destruct (p_handler p) as [r0|] eqn:E0; destruct Hh as [Hh|Hh]; try done; rewrite ?Hh; [done|done|].
      destruct (p_handler p') as [r1|]; [|done].
      unfold execs_of in *. rewrite filter_app, Hlog. by rewrite filter_cons_True.
    + rewrite lookup_insert_ne by done.
      assert (E : execs_of id' (match p_handler p with
        | Some _ => n_execs s
        | None => match p_handler p' with Some rep => n_execs s ++ [(id, rep)] | None => n_execs s end
        end) = execs_of id' (n_execs s)).
      { destruct (p_handler p), (p_handler p'); try done. unfold execs_of.
        rewrite filter_app, filter_cons_False, filter_nil, app_nil_r by done. done. }
      by rewrite E.
Qed.

Lemma net_inv_exec (st : St) ls s : exec net_step (net_init st) ls s → net_inv s.
Proof.
  intros He. eapply (exec_preserves net_step net_inv); [apply net_inv_step | | exact He].
  intros id. simpl. by rewrite lookup_empty.
Qed.
End facts.

(** ** A request to an unregistered server *)

Section dead.
Context {St : Type}.
Implicit Types (s : netsys (St:=St)).

(** The request is on its way to a server object that has been unregistered. *)
Definition to_server (p : proc) (i : info) : Prop :=
  p_pc p = PSend i ∨ p_pc p = PWait i ∨ ∃ r, p_pc p = PDecide i r.

Definition dead_inv (id : nat) (i : info) s : Prop :=
  is_Some (heap (n_net s) !! i_server i) ∧
  lookup_zero None (i_servername i) (servers (n_net s)) ≠ Some (i_server i) ∧
  ∃ p, n_procs s !! id = Some p ∧ (to_server p i ∨ p_pc p = PReplied failure).

Lemma config_servers op rn (rn' : Network (St:=St)) name rs :
  config op rn = Ret rn' → fresh_server op rn = true → is_Some (heap rn !! rs) →
  is_Some (heap rn' !! rs) ∧
  (lookup_zero None name (servers rn) ≠ Some rs → lookup_zero None name (servers rn') ≠ Some rs).
Proof.
  intros Hc Hf [obj Hobj]. destruct op; simpl in *; unfold MakeEnd, DeleteEnd in *; try case_decide; simplify_eq/=;
    try (by split; [eexists|]).
  - apply bool_decide_eq_true in Hf. assert (rs0 ≠ rs) by congruence. split.
    + exists obj. by rewrite lookup_insert_ne.
    + intros Hn. rewrite lookup_zero_insert. case_decide; [congruence | done].
  - split; [by eexists|]. intros Hn. rewrite lookup_zero_insert. by case_decide.
Qed.

(** A step of a goroutine leaves the tables alone. *)
Lemma proc_next_tables rn (st : St) p l rn' st' p' :
  proc_next rn st p l = Some (Ret (rn', st', p')) →
  servers rn' = servers rn ∧ enabled rn' = enabled rn ∧ connections rn' = connections rn ∧
  reliable rn' = reliable rn ∧ longReordering rn' = longReordering rn ∧
  ∀ rs, is_Some (heap rn !! rs) → is_Some (heap rn' !! rs).
Proof.
  intros H. unfold proc_next in H. destruct l, (p_pc p); simpl in H; try done;
    repeat (case_match; simplify_eq/=); simplify_eq/=; try done;
    try (destruct (Server_dispatch _ _ _) as [[[? ?] ?]| |]; simplify_eq/=;
      repeat split; try done; intros rs Hrs; rewrite lookup_insert_is_Some'; by right).
Qed.

Lemma dead_step id i s l s' : dead_inv id i s → net_step s l s' → dead_inv id i s'.
Proof.
  intros (Hheap & Hdead & p & Hp & Hpc). unfold net_step. destruct l as [op|id' req|id' pl| |]; simpl;
    [| | |by destruct (n_done s); intros [= <-]; split; [|split; [|exists p]]..].
  - destruct (fresh_server op (n_net s)) eqn:Hf; simpl; [|done].
    destruct (config op (n_net s)) as [rn| |] eqn:Hc; [|done..]. intros [= <-].
    destruct (config_servers _ _ _ (i_servername i) (i_server i) Hc Hf Hheap) as [H1 H2].
    split; [done|]. split; [by apply H2|]. by exists p.
  - destruct (n_procs s !! id') eqn:Hid, (n_running s); intros; simplify_eq. split; [done|]. split; [done|].
    exists p. simpl. split; [|done]. rewrite lookup_insert_ne; [done|]. intros ->. congruence.
  - intros (p1 & Hid & (r & Hr & Hn)%bind_Some)%bind_Some. destruct r as [[[rn st] p1']| |]; simplify_eq.
    destruct (proc_next_tables _ _ _ _ _ _ _ Hr) as (Hs & He & _ & _ & _ & Hh).
    split; [by apply Hh|]. simpl. rewrite Hs. split; [done|].
    destruct (decide (id' = id)) as [->|Hne]; [|exists p; by rewrite lookup_insert_ne].
    exists p1'. rewrite lookup_insert_eq. split; [done|]. assert (p1 = p) as -> by congruence.
    assert (Hd : isServerDead (endname (p_req p)) (i_servername i) (i_server i) (n_net s) = true).
    { unfold isServerDead. rewrite bool_decide_true by done. apply orb_true_r. }
    clear Hp Hid. unfold proc_next, to_server, goto in *.
    destruct Hpc as [[Hpc|[Hpc|[r Hpc]]]|Hpc]; rewrite Hpc in Hr; destruct pl; simpl in Hr; try done;
      rewrite ?Hd in Hr; repeat (case_match; simplify_eq/=); simplify_eq/=; eauto 10;
      try (destruct (Server_dispatch _ _ _) as [[[? ?] ?]| |]; simplify_eq/=; eauto 10).
Qed.

Lemma dead_exec id i s ls s' : dead_inv id i s → exec net_step s ls s' → dead_inv id i s'.
Proof. intros Hs He. eapply (exec_preserves net_step (dead_inv id i)); [apply dead_step | exact Hs | exact He]. Qed.
End dead.

(** ** A request on a network that is left alone *)

Section live.
Context {St : Type}.
Implicit Types (s : netsys (St:=St)).

(** A reliable network whose end [e] is enabled and connected to a server. *)
Definition connected (e : string) (i : info) (rn : Network (St:=St)) : Prop :=
  reliable rn = true ∧ longReordering rn = false ∧ lookup_zero false e (enabled rn) = true ∧
  lookup_zero None e (connections rn) = Some (i_servername i) ∧
  lookup_zero None (i_servername i) (servers rn) = Some (i_server i) ∧
  i_reliable i = true ∧ i_longreordering i = false.

Definition live_pc (i : info) (p : proc) : Prop :=
  match p_pc p with
  | PRead => True
  | PSend j | PWait j => j = i
  | PDecide j (Some r) => j = i ∧ p_handler p = Some r
  | PReplied r => p_handler p = Some r
  | _ => False
  end.

Definition live_inv (id : nat) (e : string) (i : info) s : Prop :=
  connected e i (n_net s) ∧ ∃ p, n_procs s !! id = Some p ∧ endname (p_req p) = e ∧ live_pc i p.

(** The handler's goroutine leaves the other one where it is. *)
Lemma proc_next_DoHandler (rn : Network (St:=St)) st p rn' st' p' :
  proc_next rn st p DoHandler = Some (Ret (rn', st', p')) →
  p_handler p = None ∧ ∃ r, p' = mkProc (p_req p) (p_pc p) (p_run p) (Some r).
Proof.
  simpl. destruct (p_run p), (p_handler p); try done. destruct (heap rn !! n); [|done].
  destruct (Server_dispatch _ _ _) as [[[? r] ?]| |]; [|done..]. simpl. intros [= _ _ <-]. by split; [|exists r].
Qed.

Lemma live_proc (rn : Network (St:=St)) st p l rn' st' p' i :
  connected (endname (p_req p)) i rn → live_pc i p → proc_next rn st p l = Some (Ret (rn', st', p')) →
  p_req p' = p_req p ∧ live_pc i p'.
Proof.
  intros (Hrel & Hlong & Hen & Hconn & Hsrv & Hir & Hil) Hpc Hr.
  assert (Hd : isServerDead (endname (p_req p)) (i_servername i) (i_server i) rn = false).
  { unfold isServerDead. rewrite Hen. simpl. by rewrite bool_decide_false by (intros Hn; by apply Hn). }
  destruct (decide (l = DoHandler)) as [->|Hl].
  { destruct (proc_next_DoHandler _ _ _ _ _ _ Hr) as [Hn [r ->]]. split; [done|].
    unfold live_pc in *. simpl. destruct (p_pc p) as [| |j|j|j [r'|]|r'|r']; try done; [|congruence].
    destruct Hpc; congruence. }
  unfold proc_next, live_pc, goto, readEndnameInfo in *.
  destruct (p_pc p) as [| |j|j|j [r|]|r|r] eqn:Epc; try done; [| | |destruct Hpc as [Hpc Hh]|];
    try subst j; destruct l; simpl in Hr; try done;
    rewrite ?Hen, ?Hconn, ?Hsrv, ?Hrel, ?Hlong, ?Hir, ?Hil, ?Hd in Hr;
    try (by simplify_eq/=; rewrite Epc); repeat (case_match; simplify_eq/=); simplify_eq/=; try done.
  split; [done|]. destruct i; simpl in *; congruence.
Qed.

Lemma live_step id e i s l s' :
  live_inv id e i s → (∀ op, l ≠ NConfig op) → net_step s l s' → live_inv id e i s'.
Proof.
  intros (Hc & p & Hp & He & Hpc) Hl. unfold net_step. destruct l as [op|id' req|id' pl| |]; simpl;
    [| | |by destruct (n_done s); intros [= <-]; split; [|exists p]..].
  - by destruct (Hl op).
  - destruct (n_procs s !! id') eqn:Hid, (n_running s); intros; simplify_eq. split; [done|].
    exists p. simpl. split; [|done]. rewrite lookup_insert_ne; [done|]. intros ->. congruence.
  - intros (p1 & Hid & (r & Hr & Hn)%bind_Some)%bind_Some. destruct r as [[[rn st] p1']| |]; simplify_eq.
    destruct (proc_next_tables _ _ _ _ _ _ _ Hr) as (H1 & H2 & H3 & H4 & H5 & _).
    split; [unfold connected in *; simpl; by rewrite H1, H2, H3, H4, H5|]. simpl.
    destruct (decide (id' = id)) as [->|Hne]; [|exists p; by rewrite lookup_insert_ne].
    exists p1'. rewrite lookup_insert_eq. split; [done|]. assert (p1 = p) as -> by congruence.
    destruct (live_proc _ _ _ _ _ _ _ _ Hc Hpc Hr) as [-> Hl']. done.
Qed.

Lemma live_exec id e i s ls s' :
  live_inv id e i s → Forall (λ l, ∀ op, l ≠ NConfig op) ls → exec net_step s ls s' → live_inv id e i s'.
Proof.
  intros Hs Hl He. induction He; [done|]. apply Forall_cons in Hl as [Hl Hls].
  apply IHHe; [|done]. by eapply live_step.
Qed.
End live.

Section paths.
Context {St : Type}.
Implicit Types (s : netsys (St:=St)).

(** A request's own steps, one after the other. *)
Fixpoint proc_run (rn : Network (St:=St)) (st : St) (p : proc) (ls : list proc_label) : option (Network * St * proc) :=
  match ls with
  | [] => Some (rn, st, p)
  | l :: ls =>
      match proc_next rn st p l with
      | Some (Ret (rn, st, p)) => proc_run rn st p ls
      | _ => None
      end
  end.

Lemma proc_run_exec ls s id p rn st p' :
  n_procs s !! id = Some p → proc_run (n_net s) (n_st s) p ls = Some (rn, st, p') →
  ∃ s', exec net_step s (NProc id <$> ls) s' ∧ n_procs s' !! id = Some p' ∧ n_net s' = rn ∧ n_st s' = st.
Proof.
  revert s p. induction ls as [|l ls IH]; intros s p Hp; simpl.
  - intros [= <- <- <-]. exists s. by split; [constructor|].
  - destruct (proc_next _ _ _ _) as [[[[rn1 st1] p1]| |]|] eqn:E; [|done..]. intros Hr.
    eassert (Hst : net_step s (NProc id l) _).
    { unfold net_step. simpl. rewrite Hp. simpl. rewrite E. simpl. reflexivity. }
    destruct (IH (mkNet rn1 st1 (<[id := p1]> (n_procs s))
      (match p_handler p, p_handler p1 with None, Some rep => n_execs s ++ [(id, rep)] | _, _ => n_execs s end)
      (n_done s) (n_running s)) p1) as (s' & He & Hs'); [simpl; by rewrite lookup_insert_eq | exact Hr|].
    exists s'. split; [|done]. eapply exec_cons; [exact Hst | exact He].
Qed.

Lemma delivery_path (rn : Network (St:=St)) st req i obj obj' r st' :
  connected (endname req) i rn → heap rn !! i_server i = Some obj → Server_dispatch obj req st = Ret (obj', r, st') →
  ∃ p', proc_run rn st (new_proc req) [DoRead; DoSend 0; DoHandler; DoReply; DoDecide 0 0] =
      Some (add_bytes (len (reply r)) (set_obj (i_server i) obj' rn), st', p') ∧ p_pc p' = PReplied r.
Proof.
  intros (Hrel & Hlong & Hen & Hconn & Hsrv & Hir & Hil) Hobj Hsd.
  assert (Hi : i = mkInfo (i_servername i) (i_server i) true false) by (destruct i; simpl in *; congruence).
  cbn [proc_run proc_next new_proc p_pc endname p_req]. unfold readEndnameInfo. rewrite Hen, Hconn, Hsrv, Hrel, Hlong, <- Hi.
  cbn [goto p_pc p_run p_handler p_req]. rewrite Hir. cbn [negb andb p_run p_handler p_req p_pc]. rewrite Hobj.
  unfold new_proc. cbn [p_req]. rewrite Hsd.
  cbn [mbind outcome_bind p_pc p_handler goto p_req p_run].
  assert (Hd : isServerDead (endname req) (i_servername i) (i_server i) (set_obj (i_server i) obj' rn) = false).
  { unfold isServerDead, set_obj. cbn [enabled servers]. rewrite Hen. simpl. by rewrite bool_decide_false by (intros Hn; by apply Hn). }
  rewrite Hd, Hir, Hil. cbn [negb andb]. by eexists.
Qed.
End paths.

(** ** Properties *)

Lemma MakeService_lookup {St} name (ms : list (Method (St:=St))) mth :
  methods (MakeService name ms) !! mth = last (filter (λ m, suitable m = true ∧ MName m = mth) ms).
Proof.
  unfold MakeService. cbn [methods]. induction ms as [|m ms IH] using rev_ind; [done|].
  rewrite fold_left_app, filter_app. cbn [fold_left]. destruct (suitable m) eqn:Hs.
  - destruct (decide (MName m = mth)) as [Hm|Hm].
    + rewrite filter_cons_True, filter_nil by done. rewrite last_snoc, Hm. by rewrite lookup_insert_eq.
    + rewrite filter_cons_False by (intros [_ H]; done). rewrite filter_nil, app_nil_r. by rewrite lookup_insert_ne.
  - rewrite filter_cons_False by (intros [H _]; congruence). by rewrite filter_nil, app_nil_r.
Qed.

(** A call of [name.method] on a server to which [MakeService] registered
    a receiver under [name] counts the call and runs the last suitable method
    of that name on the decoded arguments, where the method is the part of the
    string after the last dot; an unknown or unsuitable method stops the
    program. *)
Theorem rpc_calls_the_named_method {St} name mth (ms : list (Method (St:=St))) rs req st :
  svcMeth req = (name +:+ String dot mth)%string → split_last_dot mth = None → dispatchf rs = None →
  Server_dispatch (AddService (MakeService name ms) rs) req st =
    match last (filter (λ m, suitable m = true ∧ MName m = mth) ms) with
    | Some m =>
        '(rb, st) ← Func m (args req) st;
        Ret (mkServer (<[name := MakeService name ms]> (services rs)) (wrapS 64 (scount rs + 1)) None,
             mkReply true rb, st)
    | None => Fatal
    end.
Proof.
  intros Hm Hdot Hf. unfold Server_dispatch, AddService. cbn [services scount dispatchf svc_name].
  rewrite Hm, split_last_dot_app, Hf by done. change (svc_name (MakeService name ms)) with name.
  rewrite lookup_insert_eq. unfold Service_dispatch. rewrite MakeService_lookup.
  destruct (last _) as [m|]; [|done]. by destruct (Func m (args req) st) as [[rb st']| |].
Qed.

(** C9 However the network's goroutines interleave, with any configuration
    changes by the tester, an RPC runs its handler at most once, and a [Call]
    that returns true returns the decoding of the reply of exactly that run. *)
Theorem rpc_at_most_once {St R} (Unmarshall : bytes → R → outcome R) (st : St) ls s id p r v v' :
  exec net_step (net_init st) ls s → n_procs s !! id = Some p →
  (length (execs_of id (n_execs s)) <= 1)%nat ∧
  (p_pc p = PReplied r → Call_result Unmarshall (Some r) v = Ret (true, v') →
   execs_of id (n_execs s) = [(id, r)] ∧ ok r = true ∧ Unmarshall (reply r) v = Ret v').
Proof.
  intros He Hp. pose proof (net_inv_exec _ _ _ He id) as Hi. rewrite Hp in Hi. destruct Hi as [-> Hok].
  split; [destruct (p_handler p); simpl; lia|]. unfold proc_ok in Hok. unfold Call_result. intros Hpc. rewrite Hpc in Hok.
  destruct (ok r) eqn:Er; [|done]. destruct Hok as [->| ->]; [done|].
  destruct (Unmarshall (reply r) v) as [u| |]; [|done..]. simpl. by intros [= ->].
Qed.

(** A request for a server that the tester unregisters before the network
    has decided on a reply is answered with a failure, whatever its handler did
    and even if another server is registered under the name meanwhile. *)
Theorem unregistered_server_never_answers {St} (s : netsys (St:=St)) id p i ls s' p' r :
  n_procs s !! id = Some p → to_server p i → is_Some (heap (n_net s) !! i_server i) →
  lookup_zero None (i_servername i) (servers (n_net s)) ≠ Some (i_server i) →
  exec net_step s ls s' → n_procs s' !! id = Some p' → p_pc p' = PReplied r → r = failure.
Proof.
  intros Hp Hto Hh Hd He Hp' Hr.
  destruct (dead_exec id i s ls s') as (_ & _ & p1 & Hp1 & Hpc); [|done|].
  { split; [done|]. split; [done|]. exists p. auto. }
  assert (p1 = p') as -> by congruence. unfold to_server in Hpc.
  destruct Hpc as [[?|[?|[? ?]]]|?]; congruence.
Qed.

(** C27 On a reliable network that the tester leaves alone, a request from an
    enabled end connected to a registered server is never dropped: any reply
    it gets is its handler's; and if the handler returns, the request's own
    steps take it to that reply. *)
Theorem reliable_network_delivers {St} (s : netsys (St:=St)) id req i obj obj' r st' :
  n_procs s !! id = Some (new_proc req) → connected (endname req) i (n_net s) →
  heap (n_net s) !! i_server i = Some obj → Server_dispatch obj req (n_st s) = Ret (obj', r, st') →
  (∀ ls s' p' r', exec net_step s ls s' → Forall (λ l, ∀ op, l ≠ NConfig op) ls →
     n_procs s' !! id = Some p' → p_pc p' = PReplied r' → p_handler p' = Some r') ∧
  ∃ s' p', exec net_step s (NProc id <$> [DoRead; DoSend 0; DoHandler; DoReply; DoDecide 0 0]) s' ∧
    n_procs s' !! id = Some p' ∧ p_pc p' = PReplied r ∧ n_st s' = st' ∧
    nbytes (n_net s') = wrapS 64 (nbytes (n_net s) + len (reply r)).
Proof.
  intros Hp Hc Hobj Hsd. split.
  - intros ls s' p' r' He Hl Hp' Hr'.
    assert (Hi : live_inv id (endname req) i s) by (split; [done|]; by exists (new_proc req)).
    destruct (live_exec _ _ _ _ _ _ Hi Hl He) as (_ & p1 & Hp1 & _ & Hpc).
    assert (p1 = p') as -> by congruence. unfold live_pc in Hpc. by rewrite Hr' in Hpc.
  - destruct (delivery_path _ _ _ _ _ _ _ _ Hc Hobj Hsd) as (p' & Hrun & Hpc).
    destruct (proc_run_exec _ s id _ _ _ _ Hp Hrun) as (s' & He & Hp' & Hn & Hst).
    exists s', p'. by rewrite Hn.
Qed.

(** ** Witnesses: an echo server *)

Module Echo.
(** The service counts its calls and echoes the argument. *)
Definition echo : Method (St:=Z) := mkMethod EmptyString "Echo" 3 true 0 (λ a n, Ret (a, n + 1)).
Definition server : Server (St:=Z) := AddService (MakeService "S" [echo]) MakeServer.
Definition req : reqMsg := mkReq "e" "S.Echo" "hi".
Definition hi : replyMsg := mkReply true "hi".
Definition the_info : info := mkInfo "srv" 7 true false.

Definition setup : list (net_label (St:=Z)) :=
  NConfig <$> [CMakeEnd "e"; CAddServer "srv" 7 server; CConnect "e" "srv"; CEnable "e" true].

(** A call that is served. *)
Definition served : list net_label :=
  setup ++ NRequest 1 req :: (NProc 1 <$> [DoRead; DoSend 0; DoHandler; DoReply; DoDecide 0 0]).
(** A call that runs into [DeleteServer] while its handler's reply is on the
    way, with a server put back under the name. *)
Definition deleted : list net_label :=
  setup ++ NRequest 1 req :: (NProc 1 <$> [DoRead; DoSend 0; DoHandler]) ++
  [NConfig (CDeleteServer "srv"); NConfig (CAddServer "srv" 8 server)].

Definition get (o : option (netsys (St:=Z))) : netsys := default (net_init 0) o.
Definition served_state : netsys := get (run net_next (net_init 0) served).
Definition deleted_state : netsys := get (run net_next (net_init 0) deleted).
Definition ready_state : netsys := get (run net_next (net_init 0) (setup ++ [NRequest 1 req])).
Definition answer (ls : list (net_label (St:=Z))) (s : netsys) : option (proc_pc * Z) :=
  s ← run net_next s ls; p ← n_procs s !! 1%nat; Some (p_pc p, n_st s).
End Echo.

Lemma rpc_calls_the_named_method_witness :
  Server_dispatch Echo.server Echo.req 5 =
    Ret (mkServer {["S" := MakeService "S" [Echo.echo]]} 1 None, Echo.hi, 6).
Proof.
  etransitivity; [apply (rpc_calls_the_named_method "S" "Echo" [Echo.echo] MakeServer Echo.req 5); reflexivity|].
  vm_compute. reflexivity.
Defined.

Lemma rpc_at_most_once_witness :
  ∃ p, n_procs Echo.served_state !! 1%nat = Some p ∧ p_pc p = PReplied Echo.hi ∧
    execs_of 1 (n_execs Echo.served_state) = [(1%nat, Echo.hi)].
Proof.
  eexists. split; [vm_compute; reflexivity|]. split; [reflexivity|].
  apply (rpc_at_most_once (λ b (_ : bytes), Ret b) 0 Echo.served Echo.served_state 1
    (mkProc Echo.req (PReplied Echo.hi) (Some 7%nat) (Some Echo.hi)) Echo.hi EmptyString "hi");
    [|vm_compute; reflexivity..].
  apply (run_exec net_step net_next); [done | vm_compute; reflexivity].
Defined.

Lemma unregistered_server_never_answers_witness :
  (p ← n_procs Echo.deleted_state !! 1%nat; p_handler p) = Some Echo.hi ∧
  Echo.answer [NProc 1 DoReply; NProc 1 (DoDecide 500 700)] Echo.deleted_state = Some (PReplied failure, 1).
Proof.
  split; [vm_compute; reflexivity|].
  assert (H : ∃ s' p' r, run net_next Echo.deleted_state [NProc 1 DoReply; NProc 1 (DoDecide 500 700)] = Some s' ∧
    n_procs s' !! 1%nat = Some p' ∧ p_pc p' = PReplied r ∧ n_st s' = 1)
    by (do 3 eexists; split; [vm_compute; reflexivity | vm_compute; done]).
  destruct H as (s' & p' & r & Hrun & Hp' & Hpc & Hst). unfold Echo.answer. rewrite Hrun. cbn [mbind option_bind].
  rewrite Hp'. cbn [mbind option_bind]. rewrite Hpc, Hst. do 2 f_equal.
  assert (H1 : n_procs Echo.deleted_state !! 1%nat =
    Some (mkProc Echo.req (PWait Echo.the_info) (Some 7%nat) (Some Echo.hi))) by (vm_compute; reflexivity).
  assert (H2 : to_server (mkProc Echo.req (PWait Echo.the_info) (Some 7%nat) (Some Echo.hi)) Echo.the_info)
    by (right; left; reflexivity).
  assert (H3 : is_Some (heap (n_net Echo.deleted_state) !! i_server Echo.the_info)) by (vm_compute; by eexists).
  assert (H4 : lookup_zero None (i_servername Echo.the_info) (servers (n_net Echo.deleted_state)) ≠
    Some (i_server Echo.the_info)) by (vm_compute; done).
  assert (H5 : exec net_step Echo.deleted_state [NProc 1 DoReply; NProc 1 (DoDecide 500 700)] s')
    by (apply (run_exec net_step net_next); [done | exact Hrun]).
  by rewrite (unregistered_server_never_answers _ _ _ _ _ _ _ _ H1 H2 H3 H4 H5 Hp' Hpc).
Defined.

Lemma reliable_network_delivers_witness :
  ∃ s' p', exec net_step Echo.ready_state (NProc 1 <$> [DoRead; DoSend 0; DoHandler; DoReply; DoDecide 0 0]) s' ∧
    n_procs s' !! 1%nat = Some p' ∧ p_pc p' = PReplied Echo.hi ∧ n_st s' = 1 ∧ nbytes (n_net s') = 4.
Proof.
  assert (H1 : n_procs Echo.ready_state !! 1%nat = Some (new_proc Echo.req)) by (vm_compute; reflexivity).
  assert (H2 : connected (endname Echo.req) Echo.the_info (n_net Echo.ready_state)) by (vm_compute; by repeat split).
  assert (H3 : heap (n_net Echo.ready_state) !! i_server Echo.the_info = Some Echo.server) by (vm_compute; reflexivity).
  assert (H4 : ∃ obj', Server_dispatch Echo.server Echo.req (n_st Echo.ready_state) = Ret (obj', Echo.hi, 1))
    by (eexists; vm_compute; reflexivity).
  destruct H4 as [obj' H4].
  destruct (reliable_network_delivers Echo.ready_state 1 Echo.req Echo.the_info Echo.server obj' Echo.hi 1 H1 H2 H3 H4)
    as [_ (s' & p' & He & Hp' & Hpc & Hst & Hb)].
  exists s', p'. split; [exact He|]. split; [exact Hp'|]. split; [exact Hpc|]. split; [exact Hst|].
  rewrite Hb. vm_compute. reflexivity.
Defined.
