(* ===== verification/Demux.v ===== *)
(** * Multiplexed calls over a connection: [tester1/demux]

    Goroutines of the client share one connection: [SendReceive] tags its
    request, registers a channel under the tag, writes, and waits; the client's
    reader hands every reply to the channel of its tag, and fails the
    outstanding calls when the connection ends. The server handles requests
    concurrently and answers in any order. Each critical section, each write
    and each hand-over on a channel is one step of a transition system; a
    connection may break at any time. Frames on the wire are modelled apart,
    over the encoding of [labgob], a parameter. *)

From S2P Require Import Prelude.

Open Scope list_scope.
Open Scope Z_scope.

(** ** [transport.go] *)

(** [type Ttag uint32] *)
Abbreviation Ttag := Z (only parsing).

Record msg := mkMsg { Tag : Ttag; Data : list Z; Ok : bool }.

Inductive read_error := EOF | ErrUnexpectedEOF.

Section transport.
Context (Marshall : msg → list Z) (Unmarshall : list Z → msg).

(** [binary.LittleEndian] on a [uint32]. *)
Definition le32 (n : Z) : list Z := [n `mod` 256; (n / 256) `mod` 256; (n / 65536) `mod` 256; (n / 16777216) `mod` 256].
Definition of_le32 (a b c d : Z) : Z := a + 256 * b + 65536 * c + 16777216 * d.

(** The bytes [WriteCall] puts on the connection. *)
Definition WriteCall (tag : Ttag) (d : list Z) (ok : bool) : list Z :=
  let b := Marshall (mkMsg tag d ok) in le32 (wrapU 32 (Z.of_nat (length b))) ++ b.

(** [ReadCall] on the bytes that remain before the end of the connection. *)
Definition ReadCall (s : list Z) : (read_error + msg) * list Z :=
  match s with
  | [] => (inl EOF, [])
  | a :: b :: c :: d :: s =>
      let n := Z.to_nat (of_le32 a b c d) in
      if decide (length s < n)%nat
      then (inl (if decide (s = []) then EOF else ErrUnexpectedEOF), [])
      else (inr (Unmarshall (take n s)), drop n s)
  | _ => (inl ErrUnexpectedEOF, [])
  end.

(** A reader's loop: the messages up to the first error. *)
Fixpoint read_all (fuel : nat) (s : list Z) : list msg * read_error :=
  match fuel with
  | O => ([], EOF)
  | S fuel =>
      match ReadCall s with
      | (inl e, _) => ([], e)
      | (inr m, s) => let '(ms, e) := read_all fuel s in (m :: ms, e)
      end
  end.

Definition frames (ms : list msg) : list Z := concat (map (λ m, WriteCall (Tag m) (Data m) (Ok m)) ms).
End transport.

(** ** The client and the server *)

(** [error] values, here only their text. *)
Record reply := mkReply { rep : list Z; ok : bool; err : option string }.

(** A goroutine in [SendReceive]. *)
Inductive proc :=
| PTag (req : list Z)
| PPut (tag : Ttag) (req : list Z)
| PWrite (tag : Ttag) (req : list Z)
| PWait (tag : Ttag) (req : list Z)
| PDone (req : list Z) (r : reply).

(** The client's reader: in [ReadCall], at the send on the channel of a call
    (whence it reads on or goes on with the outstanding tags), closing the call
    map, listing it, failing its calls, returned, or in [log.Fatalf]. *)
Inductive reader_pc :=
| RRead
| RDeliver (call : Z) (r : reply) (rest : option (list Ttag))
| RClose
| RList
| RFail (ts : list Ttag)
| REnd
| RFatal.

#[export] Instance reply_eq_dec : EqDecision reply.
Proof. solve_decision. Defined.
#[export] Instance proc_eq_dec : EqDecision proc.
Proof. solve_decision. Defined.
#[export] Instance reader_pc_eq_dec : EqDecision reader_pc.
Proof. solve_decision. Defined.

Record dsys := mkD {
  d_next : Ttag;
  d_closed : bool;
  d_calls : gmap Ttag Z;
  d_proc : gmap Z proc;
  d_reader : reader_pc;
  d_c2s : list (Ttag * list Z);
  d_serving : list (Ttag * list Z);
  d_s2c : list msg;
  d_alive : bool
}.

(** [NewDemuxClnt] has used tag 0 for its first message, which
    [NewDemuxSrv] has read. *)
Definition d_init : dsys := mkD 1 false ∅ ∅ RRead [] [] [] true.

Inductive d_label :=
| DCall (id : Z) (req : list Z)           (* a goroutine calls [SendReceive] *)
| DProc (id : Z) (written : bool)         (* its next step; whether a write succeeds *)
| DRead                                   (* the reader reads a message *)
| DReadErr                                (* or an error *)
| DReader                                 (* it makes its next step *)
| DList (ts : list Ttag)                  (* it lists the call map, in some order *)
| DSrvRead                                (* the server's reader starts a goroutine *)
| DServe (i : nat) (written : bool)       (* a request is served and answered *)
| DBreak                                  (* the connection breaks *)
| DClose.                                 (* [DemuxClnt.Close] *)

Section system.
Context (ServeRequest : list Z → list Z * bool).

(** The fields a step may change. *)
Definition set_proc (id : Z) (p : proc) (s : dsys) : dsys :=
  mkD (d_next s) (d_closed s) (d_calls s) (<[id := p]> (d_proc s)) (d_reader s) (d_c2s s) (d_serving s) (d_s2c s) (d_alive s).
Definition set_reader (r : reader_pc) (s : dsys) : dsys :=
  mkD (d_next s) (d_closed s) (d_calls s) (d_proc s) r (d_c2s s) (d_serving s) (d_s2c s) (d_alive s).
Definition set_next (t : Ttag) (s : dsys) : dsys :=
  mkD t (d_closed s) (d_calls s) (d_proc s) (d_reader s) (d_c2s s) (d_serving s) (d_s2c s) (d_alive s).
Definition set_calls (m : gmap Ttag Z) (s : dsys) : dsys :=
  mkD (d_next s) (d_closed s) m (d_proc s) (d_reader s) (d_c2s s) (d_serving s) (d_s2c s) (d_alive s).
Definition set_wires (c2s serving : list (Ttag * list Z)) (s2c : list msg) (s : dsys) : dsys :=
  mkD (d_next s) (d_closed s) (d_calls s) (d_proc s) (d_reader s) c2s serving s2c (d_alive s).
Definition set_closed (alive : bool) (s : dsys) : dsys :=
  mkD (d_next s) true (d_calls s) (d_proc s) (d_reader s) (d_c2s s) (d_serving s) (d_s2c s) alive.
Definition set_broken (s : dsys) : dsys :=
  mkD (d_next s) (d_closed s) (d_calls s) (d_proc s) (d_reader s) (d_c2s s) (d_serving s) (d_s2c s) false.

(** [callMap.put]: an error once the map is closed. *)
Definition put (tag : Ttag) (id : Z) (s : dsys) : dsys + string :=
  if d_closed s then inr "conn closed"%string else inl (set_calls (<[tag := id]> (d_calls s)) s).

(** [callMap.remove] and [callMap.outstanding], whose order is any. *)
Definition remove (t : Ttag) (s : dsys) : option (Z * dsys) :=
  match d_calls s !! t with
  | Some id => Some (id, set_calls (delete t (d_calls s)) s)
  | None => None
  end.
Definition outstanding (s : dsys) (ts : list Ttag) : Prop := ts ≡ₚ (map_to_list (d_calls s)).*1.
#[export] Instance outstanding_dec s ts : Decision (outstanding s ts).
Proof. unfold outstanding. apply _. Defined.

(** [DemuxClnt.tag] *)
Definition tag (s : dsys) : Ttag * dsys := (d_next s, set_next (wrapU 32 (d_next s + 1)) s).

(** [DemuxClnt.Close] *)
Definition Close (s : dsys) : dsys := if d_closed s then s else set_closed false s.

(** One step of [SendReceive]. *)
Definition proc_step (id : Z) (written : bool) (s : dsys) : option dsys :=
  p ← d_proc s !! id;
  match p with
  | PTag req => let '(t, s) := tag s in Some (set_proc id (PPut t req) s)
  | PPut t req =>
      match put t id s with
      | inl s => Some (set_proc id (PWrite t req) s)
      | inr e => Some (set_proc id (PDone req (mkReply [] false (Some e))) s)
      end
  | PWrite t req =>
      if negb written && d_alive s then None
      else Some (set_proc id (PWait t req)
                   (if written then set_wires (d_c2s s ++ [(t, req)]) (d_serving s) (d_s2c s) s else s))
  | PWait _ _ | PDone _ _ => None
  end.

(** [DemuxClnt.reply], up to the send on the channel. *)
Definition reply_step (t : Ttag) (r : reply) (rest : option (list Ttag)) (s : dsys) : dsys :=
  match remove t s with
  | Some (id, s) => set_reader (RDeliver id r rest) s
  | None => set_reader RFatal s
  end.

Definition reader_step (s : dsys) : option dsys :=
  match d_reader s with
  | RDeliver id r rest =>
      match d_proc s !! id with
      | Some (PWait t req) =>
          Some (set_reader (match rest with None => RRead | Some ts => RFail ts end) (set_proc id (PDone req r) s))
      | _ => None
      end
  | RClose => Some (set_reader RList (set_closed (d_alive s) s))
  | RFail [] => Some (set_reader REnd s)
  | RFail (t :: ts) => Some (reply_step t (mkReply [] false (Some "reader reply fail"%string)) (Some ts) s)
  | _ => None
  end.

Definition d_step (s : dsys) (l : d_label) : option dsys :=
  match l with
  | DCall id req => if decide (d_proc s !! id = None) then Some (set_proc id (PTag req) s) else None
  | DProc id written => proc_step id written s
  | DRead =>
      match d_reader s, d_s2c s with
      | RRead, m :: ms => Some (reply_step (Tag m) (mkReply (Data m) (Ok m) None) None (set_wires (d_c2s s) (d_serving s) ms s))
      | _, _ => None
      end
  | DReadErr => if decide (d_reader s = RRead ∧ d_alive s = false) then Some (set_reader RClose s) else None
  | DReader => reader_step s
  | DList ts =>
      if decide (d_reader s = RList ∧ outstanding s ts) then Some (set_reader (RFail ts) s) else None
  | DSrvRead =>
      match d_c2s s with
      | m :: ms => Some (set_wires ms (d_serving s ++ [m]) (d_s2c s) s)
      | [] => None
      end
  | DServe i written =>
      '(t, req) ← d_serving s !! i;
      let '(b, ok) := ServeRequest req in
      if negb written && d_alive s then None
      else Some (set_wires (d_c2s s) (delete i (d_serving s))
                   (if written then d_s2c s ++ [mkMsg t b ok] else d_s2c s) s)
  | DBreak => Some (set_broken s)
  | DClose => Some (Close s)
  end.
End system.

(** ** The frames *)

Lemma of_le32_le32 n : 0 <= n < 2 ^ 32 → of_le32 (n `mod` 256) ((n / 256) `mod` 256) ((n / 65536) `mod` 256) ((n / 16777216) `mod` 256) = n.
Proof. intros Hn. unfold of_le32. Z.to_euclidean_division_equations. lia. Qed.

Section frames.
Context (Marshall : msg → list Z) (Unmarshall : list Z → msg).

(** A message [labgob] gives back, in a frame of 32-bit length. *)
Definition codable (m : msg) : Prop := Unmarshall (Marshall m) = m ∧ Z.of_nat (length (Marshall m)) < 2 ^ 32.

Lemma ReadCall_frame m s :
  codable m → ReadCall Unmarshall (WriteCall Marshall (Tag m) (Data m) (Ok m) ++ s) = (inr m, s).
Proof.
  intros [round_trip Hf]. unfold WriteCall. replace (mkMsg (Tag m) (Data m) (Ok m)) with m by (by destruct m).
  rewrite wrapU_small by lia. unfold le32. rewrite <- !app_assoc. simpl.
  rewrite of_le32_le32 by lia. rewrite Nat2Z.id, length_app, decide_False by lia.
  by rewrite take_app_length, drop_app_length, round_trip.
Qed.

(** A frame cut short is an error. *)
Lemma ReadCall_cut m k :
  codable m → (k < length (WriteCall Marshall (Tag m) (Data m) (Ok m)))%nat →
  ∃ e, ReadCall Unmarshall (take k (WriteCall Marshall (Tag m) (Data m) (Ok m))) = (inl e, []) ∧ (k = 0%nat → e = EOF).
Proof.
  intros [_ Hf]. unfold WriteCall. replace (mkMsg (Tag m) (Data m) (Ok m)) with m by (by destruct m). intros Hk.
  rewrite wrapU_small in * by lia. unfold le32 in *. simpl in Hk.
  destruct k as [|[|[|[|k]]]]; simpl; [by eexists..|]. rewrite of_le32_le32, Nat2Z.id by lia.
  rewrite length_take, decide_True by lia. by eexists.
Qed.

Lemma WriteCall_length m : (4 <= length (WriteCall Marshall (Tag m) (Data m) (Ok m)))%nat.
Proof. unfold WriteCall. simpl. lia. Qed.

Lemma read_all_cut ms k fuel :
  Forall codable ms → (k <= length (frames Marshall ms))%nat → (k < fuel)%nat →
  ∃ j e, read_all Unmarshall fuel (take k (frames Marshall ms)) = (take j ms, e) ∧
    (k = length (frames Marshall ms) → j = length ms ∧ e = EOF) ∧
    (length (frames Marshall (take j ms)) <= k)%nat.
Proof.
  intros Hms. revert k fuel. induction Hms as [|m ms Hm Hms IH]; intros k [|fuel] Hk Hf; [lia| |lia|].
  - exists 0%nat, EOF. simpl in Hk. assert (k = 0%nat) as -> by lia. done.
  - cbn [frames map concat] in *. fold (frames Marshall ms) in *. set (w := WriteCall _ _ _ _) in *.
    pose proof (WriteCall_length m) as Hw. fold w in Hw. rewrite length_app in Hk. cbn [read_all].
    destruct (decide (k < length w)%nat) as [Hlt|Hge].
    + rewrite take_app_le by lia. destruct (ReadCall_cut m k Hm Hlt) as (e & E & _). fold w in E. rewrite E.
      exists 0%nat, e. split; [done|]. split; [rewrite length_app; lia | simpl; lia].
    + rewrite take_app_ge by lia. pose proof (ReadCall_frame m (take (k - length w) (frames Marshall ms)) Hm) as E.
      fold w in E. rewrite E. destruct (IH (k - length w)%nat fuel ltac:(lia) ltac:(lia)) as (j & e & -> & Hall & Hj).
      exists (S j), e. split; [done|]. split.
      * rewrite length_app. intros Hk'. destruct (Hall ltac:(lia)). split; [simpl; lia | done].
      * cbn [take frames map concat]. fold (frames Marshall (take j ms)). fold w. rewrite length_app. lia.
Qed.
End frames.

(** ** The invariant of the calls *)

Definition tag_of (p : proc) : option Ttag :=
  match p with PPut t _ | PWrite t _ | PWait t _ => Some t | _ => None end.

(** Registered in the call map and not answered yet. *)
Definition in_call (p : proc) (t : Ttag) (req : list Z) : Prop := p = PWrite t req ∨ p = PWait t req.

(** The reader still reads messages; the tags it has yet to fail. *)
Definition reading (r : reader_pc) : Prop := match r with RRead | RDeliver _ _ None => True | _ => False end.
Definition to_fail (r : reader_pc) : option (list Ttag) :=
  match r with RFail ts | RDeliver _ _ (Some ts) => Some ts | REnd => Some [] | _ => None end.
Definition after_close (r : reader_pc) : Prop := r = RList ∨ is_Some (to_fail r).

Section inv.
Context (ServeRequest : list Z → list Z * bool).

(** An answer to [req]: the server's, or a failure. *)
Definition answers (req : list Z) (r : reply) : Prop :=
  (err r = None ∧ (rep r, ok r) = ServeRequest req) ∨ (err r ≠ None ∧ rep r = [] ∧ ok r = false).

(** Failures are due to the connection. *)
Definition fair (alive : bool) (r : reply) : Prop := err r ≠ None → alive = false.

(** The goroutine that waits for the answer with this tag. *)
Definition holder (calls : gmap Ttag Z) (procs : gmap Z proc) (t : Ttag) (req : list Z) : Prop :=
  ∃ id, calls !! t = Some id ∧ procs !! id = Some (PWait t req).

Definition flight (s : dsys) : list Ttag := (d_c2s s ++ d_serving s).*1 ++ (Tag <$> d_s2c s).

(** [m] bounds the tags that may still be given out. *)
Record calls_inv (m : Z) (s : dsys) : Prop := {
  ci_next : 0 < d_next s ∧ d_next s + m < 2 ^ 32;
  ci_tags : ∀ id p t, d_proc s !! id = Some p → tag_of p = Some t → 0 < t < d_next s;
  ci_unique : ∀ id id' p p' t, d_proc s !! id = Some p → d_proc s !! id' = Some p' →
    tag_of p = Some t → tag_of p' = Some t → id = id';
  ci_calls : ∀ t id, d_calls s !! t = Some id → ∃ p req, d_proc s !! id = Some p ∧ in_call p t req;
  ci_registered : ∀ id p t req, d_proc s !! id = Some p → in_call p t req →
    d_calls s !! t = Some id ∨ ∃ r rest, d_reader s = RDeliver id r rest;
  ci_deliver : ∀ id r rest, d_reader s = RDeliver id r rest →
    ∃ p t req, d_proc s !! id = Some p ∧ in_call p t req ∧ d_calls s !! t = None ∧ (rest = None → p = PWait t req) ∧
      answers req r ∧ fair (d_alive s) r;
  ci_done : ∀ id req r, d_proc s !! id = Some (PDone req r) → answers req r ∧ fair (d_alive s) r;
  ci_to_fail : ∀ ts, to_fail (d_reader s) = Some ts → NoDup ts ∧ ∀ t, t ∈ ts ↔ is_Some (d_calls s !! t);
  ci_closed : (d_closed s = true → d_alive s = false) ∧ (d_reader s = RClose → d_alive s = false) ∧
    (after_close (d_reader s) → d_closed s = true);
  ci_fatal : d_reader s ≠ RFatal
}.

(** While the reader reads, every message belongs to a goroutine that waits. *)
Record flight_inv (s : dsys) : Prop := {
  fi_nodup : NoDup (flight s);
  fi_requests : Forall (λ x, holder (d_calls s) (d_proc s) x.1 x.2) (d_c2s s ++ d_serving s);
  fi_replies : Forall (λ x, ∃ req, holder (d_calls s) (d_proc s) (Tag x) req ∧ (Data x, Ok x) = ServeRequest req) (d_s2c s)
}.

Definition demux_inv (m : Z) (s : dsys) : Prop := calls_inv m s ∧ (reading (d_reader s) → flight_inv s).

(** Holders that a step keeps. *)
Lemma flight_keep s s' :
  d_c2s s' = d_c2s s → d_serving s' = d_serving s → d_s2c s' = d_s2c s →
  (∀ t req, holder (d_calls s) (d_proc s) t req → t ∈ flight s → holder (d_calls s') (d_proc s') t req) →
  flight_inv s → flight_inv s'.
Proof.
  intros E1 E2 E3 Hh [Hn Hq Hr]. split.
  - unfold flight. by rewrite E1, E2, E3.
  - rewrite E1, E2. rewrite Forall_forall in *. intros x Hx. apply Hh; [by apply Hq|].
    unfold flight. rewrite elem_of_app. left. by apply list_elem_of_fmap_2.
  - rewrite E3. rewrite Forall_forall in *. intros x Hx. destruct (Hr x Hx) as (req & Hho & Hd). exists req.
    split; [|done]. apply Hh; [done|]. unfold flight. rewrite elem_of_app. right. by apply list_elem_of_fmap_2.
Qed.

(** The tag of a message in flight is that of a waiting goroutine. *)
Lemma flight_holder s t : flight_inv s → t ∈ flight s → ∃ req, holder (d_calls s) (d_proc s) t req.
Proof.
  intros [_ Hq Hr]. unfold flight. rewrite elem_of_app. rewrite Forall_forall in Hq; rewrite Forall_forall in Hr.
  intros [(x & -> & Hx)%list_elem_of_fmap|(x & -> & Hx)%list_elem_of_fmap].
  - exists x.2. by apply Hq.
  - destruct (Hr x Hx) as (req & ? & _). by exists req.
Qed.

Lemma in_call_tag p t req : in_call p t req → tag_of p = Some t.
Proof. by intros [-> | ->]. Qed.

Ltac split_insert :=
  repeat match goal with
  | H : <[_ := _]> _ !! _ = Some _ |- _ => apply lookup_insert_Some in H as [[? ?]|[? H]]; simplify_eq/=
  end.

(** A fresh goroutine. *)
Lemma inv_call m s id req : demux_inv m s → d_proc s !! id = None → demux_inv m (set_proc id (PTag req) s).
Proof.
  intros [[] Hf] Hid. split.
  - split; cbn [set_proc d_next d_closed d_calls d_proc d_reader d_c2s d_serving d_s2c d_alive]; try done.
    + intros id' p t H Ht. split_insert. by eapply ci_tags0.
    + intros id1 id2 p1 p2 t H1 H2 Ht1 Ht2. split_insert. by eapply ci_unique0.
    + intros t id' H. destruct (ci_calls0 t id' H) as (p & r & Hp & Hc). exists p, r.
      split; [|done]. rewrite lookup_insert_ne; congruence.
    + intros id' p t r H Hc. split_insert; [by destruct Hc|]. by eapply ci_registered0.
    + intros id' r rest H. destruct (ci_deliver0 id' r rest H) as (p & t & q & Hp & ?). exists p, t, q.
      split; [|done]. rewrite lookup_insert_ne; congruence.
    + intros id' q r H. split_insert. by eapply ci_done0.
  - intros Hr. apply (flight_keep s); [done..| |by apply Hf]. intros t q (id' & ? & ?) _. exists id'.
    split; [done|]. cbn [set_proc d_proc]. rewrite lookup_insert_ne; congruence.
Qed.

Ltac fields := cbn [set_proc set_next set_calls set_reader set_wires set_closed set_broken
  d_next d_closed d_calls d_proc d_reader d_c2s d_serving d_s2c d_alive].

(** [SendReceive] takes a tag. *)
Lemma inv_tag m s id req :
  demux_inv (m + 1) s → 0 <= m → d_proc s !! id = Some (PTag req) →
  demux_inv m (set_proc id (PPut (tag s).1 req) (tag s).2).
Proof.
  unfold tag. cbn [fst snd]. intros [[] Hf] Hm Hid. rewrite wrapU_small by lia. split.
  - split; fields; try done; try lia.
    + intros id' p t H Ht. split_insert; [lia|]. specialize (ci_tags0 _ _ _ H Ht). lia.
    + intros id1 id2 p1 p2 t H1 H2 Ht1 Ht2. split_insert; [done| | |by eapply ci_unique0].
      * specialize (ci_tags0 _ _ _ H1 Ht1). lia.
      * specialize (ci_tags0 _ _ _ H2 Ht2). lia.
    + intros t id' H. destruct (ci_calls0 t id' H) as (p & r & Hp & Hc). exists p, r.
      split; [|done]. rewrite lookup_insert_ne; [done|]. intros ->. by destruct Hc as [-> | ->]; rewrite Hid in Hp.
    + intros id' p t r H Hc. split_insert; [by destruct Hc|]. by eapply ci_registered0.
    + intros id' r rest H. destruct (ci_deliver0 id' r rest H) as (p & t & q & Hp & Hc & ?). exists p, t, q.
      split; [|done]. rewrite lookup_insert_ne; [done|]. intros ->. by destruct Hc as [-> | ->]; rewrite Hid in Hp.
    + intros id' q r H. split_insert. by eapply ci_done0.
  - intros Hr. apply (flight_keep s); [done..| |by apply Hf]. intros t q (id' & ? & ?) _. exists id'.
    split; [done|]. fields. rewrite lookup_insert_ne; congruence.
Qed.

(** It registers its channel, or finds the call map closed. *)
Lemma inv_put m s id t req :
  demux_inv m s → d_proc s !! id = Some (PPut t req) → d_closed s = false →
  demux_inv m (set_proc id (PWrite t req) (set_calls (<[t := id]> (d_calls s)) s)).
Proof.
  intros [[] Hf] Hid Hcl.
  assert (Hnone : d_calls s !! t = None).
  { destruct (d_calls s !! t) as [id'|] eqn:E; [|done]. destruct (ci_calls0 t id' E) as (p & r & Hp & Hc).
    assert (id = id') as <- by (eapply ci_unique0; [exact Hid|exact Hp|done|by eapply in_call_tag]).
    by destruct Hc as [-> | ->]; rewrite Hid in Hp. }
  assert (Hopen : to_fail (d_reader s) = None).
  { destruct (to_fail (d_reader s)) eqn:E; [|done]. destruct ci_closed0 as (_ & _ & Hc).
    rewrite Hc in Hcl by (right; by rewrite E). done. }
  split.
  - split; fields; try done; try congruence.
    + intros id' p t' H Ht. split_insert; by eapply ci_tags0.
    + intros id1 id2 p1 p2 t' H1 H2 Ht1 Ht2. split_insert; [done|by eapply ci_unique0..].
    + intros t' id' H. split_insert; [eexists _, req; rewrite lookup_insert_eq; split; [done | by left]|].
      destruct (ci_calls0 t' id' H) as (p & r & Hp & Hc). exists p, r.
      split; [|done]. rewrite lookup_insert_ne; [done|]. intros ->. by destruct Hc as [-> | ->]; rewrite Hid in Hp.
    + intros id' p t' r H Hc. split_insert; [destruct Hc as [[= <- <-]|]; [left; by rewrite lookup_insert_eq | done]|].
      destruct (ci_registered0 id' p t' r H Hc) as [?|?]; [left|by right].
      rewrite lookup_insert_ne; [done|]. intros ->. congruence.
    + intros id' r rest H. destruct (ci_deliver0 id' r rest H) as (p & t' & q & Hp & Hc & Hn & ?). exists p, t', q.
      assert (id ≠ id') by (intros ->; by destruct Hc as [-> | ->]; rewrite Hid in Hp).
      split; [by rewrite lookup_insert_ne|]. split; [done|]. split; [|done]. rewrite lookup_insert_ne; [done|].
      intros ->. apply in_call_tag in Hc. by assert (id = id') by (eapply ci_unique0; [exact Hid|exact Hp|done|done]).
    + intros id' q r H. split_insert. by eapply ci_done0.
  - intros Hr. apply (flight_keep s); [done..| |by apply Hf]. intros t' q (id' & Hc & Hp) _. exists id'. fields.
    rewrite !lookup_insert_ne by congruence. done.
Qed.

Lemma inv_put_closed m s id t req e :
  demux_inv m s → d_proc s !! id = Some (PPut t req) → d_closed s = true →
  demux_inv m (set_proc id (PDone req (mkReply [] false (Some e))) s).
Proof.
  intros [[] Hf] Hid Hcl. split.
  - split; fields; try done.
    + intros id' p t' H Ht. split_insert. by eapply ci_tags0.
    + intros id1 id2 p1 p2 t' H1 H2 Ht1 Ht2. split_insert. by eapply ci_unique0.
    + intros t' id' H. destruct (ci_calls0 t' id' H) as (p & r & Hp & Hc). exists p, r.
      split; [|done]. rewrite lookup_insert_ne; [done|]. intros ->. by destruct Hc as [-> | ->]; rewrite Hid in Hp.
    + intros id' p t' r H Hc. split_insert; [by destruct Hc|]. by eapply ci_registered0.
    + intros id' r rest H. destruct (ci_deliver0 id' r rest H) as (p & t' & q & Hp & Hc & ?). exists p, t', q.
      split; [|done]. rewrite lookup_insert_ne; [done|]. intros ->. by destruct Hc as [-> | ->]; rewrite Hid in Hp.
    + intros id' q r H. split_insert; [|by eapply ci_done0]. split; [right; by split|]. intros _. exact (proj1 ci_closed0 Hcl).
  - intros Hr. apply (flight_keep s); [done..| |by apply Hf]. intros t' q (id' & ? & ?) _. exists id'.
    split; [done|]. fields. rewrite lookup_insert_ne; congruence.
Qed.

(** It writes its request, or fails to. *)
Lemma inv_write m s id t req (written : bool) :
  demux_inv m s → d_proc s !! id = Some (PWrite t req) →
  demux_inv m (set_proc id (PWait t req) (if written then set_wires (d_c2s s ++ [(t, req)]) (d_serving s) (d_s2c s) s else s)).
Proof.
  intros [[] Hf] Hid.
  assert (Hcore : calls_inv m (set_proc id (PWait t req) s)).
  { split; fields; try done.
    - intros id' p t' H Ht. split_insert; by eapply ci_tags0.
    - intros id1 id2 p1 p2 t' H1 H2 Ht1 Ht2. split_insert; [done|by eapply ci_unique0..].
    - intros t' id' H. destruct (ci_calls0 t' id' H) as (p & r & Hp & Hc). destruct (decide (id = id')) as [<-|].
      + exists (PWait t req), r. rewrite lookup_insert_eq. split; [done|]. rewrite Hid in Hp.
        injection Hp as <-. destruct Hc as [[= -> ->]|]; [by right | done].
      + exists p, r. by rewrite lookup_insert_ne.
    - intros id' p t' r H Hc. split_insert; [|by eapply ci_registered0].
      destruct Hc as [|[= <- <-]]; [done|]. by eapply ci_registered0; [|by left].
    - intros id' r rest H. destruct (ci_deliver0 id' r rest H) as (p & t' & q & Hp & Hc & Hn & Hw & ?).
      destruct (decide (id = id')) as [<-|]; [|exists p, t', q; by rewrite lookup_insert_ne].
      exists (PWait t req), t', q. rewrite lookup_insert_eq. rewrite Hid in Hp. injection Hp as <-.
      destruct Hc as [[= <- <-]|]; [|done]. split; [done|]. split; [by right|]. split; [done|]. by split.
    - intros id' q r H. split_insert. by eapply ci_done0. }
  assert (Hkeep : reading (d_reader s) → flight_inv (set_proc id (PWait t req) s)).
  { intros Hr. apply (flight_keep s); [done..| |by apply Hf]. intros t' q (id' & ? & ?) _. exists id'.
    split; [done|]. fields. rewrite lookup_insert_ne; congruence. }
  destruct written; [|by split]. split; [by destruct Hcore|]. fields. intros Hr. specialize (Hkeep Hr).
  assert (Hnew : holder (d_calls s) (<[id := PWait t req]> (d_proc s)) t req).
  { exists id. rewrite lookup_insert_eq. split; [|done].
    destruct (ci_registered0 id _ t req Hid ltac:(by left)) as [?|(r & rest & Hd)]; [done|].
    destruct (ci_deliver0 id r rest Hd) as (p & t' & q & Hp & _ & _ & Hw & _). rewrite Hd in Hr.
    destruct rest; [done|]. rewrite Hw in Hp by done. congruence. }
  assert (Hfresh : t ∉ flight s).
  { intros Ht. destruct (flight_holder s t (Hf Hr) Ht) as (q & id' & _ & Hp).
    assert (id = id') as <- by (by eapply ci_unique0). congruence. }
  destruct Hkeep as [Hn Hq Hrep]. split; fields.
  - assert (E : flight (set_wires (d_c2s s ++ [(t, req)]) (d_serving s) (d_s2c s) s) ≡ₚ t :: flight s).
    { unfold flight. fields. rewrite !fmap_app. simpl. solve_Permutation. }
    change (NoDup (flight (set_wires (d_c2s s ++ [(t, req)]) (d_serving s) (d_s2c s) s))). rewrite E.
    by constructor.
  - rewrite <- app_assoc. apply Forall_app in Hq as [H1 H2]. apply Forall_app. split; [done|]. by constructor.
  - done.
Qed.

(** The reader takes the channel of a tag that is registered. *)
Lemma inv_reply m s t id r rest :
  calls_inv m s → d_calls s !! t = Some id →
  (∀ q, d_proc s !! id = Some (PWait t q) ∨ d_proc s !! id = Some (PWrite t q) → answers q r) →
  (rest = None → ∃ q, d_proc s !! id = Some (PWait t q)) → fair (d_alive s) r →
  (∀ i q z, d_reader s ≠ RDeliver i q z) →
  (∀ ts, rest = Some ts → d_closed s = true ∧ NoDup (t :: ts) ∧ ∀ x, x ∈ t :: ts ↔ is_Some (d_calls s !! x)) →
  calls_inv m (reply_step t r rest s).
Proof.
  intros [] Hid Hans Hw Hfair Hnd Hrest. unfold reply_step, remove. rewrite Hid.
  destruct (ci_calls0 t id Hid) as (p & q & Hp & Hc).
  split; fields; try done.
  - intros t' id' H. apply lookup_delete_Some in H as [_ H]. by apply ci_calls0.
  - intros id' p' t' q' Hp' Hc'. destruct (decide (t' = t)) as [->|Hne].
    + right. destruct (ci_registered0 id' p' t q' Hp' Hc') as [E|(x & y & E)]; [|by apply Hnd in E].
      exists r, rest. congruence.
    + left. rewrite lookup_delete_ne by done.
      destruct (ci_registered0 id' p' t' q' Hp' Hc') as [E|(x & y & E)]; [done | by apply Hnd in E].
  - intros id' r' rest' [= <- <- <-]. exists p, t, q. split; [done|].
    split; [exact Hc|]. split; [by rewrite lookup_delete_eq|].
    split; [intros E; destruct (Hw E) as [q' Hq']; rewrite Hp in Hq'; injection Hq' as ->; destruct Hc as [|[= <-]]; done|].
    split; [|done]. apply Hans. destruct Hc as [-> | ->]; auto.
  - intros ts E. destruct rest as [ts'|]; [|done]. injection E as <-. destruct (Hrest ts' eq_refl) as (_ & Hn & Hin).
    apply NoDup_cons in Hn as [Ht Hn]. split; [done|]. intros x. rewrite lookup_delete_is_Some.
    rewrite <- Hin, elem_of_cons. split; [|naive_solver]. intros Hx. split; [by intros -> | by right].
  - destruct ci_closed0 as (H1 & H2 & H3). split; [done|]. split; [done|]. intros [|[ts E]]; [done|].
    destruct rest as [ts'|]; [|done]. by destruct (Hrest ts' eq_refl).
Qed.

Lemma inv_read m s x ms :
  demux_inv m s → d_reader s = RRead → d_s2c s = x :: ms →
  demux_inv m (reply_step (Tag x) (mkReply (Data x) (Ok x) None) None (set_wires (d_c2s s) (d_serving s) ms s)).
Proof.
  intros [Hc Hf] Hr Hs. specialize (Hf ltac:(by rewrite Hr)). destruct Hf as [Hn Hq Hrep].
  rewrite Hs in Hrep. apply Forall_cons in Hrep as [(req & (id & Hid & Hp) & Hd) Hrep].
  set (s1 := set_wires (d_c2s s) (d_serving s) ms s).
  assert (Hc1 : calls_inv m s1) by (by destruct Hc). split.
  - apply (inv_reply m s1 (Tag x) id); [done|done| | |by intros E; destruct E| |done].
    + intros q [E|E]; fields; cbn [s1 set_wires d_proc] in E; [|congruence]. rewrite Hp in E. injection E as <-. by left.
    + intros _. by exists req.
    + cbn [s1 set_wires d_reader]. rewrite Hr. done.
  - intros _. unfold reply_step, remove. cbn [s1 set_wires d_calls]. rewrite Hid. unfold flight in Hn. rewrite Hs in Hn.
    assert (Hn' : NoDup (Tag x :: flight s1)).
    { rewrite (Permutation_middle ((d_c2s s ++ d_serving s).*1) (Tag <$> ms) (Tag x) : Tag x :: flight s1 ≡ₚ _). exact Hn. }
    apply NoDup_cons in Hn' as [Hx Hn'].
    assert (Hf1 : flight_inv s1) by (by split).
    eapply (flight_keep s1); [done..| |exact Hf1]. intros t q (id' & Hc' & Hp') Ht. exists id'. fields.
    split; [|done]. rewrite lookup_delete_ne; [done|]. intros E; by rewrite E in Hx.
Qed.

(** It hands the reply over. *)
Lemma inv_deliver m s id r rest t req :
  demux_inv m s → d_reader s = RDeliver id r rest → d_proc s !! id = Some (PWait t req) →
  demux_inv m (set_reader (match rest with None => RRead | Some ts => RFail ts end) (set_proc id (PDone req r) s)).
Proof.
  intros [[] Hf] Hr Hid. destruct (ci_deliver0 id r rest Hr) as (p & t' & q & Hp & Hc & Hn & _ & Hans & Hfair).
  rewrite Hid in Hp. injection Hp as <-. destruct Hc as [|[= <- <-]]; [done|].
  assert (Hother : ∀ t' id', d_calls s !! t' = Some id' → id' ≠ id).
  { intros t' id' H ->. destruct (ci_calls0 t' id H) as (p & q & Hp & Hc). rewrite Hid in Hp. injection Hp as <-.
    destruct Hc as [|[= <- <-]]; [done|]. congruence. }
  split.
  - split; fields; try done.
    + intros id' p t' H Ht. split_insert. by eapply ci_tags0.
    + intros id1 id2 p1 p2 t' H1 H2 Ht1 Ht2. split_insert. by eapply ci_unique0.
    + intros t' id' H. destruct (ci_calls0 t' id' H) as (p & q & Hp & Hc). exists p, q.
      split; [|done]. rewrite lookup_insert_ne; [done|]. by apply not_eq_sym, (Hother t').
    + intros id' p t' q H Hc. split_insert; [by destruct Hc|]. left.
      destruct (ci_registered0 id' p t' q H Hc) as [?|(x & y & E)]; [done|]. rewrite Hr in E. by injection E.
    + by destruct rest.
    + intros id' q r' H. split_insert; [done|]. by eapply ci_done0.
    + intros ts E. apply ci_to_fail0. rewrite Hr. by destruct rest.
    + destruct ci_closed0 as (H1 & H2 & H3). split; [done|]. split; [by destruct rest|]. intros Ha. apply H3.
      rewrite Hr. destruct rest; destruct Ha as [|[? ?]]; try done. right. by eexists.
    + by destruct rest.
  - fields. intros Hrd. destruct rest as [ts|]; [done|]. apply (flight_keep s); [done..| |apply Hf; by rewrite Hr].
    intros t' q (id' & Hc & Hp) _. exists id'. fields. split; [done|]. rewrite lookup_insert_ne; [done|].
    by apply not_eq_sym, (Hother t').
Qed.

(** The connection ends: the reader closes the map, lists it, and fails the
    tags one by one. *)
Lemma inv_reader_fail m s t ts :
  demux_inv m s → d_reader s = RFail (t :: ts) →
  demux_inv m (reply_step t (mkReply [] false (Some "reader reply fail"%string)) (Some ts) s).
Proof.
  intros [Hc _] Hr. destruct (ci_to_fail _ _ Hc (t :: ts)) as [Hn Hin]; [by rewrite Hr|].
  destruct (proj1 (Hin t) ltac:(left)) as [id Hid]. destruct (ci_closed _ _ Hc) as (Hal & _ & Hcl).
  assert (Hclosed : d_closed s = true) by (apply Hcl; right; rewrite Hr; by eexists). split.
  - apply (inv_reply m s t id); try done.
    + intros q _. right. by split; [|split].
    + by intros _; apply Hal.
    + rewrite Hr. done.
    + intros ts' [= <-]. done.
  - unfold reply_step, remove. rewrite Hid. done.
Qed.

(** Steps that touch neither the calls nor the goroutines. *)
Lemma inv_reader m s r :
  demux_inv m s → ¬ reading r → r ≠ RFatal → (∀ i q z, d_reader s ≠ RDeliver i q z) → (∀ i q z, r ≠ RDeliver i q z) →
  (∀ ts, to_fail r = Some ts → NoDup ts ∧ ∀ t, t ∈ ts ↔ is_Some (d_calls s !! t)) →
  (r = RClose → d_alive s = false) → (after_close r → d_closed s = true) → demux_inv m (set_reader r s).
Proof.
  intros [[] _] Hrd Hfatal Hold Hnew Hts Hcl Hac. split; [split; fields; try done|done].
  - intros id p t req H Hc. destruct (ci_registered0 id p t req H Hc) as [?|(x & y & E)]; [by left | by apply Hold in E].
  - by intros id q z E%Hnew.
  - by split; [apply ci_closed0|].
Qed.

(** The connection goes down, the call map being closed or not. *)
Lemma inv_down m s closed :
  demux_inv m s → (d_closed s = true → closed = true) →
  demux_inv m (mkD (d_next s) closed (d_calls s) (d_proc s) (d_reader s) (d_c2s s) (d_serving s) (d_s2c s) false).
Proof.
  intros [[] Hf] Hcl. split.
  - split; fields; try done.
    + intros id r rest H. destruct (ci_deliver0 id r rest H) as (p & t & q & ? & ? & ? & ? & ? & ?).
      exists p, t, q. by split_and!.
    + intros id q r H. destruct (ci_done0 id q r H). by split.
    + split; [done|]. split; [done|]. intros Ha. by apply Hcl, ci_closed0.
  - intros Hr. by apply (flight_keep s); [..|apply Hf].
Qed.

(** The server: a request moves on, is answered, or its answer is lost. *)
Lemma inv_wires m s c2s serving s2c :
  demux_inv m s →
  (flight_inv s → flight_inv (set_wires c2s serving s2c s)) → demux_inv m (set_wires c2s serving s2c s).
Proof. intros [[] Hf] Hw. split; [by split|]. intros Hr. by apply Hw, Hf. Qed.

Lemma flight_srv_read s x ms :
  d_c2s s = x :: ms → flight_inv s → flight_inv (set_wires ms (d_serving s ++ [x]) (d_s2c s) s).
Proof.
  intros E [Hn Hq Hr]. unfold flight in Hn. rewrite E in Hn, Hq.
  assert (Hp : ms ++ (d_serving s ++ [x]) ≡ₚ x :: (ms ++ d_serving s)) by (rewrite app_assoc; by rewrite <- Permutation_cons_append).
  split; unfold flight; fields; rewrite ?Hp; done.
Qed.

Lemma flight_serve s i t req (written : bool) :
  d_serving s !! i = Some (t, req) → flight_inv s →
  flight_inv (set_wires (d_c2s s) (delete i (d_serving s))
    (if written then d_s2c s ++ [mkMsg t (ServeRequest req).1 (ServeRequest req).2] else d_s2c s) s).
Proof.
  intros E [Hn Hq Hr]. pose proof (delete_Permutation _ _ _ E) as Hp.
  assert (Hp' : d_c2s s ++ d_serving s ≡ₚ (t, req) :: (d_c2s s ++ delete i (d_serving s)))
    by (etrans; [apply Permutation_app_head, Hp | symmetry; apply Permutation_middle]).
  unfold flight in Hn. rewrite Hp' in Hn, Hq. rewrite fmap_cons in Hn. apply NoDup_cons in Hn as [Ht Hn].
  apply Forall_cons in Hq as [Hh Hq]. destruct written; split; unfold flight; fields; try done.
  - rewrite (fmap_app Tag), app_assoc. change (Tag <$> [_]) with [t]. rewrite <- Permutation_cons_append. by constructor.
  - apply Forall_app. split; [done|]. constructor; [|done]. exists req. split; [exact Hh | by destruct (ServeRequest req)].
Qed.

Lemma demux_inv_weaken m s : demux_inv (m + 1) s → 0 <= m → demux_inv m s.
Proof. intros [[] Hf] Hm. split; [split; try done; lia | done]. Qed.

Lemma demux_inv_step m s l s' : 0 <= m → demux_inv (m + 1) s → d_step ServeRequest s l = Some s' → demux_inv m s'.
Proof.
  intros Hm Hi1. pose proof (demux_inv_weaken _ _ Hi1 Hm) as Hi. pose proof Hi as [Hc Hf]. destruct (ci_closed _ _ Hc) as (Hal & Hcl & Hac).
  destruct l as [id req|id written| | | |ts| |i written| |]; cbn [d_step].
  - case_decide; [|done]. intros [= <-]. by apply inv_call.
  - unfold proc_step. intros (p & Hp & Hs)%bind_Some. destruct p as [req|t req|t req|t req|req r]; [| | |done..].
    + injection Hs as <-. by apply inv_tag.
    + unfold put in Hs. destruct (d_closed s) eqn:Ecl; injection Hs as <-; [by eapply inv_put_closed | by apply inv_put].
    + destruct (negb written && d_alive s); [done|]. injection Hs as <-. by apply inv_write.
  - destruct (d_reader s) eqn:Er; try done. destruct (d_s2c s) as [|x ms] eqn:Es; [done|]. intros [= <-]. by apply inv_read.
  - case_decide as Hd; [|done]. destruct Hd as [Er Ha]. intros [= <-]. apply inv_reader; try done; try (by rewrite Er); try (by intros []).
    by intros [|[ts Hts]].
  - unfold reader_step. destruct (d_reader s) as [|id r rest| | |[|t ts]| |] eqn:Er; try done.
    + destruct (d_proc s !! id) as [[| | |t req|]|] eqn:Ep; try done. intros [= <-]. by eapply inv_deliver.
    + intros [= <-]. assert (Ha : d_alive s = false) by (by apply Hcl). rewrite Ha.
      pose proof (inv_down m s true Hi ltac:(done)) as Hi2. apply (inv_reader m (set_closed false s)); try done; try (by intros []); fields; by rewrite Er.
    + intros [= <-]. apply inv_reader; try done; try (by rewrite Er); try (by intros []).
      * intros ts [= <-]. apply (ci_to_fail _ _ Hc). by rewrite Er.
      * intros _. apply Hac. right. by eexists.
    + intros [= <-]. by apply inv_reader_fail.
  - case_decide as Hd; [|done]. destruct Hd as [Er Hts]. unfold outstanding in Hts. intros [= <-]. apply inv_reader; try done; try (by rewrite Er); try (by intros []).
    + intros ts' [= <-]. rewrite Hts. split; [apply NoDup_fst_map_to_list|]. intros t. rewrite Hts, list_elem_of_fmap. split.
      * intros ([t' id] & -> & Hin). exists id. by apply elem_of_map_to_list.
      * intros [id Hid]. exists (t, id). split; [done|]. by apply elem_of_map_to_list.
    + intros _. apply Hac. by left.
  - destruct (d_c2s s) as [|x ms] eqn:Ec; [done|]. intros [= <-]. apply inv_wires; [done|]. by apply flight_srv_read.
  - intros ([t req] & Ei & Hs)%bind_Some. pose proof (flight_serve s i t req written Ei) as Hw.
    destruct (ServeRequest req) as [b ok]. destruct (negb written && d_alive s); [done|]. injection Hs as <-. by apply inv_wires.
  - intros [= <-]. by apply (inv_down m s (d_closed s)).
  - unfold Close. destruct (d_closed s) eqn:Ecl; intros [= <-]; [done|]. by apply (inv_down m s true).
Qed.

Lemma inv_init m : 0 <= m < 2 ^ 32 - 1 → demux_inv m d_init.
Proof.
  intros Hm. split.
  - split; cbn [d_init d_next d_closed d_calls d_proc d_reader d_alive]; try done; try lia;
      try (intros; rewrite lookup_empty in *; done). by split_and!; [..|intros [|[? ?]]].
  - intros _. split; [constructor|constructor|constructor].
Qed.

Lemma demux_reachable ls s :
  Z.of_nat (length ls) < 2 ^ 32 - 1 → exec (λ s l s', d_step ServeRequest s l = Some s') d_init ls s → demux_inv 0 s.
Proof.
  intros Hls He. apply (exec_preserves_bounded _ (λ n s, demux_inv (Z.of_nat n) s)) with (n:=0%nat) in He; [done| |].
  - intros n s1 l s2 Hi Hd. eapply (demux_inv_step (Z.of_nat n)); [lia| |exact Hd].
    by replace (Z.of_nat n + 1) with (Z.of_nat (S n)) by lia.
  - apply inv_init. simpl. lia.
Qed.
End inv.

(** ** Properties *)

(** C10 Calls over one connection do not mix: however the goroutines of client
    and server, breaks of the connection and closings interleave, over fewer
    than [2^32 - 1] steps, a [SendReceive] that returns has the server's answer
    to its own request, or a failure, and a failure only if the connection is
    down; no reply comes without a call; and when the reader has returned, no
    call is left waiting. *)
Theorem demux_answers_own_request ServeRequest ls s :
  Z.of_nat (length ls) < 2 ^ 32 - 1 → exec (λ s l s', d_step ServeRequest s l = Some s') d_init ls s →
  d_reader s ≠ RFatal ∧
  (∀ id req r, d_proc s !! id = Some (PDone req r) →
     (err r = None ∧ (rep r, ok r) = ServeRequest req) ∨ (is_Some (err r) ∧ ok r = false ∧ d_alive s = false)) ∧
  (d_reader s = REnd → ∀ id t req, d_proc s !! id ≠ Some (PWrite t req) ∧ d_proc s !! id ≠ Some (PWait t req)).
Proof.
  intros Hls He. destruct (demux_reachable _ _ _ Hls He) as [[] _]. split; [done|]. split.
  - intros id req r Hp. destruct (ci_done0 id req r Hp) as [[?|(Hne & ? & ?)] Hf]; [by left|]. right.
    split; [by apply not_eq_None_Some|]. split; [done|]. by apply Hf.
  - intros Hr id t req. destruct (ci_to_fail0 []) as [_ Hn]; [by rewrite Hr|].
    assert (Hno : ∀ p, d_proc s !! id = Some p → ¬ in_call p t req).
    { intros p Hp Hc. destruct (ci_registered0 id p t req Hp Hc) as [Hcl|(x & y & E)]; [|congruence].
      apply (not_elem_of_nil t), Hn. by eexists. }
    split; intros Hp; apply (Hno _ Hp); [by left | by right].
Qed.

(** Frames survive the wire: reading the bytes of any messages, cut off
    anywhere, yields a prefix of the messages, all of them and a clean end of
    file if nothing was cut, and never a message that was not written. *)
Theorem frames_round_trip Marshall Unmarshall ms k :
  Forall (codable Marshall Unmarshall) ms → (k <= length (frames Marshall ms))%nat →
  ∃ j e, read_all Unmarshall (S k) (take k (frames Marshall ms)) = (take j ms, e) ∧
    (k = length (frames Marshall ms) → j = length ms ∧ e = EOF).
Proof.
  intros Hms Hk. destruct (read_all_cut Marshall Unmarshall ms k (S k) Hms Hk ltac:(lia)) as (j & e & E & H & _).
  by exists j, e.
Qed.

(** ** Witnesses *)

Module DemuxEx.
(** A server that adds up its request. *)
Definition serve (req : list Z) : list Z * bool := ([foldr Z.add 0 req], true).
(** Two calls are answered out of order; the third fails as the connection breaks. *)
Definition labels : list d_label :=
  [DCall 0 [1; 2]; DCall 1 [3]; DCall 2 [4]; DProc 0 true; DProc 1 true; DProc 2 true; DProc 0 true; DProc 1 true;
   DProc 0 true; DProc 1 true; DSrvRead; DSrvRead; DServe 1 true; DServe 0 true; DRead; DReader; DRead; DReader;
   DProc 2 true; DBreak; DProc 2 false; DReadErr; DReader; DList [3]; DReader; DReader; DReader].
Definition final : dsys := default d_init (run (d_step serve) d_init labels).

(** Tag, flag and data in a row. *)
Definition enc (m : msg) : list Z := Tag m :: (if Ok m then 1 else 0) :: Data m.
Definition dec (s : list Z) : msg :=
  match s with t :: o :: d => mkMsg t d (bool_decide (o = 1)) | _ => mkMsg 0 [] false end.
Definition msgs : list msg := [mkMsg 1 [7; 8] true; mkMsg 2 [] false].
End DemuxEx.

Lemma demux_answers_own_request_witness :
  d_reader DemuxEx.final = REnd ∧ d_proc DemuxEx.final !! 1 = Some (PDone [3] (mkReply [3] true None)) ∧
  ∃ r, d_proc DemuxEx.final !! 2 = Some (PDone [4] r) ∧ is_Some (err r) ∧ d_alive DemuxEx.final = false.
Proof.
  assert (H1 : exec (λ s l s', d_step DemuxEx.serve s l = Some s') d_init DemuxEx.labels DemuxEx.final)
    by (apply (run_exec _ (d_step DemuxEx.serve)); [by intros | vm_compute; reflexivity]).
  assert (H2 : Z.of_nat (length DemuxEx.labels) < 2 ^ 32 - 1) by (vm_compute; reflexivity).
  assert (H3 : d_proc DemuxEx.final !! 2 = Some (PDone [4] (mkReply [] false (Some "reader reply fail"%string))))
    by (vm_compute; reflexivity).
  destruct (demux_answers_own_request _ _ _ H2 H1) as (_ & H & _).
  split; [vm_compute; reflexivity|]. split; [vm_compute; reflexivity|].
  destruct (H 2 _ _ H3) as [[Hn _]|(Hs & _ & Ha)]; [discriminate Hn|]. eexists. split; [exact H3|]. split; [exact Hs | exact Ha].
Defined.

Lemma frames_round_trip_witness :
  ∃ e, read_all DemuxEx.dec 10 (take 9 (frames DemuxEx.enc DemuxEx.msgs)) = (take 1 DemuxEx.msgs, e) ∧ e = ErrUnexpectedEOF.
Proof.
  assert (H : Forall (codable DemuxEx.enc DemuxEx.dec) DemuxEx.msgs)
    by (constructor; [split; vm_compute; reflexivity|constructor; [split; vm_compute; reflexivity|constructor]]).
  assert (Hk : (9 <= length (frames DemuxEx.enc DemuxEx.msgs))%nat) by (apply Nat.leb_le; vm_compute; reflexivity).
  destruct (frames_round_trip DemuxEx.enc DemuxEx.dec DemuxEx.msgs 9 H Hk) as (j & e & E & _).
  assert (E2 : read_all DemuxEx.dec 10 (take 9 (frames DemuxEx.enc DemuxEx.msgs)) = (take 1 DemuxEx.msgs, ErrUnexpectedEOF))
    by (vm_compute; reflexivity).
  exists e. rewrite E2 in E. injection E as E3 E4. split; [rewrite E2, E4; reflexivity | exact (eq_sym E4)].
Defined.
