(* ===== verification/Clnts.v ===== *)
(** * Clients of the simulated network: [tester1/clnts.go]

    A client makes an end for a server when it first calls it, and the tester
    enables and disables a client's ends to partition it from servers. Go ranges
    over the map of ends in any order, an argument here, as are the random names
    of ends. All clients share the network of [LabRPC]. *)

From S2P Require Import Prelude LabRPC.

Open Scope list_scope.
Open Scope Z_scope.

(** [ends] from server names to the names of ends; no [srvs] stands for nil,
    that is, any server. *)
Record Clnt := mkClnt { c_ends : gmap string string; c_srvs : option (list string) }.

Definition allowedL (c : Clnt) (server : string) : bool :=
  match c_srvs c with None => true | Some l => bool_decide (server ∈ l) end.

Section clnts.
Context {St : Type} (order : gmap string string → list (string * string)).
Abbreviation Network := (LabRPC.Network (St:=St)).

Definition makeClntTo (srvs : option (list string)) : Clnt := mkClnt ∅ srvs.

(** [Clnt.makeEnd]: the end is cached. *)
Definition makeEnd (name : string) (server : string) (c : Clnt) (n : Network) : outcome (string * Clnt * Network) :=
  match c_ends c !! server with
  | Some e => Ret (e, c, n)
  | None =>
      n ← MakeEnd name n;
      let n := Enable name (allowedL c server) (Connect name server n) in
      Ret (name, mkClnt (<[server := name]> (c_ends c)) (c_srvs c), n)
  end.

(** The loops over the ends, on those that satisfy [P]. *)
Definition set_ends (P : string → bool) (b : bool) (l : list (string * string)) (n : Network) : Network :=
  fold_left (λ n x, if P x.1 then Enable x.2 b n else n) l n.

Definition ConnectAll (c : Clnt) (n : Network) : Clnt * Network :=
  (mkClnt (c_ends c) None, set_ends (λ _, true) true (order (c_ends c)) n).

Definition ConnectTo (srvs : list string) (c : Clnt) (n : Network) : Clnt * Network :=
  let c := mkClnt (c_ends c) (Some srvs) in (c, set_ends (allowedL c) true (order (c_ends c)) n).

Definition Disconnect (srv : string) (c : Clnt) (n : Network) : Clnt * Network :=
  (c, set_ends (λ s, bool_decide (s = srv)) false (order (c_ends c)) n).

Definition DisconnectAll (c : Clnt) (n : Network) : Clnt * Network :=
  (mkClnt (c_ends c) (Some []), set_ends (λ _, true) false (order (c_ends c)) n).

Definition remove (c : Clnt) (n : Network) : outcome Network :=
  for_each (λ x n, DeleteEnd x.2 n) (order (c_ends c)) n.

(** ** All clients *)

(** [clerks], the clients by their addresses. *)
Record Clnts := mkClnts { net : Network; clerks : gmap nat Clnt }.

Definition set_client (id : nat) (r : Clnt * Network) (t : Clnts) : Clnts := mkClnts r.2 (<[id := r.1]> (clerks t)).

(** [MakeClient] is [MakeClientTo] with nil. *)
Definition MakeClientTo (id : nat) (srvs : option (list string)) (t : Clnts) : Clnts :=
  mkClnts (net t) (<[id := makeClntTo srvs]> (clerks t)).

Definition DeleteClient (id : nat) (t : Clnts) : outcome Clnts :=
  match clerks t !! id with
  | Some c => n ← remove c (net t); Ret (mkClnts n (delete id (clerks t)))
  | None => Ret t
  end.

Inductive clnt_op :=
| OpMake (id : nat) (srvs : option (list string))
| OpEnd (id : nat) (name server : string)       (* the start of a [Call] *)
| OpConnectAll (id : nat)
| OpConnectTo (id : nat) (srvs : list string)
| OpDisconnect (id : nat) (srv : string)
| OpDisconnectAll (id : nat)
| OpDelete (id : nat).

(** The client an operation is about. *)
Definition op_id (op : clnt_op) : nat :=
  match op with
  | OpMake id _ | OpEnd id _ _ | OpConnectAll id | OpConnectTo id _ | OpDisconnect id _ | OpDisconnectAll id | OpDelete id => id
  end.

Definition clnt_do (op : clnt_op) (t : Clnts) : option (outcome Clnts) :=
  match op with
  | OpMake id srvs => if decide (clerks t !! id = None) then Some (Ret (MakeClientTo id srvs t)) else None
  | OpEnd id name server =>
      c ← clerks t !! id;
      Some ('(_, c, n) ← makeEnd name server c (net t); Ret (set_client id (c, n) t))
  | OpConnectAll id => c ← clerks t !! id; Some (Ret (set_client id (ConnectAll c (net t)) t))
  | OpConnectTo id l => c ← clerks t !! id; Some (Ret (set_client id (ConnectTo l c (net t)) t))
  | OpDisconnect id srv => c ← clerks t !! id; Some (Ret (set_client id (Disconnect srv c (net t)) t))
  | OpDisconnectAll id => c ← clerks t !! id; Some (Ret (set_client id (DisconnectAll c (net t)) t))
  | OpDelete id => Some (DeleteClient id t)
  end.

Definition clnt_step (t : Clnts) (op : clnt_op) (t' : Clnts) : Prop := clnt_do op t = Some (Ret t').
End clnts.

(** ** What a client may reach *)

(** A client's view of one server: the servers allowed to new ends, and whether
    its end, if it has one, is up. *)
Record view := mkView { allow : option (list string); up : option bool }.

Definition allows (v : view) (srv : string) : bool :=
  match allow v with None => true | Some l => bool_decide (srv ∈ l) end.

Definition view_step (srv : string) (op : clnt_op) (v : option view) : option view :=
  match op, v with
  | OpMake _ srvs, _ => Some (mkView srvs None)
  | OpDelete _, _ => None
  | _, None => None
  | OpEnd _ _ s, Some v =>
      if decide (s = srv) then Some (mkView (allow v) (Some (default (allows v srv) (up v)))) else Some v
  | OpConnectAll _, Some v => Some (mkView None ((λ _, true) <$> up v))
  | OpConnectTo _ l, Some v => Some (mkView (Some l) ((λ b, b || bool_decide (srv ∈ l)) <$> up v))
  | OpDisconnect _ s, Some v => Some (mkView (allow v) (if decide (s = srv) then (λ _, false) <$> up v else up v))
  | OpDisconnectAll _, Some v => Some (mkView (Some []) ((λ _, false) <$> up v))
  end.

(** The view after operations, of which only the client's own count. *)
Definition view_after (id : nat) (srv : string) (ops : list clnt_op) : option view :=
  fold_left (λ v op, if decide (op_id op = id) then view_step srv op v else v) ops None.

(** ** Lemmas *)

Section facts.
Context {St : Type} (order : gmap string string → list (string * string)).
Context (any_order : ∀ m, order m ≡ₚ map_to_list m).
Implicit Types (n : LabRPC.Network (St:=St)) (t : Clnts (St:=St)).

Lemma set_ends_tables P b l n :
  ends (set_ends P b l n) = ends n ∧ connections (set_ends P b l n) = connections n ∧ servers (set_ends P b l n) = servers n.
Proof.
  revert n. induction l as [|x l IH]; intros n; [done|]. cbn [set_ends fold_left].
  destruct (IH (if P x.1 then Enable x.2 b n else n)) as (E1 & E2 & E3). unfold set_ends in *.
  rewrite E1, E2, E3. by destruct (P x.1).
Qed.

Lemma set_ends_enabled P b l n e :
  lookup_zero false e (enabled (set_ends P b l n)) =
  if decide (Exists (λ x, P x.1 = true ∧ x.2 = e) l) then b else lookup_zero false e (enabled n).
Proof.
  revert n. induction l as [|x l IH]; intros n; [by rewrite decide_False by (by inversion 1)|].
  change (set_ends P b (x :: l) n) with (set_ends P b l (if P x.1 then Enable x.2 b n else n)). rewrite IH.
  destruct (decide (Exists (λ x, P x.1 = true ∧ x.2 = e) l)) as [Hl|Hl]; [by rewrite decide_True by (by right)|].
  destruct (P x.1) eqn:HP.
  - cbn [Enable with_tables enabled]. rewrite lookup_zero_insert. case_decide as He.
    + by rewrite decide_True by (by left).
    + rewrite decide_False; [done|]. intros [[_ ?]|?]%Exists_cons; [congruence | done].
  - rewrite decide_False; [done|]. intros [[? _]|?]%Exists_cons; [congruence | done].
Qed.

(** Every end belongs to one client and one server, to which it leads. *)
Record ends_ok t : Prop := {
  eo_ends : ∀ id c srv e, clerks t !! id = Some c → c_ends c !! srv = Some e →
    e ∈ ends (net t) ∧ lookup_zero None e (connections (net t)) = Some srv;
  eo_unique : ∀ id c srv e id' c' srv', clerks t !! id = Some c → c_ends c !! srv = Some e →
    clerks t !! id' = Some c' → c_ends c' !! srv' = Some e → id = id' ∧ srv = srv'
}.

(** The state of client [id] is what its view says. *)
Definition agrees t (id : nat) (srv : string) (v : option view) : Prop :=
  match clerks t !! id, v with
  | None, None => True
  | Some c, Some v =>
      c_srvs c = allow v ∧
      match c_ends c !! srv with
      | None => up v = None
      | Some e => up v = Some (lookup_zero false e (enabled (net t)))
      end
  | _, _ => False
  end.

(** In the loops over a client's ends, an end is found under its server only. *)
Lemma own_end t id c P srv e :
  ends_ok t → clerks t !! id = Some c → c_ends c !! srv = Some e →
  Exists (λ x, P x.1 = true ∧ x.2 = e) (order (c_ends c)) ↔ P srv = true.
Proof.
  intros [_ Hu] Hc He. rewrite Exists_exists. split.
  - intros ([s e'] & Hin & HP & E). simpl in *. subst e'. rewrite any_order in Hin. apply elem_of_map_to_list in Hin.
    by destruct (Hu _ _ _ _ _ _ _ Hc He Hc Hin) as [_ ->].
  - intros HP. exists (srv, e). rewrite any_order. split; [by apply elem_of_map_to_list | done].
Qed.

Lemma other_end t id c P id' c' srv e :
  ends_ok t → clerks t !! id = Some c → id' ≠ id → clerks t !! id' = Some c' → c_ends c' !! srv = Some e →
  ¬ Exists (λ x, P x.1 = true ∧ x.2 = e) (order (c_ends c)).
Proof.
  intros [_ Hu] Hc Hne Hc' He. rewrite Exists_exists. intros ([s e'] & Hin & _ & E). simpl in E. subst e'.
  rewrite any_order in Hin. apply elem_of_map_to_list in Hin.
  by destruct (Hu _ _ _ _ _ _ _ Hc' He Hc Hin) as [-> _].
Qed.

(** An operation that runs one of the loops. *)
Lemma loop_ok t id c srvs P b :
  ends_ok t → clerks t !! id = Some c →
  let t' := set_client id (mkClnt (c_ends c) srvs, set_ends P b (order (c_ends c)) (net t)) t in
  ends_ok t' ∧
  (∀ id' srv v, id' ≠ id → agrees t id' srv v → agrees t' id' srv v) ∧
  (∀ srv v, agrees t id srv (Some v) →
     agrees t' id srv (Some (mkView srvs ((λ x, if P srv then b else x) <$> up v)))).
Proof.
  intros Hok Hc t'. destruct (set_ends_tables P b (order (c_ends c)) (net t)) as (E1 & E2 & _). split; [|split].
  - assert (Hc' : ∀ i d, clerks t' !! i = Some d → ∃ d', clerks t !! i = Some d' ∧ c_ends d = c_ends d').
    { intros i d. cbn [t' set_client clerks]. rewrite lookup_insert_Some.
      intros [[<- <-]|[? ?]]; [by exists c | by exists d]. }
    split; cbn [t' set_client net snd]; rewrite ?E1, ?E2.
    + intros i d srv e (d' & Hd & ->)%Hc' He. by apply (eo_ends _ Hok i d').
    + intros i d srv e i' d' srv' (x & Hx & ->)%Hc' He (y & Hy & ->)%Hc' He'. by eapply (eo_unique _ Hok).
  - intros id' srv v Hne. unfold agrees. cbn [t' set_client clerks net fst snd]. rewrite lookup_insert_ne by done.
    destruct (clerks t !! id') as [c'|] eqn:Hc'; [|done]. destruct v as [v|]; [|done]. intros [Hs He]. split; [done|].
    destruct (c_ends c' !! srv) as [e|] eqn:Hee; [|done]. rewrite set_ends_enabled, decide_False; [done|].
    by eapply other_end.
  - intros srv v. unfold agrees. cbn [t' set_client clerks net fst snd]. rewrite lookup_insert_eq, Hc. cbn [c_ends c_srvs allow up].
    intros [Hs He]. split; [done|]. destruct (c_ends c !! srv) as [e|] eqn:Hee; [|by rewrite He].
    rewrite He, set_ends_enabled. cbn [fmap option_fmap option_map]. f_equal.
    pose proof (own_end t id c P srv e Hok Hc Hee) as Ho. destruct (P srv), (decide _); naive_solver.
Qed.

(** A client makes its end for a server, or finds it. *)
Lemma makeEnd_ok t id c name server e c' n' :
  ends_ok t → clerks t !! id = Some c → makeEnd name server c (net t) = Ret (e, c', n') →
  let t' := set_client id (c', n') t in
  ends_ok t' ∧ c_ends c' !! server = Some e ∧
  (∀ id' srv v, id' ≠ id → agrees t id' srv v → agrees t' id' srv v) ∧
  (∀ srv v, agrees t id srv (Some v) →
     agrees t' id srv (Some (if decide (server = srv) then mkView (allow v) (Some (default (allows v srv) (up v))) else v))).
Proof.
  intros Hok Hc Hm t'. pose proof (λ i d srv x H1 H2, proj1 (eo_ends _ Hok i d srv x H1 H2)) as Hin. unfold makeEnd in Hm. destruct (c_ends c !! server) as [e0|] eqn:He.
  - injection Hm as <- <- <-. assert (Et : t' = t).
    { unfold t', set_client. simpl. rewrite insert_id by done. by destruct t. }
    rewrite Et. split; [done|]. split; [done|]. split; [done|]. intros srv v. unfold agrees. rewrite Hc.
    case_decide as Hs; [|done]. subst srv. rewrite He. intros [? Hu]. cbn [allow up]. by rewrite Hu.
  - unfold MakeEnd in Hm. case_decide as Hnew; [done|]. cbn [mbind outcome_bind] in Hm. injection Hm as <- <- <-.
    assert (Hlook : ∀ i d srv x, clerks t' !! i = Some d → c_ends d !! srv = Some x →
      (i = id ∧ srv = server ∧ x = name) ∨ (∃ d', clerks t !! i = Some d' ∧ c_ends d' !! srv = Some x ∧ x ≠ name)).
    { intros i d srv x. cbn [t' set_client clerks fst]. rewrite lookup_insert_Some. intros [[<- <-]|[Hne Hd]] Hx.
      - cbn [c_ends] in Hx. apply lookup_insert_Some in Hx as [[<- <-]|[_ Hx]]; [by left|]. right. exists c.
        split; [done|]. split; [done|]. intros ->. by apply Hnew, (Hin id c srv).
      - right. exists d. split; [done|]. split; [done|]. intros ->. by apply Hnew, (Hin i d srv). }
    split; [split|split; [cbn [c_ends]; by rewrite lookup_insert_eq|split]].
    + intros i d srv x Hd Hx. destruct (Hlook i d srv x Hd Hx) as [(-> & -> & ->)|(d' & Hd' & Hx' & Hne)];
        cbn [t' set_client net snd Enable Connect with_tables ends connections]; rewrite !lookup_zero_insert.
      * split; [set_solver | by rewrite decide_True].
      * destruct (eo_ends _ Hok i d' srv x Hd' Hx'). rewrite !decide_False by done. split; [set_solver | done].
    + intros i d srv x i' d' srv' Hd Hx Hd' Hx'.
      destruct (Hlook i d srv x Hd Hx) as [(-> & -> & ->)|(y & Hy & Hxy & Hne)],
        (Hlook i' d' srv' _ Hd' Hx') as [(-> & -> & Hn)|(y' & Hy' & Hxy' & Hne')]; try done.
      by eapply (eo_unique _ Hok).
    + intros id' srv v Hne. unfold agrees. cbn [t' set_client clerks net fst snd]. rewrite lookup_insert_ne by done.
      destruct (clerks t !! id') as [d|] eqn:Hd; [|done]. destruct v as [v|]; [|done]. intros [? Hx]. split; [done|].
      destruct (c_ends d !! srv) as [x|] eqn:Hxe; [|done]. cbn [Enable Connect with_tables enabled].
      rewrite !lookup_zero_insert. by rewrite !decide_False by (intros ->; by apply Hnew, (Hin id' d srv)).
    + intros srv v. unfold agrees. cbn [t' set_client clerks net fst snd]. rewrite lookup_insert_eq, Hc. cbn [c_ends c_srvs].
      intros [Hs Hx]. case_decide as Hsv.
      * subst srv. rewrite He in Hx. rewrite lookup_insert_eq, Hx. cbn [allow up default Enable Connect with_tables enabled].
        split; [done|]. rewrite lookup_zero_insert, decide_True by done. unfold allowedL, allows. by rewrite Hs.
      * split; [done|]. rewrite lookup_insert_ne by done. destruct (c_ends c !! srv) as [x|] eqn:Hxe; [|done].
        cbn [Enable Connect with_tables enabled]. rewrite !lookup_zero_insert.
        by rewrite !decide_False by (intros ->; by apply Hnew, (Hin id c srv)).
Qed.

(** Deleting the ends of a client. *)
Lemma delete_ends_spec (l : list (string * string)) n :
  NoDup l.*2 → Forall (λ x, x.2 ∈ ends n) l →
  ∃ n', for_each (λ x n, DeleteEnd x.2 n) l n = Ret n' ∧
    ∀ e, e ∉ l.*2 → (e ∈ ends n' ↔ e ∈ ends n) ∧ lookup_zero None e (connections n') = lookup_zero None e (connections n) ∧
      lookup_zero false e (enabled n') = lookup_zero false e (enabled n).
Proof.
  revert n. induction l as [|[s x] l IH]; intros n Hnd Hin; [by exists n|].
  rewrite fmap_cons in *. apply NoDup_cons in Hnd as [Hx Hnd]. apply Forall_cons in Hin as [Hxi Hin]. cbn [for_each].
  cbn [snd] in Hx, Hxi |- *. assert (E : DeleteEnd x n =
    Ret (with_tables n (ends n ∖ {[x]}) (delete x (enabled n)) (servers n) (delete x (connections n))))
    by (unfold DeleteEnd; by rewrite decide_True).
  rewrite E. cbn [mbind outcome_bind].
  destruct (IH (with_tables n (ends n ∖ {[x]}) (delete x (enabled n)) (servers n) (delete x (connections n)))) as (n' & -> & Hn');
    [done| |].
  - cbn [with_tables ends]. rewrite Forall_forall in *. intros y Hy. specialize (Hin y Hy).
    assert (y.2 ≠ x) by (intros <-; by apply Hx, list_elem_of_fmap_2). set_solver.
  - exists n'. split; [done|]. intros e [Hne He]%not_elem_of_cons. destruct (Hn' e He) as (H1 & H2 & H3).
    cbn [with_tables ends connections enabled] in *. split; [rewrite H1; set_solver|].
    rewrite H2, H3. unfold lookup_zero. by rewrite !lookup_delete_ne.
Qed.

Lemma order_names t id c : ends_ok t → clerks t !! id = Some c → NoDup (order (c_ends c)).*2.
Proof.
  intros Hok Hc. rewrite any_order. apply NoDup_fmap_2_strong; [|apply NoDup_map_to_list].
  intros [s e] [s' e'] H1 H2 E. simpl in E. subst e'. apply elem_of_map_to_list in H1, H2.
  by destruct (eo_unique _ Hok _ _ _ _ _ _ _ Hc H1 Hc H2) as [_ ->].
Qed.

Lemma DeleteClient_ok t id t' :
  ends_ok t → DeleteClient order id t = Ret t' →
  ends_ok t' ∧ clerks t' !! id = None ∧ (∀ id' srv v, id' ≠ id → agrees t id' srv v → agrees t' id' srv v).
Proof.
  intros Hok. unfold DeleteClient. destruct (clerks t !! id) as [c|] eqn:Hc; [|intros [= <-]; by split].
  destruct (delete_ends_spec (order (c_ends c)) (net t)) as (n' & Hr & Hn').
  { by eapply order_names. }
  { apply Forall_forall. intros [s e] Hin. rewrite any_order in Hin. apply elem_of_map_to_list in Hin.
    by destruct (eo_ends _ Hok id c s e Hc Hin). }
  unfold remove. rewrite Hr. cbn [mbind outcome_bind]. intros [= <-].
  assert (Hother : ∀ i d srv e, i ≠ id → clerks t !! i = Some d → c_ends d !! srv = Some e → e ∉ (order (c_ends c)).*2).
  { intros i d srv e Hne Hd He ([s x] & -> & Hin)%list_elem_of_fmap. rewrite any_order in Hin. apply elem_of_map_to_list in Hin.
    by destruct (eo_unique _ Hok _ _ _ _ _ _ _ Hd He Hc Hin) as [-> _]. }
  split; [split|split]; cbn [clerks net].
  - intros i d srv e [Hne Hd]%lookup_delete_Some He. apply not_eq_sym in Hne.
    destruct (Hn' e (Hother i d srv e Hne Hd He)) as (H1 & H2 & _).
    destruct (eo_ends _ Hok i d srv e Hd He). rewrite H1, H2. done.
  - intros i d srv e i' d' srv' [_ Hd]%lookup_delete_Some He [_ Hd']%lookup_delete_Some He'. by eapply (eo_unique _ Hok).
  - by rewrite lookup_delete_eq.
  - intros id' srv v Hne. unfold agrees. cbn [clerks net]. rewrite lookup_delete_ne by done.
    destruct (clerks t !! id') as [d|] eqn:Hd; [|done]. destruct v as [v|]; [|done]. intros [? He]. split; [done|].
    destruct (c_ends d !! srv) as [e|] eqn:Hee; [|done]. by destruct (Hn' e (Hother id' d srv e Hne Hd Hee)) as (_ & _ & ->).
Qed.

Definition synced t (ops : list clnt_op) : Prop := ends_ok t ∧ ∀ id srv, agrees t id srv (view_after id srv ops).

Lemma view_after_snoc id srv ops op :
  view_after id srv (ops ++ [op]) =
  if decide (op_id op = id) then view_step srv op (view_after id srv ops) else view_after id srv ops.
Proof. unfold view_after. by rewrite fold_left_app. Qed.

(** From what an operation does to its own client and to the others. *)
Lemma synced_step t t' ops op :
  synced t ops → ends_ok t' → (∀ id srv v, id ≠ op_id op → agrees t id srv v → agrees t' id srv v) →
  (∀ srv v, agrees t (op_id op) srv v → agrees t' (op_id op) srv (view_step srv op v)) → synced t' (ops ++ [op]).
Proof.
  intros [_ Hs] Hok Hother Hown. split; [done|]. intros id srv. rewrite view_after_snoc. case_decide as Hid; [subst id; auto|].
  apply Hother; [congruence | apply Hs].
Qed.

Lemma agrees_Some t id c srv v : clerks t !! id = Some c → agrees t id srv v → ∃ w, v = Some w.
Proof. unfold agrees. intros ->. destruct v as [w|]; [by exists w | done]. Qed.

Lemma synced_do t ops op t' : synced t ops → clnt_step order t op t' → synced t' (ops ++ [op]).
Proof.
  intros Hs Hst. pose proof Hs as [Hok Hv]. unfold clnt_step in Hst.
  destruct op as [id srvs|id name server|id|id l|id srv0|id|id]; cbn [clnt_do] in Hst.
  - case_decide as Hid; [|done]. injection Hst as <-. eapply synced_step; [exact Hs|split| |]; cbn [MakeClientTo clerks net op_id].
    + intros i d srv e [[<- <-]|[_ Hd]]%lookup_insert_Some He; [by cbn [makeClntTo c_ends] in He; rewrite lookup_empty in He|]. by eapply (eo_ends _ Hok).
    + intros i d srv e i' d' srv' [[<- <-]|[_ Hd]]%lookup_insert_Some He [[<- <-]|[_ Hd']]%lookup_insert_Some He';
        cbn [makeClntTo c_ends] in *; try (by rewrite lookup_empty in He); try (by rewrite lookup_empty in He'). by eapply (eo_unique _ Hok).
    + intros i srv v Hne. unfold agrees. cbn [MakeClientTo clerks net]. by rewrite lookup_insert_ne.
    + intros srv v _. unfold agrees. cbn [MakeClientTo clerks net view_step]. rewrite lookup_insert_eq. simpl. by rewrite lookup_empty.
  - apply bind_Some in Hst as (c & Hc & Hm). injection Hm as Hm.
    destruct (makeEnd name server c (net t)) as [[[e c'] n']| |] eqn:E; [|done..]. injection Hm as <-.
    destruct (makeEnd_ok t id c name server e c' n' Hok Hc E) as (Hok' & _ & Ho & Hw). eapply synced_step; [done..|].
    intros srv v Ha. destruct (agrees_Some _ _ _ _ _ Hc Ha) as [w ->]. specialize (Hw srv w Ha). cbn [view_step].
    by destruct (decide (server = srv)).
  - apply bind_Some in Hst as (c & Hc & Hm). injection Hm as <-.
    destruct (loop_ok t id c None (λ _, true) true Hok Hc) as (Hok' & Ho & Hw). eapply synced_step; [done..|].
    intros srv v Ha. destruct (agrees_Some _ _ _ _ _ Hc Ha) as [w ->]. exact (Hw srv w Ha).
  - apply bind_Some in Hst as (c & Hc & Hm). injection Hm as <-.
    destruct (loop_ok t id c (Some l) (allowedL (mkClnt (c_ends c) (Some l))) true Hok Hc) as (Hok' & Ho & Hw).
    eapply synced_step; [done..|]. intros srv v Ha. destruct (agrees_Some _ _ _ _ _ Hc Ha) as [w ->].
    specialize (Hw srv w Ha). cbn [view_step].
    assert (E : (λ x : bool, if allowedL (mkClnt (c_ends c) (Some l)) srv then true else x) <$> up w =
      (λ b, b || bool_decide (srv ∈ l)) <$> up w).
    { unfold allowedL. cbn [c_srvs]. destruct (up w) as [b|]; [|done]. simpl. f_equal. by destruct b, (bool_decide (srv ∈ l)). }
    rewrite E in Hw. exact Hw.
  - apply bind_Some in Hst as (c & Hc & Hm). injection Hm as <-.
    destruct (loop_ok t id c (c_srvs c) (λ s, bool_decide (s = srv0)) false Hok Hc) as (Hok' & Ho & Hw).
    assert (Ed : Disconnect order srv0 c (net t) = (mkClnt (c_ends c) (c_srvs c), set_ends (λ s, bool_decide (s = srv0)) false (order (c_ends c)) (net t)))
      by (by destruct c).
    rewrite Ed. eapply synced_step; [done..|]. intros srv v Ha. destruct (agrees_Some _ _ _ _ _ Hc Ha) as [w ->].
    specialize (Hw srv w Ha). cbn [view_step].
    assert (Es : c_srvs c = allow w) by (unfold agrees in Ha; cbn [op_id] in Ha; rewrite Hc in Ha; apply Ha).
    unfold agrees in Hw |- *. rewrite Es in Hw |- *. assert (E : (λ x : bool, if bool_decide (srv = srv0) then false else x) <$> up w =
      (if decide (srv0 = srv) then (λ _, false) <$> up w else up w)).
    { destruct (decide (srv0 = srv)) as [->|Hd]; [by rewrite bool_decide_true|].
      rewrite bool_decide_false by congruence. by destruct (up w). }
    rewrite E in Hw. exact Hw.
  - apply bind_Some in Hst as (c & Hc & Hm). injection Hm as <-.
    destruct (loop_ok t id c (Some []) (λ _, true) false Hok Hc) as (Hok' & Ho & Hw). eapply synced_step; [done..|].
    intros srv v Ha. destruct (agrees_Some _ _ _ _ _ Hc Ha) as [w ->]. exact (Hw srv w Ha).
  - injection Hst as Hst. destruct (DeleteClient_ok t id t' Hok Hst) as (Hok' & Hno & Ho). eapply synced_step; [done..|].
    intros srv v _. unfold agrees. cbn [view_step op_id]. by rewrite Hno.
Qed.

Lemma synced_exec t ops ops' t' : synced t ops → exec (clnt_step order) t ops' t' → synced t' (ops ++ ops').
Proof.
  intros Hs H. revert ops Hs. induction H as [t|t op t1 ops' t2 Hst _ IH]; intros ops Hs; [by rewrite app_nil_r|].
  change (op :: ops') with ([op] ++ ops'). rewrite app_assoc. by eapply IH, synced_do.
Qed.

Lemma synced_init n : synced (mkClnts n ∅) [].
Proof.
  split; [split|].
  - intros id c srv e H. cbn [clerks] in H. by rewrite lookup_empty in H.
  - intros id c srv e id' c' srv' H. cbn [clerks] in H. by rewrite lookup_empty in H.
  - intros id srv. unfold agrees. cbn [clerks]. by rewrite lookup_empty.
Qed.

(** What a client finds when it calls a server: its end leads to that server and
    is up or not as its own view says. *)
Lemma call_reaches t ops id name srv c e c' n' :
  synced t ops → clerks t !! id = Some c → makeEnd name srv c (net t) = Ret (e, c', n') →
  ∃ v, view_after id srv ops = Some v ∧
    lookup_zero None e (connections n') = Some srv ∧ e ∈ ends n' ∧
    lookup_zero false e (enabled n') = default (allows v srv) (up v).
Proof.
  intros [Hok Hv] Hc Hm. specialize (Hv id srv).
  destruct (agrees_Some _ _ _ _ _ Hc Hv) as [v Ev]. exists v. split; [done|]. rewrite Ev in Hv.
  destruct (makeEnd_ok t id c name srv e c' n' Hok Hc Hm) as (Hok' & He & _ & Hw).
  destruct (eo_ends _ Hok' id c' srv e) as [Hin Hcon]; [cbn [set_client clerks fst]; by rewrite lookup_insert_eq | done |].
  cbn [set_client net snd] in Hin, Hcon. split; [done|]. split; [done|].
  specialize (Hw srv v Hv). unfold agrees in Hw. cbn [set_client clerks net fst snd] in Hw.
  rewrite lookup_insert_eq, He, decide_True in Hw by done. destruct Hw as [_ Hu]. cbn [up] in Hu. congruence.
Qed.
End facts.

(** ** Clients are partitioned separately *)

(** Whatever is done to clients, in whatever order Go walks their maps of
    ends, and however ends are named without repetition, a client that calls a
    server uses an end that leads to that server and that is up exactly as the
    client's own operations say: what is done to other clients, over the same
    network, does not count. *)
Theorem clients_are_independent {St : Type} order (n : LabRPC.Network (St:=St)) ops t id name srv c e c' n' :
  (∀ m, order m ≡ₚ map_to_list m) → exec (clnt_step order) (mkClnts n ∅) ops t →
  clerks t !! id = Some c → makeEnd name srv c (net t) = Ret (e, c', n') →
  ∃ v, view_after id srv ops = Some v ∧
    lookup_zero None e (connections n') = Some srv ∧ e ∈ ends n' ∧
    lookup_zero false e (enabled n') = default (allows v srv) (up v).
Proof.
  intros Ho Hex Hc Hm.
  exact (call_reaches order Ho t ops id name srv c e c' n' (synced_exec order Ho _ _ _ _ (synced_init n) Hex) Hc Hm).
Qed.

(** [Disconnect] says nothing about ends made later, and [ConnectTo] takes no
    server away. *)
Example Disconnect_before_first_call :
  view_after 0 "s" [OpMake 0 None; OpDisconnect 0 "s"; OpEnd 0 "e" "s"] = Some (mkView None (Some true)).
Proof. reflexivity. Qed.

Example ConnectTo_leaves_ends_up :
  view_after 0 "s" [OpMake 0 None; OpEnd 0 "e" "s"; OpConnectTo 0 []] = Some (mkView (Some []) (Some true)).
Proof. reflexivity. Qed.

(** ** Witness *)

Definition clnt_next (t : Clnts (St:=unit)) (op : clnt_op) : option (Clnts (St:=unit)) :=
  match clnt_do map_to_list op t with Some (Ret t') => Some t' | _ => None end.

Lemma clnt_next_step t op t' : clnt_next t op = Some t' → clnt_step map_to_list t op t'.
Proof. unfold clnt_next, clnt_step. destruct (clnt_do _ op t) as [[]|]; congruence. Qed.

(** Two clients share a server; the second is cut off, the first is not. *)
Definition two_clients : list clnt_op :=
  [OpMake 0 None; OpMake 1 (Some ["a"; "b"]); OpEnd 0 "x" "a"; OpEnd 1 "y" "a"; OpDisconnectAll 1; OpEnd 1 "z" "b";
   OpConnectTo 1 ["b"]; OpDisconnect 1 "a"; OpConnectAll 0]%nat.

Definition two_clients_end : Clnts (St:=unit) := default (mkClnts MakeNetwork ∅) (run clnt_next (mkClnts MakeNetwork ∅) two_clients).

Lemma clients_are_independent_witness :
  lookup_zero None "x" (connections (net two_clients_end)) = Some "a" ∧ "x" ∈ ends (net two_clients_end) ∧
  lookup_zero false "x" (enabled (net two_clients_end)) = true.
Proof.
  destruct (clients_are_independent (St:=unit) map_to_list MakeNetwork two_clients two_clients_end 0 "fresh" "a"
    (mkClnt {["a" := "x"]} None) "x" (mkClnt {["a" := "x"]} None) (net two_clients_end)) as (v & Hv & H1 & H2 & H3).
  - intros m. reflexivity.
  - apply (run_exec (clnt_step map_to_list) clnt_next); [apply clnt_next_step | vm_compute; reflexivity].
  - vm_compute. reflexivity.
  - vm_compute. reflexivity.
  - split; [exact H1|]. split; [exact H2|]. vm_compute in Hv. injection Hv as <-. exact H3.
Defined.
