(* ===== verification/Config.v ===== *)
(** * The tester's configuration: [tester1/config.go]

    Random names, the shuffle of client ends, and the statistics of a test. What [crypto/rand] and [math/rand] return is an argument. *)

From S2P Require Import Prelude.

Open Scope list_scope.
Open Scope Z_scope.

(** ** [random_handles] *)

Section shuffle.
Context {A : Type}.

(** [sa[i], sa[j] = sa[j], sa[i]] *)
Definition swap (i j : Z) (sa : list A) : outcome (list A) :=
  x ← index sa i; y ← index sa j; sa ← store sa i y; store sa j x.

(** The loop from [i] on; [js] are what [rand.Intn(i + 1)] returns. *)
Fixpoint shuffle_loop (i : Z) (js : list nat) (sa : list A) : outcome (list A) :=
  match js with
  | [] => Ret sa
  | j :: js => sa ← swap i (Z.of_nat j) sa; shuffle_loop (i + 1) js sa
  end.
Definition random_handles (js : list nat) (kvh : list A) : outcome (list A) := shuffle_loop 0 js kvh.

(** What [rand.Intn] may return for [n] elements. *)
Definition intns (n : nat) (js : list nat) : Prop := length js = n ∧ ∀ i j, js !! i = Some j → (j <= i)%nat.

Lemma intns_snoc n js : intns (S n) js ↔ ∃ js' j, js = js' ++ [j] ∧ intns n js' ∧ (j <= n)%nat.
Proof.
  split.
  - intros [Hl Hj]. destruct js as [|j js] using rev_ind; [done|]. rewrite length_app in Hl. simpl in Hl.
    exists js, j. split; [done|]. split; [split; [lia|]|].
    + intros i k Hk. apply Hj. by apply lookup_app_l_Some.
    + replace n with (length js) by lia. apply Hj. rewrite lookup_app_r by lia. by rewrite Nat.sub_diag.
  - intros (js' & j & -> & [Hl Hj] & Hn). split; [rewrite length_app; simpl; lia|].
    intros i k [Hk|[Hi Hk]]%lookup_app_Some; [by apply Hj|]. apply list_lookup_singleton_Some in Hk as [Hi' <-]. lia.
Qed.

Lemma shuffle_loop_app i js js' (sa : list A) :
  shuffle_loop i (js ++ js') sa = shuffle_loop i js sa ≫= shuffle_loop (i + Z.of_nat (length js)) js'.
Proof.
  revert i sa. induction js as [|j js IH]; intros i sa; [simpl; by rewrite Z.add_0_r|].
  cbn [shuffle_loop app]. destruct (swap i (Z.of_nat j) sa) as [sa'| |]; cbn [mbind outcome_bind]; [|done..].
  rewrite IH. f_equal. f_equal. simpl length. lia.
Qed.

Lemma swap_spec (sa : list A) i j x y :
  sa !! i = Some x → sa !! j = Some y → swap (Z.of_nat i) (Z.of_nat j) sa = Ret (<[j := x]> (<[i := y]> sa)).
Proof.
  intros Hx Hy. unfold swap. pose proof (lookup_lt_Some _ _ _ Hx). pose proof (lookup_lt_Some _ _ _ Hy).
  rewrite (proj2 (index_Ret sa (Z.of_nat i) x)) by (rewrite Nat2Z.id; split; [lia | done]). cbn [mbind outcome_bind].
  rewrite (proj2 (index_Ret sa (Z.of_nat j) y)) by (rewrite Nat2Z.id; split; [lia | done]). cbn [mbind outcome_bind].
  rewrite store_Ret by lia. cbn [mbind outcome_bind]. rewrite store_Ret by (rewrite length_insert; lia). by rewrite !Nat2Z.id.
Qed.

(** The last iteration, on [m ++ [x]]. *)
Definition last_swap (j : nat) (m : list A) (x : A) : list A :=
  match m !! j with Some y => <[j := x]> m ++ [y] | None => m ++ [x] end.

Lemma swap_last (m : list A) x j :
  (j <= length m)%nat → swap (Z.of_nat (length m)) (Z.of_nat j) (m ++ [x]) = Ret (last_swap j m x).
Proof.
  intros Hj. unfold last_swap. assert (Hx : (m ++ [x]) !! length m = Some x) by (rewrite lookup_app_r by lia; by rewrite Nat.sub_diag).
  destruct (m !! j) as [y|] eqn:Hy.
  - rewrite (swap_spec _ _ _ x y) by (done || by apply lookup_app_l_Some). f_equal.
    rewrite insert_app_r_alt, Nat.sub_diag by lia. simpl. rewrite insert_app_l by (by eapply lookup_lt_Some). done.
  - apply lookup_ge_None in Hy. assert (j = length m) as -> by lia.
    rewrite (swap_spec _ _ _ x x) by done. f_equal. by rewrite list_insert_insert_eq, list_insert_id.
Qed.

(** Earlier iterations leave the last element alone. *)
Lemma shuffle_prefix js (l : list A) (x : A) m :
  intns (length l) js → shuffle_loop 0 js l = Ret m → length m = length l → shuffle_loop 0 js (l ++ [x]) = Ret (m ++ [x]).
Proof.
  intros [Hl Hj]. assert (H : ∀ js i (sa : list A), (∀ k j, js !! k = Some j → (j < length sa)%nat) →
    (i + length js <= length sa)%nat → ∀ m, shuffle_loop (Z.of_nat i) js sa = Ret m →
    shuffle_loop (Z.of_nat i) js (sa ++ [x]) = Ret (m ++ [x])).
  { clear. induction js as [|j js IH]; intros i sa Hj Hi m Hm; [simpl in *; congruence|].
    cbn [shuffle_loop] in *. simpl length in Hi. pose proof (Hj 0%nat j eq_refl) as Hj0.
    destruct (lookup_lt_is_Some_2 sa i) as [a Ha]; [lia|]. destruct (lookup_lt_is_Some_2 sa j Hj0) as [b Hb].
    rewrite (swap_spec sa i j a b Ha Hb) in Hm. cbn [mbind outcome_bind] in Hm.
    rewrite (swap_spec (sa ++ [x]) i j a b) by (by apply lookup_app_l_Some). cbn [mbind outcome_bind].
    rewrite insert_app_l by lia. rewrite insert_app_l by (rewrite length_insert; lia).
    replace (Z.of_nat i + 1) with (Z.of_nat (S i)) in * by lia. apply IH; [| |done].
    - intros k j' Hk. rewrite !length_insert. by apply (Hj (S k)).
    - rewrite !length_insert. lia. }
  intros Hm _. apply (H js 0%nat); [|lia|done]. intros k j Hk. pose proof (Hj k j Hk). apply lookup_lt_Some in Hk. lia.
Qed.

Lemma last_swap_perm (m : list A) x j : last_swap j m x ≡ₚ m ++ [x].
Proof.
  unfold last_swap. destruct (m !! j) as [y|] eqn:Hy; [|done].
  pose proof (delete_Permutation m j y Hy) as H1.
  pose proof (delete_Permutation (<[j := x]> m) j x) as H2. rewrite list_lookup_insert_eq in H2 by (by eapply lookup_lt_Some).
  specialize (H2 eq_refl). assert (E : delete j (<[j := x]> m) = delete j m).
  { rewrite !delete_take_drop, take_insert_ge, drop_insert_lt by lia. done. }
  rewrite E in H2. clear E. generalize dependent (delete j m). intros d H1 H2.
  trans ((x :: d) ++ [y]); [by rewrite H2|]. trans ((y :: d) ++ [x]); [|by rewrite H1].
  simpl. rewrite <- !Permutation_cons_append. constructor.
Qed.

Lemma shuffle_perm js (l : list A) : intns (length l) js → ∃ m, random_handles js l = Ret m ∧ m ≡ₚ l.
Proof.
  unfold random_handles. revert js. induction l as [|x l IH] using rev_ind; intros js Hjs.
  { destruct Hjs as [Hl _]. destruct js; [|done]. by exists []. }
  rewrite length_app, Nat.add_comm in Hjs. apply intns_snoc in Hjs as (js' & j & -> & Hjs & Hj).
  destruct (IH js' Hjs) as (m & Hm & Hp). exists (last_swap j m x).
  rewrite shuffle_loop_app, (shuffle_prefix js' l x m); [|done..|by apply Permutation_length].
  rewrite Z.add_0_l, (proj1 Hjs), <- (Permutation_length Hp). cbn [mbind outcome_bind shuffle_loop].
  rewrite swap_last by (by rewrite (Permutation_length Hp)). cbn [mbind outcome_bind]. split; [done|].
  by rewrite last_swap_perm, Hp.
Qed.

Lemma last_swap_at (m : list A) x j : (j <= length m)%nat → last_swap j m x !! j = Some x.
Proof.
  intros Hj. unfold last_swap. destruct (m !! j) as [y|] eqn:Hy.
  - apply lookup_app_l_Some. apply list_lookup_insert_eq. by eapply lookup_lt_Some.
  - apply lookup_ge_None in Hy. rewrite lookup_app_r by lia. by replace (j - length m)%nat with 0%nat by lia.
Qed.

(** What the last iteration does can be undone. *)
Lemma last_swap_surj (l' m0 : list A) x :
  l' ≡ₚ m0 ++ [x] → ∃ j m, (j <= length m)%nat ∧ m ≡ₚ m0 ∧ last_swap j m x = l'.
Proof.
  intros Hp. destruct l' as [|y k _] using rev_ind.
  { apply Permutation_length in Hp. rewrite length_app in Hp. simpl in Hp. lia. }
  assert (Hx : x ∈ k ++ [y]) by (rewrite Hp; apply elem_of_app; right; by left).
  apply elem_of_app in Hx as [Hx|Hx%list_elem_of_singleton].
  - apply list_elem_of_lookup in Hx as [j Hj]. pose proof (lookup_lt_Some _ _ _ Hj) as Hlt.
    exists j, (<[j := y]> k). rewrite length_insert. split; [lia|]. unfold last_swap.
    rewrite list_lookup_insert_eq, list_insert_insert_eq, (list_insert_id k j x) by done. split; [|done].
    pose proof (last_swap_perm (<[j := y]> k) x j) as H. unfold last_swap in H.
    rewrite list_lookup_insert_eq, list_insert_insert_eq, (list_insert_id k j x) in H by done.
    rewrite H in Hp. by apply Permutation_app_inv_r in Hp.
  - subst y. exists (length k), k. split; [lia|]. split; [by apply Permutation_app_inv_r in Hp|].
    unfold last_swap. by rewrite lookup_ge_None_2.
Qed.

Lemma last_swap_inj (m m' : list A) x j j' :
  NoDup (m ++ [x]) → length m = length m' → (j <= length m)%nat → (j' <= length m)%nat →
  last_swap j m x = last_swap j' m' x → j = j' ∧ m = m'.
Proof.
  intros Hnd Hl Hj Hj' E. assert (j = j') as <-.
  { assert (Hnd' : NoDup (last_swap j m x)) by (by rewrite last_swap_perm).
    eapply NoDup_lookup; [exact Hnd' | by apply last_swap_at | rewrite E; apply last_swap_at; lia]. }
  split; [done|]. unfold last_swap in E. destruct (decide (j < length m)%nat) as [Hlt|Hge].
  - destruct (lookup_lt_is_Some_2 m j Hlt) as [y Hy]. destruct (lookup_lt_is_Some_2 m' j) as [y' Hy']; [lia|].
    rewrite Hy, Hy' in E. apply app_inj_2 in E as [E [= ->]]; [|done].
    apply (f_equal (insert j y')) in E. rewrite !list_insert_insert_eq in E. by rewrite !list_insert_id in E.
  - rewrite !lookup_ge_None_2 in E by lia. by apply app_inj_2 in E as [-> _].
Qed.

Lemma random_handles_snoc js j (l : list A) x :
  intns (length l) js → (j <= length l)%nat →
  ∃ m, random_handles js l = Ret m ∧ m ≡ₚ l ∧ random_handles (js ++ [j]) (l ++ [x]) = Ret (last_swap j m x).
Proof.
  intros Hjs Hj. destruct (shuffle_perm js l Hjs) as (m & Hm & Hp). exists m. split; [done|]. split; [done|].
  unfold random_handles. rewrite shuffle_loop_app, (shuffle_prefix js l x m); [|done..|by apply Permutation_length].
  rewrite Z.add_0_l, (proj1 Hjs), <- (Permutation_length Hp). cbn [mbind outcome_bind shuffle_loop].
  rewrite swap_last by (by rewrite (Permutation_length Hp)). done.
Qed.

Lemma random_handles_reaches (l l' : list A) :
  NoDup l → l' ≡ₚ l →
  ∃ js, intns (length l) js ∧ random_handles js l = Ret l' ∧
    ∀ js', intns (length l) js' → random_handles js' l = Ret l' → js' = js.
Proof.
  revert l'. induction l as [|x l IH] using rev_ind; intros l' Hnd Hp.
  { apply Permutation_nil_r in Hp as ->. exists []. split; [split; [done|]; intros i j H; by rewrite lookup_nil in H|].
    split; [done|]. intros js' [H _] _. by destruct js'. }
  destruct (last_swap_surj l' l x Hp) as (j & m & Hj & Hpm & <-).
  pose proof (Permutation_length Hpm) as Hlm. pose proof Hnd as Hnd0. apply NoDup_app in Hnd0 as (Hnd' & _ & _).
  destruct (IH m Hnd' Hpm) as (js & Hjs & Hr & Hu). exists (js ++ [j]).
  rewrite length_app, Nat.add_comm. simpl. split; [apply intns_snoc; exists js, j; split; [done|]; split; [exact Hjs | lia]|].
  destruct (random_handles_snoc js j l x Hjs) as (m1 & Hm1 & _ & Hr1); [lia|].
  split; [rewrite Hr1; congruence|]. intros js' Hjs' Hr'.
  apply intns_snoc in Hjs' as (js1 & j1 & -> & Hjs1 & Hj1).
  destruct (random_handles_snoc js1 j1 l x Hjs1 Hj1) as (m2 & Hm2 & Hp2 & Hr2). rewrite Hr2 in Hr'. injection Hr' as E.
  pose proof (Permutation_length Hp2). destruct (last_swap_inj m2 m x j1 j) as [-> ->]; [by rewrite Hp2 | lia..| done|].
  by rewrite (Hu js1).
Qed.
End shuffle.

(** ** [Randstring] *)

(** [base64.URLEncoding]: a character for six bits, [=] for padding. *)
Definition b64_char (v : Z) : Z :=
  if decide (v < 26) then 65 + v else if decide (v < 52) then 71 + v else if decide (v < 62) then v - 4
  else if decide (v = 62) then 45 else 95.
Definition pad : Z := 61.

Fixpoint EncodeToString (b : list Z) : list Z :=
  match b with
  | [] => []
  | [x] => [b64_char (x / 4); b64_char ((x `mod` 4) * 16); pad; pad]
  | [x; y] => [b64_char (x / 4); b64_char ((x `mod` 4) * 16 + y / 16); b64_char ((y `mod` 16) * 4); pad]
  | x :: y :: z :: b =>
      b64_char (x / 4) :: b64_char ((x `mod` 4) * 16 + y / 16) ::
      b64_char ((y `mod` 16) * 4 + z / 64) :: b64_char (z `mod` 64) :: EncodeToString b
  end.

(** [b] are the [2*n] bytes that [crand.Read] puts into the slice. *)
Definition Randstring (n : nat) (b : list Z) : outcome (list Z) :=
  let s := EncodeToString b in if decide (n <= length s)%nat then Ret (take n s) else Panic.

(** Letters, digits, [-] and [_]. *)
Definition name_char (c : Z) : Prop := 65 <= c <= 90 ∨ 97 <= c <= 122 ∨ 48 <= c <= 57 ∨ c = 45 ∨ c = 95.

Lemma b64_name v : 0 <= v < 64 → name_char (b64_char v).
Proof. intros Hv. unfold name_char, b64_char. repeat case_decide; lia. Qed.

Definition byte_list (b : list Z) : Prop := Forall (λ x, 0 <= x < 256) b.

(** Enough of the encoding is free of padding. *)
Lemma EncodeToString_names (k : nat) : ∀ b, (length b <= k)%nat → byte_list b →
  ∃ s t, EncodeToString b = s ++ t ∧ Forall name_char s ∧ (length b <= length s)%nat.
Proof.
  induction k as [|k IH]; intros b Hk Hb.
  { destruct b; [|simpl in Hk; lia]. by exists [], []. }
  destruct b as [|x [|y [|z b]]]; [by exists [], []|..]; unfold byte_list in Hb; rewrite ?Forall_cons in Hb.
  - exists [b64_char (x / 4); b64_char ((x `mod` 4) * 16)], [pad; pad]. split; [done|]. split; [|simpl; lia].
    repeat (apply Forall_cons_2; [apply b64_name; Z.div_mod_to_equations; lia|]). apply Forall_nil_2.
  - exists [b64_char (x / 4); b64_char ((x `mod` 4) * 16 + y / 16); b64_char ((y `mod` 16) * 4)], [pad].
    split; [done|]. split; [|simpl; lia].
    repeat (apply Forall_cons_2; [apply b64_name; Z.div_mod_to_equations; lia|]). apply Forall_nil_2.
  - destruct Hb as (Hx & Hy & Hz & Hb). simpl in Hk. destruct (IH b) as (s & t & E & Hs & Hl); [lia | done|].
    cbn [EncodeToString]. rewrite E. eexists (_ :: _ :: _ :: _ :: s), t. split; [reflexivity|]. split; [|simpl; lia].
    repeat (apply Forall_cons_2; [apply b64_name; Z.div_mod_to_equations; lia|]). exact Hs.
Qed.

(** ** Statistics *)

(** [ops] is how often [OpInc] was called since [Begin]. *)
Record stats := mkStats { rpcs0 : Z; ops : Z }.
Definition Begin (RpcTotal : Z) : stats := mkStats RpcTotal 0.
Definition OpInc (s : stats) : stats := mkStats (rpcs0 s) (wrapS 32 (ops s + 1)).
(** The numbers of RPCs and operations that [End] prints. *)
Definition End_stats (RpcTotal : Z) (s : stats) : Z * Z := (RpcTotal - rpcs0 s, ops s).

(** ** Properties *)

(** Shuffling client ends yields a permutation of them whatever the random
    numbers are, and every permutation by exactly one choice of them: no order is
    favoured when the numbers are uniform. *)
Theorem random_handles_uniform {A} (kvh : list A) :
  NoDup kvh →
  (∀ js, intns (length kvh) js → ∃ sa, random_handles js kvh = Ret sa ∧ sa ≡ₚ kvh) ∧
  (∀ sa, sa ≡ₚ kvh → ∃ js, intns (length kvh) js ∧ random_handles js kvh = Ret sa ∧
    ∀ js', intns (length kvh) js' → random_handles js' kvh = Ret sa → js' = js).
Proof.
  intros Hnd. split; [intros js Hjs; exact (shuffle_perm js kvh Hjs) | intros sa Hp; exact (random_handles_reaches kvh sa Hnd Hp)].
Qed.

(** [Randstring] never slices out of range, and its names have the length
    asked for and consist of letters, digits, [-] and [_]: no padding, and
    nothing that a socket's path would take for a directory. *)
Theorem Randstring_names n b :
  byte_list b → length b = (2 * n)%nat → ∃ s, Randstring n b = Ret s ∧ length s = n ∧ Forall name_char s.
Proof.
  intros Hb Hl. destruct (EncodeToString_names (length b) b) as (s & t & E & Hs & Hls); [done..|].
  unfold Randstring. rewrite E, decide_True by (rewrite length_app; lia). rewrite take_app_le by lia.
  exists (take n s). split; [done|]. split; [rewrite length_take; lia | by apply Forall_take].
Qed.

(** ** Witnesses *)

Lemma random_handles_uniform_witness : ∃ js, intns 3 js ∧ random_handles js [1; 2; 3] = Ret [3; 1; 2].
Proof.
  destruct (random_handles_uniform [1; 2; 3]) as [_ H].
  - apply (bool_decide_unpack _). vm_compute. exact I.
  - destruct (H [3; 1; 2]) as (js & Hi & Hr & _); [apply (bool_decide_unpack _); vm_compute; exact I|]. by exists js.
Defined.

Lemma Randstring_names_witness : ∃ s, Randstring 2 [255; 0; 17; 4] = Ret s ∧ length s = 2%nat.
Proof.
  destruct (Randstring_names 2 [255; 0; 17; 4]) as (s & H1 & H2 & _).
  - repeat constructor; lia.
  - done.
  - by exists s.
Defined.
