(* ===== verification/Annotation.v ===== *)
(** * Annotations of test runs: [tester1/annotation.go], [tester1/annotator.go]

    The global variables [annotation] and [finfo] are one state; every locked
    section is one operation on it. Timestamps are arguments. [finfo] is nil
    until the first [AnnotateTest], and dereferencing it before panics. *)

From stdpp Require Import pretty.
From S2P Require Import Prelude.

Open Scope string_scope.
Open Scope list_scope.
Open Scope Z_scope.

(** The record of the porcupine package that the code fills in. *)
Record PAnnotation := mkPA {
  Tag : string; Start : Z; End_ : Z; Description : string; Details : string; BackgroundColor : string
}.

Record Continuous := mkContinuous { start : Z; desp : string; details : string; bgcolor : string }.

Record Annotation := mkAnnotation { annotations : list PAnnotation; continuous : gmap string Continuous; finalized : bool }.

Record CheckerBegin := mkCheckerBegin { ts : Z; ck_details : string }.

Record FrameworkInfo := mkFInfo { nservers : Z; connected : list bool; crashed : list bool; ckbegin : CheckerBegin }.

Definition COLOR_INFO : string := "#FAFAFA".
Definition COLOR_NEUTRAL : string := "#FFECB3".
Definition COLOR_SUCCESS : string := "#C8E6C9".
Definition COLOR_FAILURE : string := "#FFCDD2".
Definition COLOR_FAULT : string := "#B3E5FC".
Definition COLOR_USER : string := "#FFF176".
Definition TAG_CHECKER : string := "$ Checker".
Definition TAG_PARTITION : string := "$ Failure".
Definition TAG_INFO : string := "$ Test Info".

(** The two globals. *)
Record globals := mkGlobals { annotation : Annotation; finfo : option FrameworkInfo }.

Definition mk_annotation : Annotation := mkAnnotation [] ∅ false.

(** [make([]bool, n)] panics for a negative [n]. *)
Definition make_bools (n : Z) (b : bool) : outcome (list bool) :=
  if decide (0 <= n) then Ret (replicate (Z.to_nat n) b) else Panic.

Definition mkFrameworkInfo (n : Z) : outcome FrameworkInfo :=
  conn ← make_bools n true; crashed ← make_bools n false; Ret (mkFInfo n conn crashed (mkCheckerBegin 0 "")).

Definition init_globals : globals := mkGlobals mk_annotation None.

Definition on_annotation (f : Annotation → Annotation) (g : globals) : globals := mkGlobals (f (annotation g)) (finfo g).

Definition with_finfo (g : globals) (k : FrameworkInfo → outcome globals) : outcome globals :=
  match finfo g with Some fi => k fi | None => Panic end.

Definition set_finfo (fi : FrameworkInfo) (g : globals) : globals := mkGlobals (annotation g) (Some fi).

(** ** Methods of [Annotation]; [t] is the timestamp *)

Definition append_annotation (a : PAnnotation) (an : Annotation) : Annotation :=
  mkAnnotation (annotations an ++ [a]) (continuous an) (finalized an).

(** The interval that a continuous annotation becomes when it ends. *)
Definition concretize (tag : string) (t : Z) (c : Continuous) : PAnnotation :=
  mkPA tag (start c) t (desp c) (details c) (bgcolor c).

(** [finalize]; [order] is the order in which the map is ranged over. *)
Definition finalize (order : gmap string Continuous → list (string * Continuous)) (t : Z) (an : Annotation) :
    list PAnnotation * Annotation :=
  (annotations an ++ map (λ tc, concretize tc.1 t tc.2) (order (continuous an)),
   mkAnnotation (annotations an) (continuous an) true).

Definition clear_annotation (an : Annotation) : Annotation := mkAnnotation [] ∅ false.

Definition annotatePointColor (t : Z) (tag d dt col : string) (an : Annotation) : Annotation :=
  append_annotation (mkPA tag t 0 d dt col) an.

Definition annotateIntervalColor (t : Z) (tag : string) (s : Z) (d dt col : string) (an : Annotation) : Annotation :=
  append_annotation (mkPA tag s t d dt col) an.

Definition annotateContinuousColor (t : Z) (tag d dt col : string) (an : Annotation) : Annotation :=
  match continuous an !! tag with
  | None => mkAnnotation (annotations an) (<[tag := mkContinuous t d dt col]> (continuous an)) (finalized an)
  | Some cont =>
      mkAnnotation (annotations an ++ [concretize tag t cont]) (<[tag := mkContinuous t d dt col]> (continuous an))
        (finalized an)
  end.

(** The branch for a missing tag is empty in the code: it goes on with the
    zero value. *)
Definition annotateContinuousEnd (t : Z) (tag : string) (an : Annotation) : Annotation :=
  let cont := lookup_zero (mkContinuous 0 "" "" "") tag (continuous an) in
  mkAnnotation (annotations an ++ [concretize tag t cont]) (delete tag (continuous an)) (finalized an).

Definition isFinalized (an : Annotation) : bool := finalized an.

(** What [cleanup] reads from its environment. *)
Record vis_env := mkVis { VIS_ENABLE : string; VIS_FILE : string; open_fails : bool }.

(** [cleanup]; the result is the visualization it writes: the file's name, or
    empty for a temporary file, and the annotations in it. *)
Definition cleanup (order : gmap string Continuous → list (string * Continuous)) (env : vis_env) (t t' : Z)
    (failed : bool) (end_ : string) (an : Annotation) : Annotation * option (string * list PAnnotation) :=
  if bool_decide (VIS_ENABLE env = "never") || (negb failed && negb (bool_decide (VIS_ENABLE env = "always"))) ||
     isFinalized an
  then (clear_annotation an, None)
  else
    let '(l, an) := finalize order t an in
    if decide (length l = 0%nat) then (an, None)
    else
      let l := l ++ [mkPA TAG_INFO t' 0 end_ end_ COLOR_INFO] in
      if open_fails env then (an, None) else (an, Some (VIS_FILE env, l)).

(** ** The public interface *)

Definition FinalizeAnnotations order (t t' : Z) (end_ : string) (g : globals) : list PAnnotation * globals :=
  let '(l, an) := finalize order t (annotation g) in
  (l ++ [mkPA TAG_INFO t' 0 end_ end_ COLOR_INFO], mkGlobals an (finfo g)).

Definition AnnotatePointColor t tag d dt col := on_annotation (annotatePointColor t tag d dt col).
Definition AnnotateIntervalColor t tag s d dt col := on_annotation (annotateIntervalColor t tag s d dt col).
Definition AnnotateContinuousColor t tag d dt col := on_annotation (annotateContinuousColor t tag d dt col).
Definition AnnotateContinuousEnd t tag := on_annotation (annotateContinuousEnd t tag).
Definition AnnotatePoint t tag d dt := on_annotation (annotatePointColor t tag d dt COLOR_USER).
Definition AnnotateInterval t tag s d dt := on_annotation (annotateIntervalColor t tag s d dt COLOR_USER).
Definition AnnotateContinuous t tag d dt := on_annotation (annotateContinuousColor t tag d dt COLOR_USER).
Definition AnnotateInfo t d dt := AnnotatePointColor t TAG_INFO d dt COLOR_INFO.
Definition AnnotateInfoInterval t s d dt := AnnotateIntervalColor t TAG_INFO s d dt COLOR_INFO.

Definition AnnotateTest (t : Z) (d : string) (n : Z) (g : globals) : outcome globals :=
  let dt := d +:+ " (" +:+ pretty n +:+ " servers)" in
  fi ← mkFrameworkInfo n;
  Ret (AnnotateInfo t dt dt (mkGlobals (clear_annotation (annotation g)) (Some fi))).

Definition AnnotateCheckerBegin (t : Z) (dt : string) (g : globals) : outcome globals :=
  with_finfo g (λ fi, Ret (set_finfo (mkFInfo (nservers fi) (connected fi) (crashed fi) (mkCheckerBegin t dt)) g)).

(** [ckbegin.ts = 0] at the end assigns to a local copy. *)
Definition AnnotateCheckerEnd (t : Z) (d dt col : string) (g : globals) : outcome globals :=
  with_finfo g (λ fi,
    let ckb := ckbegin fi in
    if decide (ts ckb = 0) then Ret (AnnotatePointColor t TAG_CHECKER d dt col g)
    else Ret (AnnotateIntervalColor t TAG_CHECKER (ts ckb) d (ck_details ckb +:+ ": " +:+ dt) col g)).

Definition AnnotateCheckerSuccess t d dt := AnnotateCheckerEnd t d dt COLOR_SUCCESS.
Definition AnnotateCheckerFailure t d dt := AnnotateCheckerEnd t d dt COLOR_FAILURE.
Definition AnnotateCheckerNeutral t d dt := AnnotateCheckerEnd t d dt COLOR_NEUTRAL.

Definition SetAnnotationFinalized : globals → globals :=
  on_annotation (λ an, mkAnnotation (annotations an) (continuous an) true).
Definition GetAnnotationFinalized (g : globals) : bool := isFinalized (annotation g).

Definition AnnotateCheckerFailureBeforeExit order env (t t' t'' : Z) (d dt : string) (g : globals) :
    outcome (globals * option (string * list PAnnotation)) :=
  g ← AnnotateCheckerFailure t d dt g;
  let '(an, vis) := cleanup order env t' t'' true "test failed" (annotation g) in
  Ret (mkGlobals an (finfo g), vis).

(** ** Faults *)

(** [fmt.Sprintf] of a slice of integers with the verb for values *)
Definition sprint_ints (l : list Z) : string := "[" +:+ String.concat " " (map pretty l) +:+ "]".

(** The loop of [annotateFault] from index [id] on. *)
Fixpoint fault_loop (id : Z) (connected crashed : list bool) (conn crashes : list Z) (b : string) :
    outcome (list Z * list Z * string) :=
  match connected with
  | [] => Ret (conn, crashes, b)
  | c :: connected =>
      cr ← index crashed id;
      if cr : bool then fault_loop (id + 1) connected crashed conn (crashes ++ [id]) b
      else if c : bool then fault_loop (id + 1) connected crashed (conn ++ [id]) crashes b
      else fault_loop (id + 1) connected crashed conn crashes (b +:+ "[" +:+ pretty id +:+ "] ")
  end.

Definition fault_text (fi : FrameworkInfo) : outcome string :=
  '(conn, crashes, b) ← fault_loop 0 (connected fi) (crashed fi) [] [] "partition = ";
  let b := if decide (conn = []) then b else b +:+ sprint_ints conn in
  Ret (if decide (crashes = []) then b else b +:+ " / crash = " +:+ sprint_ints crashes).

Definition no_fault (fi : FrameworkInfo) : bool :=
  bool_decide (replicate (Z.to_nat (nservers fi)) true = connected fi) &&
  bool_decide (replicate (Z.to_nat (nservers fi)) false = crashed fi).

Definition annotateFault (t : Z) (fi : FrameworkInfo) (g : globals) : outcome globals :=
  if no_fault fi then Ret (AnnotateContinuousEnd t TAG_PARTITION g)
  else text ← fault_text fi; Ret (AnnotateContinuousColor t TAG_PARTITION text text COLOR_FAULT g).

Definition set_servers (conn cr : list bool) (fi : FrameworkInfo) : FrameworkInfo :=
  mkFInfo (nservers fi) conn cr (ckbegin fi).

(** [copy(dst, src)] *)
Definition copy_into {A} (dst src : list A) : list A := take (length dst) src ++ drop (length src) dst.

Definition AnnotateConnection (t : Z) (connection : list bool) (g : globals) : outcome globals :=
  with_finfo g (λ fi,
    if decide (connected fi = connection) then Ret g
    else let fi := set_servers (copy_into (connected fi) connection) (crashed fi) fi in
         annotateFault t fi (set_finfo fi g)).

Definition AnnotateTwoPartitions (t : Z) (p1 p2 : list Z) : globals → globals :=
  let text := "partition = " +:+ sprint_ints p1 +:+ " " +:+ sprint_ints p2 in
  AnnotateContinuousColor t TAG_PARTITION text text COLOR_FAULT.

Definition AnnotateClearFailure (t : Z) (g : globals) : outcome globals :=
  with_finfo g (λ fi,
    let fi := set_servers (map (λ _, true) (connected fi)) (map (λ _, false) (crashed fi)) fi in
    Ret (AnnotateContinuousEnd t TAG_PARTITION (set_finfo fi g))).

(** The loops of [AnnotateShutdown] and [AnnotateRestart]: whether some
    server's [crashed] differed from [b], and the new slice. *)
Fixpoint mark (b : bool) (servers : list Z) (crashed : list bool) (changed : bool) : outcome (bool * list bool) :=
  match servers with
  | [] => Ret (changed, crashed)
  | id :: servers =>
      old ← index crashed id;
      crashed ← store crashed id b;
      mark b servers crashed (changed || negb (Bool.eqb old b))
  end.

Definition AnnotateCrashed (b : bool) (t : Z) (servers : list Z) (g : globals) : outcome globals :=
  with_finfo g (λ fi,
    '(changed, cr) ← mark b servers (crashed fi) false;
    let fi := set_servers (connected fi) cr fi in
    if changed : bool then annotateFault t fi (set_finfo fi g) else Ret (set_finfo fi g)).

Definition AnnotateShutdown := AnnotateCrashed true.
Definition AnnotateRestart := AnnotateCrashed false.

Definition AnnotateShutdownAll (t : Z) (g : globals) : outcome globals :=
  with_finfo g (λ fi, AnnotateShutdown t (seqZ 0 (nservers fi)) g).
Definition AnnotateRestartAll (t : Z) (g : globals) : outcome globals :=
  with_finfo g (λ fi, AnnotateRestart t (seqZ 0 (nservers fi)) g).

(** ** [annotator.go]: the handlers the tester serves to other processes *)

Record PostAnnotatorPointArgs := mkPointArgs { pa_Tag : string; pa_Desp : string; pa_Details : string }.
Record PostAnnotatorInfoIntervalArgs := mkIntervalArgs { ia_Start : Z; ia_Desp : string; ia_Details : string }.

Definition PostAnnotatorPoint (t : Z) (args : PostAnnotatorPointArgs) : globals → globals :=
  AnnotatePoint t (pa_Tag args) (pa_Desp args) (pa_Details args).
Definition PostAnnotatorInfoInterval (t : Z) (args : PostAnnotatorInfoIntervalArgs) : globals → globals :=
  AnnotateInfoInterval t (ia_Start args) (ia_Desp args) (ia_Details args).

(** The process's side: a call that may get no answer; [reached] says that the
    request was executed. *)
Definition Annotate (reached : bool) (t : Z) (tag d dt : string) (g : globals) : globals :=
  if reached then PostAnnotatorPoint t (mkPointArgs tag d dt) g else g.
Definition GetAnnotatorTimestamp (t : Z) (ok : bool) : Z := if ok then t else 0.
Definition Post_InfoInterval (reached : bool) (t s : Z) (d dt : string) (g : globals) : globals :=
  if reached then PostAnnotatorInfoInterval t (mkIntervalArgs s d dt) g else g.

(** ** Runs of the test framework *)

Inductive ann_op :=
| OPoint (tag d dt col : string)
| OInterval (tag : string) (s : Z) (d dt col : string)
| OContinuous (tag d dt col : string)
| OEnd (tag : string)
| OCheckerBegin (dt : string)
| OCheckerEnd (d dt col : string)
| OConnection (connection : list bool)
| OTwoPartitions (p1 p2 : list Z)
| OClearFailure
| OShutdown (servers : list Z)
| ORestart (servers : list Z)
| OShutdownAll
| ORestartAll
| OSetFinalized.

Definition op_next (t : Z) (o : ann_op) (g : globals) : outcome globals :=
  match o with
  | OPoint tag d dt col => Ret (AnnotatePointColor t tag d dt col g)
  | OInterval tag s d dt col => Ret (AnnotateIntervalColor t tag s d dt col g)
  | OContinuous tag d dt col => Ret (AnnotateContinuousColor t tag d dt col g)
  | OEnd tag => Ret (AnnotateContinuousEnd t tag g)
  | OCheckerBegin dt => AnnotateCheckerBegin t dt g
  | OCheckerEnd d dt col => AnnotateCheckerEnd t d dt col g
  | OConnection connection => AnnotateConnection t connection g
  | OTwoPartitions p1 p2 => Ret (AnnotateTwoPartitions t p1 p2 g)
  | OClearFailure => AnnotateClearFailure t g
  | OShutdown servers => AnnotateShutdown t servers g
  | ORestart servers => AnnotateRestart t servers g
  | OShutdownAll => AnnotateShutdownAll t g
  | ORestartAll => AnnotateRestartAll t g
  | OSetFinalized => Ret (SetAnnotationFinalized g)
  end.

(** The uses of the interface for which the fault annotations are meant: users
    keep off the framework's tag, partitions go through [AnnotateConnection],
    server numbers are in range, and failures are cleared when there are some. *)
Definition allowed (fi : FrameworkInfo) (o : ann_op) : Prop :=
  match o with
  | OPoint tag _ _ _ | OInterval tag _ _ _ _ | OContinuous tag _ _ _ | OEnd tag => tag ≠ TAG_PARTITION
  | OConnection connection => length connection = Z.to_nat (nservers fi)
  | OTwoPartitions _ _ => False
  | OClearFailure => no_fault fi = false
  | OShutdown servers | ORestart servers => Forall (λ id, 0 <= id < nservers fi) servers
  | _ => True
  end.

Definition ann_step (g : globals) (l : Z * ann_op) (g' : globals) : Prop :=
  match finfo g with Some fi => allowed fi l.2 | None => False end ∧ op_next l.1 l.2 g = Ret g'.

(** ** What the fault annotations should be *)

(** The fault of a state: none, or its description. *)
Definition fault_of (fi : FrameworkInfo) : option string :=
  if no_fault fi then None else match fault_text fi with Ret text => Some text | _ => None end.

Definition same_servers (fi fi' : FrameworkInfo) : bool :=
  bool_decide (connected fi = connected fi') && bool_decide (crashed fi = crashed fi').

Definition fault_annotation (s t : Z) (text : string) : PAnnotation := mkPA TAG_PARTITION s t text text COLOR_FAULT.

(** The closed intervals of a history of states, one for each maximal period
    during which the servers stay as they are and some fault is present; [cur]
    is the beginning and the text of the current one. *)
Fixpoint fault_intervals (cur : option (Z * string)) (fi : FrameworkInfo) (h : list (Z * FrameworkInfo)) :
    list PAnnotation * option (Z * string) :=
  match h with
  | [] => ([], cur)
  | (t, fi') :: h =>
      if same_servers fi fi' then fault_intervals cur fi' h
      else
        let '(l, last) := fault_intervals ((λ text, (t, text)) <$> fault_of fi') fi' h in
        (match cur with Some (s, text) => [fault_annotation s t text] | None => [] end ++ l, last)
  end.

(** The states a run goes through. *)
Fixpoint history (g : globals) (ops : list (Z * ann_op)) : list (Z * FrameworkInfo) :=
  match ops with
  | [] => []
  | (t, o) :: ops =>
      match op_next t o g with
      | Ret g' => match finfo g' with Some fi => (t, fi) :: history g' ops | None => history g' ops end
      | _ => []
      end
  end.

Definition faults (an : Annotation) : list PAnnotation := filter (λ a, Tag a = TAG_PARTITION) (annotations an).

Definition ongoing (cur : option (Z * string)) : option Continuous :=
  (λ st, mkContinuous st.1 st.2 st.2 COLOR_FAULT) <$> cur.

(** ** Lemmas *)

(** The tables have the lengths they were made with. *)
Definition finfo_wf (fi : FrameworkInfo) : Prop :=
  0 <= nservers fi ∧ length (connected fi) = Z.to_nat (nservers fi) ∧ length (crashed fi) = Z.to_nat (nservers fi).

Lemma fault_loop_Ret conn0 cr : ∀ id conn crashes b,
  0 <= id → id + Z.of_nat (length conn0) = Z.of_nat (length cr) → ∃ r, fault_loop id conn0 cr conn crashes b = Ret r.
Proof.
  induction conn0 as [|c conn0 IH]; intros id conn crashes b Hid Hl; simpl in *; [by eexists|].
  destruct (index_in_range cr id) as (x & -> & _); [lia|]. simpl. destruct x, c; apply IH; lia.
Qed.

Lemma fault_text_Ret fi : finfo_wf fi → ∃ text, fault_text fi = Ret text.
Proof.
  intros (? & Hc & Hr). unfold fault_text. destruct (fault_loop_Ret (connected fi) (crashed fi) 0 [] [] "partition = ")
    as [[[conn crashes] b] ->]; [lia|lia|]. simpl. by eexists.
Qed.

(** The loop returns whether the slice has changed. *)
Lemma mark_Ret b servers : ∀ cr changed,
  Forall (λ id, 0 <= id < Z.of_nat (length cr)) servers →
  ∃ cr', mark b servers cr changed = Ret (changed || bool_decide (cr ≠ cr'), cr') ∧ length cr' = length cr ∧
    ∀ i, cr !! i = Some b → cr' !! i = Some b.
Proof.
  induction servers as [|id servers IH]; intros cr changed Hs; simpl.
  { exists cr. rewrite bool_decide_false by (intros H; by apply H). by rewrite orb_false_r. }
  apply Forall_cons in Hs as [Hid Hs]. destruct (index_in_range cr id Hid) as (old & -> & Hold). simpl.
  unfold store. rewrite decide_True by done. simpl.
  destruct (IH (<[Z.to_nat id:=b]> cr) (changed || negb (Bool.eqb old b))) as (cr' & -> & Hl & Hb).
  { by rewrite length_insert. }
  exists cr'. rewrite length_insert in Hl. assert (Hb' : cr' !! Z.to_nat id = Some b).
  { apply Hb. apply list_lookup_insert_eq. lia. }
  split; [|split; [done|]].
  - do 2 f_equal. destruct (Bool.eqb old b) eqn:Eb; simpl.
    + apply Bool.eqb_prop in Eb. subst old. rewrite list_insert_id by done. by rewrite orb_false_r.
    + rewrite !orb_true_r. simpl. symmetry. apply orb_true_intro. right. apply bool_decide_eq_true.
      intros ->. rewrite Hold in Hb'. injection Hb' as ->. by rewrite Bool.eqb_reflx in Eb.
  - intros i Hi. apply Hb. destruct (decide (i = Z.to_nat id)) as [->|].
    + apply list_lookup_insert_eq. apply lookup_lt_Some in Hi. done.
    + by rewrite list_lookup_insert_ne.
Qed.

Lemma copy_into_eq {A} (dst src : list A) : length src = length dst → copy_into dst src = src.
Proof. intros H. unfold copy_into. rewrite drop_ge by lia. rewrite app_nil_r. apply take_ge. lia. Qed.

Definition inv (fi : FrameworkInfo) (cur : option (Z * string)) (g : globals) : Prop :=
  finfo g = Some fi ∧ finfo_wf fi ∧ continuous (annotation g) !! TAG_PARTITION = ongoing cur ∧ snd <$> cur = fault_of fi.

(** One step against the reference. *)
Definition matches (fi : FrameworkInfo) (cur : option (Z * string)) (g : globals) (t : Z) (g' : globals) : Prop :=
  ∃ fi', finfo g' = Some fi' ∧
    if same_servers fi fi' then inv fi' cur g' ∧ faults (annotation g') = faults (annotation g)
    else inv fi' ((λ text, (t, text)) <$> fault_of fi') g' ∧
         faults (annotation g') = faults (annotation g) ++
           match cur with Some (s, text) => [fault_annotation s t text] | None => [] end.

Lemma no_fault_same fi fi' :
  nservers fi = nservers fi' → no_fault fi = true → no_fault fi' = true → same_servers fi fi' = true.
Proof.
  unfold no_fault, same_servers. intros Hn [H1 H2]%andb_prop [H3 H4]%andb_prop.
  apply bool_decide_eq_true in H1, H2, H3, H4. rewrite <- H1, <- H2, <- H3, <- H4, Hn.
  by rewrite !bool_decide_true.
Qed.

Lemma same_servers_fault fi fi' :
  nservers fi = nservers fi' → same_servers fi fi' = true → fault_of fi = fault_of fi' ∧ (finfo_wf fi → finfo_wf fi').
Proof.
  unfold same_servers. intros Hn [H1 H2]%andb_prop. apply bool_decide_eq_true in H1, H2.
  unfold fault_of, no_fault, fault_text, finfo_wf. by rewrite Hn, H1, H2.
Qed.

Lemma faults_snoc an a (c : gmap string Continuous) b :
  faults (mkAnnotation (annotations an ++ [a]) c b) = faults an ++ (if decide (Tag a = TAG_PARTITION) then [a] else []).
Proof.
  unfold faults. simpl. rewrite filter_app, filter_cons. by case_decide.
Qed.

Lemma annotateFault_matches fi cur g t fi' :
  inv fi cur g → nservers fi' = nservers fi → finfo_wf fi' → same_servers fi fi' = false →
  ∃ g', annotateFault t fi' (set_finfo fi' g) = Ret g' ∧ matches fi cur g t g'.
Proof.
  intros (Hfi & Hwf & Hcont & Hcur) Hn Hwf' Hne. unfold annotateFault, matches.
  destruct (no_fault fi') eqn:Hno.
  - destruct (no_fault fi) eqn:Hno0; [by rewrite (no_fault_same fi fi') in Hne by done|].
    assert (Hf' : fault_of fi' = None) by (unfold fault_of; by rewrite Hno).
    destruct (fault_text_Ret fi Hwf) as [text Ht].
    unfold fault_of in Hcur. rewrite Hno0, Ht in Hcur. destruct cur as [[s text']|]; [|done].
    injection Hcur as ->. eexists. split; [done|]. exists fi'. split; [done|]. rewrite Hne, Hf'. simpl.
    unfold annotateContinuousEnd, inv, lookup_zero. rewrite Hcont, Hf', faults_snoc. simpl.
    split; [|done]. split; [done|]. split; [done|]. by rewrite lookup_delete_eq.
  - destruct (fault_text_Ret fi' Hwf') as [text Ht]. rewrite Ht. simpl. eexists. split; [done|]. exists fi'. split; [done|].
    assert (Hf' : fault_of fi' = Some text) by (unfold fault_of; by rewrite Hno, Ht). rewrite Hne, Hf'.
    unfold inv, AnnotateContinuousColor, on_annotation, annotateContinuousColor, set_finfo. cbn [annotation finfo].
    rewrite Hcont, Hf'. destruct cur as [[s text']|]; cbn [ongoing fmap option_fmap option_map annotation continuous].
    + rewrite faults_snoc, lookup_insert_eq. simpl. done.
    + rewrite lookup_insert_eq. simpl. by rewrite app_nil_r.
Qed.

(** An operation on another tag. *)
Lemma other_matches fi fi' cur g t (f : Annotation → Annotation) :
  inv fi cur g → nservers fi' = nservers fi → same_servers fi fi' = true →
  continuous (f (annotation g)) !! TAG_PARTITION = continuous (annotation g) !! TAG_PARTITION →
  faults (f (annotation g)) = faults (annotation g) →
  matches fi cur g t (mkGlobals (f (annotation g)) (Some fi')).
Proof.
  intros (Hfi & Hwf & Hcont & Hcur) Hn Hs Hc Hf. exists fi'. split; [done|]. rewrite Hs.
  destruct (same_servers_fault fi fi' (eq_sym Hn) Hs) as [Hfo Hw].
  split; [|done]. split; [done|]. split; [by apply Hw|]. split; [by rewrite <- Hcont|]. by rewrite <- Hfo.
Qed.

Lemma same_servers_refl fi : same_servers fi fi = true.
Proof. unfold same_servers. by rewrite !bool_decide_true. Qed.

Lemma same_servers_set conn cr fi :
  same_servers fi (set_servers conn cr fi) = bool_decide (connected fi = conn) && bool_decide (crashed fi = cr).
Proof. done. Qed.

Lemma crashed_matches b fi cur g t servers :
  inv fi cur g → Forall (λ id, 0 <= id < nservers fi) servers →
  ∃ g', AnnotateCrashed b t servers g = Ret g' ∧ matches fi cur g t g'.
Proof.
  intros Hi Hs. pose proof Hi as (Hfi & (Hn & Hl1 & Hl2) & _). unfold AnnotateCrashed, with_finfo. rewrite Hfi.
  destruct (mark_Ret b servers (crashed fi) false) as (cr' & Hm & Hl & _).
  { eapply Forall_impl; [exact Hs|]. simpl. intros. lia. }
  rewrite Hm. cbn [mbind outcome_bind orb]. destruct (bool_decide (crashed fi ≠ cr')) eqn:Ech.
  - apply bool_decide_eq_true in Ech. apply annotateFault_matches; [done|done|unfold finfo_wf; simpl; lia|].
    rewrite same_servers_set. rewrite (bool_decide_false (crashed fi = cr')) by done. apply andb_false_r.
  - apply bool_decide_eq_false in Ech. apply dec_stable in Ech. subst cr'. eexists. split; [done|].
    apply (other_matches fi _ cur g t id); try done. by rewrite same_servers_set, !bool_decide_true.
Qed.

Lemma map_const {A B} (b : B) (l : list A) : map (λ _, b) l = replicate (length l) b.
Proof. induction l; simpl; by f_equal. Qed.

Lemma step_matches fi cur g t o :
  inv fi cur g → allowed fi o → ∃ g', op_next t o g = Ret g' ∧ matches fi cur g t g'.
Proof.
  intros Hi Ha. pose proof Hi as (Hfi & Hwf & _).
  assert (Hother : ∀ f : Annotation → Annotation,
    continuous (f (annotation g)) !! TAG_PARTITION = continuous (annotation g) !! TAG_PARTITION →
    faults (f (annotation g)) = faults (annotation g) → matches fi cur g t (on_annotation f g)).
  { intros f H1 H2. unfold on_annotation. rewrite Hfi. by apply other_matches; try done; apply same_servers_refl. }
  assert (Hall : Forall (λ id, 0 <= id < nservers fi) (seqZ 0 (nservers fi))).
  { apply Forall_forall. intros id Hid%elem_of_seqZ. lia. }
  destruct o as [tag d dt col|tag s d dt col|tag d dt col|tag|dt|d dt col|conn|p1 p2| |servers|servers| | |];
    simpl in Ha |- *.
  - eexists. split; [done|]. apply Hother; [done|]. unfold annotatePointColor, append_annotation.
    rewrite faults_snoc. simpl. by rewrite decide_False, app_nil_r.
  - eexists. split; [done|]. apply Hother; [done|]. unfold annotateIntervalColor, append_annotation.
    rewrite faults_snoc. simpl. by rewrite decide_False, app_nil_r.
  - eexists. split; [done|]. unfold AnnotateContinuousColor, annotateContinuousColor.
    apply Hother; destruct (_ !! tag); simpl; rewrite ?lookup_insert_ne by done; try done.
    rewrite faults_snoc. simpl. by rewrite decide_False, app_nil_r.
  - eexists. split; [done|]. unfold AnnotateContinuousEnd, annotateContinuousEnd.
    apply Hother; simpl; rewrite ?lookup_delete_ne by done; [done|].
    rewrite faults_snoc. simpl. by rewrite decide_False, app_nil_r.
  - unfold AnnotateCheckerBegin, with_finfo. rewrite Hfi. eexists. split; [done|].
    apply (other_matches fi _ cur g t id); try done. unfold same_servers. simpl. by rewrite !bool_decide_true.
  - unfold AnnotateCheckerEnd, with_finfo. rewrite Hfi.
    case_decide; (eexists; split; [done|]; apply Hother; [done|];
      unfold annotateIntervalColor, annotatePointColor, append_annotation; rewrite faults_snoc; by rewrite app_nil_r).
  - unfold AnnotateConnection, with_finfo. rewrite Hfi. case_decide as Hc.
    + eexists. split; [done|]. destruct g as [an fo]. simpl in Hfi. subst fo.
      apply (other_matches fi fi cur (mkGlobals an (Some fi)) t id); try done. apply same_servers_refl.
    + destruct Hwf as (Hn & Hl1 & Hl2). rewrite copy_into_eq by congruence.
      apply annotateFault_matches; [done|done|unfold finfo_wf; simpl; lia|].
      rewrite same_servers_set. by rewrite (bool_decide_false (connected fi = conn)).
  - done.
  - unfold AnnotateClearFailure, with_finfo. rewrite Hfi. destruct Hwf as (Hn & Hl1 & Hl2).
    set (fi' := set_servers _ _ fi). assert (Hno : no_fault fi' = true).
    { unfold no_fault, fi'. cbn [nservers connected crashed set_servers].
      rewrite !map_const, Hl1, Hl2. by rewrite !bool_decide_true. }
    destruct (annotateFault_matches fi cur g t fi') as (g' & Hg & Hm);
      [done|done|unfold finfo_wf; simpl; rewrite !length_map; lia| |].
    + destruct (same_servers fi fi') eqn:Hs; [|done]. unfold same_servers in Hs.
      apply andb_prop in Hs as [H1 H2]. apply bool_decide_eq_true in H1, H2.
      unfold no_fault in Ha, Hno. rewrite H1, H2 in Ha.
      change (nservers fi') with (nservers fi) in Hno. congruence.
    + exists g'. split; [|done]. unfold annotateFault in Hg. by rewrite Hno in Hg.
  - by apply crashed_matches.
  - by apply crashed_matches.
  - unfold AnnotateShutdownAll, with_finfo. rewrite Hfi. by apply crashed_matches.
  - unfold AnnotateRestartAll, with_finfo. rewrite Hfi. by apply crashed_matches.
  - eexists. split; [done|]. by apply Hother.
Qed.

Lemma run_matches ops : ∀ fi cur g g',
  inv fi cur g → exec ann_step g ops g' →
  ∃ fi', inv fi' (fault_intervals cur fi (history g ops)).2 g' ∧
    faults (annotation g') = faults (annotation g) ++ (fault_intervals cur fi (history g ops)).1.
Proof.
  induction ops as [|[t o] ops IH]; intros fi cur g g' Hi He; inversion He as [|? ? g1 ? ? [Ha Hst] He']; subst.
  { exists fi. by rewrite app_nil_r. }
  pose proof Hi as (Hfi & _). rewrite Hfi in Ha. simpl in Ha, Hst.
  destruct (step_matches fi cur g t o Hi Ha) as (g2 & Hg2 & fi1 & Hfi1 & Hm).
  rewrite Hst in Hg2. injection Hg2 as <-. simpl. rewrite Hst, Hfi1. simpl.
  destruct (same_servers fi fi1) eqn:Hs; destruct Hm as [Hi1 Hf1];
    destruct (IH _ _ _ _ Hi1 He') as (fi' & Hi' & Hf'); exists fi'.
  - by rewrite Hf', Hf1.
  - destruct (fault_intervals _ fi1 _) as [l last]. simpl in *. split; [done|]. by rewrite Hf', Hf1, app_assoc.
Qed.

Lemma init_inv t d n g0 g :
  AnnotateTest t d n g0 = Ret g →
  ∃ fi, inv fi None g ∧ no_fault fi = true ∧ nservers fi = n ∧ faults (annotation g) = [].
Proof.
  unfold AnnotateTest, mkFrameworkInfo, make_bools. case_decide as Hn; [|done].
  cbn [mbind outcome_bind mret]. intros [= <-]. exists (mkFInfo n (replicate (Z.to_nat n) true) (replicate (Z.to_nat n) false) (mkCheckerBegin 0 EmptyString)).
    split; [|split; [|split; [done|]]].
  - split; [done|]. split; [|split; [done|]].
    + unfold finfo_wf. simpl. by rewrite !length_replicate.
    + unfold fault_of, no_fault. simpl. by rewrite !bool_decide_true.
  - unfold no_fault. simpl. by rewrite !bool_decide_true.
  - done.
Qed.

(** What [finalize] makes of the ongoing annotation of a tag. *)
Lemma filter_concretize (T : string) t (l : list (string * Continuous)) (m : gmap string Continuous) :
  l ≡ₚ map_to_list m →
  filter (λ a, Tag a = T) (map (λ tc, concretize tc.1 t tc.2) l) =
    match m !! T with Some c => [concretize T t c] | None => [] end.
Proof.
  intros Hl. trans (map (λ tc, concretize tc.1 t tc.2) (filter (λ tc, tc.1 = T) l)).
  { clear Hl. induction l as [|tc l IH]; [done|]. cbn [map]. rewrite !filter_cons, IH. simpl. by case_decide. }
  assert (Hp : filter (λ tc, tc.1 = T) l ≡ₚ match m !! T with Some c => [(T, c)] | None => [] end).
  { rewrite Hl. destruct (m !! T) as [c|] eqn:Hm.
    - rewrite <- (insert_delete_id m T c Hm) at 1. rewrite map_to_list_insert by apply lookup_delete_eq.
      rewrite filter_cons_True, filter_none; [done| |done].
      apply Forall_forall. intros [k c'] Hk%elem_of_map_to_list. simpl. intros ->. by rewrite lookup_delete_eq in Hk.
    - rewrite filter_none; [done|]. apply Forall_forall. intros [k c] Hk%elem_of_map_to_list. simpl. intros ->. congruence. }
  destruct (m !! T); [apply Permutation_singleton_r in Hp | apply Permutation_nil_r in Hp]; by rewrite Hp.
Qed.

Definition vis_faults (l : list PAnnotation) : list PAnnotation := filter (λ a, Tag a = TAG_PARTITION) l.

(** C34 After [AnnotateTest] and any admissible operations, no operation
    panics, and the fault annotations of the visualization are exactly the
    maximal periods in which the servers' connectivity and crashes stayed the
    same with some fault present, each labelled with that fault; the last one
    ends when the annotations are finalized. *)
Theorem fault_annotations_exact d n g0 t0 g ops g' order t t' end_ :
  (∀ m, order m ≡ₚ map_to_list m) → AnnotateTest t0 d n g0 = Ret g → exec ann_step g ops g' →
  ∃ fi fi', finfo g = Some fi ∧ nservers fi = n ∧ no_fault fi = true ∧ finfo g' = Some fi' ∧
    (∀ t o, allowed fi' o → ∃ g'', op_next t o g' = Ret g'') ∧
    let '(closed, last) := fault_intervals None fi (history g ops) in
    snd <$> last = fault_of fi' ∧
    vis_faults (FinalizeAnnotations order t t' end_ g').1 =
      closed ++ match last with Some (s, text) => [fault_annotation s t text] | None => [] end.
Proof.
  intros Horder Ht He. destruct (init_inv _ _ _ _ _ Ht) as (fi & Hi & Hno & Hn & Hf0).
  destruct (run_matches _ _ _ _ _ Hi He) as (fi' & Hi' & Hf'). pose proof Hi as (Hfi & _).
  pose proof Hi' as (Hfi' & _ & Hcont & Hlast). exists fi, fi'. do 4 (split; [done|]). split.
  { intros t1 o Ha. destruct (step_matches fi' _ g' t1 o Hi' Ha) as (g'' & ? & _). by exists g''. }
  destruct (fault_intervals _ _ _) as [closed last]. simpl in *. split; [done|].
  unfold vis_faults. simpl. rewrite !filter_app. change (filter _ (annotations _)) with (faults (annotation g')).
  rewrite Hf', Hf0, (filter_concretize _ _ _ _ (Horder _)), Hcont. simpl.
  rewrite filter_cons_False, filter_nil, app_nil_r by done. by destruct last as [[s text]|].
Qed.

(** Two missing statements of the annotation code: ending a failure when
    none is on-going records a nameless interval from time 0, and the end of a
    checker leaves its begin timestamp in place, so that the next checker's
    annotation, begun or not, also starts there. *)
Theorem annotation_missing_statements fi g t t' d dt col d' dt' col' :
  finfo g = Some fi →
  (continuous (annotation g) !! TAG_PARTITION = None →
   ∃ g', AnnotateClearFailure t g = Ret g' ∧
     annotations (annotation g') = annotations (annotation g) ++ [mkPA TAG_PARTITION 0 t "" "" ""]) ∧
  (ts (ckbegin fi) ≠ 0 →
   ∃ g', (AnnotateCheckerEnd t d dt col g ≫= AnnotateCheckerEnd t' d' dt' col') = Ret g' ∧
     annotations (annotation g') = annotations (annotation g) ++
       [mkPA TAG_CHECKER (ts (ckbegin fi)) t d (ck_details (ckbegin fi) +:+ ": " +:+ dt) col;
        mkPA TAG_CHECKER (ts (ckbegin fi)) t' d' (ck_details (ckbegin fi) +:+ ": " +:+ dt') col']).
Proof.
  intros Hfi. split.
  - intros Hc. unfold AnnotateClearFailure, with_finfo. rewrite Hfi. eexists. split; [done|].
    simpl. unfold lookup_zero. by rewrite Hc.
  - intros Hts. unfold AnnotateCheckerEnd at 2, with_finfo. rewrite Hfi, decide_False by done.
    cbn [mbind outcome_bind]. unfold AnnotateCheckerEnd, with_finfo, AnnotateIntervalColor, on_annotation.
    cbn [finfo]. rewrite Hfi, decide_False by done. eexists. split; [done|]. simpl. by rewrite <- app_assoc.
Qed.

(** ** Visualizations *)

(** A sequence of calls of [cleanup], with the visualizations they write. *)
Fixpoint cleanups order (calls : list (vis_env * (Z * Z) * (bool * string))) (an : Annotation) :
    Annotation * list (string * list PAnnotation) :=
  match calls with
  | [] => (an, [])
  | (env, (t, t'), (failed, end_)) :: calls =>
      let '(an, vis) := cleanup order env t t' failed end_ an in
      let '(an, l) := cleanups order calls an in (an, option_list vis ++ l)
  end.

(** Nothing more to write. *)
Definition exhausted (an : Annotation) : Prop := finalized an = true ∨ (annotations an = [] ∧ continuous an = ∅).

Lemma cleanup_exhausted order env t t' failed end_ an :
  (∀ m, order m ≡ₚ map_to_list m) → exhausted an →
  exhausted (cleanup order env t t' failed end_ an).1 ∧ (cleanup order env t t' failed end_ an).2 = None.
Proof.
  intros Ho Hx. unfold cleanup, isFinalized. destruct (_ || finalized an) eqn:E; simpl; [by split; [right|]|].
  apply orb_false_iff in E as [_ E]. destruct Hx as [Hx|[Hx1 Hx2]]; [congruence|].
  rewrite Hx1, Hx2. specialize (Ho ∅). rewrite map_to_list_empty in Ho. apply Permutation_nil_r in Ho. rewrite Ho.
  simpl. by split; [left|].
Qed.

Lemma cleanups_exhausted order calls : ∀ an,
  (∀ m, order m ≡ₚ map_to_list m) → exhausted an → (cleanups order calls an).2 = [].
Proof.
  induction calls as [|[[env [t t']] [failed end_]] calls IH]; intros an Ho Hx; [done|]. simpl.
  destruct (cleanup_exhausted order env t t' failed end_ an Ho Hx) as [Hx' Hn].
  destruct (cleanup _ _ _ _ _ _ an) as [an' vis]. simpl in *. subst vis. specialize (IH an' Ho Hx').
  destruct (cleanups order calls an') as [an'' l]. simpl in *. by rewrite IH.
Qed.

(** Of the calls of [cleanup] that can follow a test (its own end, a fatal
    checker failure, an interrupt), at most one writes a visualization, and none
    does once the annotations were finalized by the linearizability check; the
    first one writes it exactly when the file can be opened, visualization is
    not disabled, and the test failed or visualization is always wanted. *)
Theorem one_visualization order an calls :
  (∀ m, order m ≡ₚ map_to_list m) →
  (length (cleanups order calls an).2 <= 1)%nat ∧
  (finalized an = true → (cleanups order calls an).2 = []) ∧
  ∀ env t t' failed end_, finalized an = false → annotations an ≠ [] →
    (is_Some (cleanup order env t t' failed end_ an).2 ↔
     open_fails env = false ∧ VIS_ENABLE env ≠ "never" ∧ (failed = true ∨ VIS_ENABLE env = "always")).
Proof.
  intros Ho. split; [|split].
  - destruct calls as [|[[env [t t']] [failed end_]] calls]; simpl; [lia|].
    assert (Hx : exhausted (cleanup order env t t' failed end_ an).1).
    { unfold cleanup. destruct (_ || isFinalized an); [by right|]. simpl. destruct (decide _); [by left|].
      destruct (open_fails env); by left. }
    destruct (cleanup _ _ _ _ _ _ an) as [an' vis]. simpl in Hx.
    pose proof (cleanups_exhausted order calls an' Ho Hx) as Hl. destruct (cleanups order calls an') as [an'' l].
    simpl in *. subst l. destruct vis; simpl; lia.
  - intros Hf. apply cleanups_exhausted; [done|]. by left.
  - intros env t t' failed end_ Hf Ha. unfold cleanup, isFinalized. rewrite Hf, orb_false_r.
    destruct (bool_decide_reflect (VIS_ENABLE env = "never")) as [Hn|Hn]; simpl;
      [by split; [intros [? ?]|intros (_ & ? & _)]|].
    destruct failed, (bool_decide_reflect (VIS_ENABLE env = "always")) as [Hw|Hw]; simpl;
      try (by split; [intros [? ?]|intros (_ & _ & [?|?])]).
    all: rewrite decide_False by (rewrite length_app; destruct (annotations an); simpl; [done|lia]).
    all: destruct (open_fails env); simpl.
    all: split; [by intros [? ?]; auto | intros (Hd & _); by first [discriminate Hd | eexists]].
Qed.

(** ** Witnesses *)

(** Five servers; server 1 is cut off, crashes while cut off, comes back, and
    is connected again. *)
Definition ex_ops : list (Z * ann_op) :=
  [(10, OConnection [true; false; true; true; true]); (15, OCheckerBegin "c"); (20, OShutdown [1; 3]);
   (25, OShutdown [1]); (30, ORestartAll); (35, OPoint "user" "d" "d" COLOR_USER);
   (40, OConnection [true; true; true; true; true]); (45, OShutdown [4])].

Definition ex_start : globals := match AnnotateTest 5 "t" 5 init_globals with Ret g => g | _ => init_globals end.

Definition ann_next (g : globals) (l : Z * ann_op) : option globals :=
  match finfo g with
  | Some fi => if match l.2 with
                  | OConnection c => bool_decide (length c = Z.to_nat (nservers fi))
                  | OShutdown s | ORestart s => bool_decide (Forall (λ id, 0 <= id < nservers fi) s)
                  | OPoint tag _ _ _ => bool_decide (tag ≠ TAG_PARTITION)
                  | OCheckerBegin _ | OShutdownAll | ORestartAll => true
                  | _ => false
                  end
               then match op_next l.1 l.2 g with Ret g' => Some g' | _ => None end else None
  | None => None
  end.

Lemma ann_next_step g l g' : ann_next g l = Some g' → ann_step g l g'.
Proof.
  unfold ann_next, ann_step. destruct (finfo g) as [fi|]; [|done].
  destruct (op_next l.1 l.2 g) as [g1| |] eqn:E; [|by case_match..].
  destruct l as [t o]. simpl in *.
  destruct o; simpl; try done; try (by intros [= ->]); case_bool_decide as H; try done; by intros [= ->].
Qed.

Definition ex_end : globals := default ex_start (run ann_next ex_start ex_ops).

Lemma fault_annotations_exact_witness :
  vis_faults (FinalizeAnnotations map_to_list 50 51 "end" ex_end).1 =
    [fault_annotation 10 20 "partition = [1] [0 2 3 4]"; fault_annotation 20 30 "partition = [0 2 4] / crash = [1 3]";
     fault_annotation 30 40 "partition = [1] [0 2 3 4]"; fault_annotation 45 50 "partition = [0 1 2 3] / crash = [4]"].
Proof.
  assert (He : exec ann_step ex_start ex_ops ex_end)
    by (apply (run_exec _ ann_next); [apply ann_next_step | vm_compute; reflexivity]).
  destruct (fault_annotations_exact "t" 5 init_globals 5 ex_start ex_ops ex_end map_to_list 50 51 "end"
    (λ m, Permutation_refl _) eq_refl He) as (fi & fi' & Hfi & _ & _ & _ & _ & H).
  assert (E : fault_intervals None fi (history ex_start ex_ops) =
    ([fault_annotation 10 20 "partition = [1] [0 2 3 4]"; fault_annotation 20 30 "partition = [0 2 4] / crash = [1 3]";
      fault_annotation 30 40 "partition = [1] [0 2 3 4]"], Some (45, "partition = [0 1 2 3] / crash = [4]"))).
  { injection Hfi as <-. vm_compute. reflexivity. }
  rewrite E in H. exact (proj2 H).
Defined.

Lemma annotation_missing_statements_witness :
  ∃ g', AnnotateClearFailure 9 ex_start = Ret g' ∧ length (annotations (annotation g')) = 2%nat.
Proof.
  destruct (annotation_missing_statements (mkFInfo 5 (replicate 5 true) (replicate 5 false) (mkCheckerBegin 0 ""))
    ex_start 9 0 "" "" "" "" "" "" eq_refl) as [H _].
  destruct (H eq_refl) as (g' & Hg & Ha). exists g'. split; [exact Hg|]. rewrite Ha. reflexivity.
Defined.

Lemma one_visualization_witness :
  length (cleanups map_to_list [(mkVis "" "" false, (7, 8), (true, "failed")); (mkVis "always" "f" false, (9, 9), (true, "interrupted"))]
    (annotation ex_start)).2 = 1%nat.
Proof.
  pose proof (proj1 (one_visualization map_to_list (annotation ex_start)
    [(mkVis "" "" false, (7, 8), (true, "failed")); (mkVis "always" "f" false, (9, 9), (true, "interrupted"))]
    (λ m, Permutation_refl _))) as H. apply Nat.le_antisymm; [exact H|]. vm_compute. apply le_n.
Defined.
