(* ===== verification/CheckHistory.v ===== *)
(** * The check of the logged history: [checkPorcupine] of [kvtest1/porcupine.go]

    At the end of a test the log of operations is given to the checker porcupine,
    a third-party library and a parameter here, and a visualization is written,
    with the annotations of the run; the clean-up of the test ([tester1/config.go])
    writes another one if that has not been done. *)

From S2P Require Import Prelude Rpc KVServer KVClerk KvModel KvLinear Annotation.

Open Scope string_scope.
Open Scope list_scope.
Open Scope Z_scope.

(** [porcupine.CheckResult] *)
Inductive CheckResult := Ok | Unknown | Illegal.

#[export] Instance CheckResult_eq_dec : EqDecision CheckResult.
Proof. solve_decision. Defined.

(** What is done to files: one is opened, under the name of [VIS_FILE] or, for an
    empty one, as a temporary file; a history is written to it. *)
Inductive action (Info : Type) :=
| Open_file (path : string)
| Visualize (path : string) (info : Info).
Arguments Open_file {Info} path.
Arguments Visualize {Info} path info.

(** [linearizabilityCheckTimeout], in nanoseconds *)
Definition linearizabilityCheckTimeout : Z := 10 ^ 9.

Section check.
Context {Info : Type} (CheckOperationsVerbose : list Operation → Z → CheckResult * Info).
Context (AddAnnotations : Info → list PAnnotation → Info) (no_info : Info).
Context (order : gmap string Continuous → list (string * Continuous)).

(** A file is opened, and unless that failed the history is written. [t] and [t']
    are clock readings. *)
Definition write_history (env : vis_env) (t t' : Z) (end_ : string) (info : Info) (g : globals) : list (action Info) * globals :=
  let '(l, g) := FinalizeAnnotations order t t' end_ g in
  ([Open_file (VIS_FILE env); Visualize (VIS_FILE env) (AddAnnotations info l)], g).

(** The result: whether the test was stopped ([t.Fatal]), and the files. *)
Definition checkPorcupine (env : vis_env) (t t' : Z) (opLog : list Operation) (nsec : Z) (g : globals) :
    bool * list (action Info) * globals :=
  let '(res, info) := CheckOperationsVerbose (OpLog_Read opLog) nsec in
  if decide (res = Illegal) then
    let '(acts, g) :=
      if open_fails env then ([], g)
      else if decide (VIS_ENABLE env ≠ "never") then write_history env t t' "test failed" info g
      else ([Open_file (VIS_FILE env)], g) in
    (true, acts, g)
  else
    let '(acts, g) :=
      if bool_decide (VIS_ENABLE env = "always") && GetAnnotationFinalized g then
        if open_fails env then ([], g) else write_history env t t' "test passed" info g
      else ([], g) in
    (false, acts, g).

Definition CheckPorcupineT (env : vis_env) (t t' : Z) (oplog : list Operation) (nsec : Z) (g : globals) :=
  checkPorcupine env t t' oplog nsec g.
Definition CheckPorcupine (env : vis_env) (t t' : Z) (oplog : list Operation) (g : globals) :=
  CheckPorcupineT env t t' oplog linearizabilityCheckTimeout g.

(** The end of [Config.Cleanup]: [failed] is [t.Failed()]. *)
Definition Config_Cleanup (env : vis_env) (t t' : Z) (failed : bool) (g : globals) : list (action Info) * globals :=
  let '(an, vis) := cleanup order env t t' failed (if failed then "test failed" else "test passed") (annotation g) in
  (match vis with Some (path, l) => [Open_file path; Visualize path (AddAnnotations no_info l)] | None => [] end,
   mkGlobals an (finfo g)).

(** The end of a test: its check, then the deferred clean-up, [failed] saying
    whether the test had already failed. *)
Definition end_of_test (env : vis_env) (t t' u u' : Z) (oplog : list Operation) (failed : bool) (g : globals) :
    bool * list (action Info) * globals :=
  let '(stopped, acts, g) := CheckPorcupine env t t' oplog g in
  let '(acts', g) := Config_Cleanup env u u' (failed || stopped) g in
  (failed || stopped, acts ++ acts', g).
End check.

(** The histories written. *)
Definition visualized {Info} (acts : list (action Info)) : list (string * Info) :=
  omap (λ a, match a with Visualize path info => Some (path, info) | Open_file _ => None end) acts.

(** ** Lemmas *)

Section lemmas.
Context {Info : Type} (check : list Operation → Z → CheckResult * Info).
Context (add : Info → list PAnnotation → Info) (no_info : Info).
Context (order : gmap string Continuous → list (string * Continuous)).

Lemma cleanup_finalized env u u' failed g :
  finalized (annotation g) = true → (Config_Cleanup add no_info order env u u' failed g).1 = [].
Proof.
  intros Hf. unfold Config_Cleanup, cleanup, isFinalized. rewrite Hf, orb_true_r. done.
Qed.

Lemma cleanup_one env u u' failed g :
  (length (visualized (Config_Cleanup add no_info order env u u' failed g).1) <= 1)%nat.
Proof.
  unfold Config_Cleanup. destruct (cleanup _ _ _ _ _ _ _) as [an [[path l]|]]; simpl; lia.
Qed.

(** A history is written with what the checker says of it, and everything
    annotated so far. *)
Definition history_vis env t t' end_ history g : string * Info :=
  (VIS_FILE env, add (check history linearizabilityCheckTimeout).2 (FinalizeAnnotations order t t' end_ g).1).

(** When the history is to be shown: an illegal one unless that is disabled, and any
    other one if that is always wanted and the annotations are marked as final. *)
Definition to_show (env : vis_env) (illegal : bool) (g : globals) : bool :=
  if illegal then negb (bool_decide (VIS_ENABLE env = "never"))
  else bool_decide (VIS_ENABLE env = "always") && finalized (annotation g).
Definition end_text (illegal : bool) : string := if illegal then "test failed" else "test passed".

Lemma write_history_spec env t t' end_ info g :
  visualized (write_history add order env t t' end_ info g).1 = [(VIS_FILE env, add info (FinalizeAnnotations order t t' end_ g).1)] ∧
  finalized (annotation (write_history add order env t t' end_ info g).2) = true.
Proof. done. Qed.

Lemma CheckPorcupine_spec env t t' oplog g :
  let illegal := bool_decide ((check oplog linearizabilityCheckTimeout).1 = Illegal) in
  let '(stopped, acts, g') := CheckPorcupine check add order env t t' oplog g in
  stopped = illegal ∧
  if to_show env illegal g && negb (open_fails env)
  then visualized acts = [history_vis env t t' (end_text illegal) oplog g] ∧ finalized (annotation g') = true
  else visualized acts = [] ∧ g' = g.
Proof.
  unfold CheckPorcupine, CheckPorcupineT, checkPorcupine, OpLog_Read, history_vis, GetAnnotationFinalized, isFinalized, to_show.
  destruct (check oplog _) as [res info]. cbn [fst snd]. destruct (bool_decide_reflect (res = Illegal)) as [Hr|Hr]; cbn [end_text].
  - rewrite decide_True by done. destruct (open_fails env); [by rewrite andb_false_r|].
    destruct (bool_decide_reflect (VIS_ENABLE env = "never")) as [Hn|Hn]; [by rewrite decide_False by (intros H; by apply H)|]. rewrite decide_True by done. cbn [negb andb].
    pose proof (write_history_spec env t t' "test failed" info g) as H. destruct (write_history _ _ _ _ _ _ _ _) as [acts g']. done.
  - rewrite decide_False by done. destruct (bool_decide (VIS_ENABLE env = "always") && finalized (annotation g)); [|done]. destruct (open_fails env); [done|].
    cbn [negb andb]. pose proof (write_history_spec env t t' "test passed" info g) as H.
    destruct (write_history _ _ _ _ _ _ _ _) as [acts g']. done.
Qed.
End lemmas.

(** ** Properties *)

(** C39 At the end of a test the check stops the test exactly if the checker finds
    the history illegal, and check and clean-up together write at most one
    visualization. If the history is to be shown and the file can be opened, it is
    the history with all annotations and the verdict; else it is what the clean-up
    writes on its own. *)
Theorem end_of_test_spec {Info} check add no_info order env t t' u u' oplog failed g :
  let '(failed', acts, _) := end_of_test (Info:=Info) check add no_info order env t t' u u' oplog failed g in
  let illegal := bool_decide ((check oplog linearizabilityCheckTimeout).1 = Illegal) in
  failed' = failed || illegal ∧ (length (visualized acts) <= 1)%nat ∧
  visualized acts = (if to_show env illegal g && negb (open_fails env)
    then [history_vis check add order env t t' (end_text illegal) oplog g]
    else visualized (Config_Cleanup add no_info order env u u' failed' g).1).
Proof.
  unfold end_of_test. pose proof (CheckPorcupine_spec check add order env t t' oplog g) as H. simpl in H.
  destruct (CheckPorcupine _ _ _ _ _ _ _ _) as [[stopped acts] g']. destruct H as [-> H].
  set (illegal := bool_decide _) in *. pose proof (cleanup_one add no_info order env u u' (failed || illegal) g') as H1.
  pose proof (cleanup_finalized add no_info order env u u' (failed || illegal) g') as H0.
  destruct (Config_Cleanup _ _ _ _ _ _ _ g') as [acts' g''] eqn:E. simpl in *.
  assert (Hv : visualized (acts ++ acts') = visualized acts ++ visualized acts') by apply omap_app. rewrite Hv.
  destruct (_ && _); destruct H as [-> H].
  - rewrite H0 by done. split; [done|]. split; [simpl; lia | done].
  - subst g'. rewrite E. done.
Qed.

(** C6 A test of the key/value service is never stopped by the check of its
    history: after any run of clerks over the lossy network whose calls have all
    returned and in which no [Put] was answered [ErrNoKey], with any checker that
    calls a history illegal only if it is not linearizable, the check passes; and
    unless the annotations are marked as final it touches neither files nor them. *)
Theorem service_passes_check {Info} check add order env t t' ls s g :
  (∀ h nsec, (check h nsec).1 = Illegal → ¬ linearizable h) →
  exec l_step l_init ls s → Z.of_nat (length ls) < 2 ^ 64 → l_cl s = ∅ →
  (∀ o, o ∈ l_hist s → Op (Input o) = 1 → OutErr (Output o) ≠ ErrNoKey) →
  let r := CheckPorcupine (Info:=Info) check add order env t t' (l_hist s) g in
  r.1.1 = false ∧ (finalized (annotation g) = false → r = (false, [], g)).
Proof.
  intros Hsound He Hlen Hq Hnk. unfold CheckPorcupine, CheckPorcupineT, checkPorcupine, OpLog_Read.
  destruct (check _ _) as [res info] eqn:Ec. rewrite decide_False.
  - unfold GetAnnotationFinalized, isFinalized. split; [by destruct (_ && _), (open_fails env)|]. intros Hf. by rewrite Hf, andb_false_r.
  - intros ->. eapply Hsound; [by rewrite Ec|]. by eapply quiescent_linearizable.
Qed.

(** ** Witnesses *)

(** A checker that knows only the operation codes; the rest is beyond it. *)
Definition code_check (h : list Operation) (_ : Z) : CheckResult * list Operation :=
  (if decide (Forall (λ o, Op (Input o) = 0 ∨ Op (Input o) = 1) h) then Unknown else Illegal, h).

Lemma accepted_codes st h : accepted st h = true → Forall (λ o, Op (Input o) = 0 ∨ Op (Input o) = 1) h.
Proof.
  revert st. induction h as [|o h IH]; intros st; [done|]. simpl. unfold Step.
  destruct (decide (Op (Input o) = 0)) as [H0|H0]; [|destruct (decide (Op (Input o) = 1)) as [H1|H1]; [|done]].
  - intros [_ H]%andb_prop. constructor; [by left | by eapply IH].
  - case_decide; intros [_ Hr]%andb_prop; (constructor; [by right | by eapply IH]).
Qed.

Lemma code_check_sound h nsec : (code_check h nsec).1 = Illegal → ¬ linearizable h.
Proof.
  unfold code_check. simpl. case_decide as Hd; [done|]. intros _ (ord & Hp & _ & Hacc). apply Hd. rewrite <- Hp.
  specialize (Hacc map_to_list (λ _, Permutation_refl _)).
  destruct (Partition_spec map_to_list ord (λ _, Permutation_refl _)) as (keys & E & _ & Hk & _). rewrite E in Hacc.
  apply Forall_forall. intros o Ho. rewrite Forall_fmap, Forall_forall in Hacc.
  assert (Hin : InKey (Input o) ∈ keys) by (apply Hk, list_elem_of_fmap; by exists o).
  specialize (Hacc _ Hin). apply accepted_codes in Hacc. rewrite Forall_forall in Hacc. apply Hacc.
  by apply list_elem_of_filter.
Qed.

Definition ex_env (enable : string) : vis_env := mkVis enable "h.html" false.
Definition bad_log : list Operation := [mkOperation (mkKvInput 7 "k" "" 0) (mkKvOutput "" 0 OK) 0 1 0].

(** A passed history that is shown, and one that is not: the annotations are final
    only in the first case. *)
Definition good_log : list Operation := [get_operation "k" "" 0 ErrNoKey 0 1 0].
Definition shown (g : globals) :=
  visualized (end_of_test (Info:=list Operation) code_check (λ i _, i) [] map_to_list (ex_env "always") 1 2 3 4 good_log false g).1.2.
Example shown_last : shown (SetAnnotationFinalized init_globals) = [("h.html", good_log)] ∧ shown init_globals = [].
Proof. vm_compute. done. Qed.

Lemma service_passes_check_witness : ∃ s, run l_next l_init demo_ops = Some s ∧ length (l_hist s) = 3%nat ∧
  CheckPorcupine code_check (λ i _, i) map_to_list (ex_env "always") 1 2 (l_hist s) init_globals = (false, [], init_globals).
Proof.
  assert (Hr : ∃ s, run l_next l_init demo_ops = Some s ∧ length (l_hist s) = 3%nat ∧ l_cl s = ∅ ∧
    Forall (λ o, OutErr (Output o) ≠ ErrNoKey) (l_hist s)).
  { vm_compute. eexists. split; [reflexivity|]. split; [done|]. split; [done|]. repeat (constructor; [done|]). constructor. }
  destruct Hr as (s & Hrun & Hlen & Hcl & Hh). exists s. split; [exact Hrun|]. split; [exact Hlen|].
  apply (service_passes_check code_check _ _ _ _ _ demo_ops s).
  - exact code_check_sound.
  - apply (run_exec l_step l_next); [done | exact Hrun].
  - by vm_compute.
  - exact Hcl.
  - rewrite Forall_forall in Hh. intros o Ho _. by apply Hh.
  - reflexivity.
Defined.
