(* ===== verification/RaftTest.v ===== *)
(** * The tester's side of the Raft lab: [raft1/test.go]

    [Test] keeps a copy of what every server says it has applied and checks
    that the copies agree; the checkers ask the servers for their state. The
    answers of the servers, which run in other processes, and the passage of
    time are arguments of the checkers. Commands are of an arbitrary type [any]
    of comparable values, printed by [show]. The annotations the checkers make
    are logged in [notes]. *)

From stdpp Require Import pretty.
From S2P Require Import Prelude.

Open Scope string_scope.
Open Scope list_scope.
Open Scope Z_scope.

(** The calls of the annotation interface. *)
Inductive note :=
| CheckerBegin (details : string)
| CheckerSuccess (desp details : string)
| CheckerFailure (desp details : string)
| CheckerFailureBeforeExit (desp details : string)
| InfoInterval (desp details : string)
| Shutdown (servers : list Z)
| Restarted (servers : list Z).

Definition sprint (zs : list Z) : string := "[" +:+ String.concat " " (map pretty zs) +:+ "]".

Section test.
Context {any : Type} `{EqDecision any} (show : any → string).

Record ApplyMsg := mkApplyMsg {
  CommandValid : bool; Command : any; CommandIndex : Z;
  SnapshotValid : bool; Snapshot : option string; SnapshotTerm : Z; SnapshotIndex : Z
}.

(** [rfsrv] says whether the pointer to the server's proxy is set. *)
Record raftServer := mkRaftServer { rfsrv : bool; applyErr : string; logs : gmap Z any }.

Record Test := mkTest { n : Z; srvs : list raftServer; maxIndex : Z; finished : bool; notes : list note }.

Definition newRaftServer : raftServer := mkRaftServer true "" ∅.
Definition entry (rs : raftServer) (i : Z) : option any := logs rs !! i.

Definition set_srvs (l : list raftServer) (ts : Test) : Test := mkTest (n ts) l (maxIndex ts) (finished ts) (notes ts).
Definition log_note (x : note) (ts : Test) : Test :=
  mkTest (n ts) (srvs ts) (maxIndex ts) (finished ts) (notes ts ++ [x]).

(** [ts.srvs[i]], with the bounds check, replaced by [f] of it *)
Definition on_srv (i : Z) (f : raftServer → raftServer) (ts : Test) : outcome Test :=
  rs ← index (srvs ts) i; l ← store (srvs ts) i (f rs); Ret (set_srvs l ts).

(** [makeTest]: all servers are made by [mksrv]. *)
Definition makeTest (k : nat) : Test := mkTest (Z.of_nat k) (replicate k newRaftServer) 0 false [].

(** [mksrv] of a server that exists only renews the proxy. *)
Definition mksrv (srv : Z) (ts : Test) : outcome Test :=
  on_srv srv (λ rs, mkRaftServer true (applyErr rs) (logs rs)) ts.

(** [kill] and [restart], without the processes they stop and start. *)
Definition kill (l : list Z) (ts : Test) : outcome Test :=
  for_each (λ srv, on_srv srv (λ rs, mkRaftServer false (applyErr rs) (logs rs))) l (log_note (Shutdown l) ts).
Definition restart (l : list Z) (ts : Test) : outcome Test := for_each mksrv l (log_note (Restarted l) ts).

(** ** What the servers report *)

Definition commit_err (i : Z) (m : ApplyMsg) (j : Z) (old : any) : string :=
  "commit index=" +:+ pretty (CommandIndex m) +:+ " server=" +:+ pretty i +:+ " " +:+ show (Command m) +:+
  " != server=" +:+ pretty j +:+ " " +:+ show old.

(** The loop over [ts.srvs], from server [j] on. *)
Fixpoint check_loop (i : Z) (m : ApplyMsg) (j : Z) (l : list raftServer) (err_msg : string) : string :=
  match l with
  | [] => err_msg
  | rs :: l =>
      check_loop i m (j + 1) l
        match entry rs (CommandIndex m) with
        | Some old => if decide (old = Command m) then err_msg else commit_err i m j old
        | None => err_msg
        end
  end.

Definition CheckLogs (i : Z) (m : ApplyMsg) (ts : Test) : outcome (Test * (string * bool)) :=
  me ← index (srvs ts) i;
  let err_msg := check_loop i m 0 (srvs ts) "" in
  let prevok := bool_decide (is_Some (entry me (CommandIndex m - 1))) in
  ts ← on_srv i (λ rs, mkRaftServer (rfsrv rs) (applyErr rs) (<[CommandIndex m := Command m]> (logs rs))) ts;
  let ts := if decide (CommandIndex m > maxIndex ts)
            then mkTest (n ts) (srvs ts) (CommandIndex m) (finished ts) (notes ts) else ts in
  Ret (ts, (err_msg, prevok)).

Definition IngestLog (i : Z) (xlog : gmap Z any) (ts : Test) : outcome Test :=
  on_srv i (λ rs, mkRaftServer (rfsrv rs) (applyErr rs) xlog) ts.

Definition ApplyErr (i : Z) (err : string) (ts : Test) : outcome Test :=
  ts ← on_srv i (λ rs, mkRaftServer (rfsrv rs) err (logs rs)) ts;
  Ret (log_note (CheckerFailureBeforeExit "apply error" err) ts).

(** ** Committed entries *)

(** The loop of [nCommitted]. *)
Fixpoint committed_loop (idx : Z) (l : list raftServer) (count : Z) (cmd : option any) : outcome (Z * option any) :=
  match l with
  | [] => Ret (count, cmd)
  | rs :: l =>
      if decide (applyErr rs ≠ "") then Fatal
      else match entry rs idx with
           | Some cmd1 =>
               if decide (count > 0 ∧ cmd ≠ Some cmd1) then Fatal
               else committed_loop idx l (count + 1) (Some cmd1)
           | None => committed_loop idx l count cmd
           end
  end.

Definition nCommitted (idx : Z) (ts : Test) : outcome (Z * option any) := committed_loop idx (srvs ts) 0 None.

Definition checkNoAgreement (idx : Z) (ts : Test) : outcome Test :=
  let ts := log_note (CheckerBegin ("checking no unexpected agreement at index " +:+ pretty idx)) ts in
  '(k, _) ← nCommitted idx ts;
  if decide (k > 0) then Fatal
  else Ret (log_note (CheckerSuccess ("no unexpected agreement at index " +:+ pretty idx) "OK") ts).

(** ** Leaders and terms *)

(** What a round of questions to the servers sees: whether server [i] is
    connected, and its answer ([GetState]). *)
Record answers := mkAnswers { IsConnected : Z → bool; GetState : Z → Z * bool }.

(** [ts.srvs[i].rfsrv.GetState()]: a nil proxy panics. *)
Definition ask (a : answers) (ts : Test) (i : Z) : outcome (Z * bool) :=
  rs ← index (srvs ts) i; if rfsrv rs then Ret (GetState a i) else Panic.

(** The loop that fills the map from terms to leaders. *)
Fixpoint leaders_loop (a : answers) (ts : Test) (ids : list Z) (leaders : gmap Z (list Z)) : outcome (gmap Z (list Z)) :=
  match ids with
  | [] => Ret leaders
  | i :: ids =>
      if IsConnected a i then
        '(term, leader) ← ask a ts i;
        leaders_loop a ts ids (if leader : bool then <[term := lookup_zero [] term leaders ++ [i]]> leaders else leaders)
      else leaders_loop a ts ids leaders
  end.

(** The loop over that map, in the order of [l]. *)
Fixpoint last_term_loop (l : list (Z * list Z)) (lastTermWithLeader : Z) : outcome Z :=
  match l with
  | [] => Ret lastTermWithLeader
  | (term, leaders) :: l =>
      if decide (1 < length leaders)%nat then Fatal
      else last_term_loop l (if decide (term > lastTermWithLeader) then term else lastTermWithLeader)
  end.

(** The iterations of [checkOneLeader], one for each element of [rounds] (ten
    in the code); [order] is the order in which the map is ranged over. *)
Fixpoint one_leader_loop (order : gmap Z (list Z) → list (Z * list Z)) (rounds : list answers) (ts : Test) :
    outcome (Z * Test) :=
  match rounds with
  | [] => Fatal
  | a :: rounds =>
      leaders ← leaders_loop a ts (seqZ 0 (n ts)) ∅;
      lastTerm ← last_term_loop (order leaders) (-1);
      if decide (size leaders ≠ 0%nat) then
        leader ← index (lookup_zero [] lastTerm leaders) 0;
        let details := "leader in term " +:+ pretty lastTerm +:+ " = " +:+ pretty leader in
        Ret (leader, log_note (CheckerSuccess details details) ts)
      else one_leader_loop order rounds ts
  end.

Definition checkOneLeader order (rounds : list answers) (ts : Test) : outcome (Z * Test) :=
  one_leader_loop order (take 10 rounds) (log_note (CheckerBegin "checking for a single leader") ts).

Fixpoint terms_loop (a : answers) (ts : Test) (ids : list Z) (term : Z) : outcome Z :=
  match ids with
  | [] => Ret term
  | i :: ids =>
      if IsConnected a i then
        '(xterm, _) ← ask a ts i;
        if decide (term = -1) then terms_loop a ts ids xterm
        else if decide (term ≠ xterm) then Fatal else terms_loop a ts ids term
      else terms_loop a ts ids term
  end.

Definition checkTerms (a : answers) (ts : Test) : outcome (Z * Test) :=
  let ts := log_note (CheckerBegin "checking term agreement") ts in
  term ← terms_loop a ts (seqZ 0 (n ts)) (-1);
  Ret (term, log_note (CheckerSuccess "term agreed" ("term = " +:+ pretty term)) ts).

Fixpoint no_leader_loop (a : answers) (ts : Test) (ids : list Z) : outcome unit :=
  match ids with
  | [] => Ret tt
  | i :: ids =>
      if IsConnected a i then
        '(_, is_leader) ← ask a ts i;
        if is_leader : bool then Fatal else no_leader_loop a ts ids
      else no_leader_loop a ts ids
  end.

Definition checkNoLeader (a : answers) (ts : Test) : outcome Test :=
  let ts := log_note (CheckerBegin "checking no unexpected leader among connected servers") ts in
  _ ← no_leader_loop a ts (seqZ 0 (n ts));
  Ret (log_note (CheckerSuccess "no unexpected leader" "no unexpected leader") ts).

(** ** Agreement on a command *)

(** A round of [one]: the state of the tester, the connected servers and their
    answers to [Start]; and the states of the tester at the polls of the
    following two seconds. *)
Record round := mkRound {
  r_test : Test; r_connected : Z → bool; r_Start : Z → Z * Z * bool; r_polls : list Test
}.

(** The loop over the servers; [starts] is the last one tried. *)
Fixpoint try_loop (r : round) (k : nat) (starts : Z) : outcome (Z * Z) :=
  match k with
  | O => Ret (starts, -1)
  | S k =>
      let starts := (starts + 1) `rem` Z.of_nat (length (srvs (r_test r))) in
      if r_connected r starts then
        rs ← index (srvs (r_test r)) starts;
        if rfsrv rs then
          let '(index1, _, ok) := r_Start r starts in
          if ok : bool then Ret (starts, index1) else try_loop r k starts
        else try_loop r k starts
      else try_loop r k starts
  end.

(** The polls: the state at which the command was found committed. *)
Fixpoint poll_loop (cmd : any) (expectedServers idx : Z) (polls : list Test) : outcome (option Test) :=
  match polls with
  | [] => Ret None
  | ts :: polls =>
      '(nd, cmd1) ← nCommitted idx ts;
      if decide (nd > 0 ∧ nd >= expectedServers ∧ cmd1 = Some cmd) then Ret (Some ts)
      else poll_loop cmd expectedServers idx polls
  end.

(** [one]: the rounds that begin before ten seconds are over and before the
    test finishes; [timeout] is the state after them. *)
Fixpoint one_loop (cmd : any) (expectedServers : Z) (retry : bool) (rounds : list round) (timeout : Test) (starts : Z) :
    outcome (Z * Test) :=
  match rounds with
  | [] => if finished timeout then Ret (-1, timeout) else Fatal
  | r :: rounds =>
      '(starts, idx) ← try_loop r (length (srvs (r_test r))) starts;
      if decide (idx ≠ -1) then
        found ← poll_loop cmd expectedServers idx (r_polls r);
        match found with
        | Some ts =>
            Ret (idx, log_note (CheckerSuccess ("agreement of " +:+ String.substring 0 8 (show cmd) +:+ " reached") "OK") ts)
        | None => if retry then one_loop cmd expectedServers retry rounds timeout starts else Fatal
        end
      else one_loop cmd expectedServers retry rounds timeout starts
  end.

Definition one_begin (cmd : any) (expectedServers : Z) (retry : bool) (ts : Test) : Test :=
  log_note (CheckerBegin ("checking agreement of " +:+ String.substring 0 8 (show cmd) +:+ " by at least " +:+
    pretty expectedServers +:+ " servers " +:+ (if retry then "with" else "without") +:+ " retry")) ts.

(** The whole call: the rounds happen after the first annotation. *)
Definition one (cmd : any) (expectedServers : Z) (retry : bool) (rounds : Test → list round * Test) (ts : Test) :
    outcome (Z * Test) :=
  let '(rounds, timeout) := rounds (one_begin cmd expectedServers retry ts) in
  one_loop cmd expectedServers retry rounds timeout 0.

(** [wait]: the states and answers of its iterations (at most thirty). *)
Inductive wait_result := MovedOn | Committed (cmd : option any).

Fixpoint moved_on (a : answers) (ts : Test) (startTerm : Z) (ids : list Z) : outcome bool :=
  match ids with
  | [] => Ret false
  | i :: ids => '(t, _) ← ask a ts i; if decide (t > startTerm) then Ret true else moved_on a ts startTerm ids
  end.

Fixpoint wait_loop (idx k startTerm : Z) (iters : list (Test * answers)) : outcome bool :=
  match iters with
  | [] => Ret false
  | (ts, a) :: iters =>
      '(nd, _) ← nCommitted idx ts;
      if decide (nd >= k) then Ret false
      else
        moved ← (if decide (startTerm > -1) then moved_on a ts startTerm (seqZ 0 (Z.of_nat (length (srvs ts)))) else Ret false);
        if moved : bool then Ret true else wait_loop idx k startTerm iters
  end.

Definition wait (idx k startTerm : Z) (iters : list (Test * answers)) (ts : Test) : outcome wait_result :=
  moved ← wait_loop idx k startTerm (take 30 iters);
  if moved : bool then Ret MovedOn
  else '(nd, cmd) ← nCommitted idx ts; if decide (nd < k) then Fatal else Ret (Committed cmd).

Definition checkFinished (ts : Test) : bool := finished ts.
End test.

(** ** Lemmas *)

Section facts.
Context {any : Type} `{EqDecision any} (show : any → string).
Implicit Types (ts : Test (any:=any)).

(** The tester as [makeTest] leaves it, with all servers up. *)
Definition all_up ts : Prop := n ts = Z.of_nat (length (srvs ts)) ∧ Forall (λ rs, rfsrv rs = true) (srvs ts).

(** Server [i] is connected and says that it leads term [T]. *)
Definition claims (a : answers) ts (T i : Z) : Prop := 0 <= i < n ts ∧ IsConnected a i = true ∧ GetState a i = (T, true).
Definition quiet ts (a : answers) : Prop := ∀ T i, ¬ claims a ts T i.
Definition two_leaders ts (a : answers) : Prop := ∃ T i j, i ≠ j ∧ claims a ts T i ∧ claims a ts T j.

Lemma ask_up a ts i : all_up ts → 0 <= i < n ts → ask a ts i = Ret (GetState a i).
Proof.
  intros [Hn Hup] Hi. unfold ask. destruct (index_in_range (srvs ts) i) as (rs & -> & Hrs); [lia|].
  simpl. by rewrite (Forall_lookup_1 _ _ _ _ Hup Hrs).
Qed.

Lemma leaders_loop_Ret a ts ids : ∀ m,
  all_up ts → Forall (λ i, 0 <= i < n ts) ids → (∀ T, m !! T ≠ Some []) →
  ∃ m', leaders_loop a ts ids m = Ret m' ∧ (∀ T, m' !! T ≠ Some []) ∧
    ∀ T, lookup_zero [] T m' = lookup_zero [] T m ++ filter (λ i, claims a ts T i) ids.
Proof.
  induction ids as [|i ids IH]; intros m Hup Hids Hm; simpl.
  { exists m. split; [done|]. split; [done|]. intros T. by rewrite app_nil_r. }
  apply Forall_cons in Hids as [Hi Hids]. destruct (IsConnected a i) eqn:Hc.
  - rewrite ask_up by done. cbn [mbind outcome_bind]. destruct (GetState a i) as [term leader] eqn:Hg.
    destruct leader.
    + destruct (IH (<[term := lookup_zero [] term m ++ [i]]> m) Hup Hids) as (m' & -> & Hm' & Hl).
      { intros T HT. apply lookup_insert_Some in HT as [[_ HT]|[_ HT]]; [|by apply (Hm T)].
        by apply app_nil in HT as [_ ?]. }
      exists m'. split; [done|]. split; [done|]. intros T. rewrite Hl, lookup_zero_insert, filter_cons.
      destruct (decide (T = term)) as [->|HT].
      * rewrite decide_True by done. by rewrite <- app_assoc.
      * rewrite (decide_False (P:=claims a ts T i)); [|intros (_ & _ & ?); congruence].
        done.
    + destruct (IH m Hup Hids Hm) as (m' & -> & Hm' & Hl). exists m'. split; [done|]. split; [done|].
      intros T. rewrite Hl, filter_cons_False; [done|]. intros (_ & _ & ?). congruence.
  - destruct (IH m Hup Hids Hm) as (m' & -> & Hm' & Hl). exists m'. split; [done|]. split; [done|].
    intros T. rewrite Hl, filter_cons_False; [done|]. intros (_ & ? & _). congruence.
Qed.

Lemma last_term_Fatal (l : list (Z * list Z)) : ∀ t, Exists (λ x, (1 < length x.2)%nat) l → last_term_loop l t = Fatal.
Proof.
  induction l as [|[T ls] l IH]; intros t Hl; [by apply Exists_nil in Hl|]. simpl.
  case_decide; [done|]. apply IH. by apply Exists_cons in Hl as [?|?].
Qed.

Lemma last_term_Ret (l : list (Z * list Z)) : ∀ t, Forall (λ x, ¬ (1 < length x.2)%nat) l →
  ∃ t', last_term_loop l t = Ret t' ∧ t <= t' ∧ (∀ T ls, (T, ls) ∈ l → T <= t') ∧ (t' = t ∨ ∃ ls, (t', ls) ∈ l).
Proof.
  induction l as [|[T ls] l IH]; intros t Hl; simpl.
  { exists t. split; [done|]. split; [lia|]. split; [by intros T ls H%not_elem_of_nil | by left]. }
  apply Forall_cons in Hl as [H1 Hl]. rewrite decide_False by done.
  destruct (IH (if decide (T > t) then T else t) Hl) as (t' & -> & Hle & Hall & Hex). exists t'. split; [done|].
  assert (t <= t' ∧ T <= t') as [? ?] by (case_decide; lia). split; [done|]. split.
  - intros T' ls' [[= -> ->]|Hin]%elem_of_cons; [done | by eapply Hall].
  - destruct Hex as [->|[ls' Hin]]; [case_decide|].
    + right. exists ls. by left.
    + by left.
    + right. exists ls'. by right.
Qed.

(** One iteration of [checkOneLeader]. *)
Lemma one_leader_round order a rounds ts :
  (∀ m, order m ≡ₚ map_to_list m) → all_up ts → (∀ T i, claims a ts T i → 0 <= T) →
  (quiet ts a ∧ one_leader_loop order (a :: rounds) ts = one_leader_loop order rounds ts) ∨
  (two_leaders ts a ∧ one_leader_loop order (a :: rounds) ts = Fatal) ∨
  (¬ two_leaders ts a ∧ ∃ i ts' T, one_leader_loop order (a :: rounds) ts = Ret (i, ts') ∧ claims a ts T i ∧
     ∀ T' j, claims a ts T' j → T' <= T).
Proof.
  intros Ho Hup Hpos. cbn [one_leader_loop].
  destruct (leaders_loop_Ret a ts (seqZ 0 (n ts)) ∅ Hup) as (m & -> & Hm & Hl);
    [apply Forall_forall; intros i Hi%elem_of_seqZ; lia | by intros T; rewrite lookup_empty|].
  cbn [mbind outcome_bind].
  assert (Hl' : ∀ T, lookup_zero [] T m = filter (λ i, claims a ts T i) (seqZ 0 (n ts))).
  { intros T. by rewrite Hl, lookup_zero_empty. }
  assert (Hin : ∀ T i, i ∈ lookup_zero [] T m ↔ claims a ts T i).
  { intros T i. rewrite Hl', list_elem_of_filter, elem_of_seqZ. split; [by intros [? _]|].
    intros Hc. split; [done|]. destruct Hc as [? _]. lia. }
  assert (Hord : ∀ T ls, (T, ls) ∈ order m ↔ m !! T = Some ls) by (intros; by rewrite Ho, elem_of_map_to_list).
  assert (Hz : ∀ T ls, m !! T = Some ls → ls = lookup_zero [] T m) by (intros T ls E; unfold lookup_zero; by rewrite E).
  destruct (decide (Exists (λ x, (1 < length x.2)%nat) (order m))) as [Hx|Hx].
  - right. left. rewrite last_term_Fatal by done. split; [|done].
    apply Exists_exists in Hx as ([T ls] & HT & Hlen). apply Hord, Hz in HT. simpl in Hlen.
    destruct ls as [|i [|j ls]]; simpl in Hlen; [lia..|]. exists T, i, j.
    assert (Hnd : NoDup (i :: j :: ls)) by (rewrite HT, Hl'; apply NoDup_filter, NoDup_seqZ).
    split; [|split; apply Hin; rewrite <- HT; [by left | by right; left]].
    intros ->. apply NoDup_cons in Hnd as [Hnd _]. apply Hnd. by left.
  - assert (Hx' : Forall (λ x, ¬ (1 < length x.2)%nat) (order m)) by (by apply Forall_Exists_neg).
    destruct (last_term_Ret (order m) (-1) Hx') as (t & -> & Ht & Hall & Hex). cbn [mbind outcome_bind].
    assert (Hno : ¬ two_leaders ts a).
    { intros (T & i & j & Hij & Hi%Hin & Hj%Hin). destruct (m !! T) as [ls|] eqn:E.
      - pose proof E as E'. apply Hz in E'. apply Hord in E. rewrite Forall_forall in Hx'. apply Hx' in E. simpl in E.
        rewrite <- E' in Hi, Hj. destruct ls as [|x [|y ls]]; simpl in E; [by apply not_elem_of_nil in Hi| |lia].
        apply list_elem_of_singleton in Hi, Hj. congruence.
      - unfold lookup_zero in Hi. rewrite E in Hi. by apply not_elem_of_nil in Hi. }
    destruct (decide (m = ∅)) as [->|Hne].
    + left. split; [|by rewrite map_size_empty, decide_False by (intros H; done)].
      intros T i Hc%Hin. rewrite lookup_zero_empty in Hc. by apply not_elem_of_nil in Hc.
    + right. right. split; [done|]. rewrite decide_True by (by intros ?%map_size_empty_inv).
      apply map_choose in Hne as (T0 & ls0 & HT0).
      assert (Hclaim : ∀ T ls, m !! T = Some ls → ∃ i, i ∈ ls ∧ claims a ts T i).
      { intros T ls E. pose proof (Hz _ _ E) as E'. destruct ls as [|i ls]; [by destruct (Hm T)|].
        exists i. split; [by left|]. apply Hin. rewrite <- E'. by left. }
      destruct Hex as [->|[ls Hls]].
      { destruct (Hclaim _ _ HT0) as (i & _ & Hc). apply Hord, Hall in HT0. apply Hpos in Hc. lia. }
      apply Hord in Hls. pose proof (Hz _ _ Hls) as Hz'. rewrite <- Hz'.
      destruct ls as [|i ls]; [by destruct (Hm t)|]. simpl. do 3 eexists. split; [reflexivity|].
      split; [apply Hin; rewrite <- Hz'; by left|]. intros T' j Hc. apply Hin in Hc.
      destruct (m !! T') as [ls'|] eqn:E; [by apply (Hall T' ls'), Hord|].
      unfold lookup_zero in Hc. rewrite E in Hc. by apply not_elem_of_nil in Hc.
Qed.

(** The converse of a count: what [nCommitted] has checked. *)
Lemma committed_loop_inv idx (l : list (raftServer (any:=any))) : ∀ count cmd0 nd cmd,
  committed_loop idx l count cmd0 = Ret (nd, cmd) → 0 <= count → (count > 0 → is_Some cmd0) →
  nd = count + Z.of_nat (length (filter (λ rs, is_Some (logs rs !! idx)) l)) ∧ Forall (λ rs, applyErr rs = "") l ∧
  (count > 0 → cmd = cmd0) ∧ ∀ rs v, rs ∈ l → logs rs !! idx = Some v → cmd = Some v.
Proof.
  induction l as [|rs l IH]; intros count cmd0 nd cmd; simpl.
  { intros [= <- <-] ? ?. split; [lia|]. split; [done|]. split; [done|]. by intros rs v H%not_elem_of_nil. }
  case_decide as He; [done|]. unfold entry.
  destruct (logs rs !! idx) as [v|] eqn:Ev; intros H Hc Hs.
  - case_decide as Hd; [done|]. destruct (IH _ _ _ _ H) as (-> & Herr & Hcmd & Hall); [lia|by eexists|].
    rewrite filter_cons_True by (rewrite Ev; by eexists). cbn [length]. split; [lia|]. split; [by constructor|].
    rewrite Hcmd by lia. split.
    + intros Hgt. destruct (decide (cmd0 = Some v)); [done|]. by destruct Hd.
    + intros r w [->|Hr]%elem_of_cons Hw; [congruence|]. rewrite <- Hcmd by lia. by apply (Hall r).
  - destruct (IH _ _ _ _ H Hc Hs) as (-> & Herr & Hcmd & Hall).
    rewrite filter_cons_False by (rewrite Ev; by intros [? ?]). split; [done|]. split; [by constructor|]. split; [done|].
    intros r w [->|Hr]%elem_of_cons Hw; [congruence|]. by apply (Hall r).
Qed.

Lemma try_loop_inv (r : round (any:=any)) k : ∀ starts starts' idx,
  try_loop r k starts = Ret (starts', idx) → idx ≠ -1 →
  ∃ i t, r_connected r i = true ∧ r_Start r i = (idx, t, true).
Proof.
  induction k as [|k IH]; intros starts starts' idx; simpl; [by intros [= <- <-]|].
  destruct (r_connected r _) eqn:Hc; [|apply IH]. destruct (index _ _) as [rs| |]; [|done..]. simpl.
  destruct (rfsrv rs); [|apply IH]. destruct (r_Start r _) as [[idx1 t] ok] eqn:Hs.
  destruct ok; [|apply IH]. intros [= <- <-] _. by eexists _, t.
Qed.

(** [k] servers have applied [cmd] at index [idx], and no other server another
    command there. *)
Definition agreed (ts : Test (any:=any)) (idx k : Z) (cmd : any) : Prop :=
  k <= Z.of_nat (length (filter (λ rs, logs rs !! idx = Some cmd) (srvs ts))) ∧
  Forall (λ rs, applyErr rs = "" ∧ ∀ v, logs rs !! idx = Some v → v = cmd) (srvs ts).

Lemma nCommitted_agreed idx ts nd cmd : nCommitted idx ts = Ret (nd, Some cmd) → nd > 0 → agreed ts idx nd cmd.
Proof.
  unfold nCommitted. intros H Hnd. destruct (committed_loop_inv idx (srvs ts) 0 None nd (Some cmd)) as (-> & He & _ & Hall); [done..|].
  rewrite Forall_forall in He. split.
  - rewrite Z.add_0_l. apply Z.eq_le_incl. do 2 f_equal. apply filter_ext_in. intros rs Hrs.
    split; [|by eexists]. intros [v Hv]. rewrite Hv. symmetry. by apply (Hall rs v).
  - apply Forall_forall. intros rs Hrs. split; [by apply He|]. intros v Hv. specialize (Hall rs v Hrs Hv). congruence.
Qed.

Lemma poll_loop_inv cmd k idx polls p :
  poll_loop cmd k idx polls = Ret (Some p) → p ∈ polls ∧ agreed p idx k cmd.
Proof.
  induction polls as [|ts polls IH]; simpl; [done|].
  destruct (nCommitted idx ts) as [[nd cmd1]| |] eqn:E; [|done..]. simpl. case_decide as Hd.
  - intros [= <-]. destruct Hd as (Hgt & Hge & ->). split; [by left|].
    destruct (nCommitted_agreed _ _ _ _ E Hgt) as [H1 H2]. split; [lia | done].
  - intros H. destruct (IH H) as [H1 H2]. split; [by right | done].
Qed.
End facts.

(** ** Properties *)

(** [checkOneLeader], on a tester whose servers are all up and answer with
    non-negative terms: it returns the only server that claims the highest
    term claimed in the first round of its ten in which some connected server
    claims to lead, provided that no term has two leaders in that round; it
    stops the test if one has, or if nobody claims to lead in ten rounds. The
    order in which the map of leaders is ranged over does not matter. *)
Theorem checkOneLeader_spec {any : Type} (order : gmap Z (list Z) → list (Z * list Z)) (rounds : list answers)
    (ts : Test (any:=any)) :
  (∀ m, order m ≡ₚ map_to_list m) → all_up ts →
  (∀ a T i, a ∈ rounds → claims a ts T i → 0 <= T) →
  match checkOneLeader order rounds ts with
  | Ret (i, _) => ∃ before a after T, take 10 rounds = before ++ a :: after ∧ Forall (quiet ts) before ∧
      ¬ two_leaders ts a ∧ claims a ts T i ∧ ∀ T' j, claims a ts T' j → T' < T ∨ (T' = T ∧ j = i)
  | Fatal => Forall (quiet ts) (take 10 rounds) ∨
      ∃ before a after, take 10 rounds = before ++ a :: after ∧ Forall (quiet ts) before ∧ two_leaders ts a
  | Panic => False
  end.
Proof.
  intros Ho Hup Hpos. unfold checkOneLeader. set (ts' := log_note _ ts).
  assert (Hpos' : ∀ a, a ∈ take 10 rounds → ∀ T i, claims a ts T i → 0 <= T).
  { intros a Ha T i. apply Hpos. by apply subseteq_take in Ha. }
  clear Hpos. induction (take 10 rounds) as [|a l IH]; [by left|].
  destruct (one_leader_round order a l ts' Ho Hup (Hpos' a (list_elem_of_here _ _)))
    as [[Hq ->]|[[H2 ->]|(Hno & i & ts1 & T & -> & Hi & Hmax)]].
  - specialize (IH (λ b Hb, Hpos' b (list_elem_of_further _ _ _ Hb))).
    destruct (one_leader_loop order l ts') as [[i ts1]| |]; [| |done].
    + destruct IH as (before & b & after & T & -> & Hb & H). exists (a :: before), b, after, T.
      split; [done|]. split; [by constructor | done].
    + destruct IH as [Hl|(before & b & after & -> & Hb & H)]; [left; by constructor|]. right.
      exists (a :: before), b, after. split; [done|]. split; [by constructor | done].
  - right. exists [], a, l. by split; [|split].
  - exists [], a, l, T. split; [done|]. split; [done|]. split; [done|]. split; [done|]. intros T' j Hj.
    pose proof (Hmax T' j Hj). destruct (decide (T' = T)) as [->|]; [right | left; lia]. split; [done|].
    destruct (decide (j = i)); [done|]. destruct Hno. by exists T, j, i.
Qed.

(** When [one] returns an index, a connected server that claimed to lead
    took the command at that index, and afterwards a state of the tester was
    seen in which at least the expected number of servers had applied the
    command there, none had applied another, and none had reported an error;
    it returns -1 only when the test is finished. *)
Theorem one_reaches_agreement {any : Type} `{EqDecision any} (show : any → string) cmd k retry rounds
    (ts : Test (any:=any)) idx ts' :
  one show cmd k retry rounds ts = Ret (idx, ts') →
  (idx = -1 ∧ finished ts' = true) ∨
  ∃ r i t p, r ∈ (rounds (one_begin show cmd k retry ts)).1 ∧ r_connected r i = true ∧ r_Start r i = (idx, t, true) ∧
    p ∈ r_polls r ∧ agreed p idx k cmd ∧ srvs ts' = srvs p.
Proof.
  unfold one. destruct (rounds _) as [l timeout]. simpl. generalize 0. induction l as [|r l IH]; intros starts; simpl.
  { destruct (finished timeout) eqn:Hf; [|done]. intros [= <- <-]. by left. }
  assert (Hrest : ∀ starts, one_loop show cmd k retry l timeout starts = Ret (idx, ts') → (idx = -1 ∧ finished ts' = true) ∨
    ∃ r0 i t p, r0 ∈ r :: l ∧ r_connected r0 i = true ∧ r_Start r0 i = (idx, t, true) ∧ p ∈ r_polls r0 ∧
      agreed p idx k cmd ∧ srvs ts' = srvs p).
  { intros starts' [?|(r' & i & t & p & Hr & H)]%IH; [by left|]. right. exists r', i, t, p. split; [by right | done]. }
  destruct (try_loop r _ starts) as [[starts' idx']| |] eqn:Et; [|done..]. cbn [mbind outcome_bind].
  case_decide as Hidx; [|apply Hrest]. destruct (poll_loop cmd k idx' (r_polls r)) as [[p|]| |] eqn:Ep; [|destruct retry; [apply Hrest|done]|done..].
  cbn [mbind outcome_bind]. intros [= <- <-]. right. destruct (try_loop_inv _ _ _ _ _ Et Hidx) as (i & t & Hc & Hs).
  destruct (poll_loop_inv _ _ _ _ _ Ep) as [Hp Ha]. exists r, i, t, p. split; [by left|]. done.
Qed.

(** ** Witnesses *)

Definition ex_round (l : list (bool * (Z * bool))) : answers :=
  mkAnswers (λ i, (lookup_zero false i (map_seqZ 0 l.*1))) (λ i, lookup_zero (0, false) i (map_seqZ 0 l.*2)).

(** A cut-off old leader, nobody, then a new leader in term 3. *)
Definition ex_rounds : list answers :=
  [ex_round [(false, (2, true)); (true, (2, false)); (true, (2, false))];
   ex_round [(true, (2, true)); (true, (3, true)); (true, (3, false))]].
Definition ex_test : Test (any:=Z) := makeTest 3.

Lemma checkOneLeader_spec_witness :
  ∃ ts', checkOneLeader map_to_list ex_rounds ex_test = Ret (1, ts') ∧
    ∃ before a after T, take 10 ex_rounds = before ++ a :: after ∧ Forall (quiet ex_test) before ∧
      ¬ two_leaders ex_test a ∧ claims a ex_test T 1 ∧
      ∀ T' j, claims a ex_test T' j → T' < T ∨ (T' = T ∧ j = 1).
Proof.
  assert (Hup : all_up ex_test) by (split; [reflexivity | by repeat constructor]).
  assert (Hpos : ∀ a T i, a ∈ ex_rounds → claims a ex_test T i → 0 <= T).
  { intros a T i Ha (Hi & _ & Hg). replace T with (GetState a i).1 by (by rewrite Hg). simpl in Hi.
    assert (i = 0 ∨ i = 1 ∨ i = 2) as [->|[->| ->]] by lia;
      (apply elem_of_cons in Ha as [->|Ha]; [by vm_compute | apply list_elem_of_singleton in Ha as ->; by vm_compute]). }
  pose proof (checkOneLeader_spec map_to_list ex_rounds ex_test (λ m, Permutation_refl _) Hup Hpos) as H.
  assert (E : ∃ ts', checkOneLeader map_to_list ex_rounds ex_test = Ret (1, ts')) by (vm_compute; by eexists).
  destruct E as [ts' E]. rewrite E in H. exists ts'. split; [exact E | exact H].
Defined.

(** Server 2 takes the command at index 1; at the second poll two of three
    servers have applied it. *)
Definition ex_applied (k : nat) : Test (any:=Z) :=
  mkTest 3 (replicate k (mkRaftServer true "" {[1 := 8]}) ++ replicate (3 - k) newRaftServer) 1 false [].
Definition ex_one_rounds : list (round (any:=Z)) :=
  [mkRound ex_test (λ i, bool_decide (i ≠ 1)) (λ i, if decide (i = 2) then (1, 4, true) else (0, 4, false))
     [ex_test; ex_applied 2]].

Lemma one_reaches_agreement_witness :
  ∃ ts', one pretty 8 2 false (λ _, (ex_one_rounds, ex_test)) ex_test = Ret (1, ts') ∧ agreed ts' 1 2 8.
Proof.
  assert (E : ∃ ts', one pretty 8 2 false (λ _, (ex_one_rounds, ex_test)) ex_test = Ret (1, ts')) by (vm_compute; by eexists).
  destruct E as [ts' E]. exists ts'. split; [exact E|].
  destruct (one_reaches_agreement pretty 8 2 false (λ _, (ex_one_rounds, ex_test)) ex_test 1 ts' E)
    as [[H _]|(r & i & t & p & _ & _ & _ & _ & Ha & Hp)]; [discriminate H|].
  unfold agreed. rewrite Hp. exact Ha.
Defined.
