(* ===== verification/RaftServer.v ===== *)
(** * The server's side of the Raft lab: [raft1/server.go], [raft1/proxy.go]

    A server reads committed commands from its Raft library's channel and
    reports them to the tester of [RaftTest]. The library itself (a stub in the
    repository) is the environment: it chooses the messages. [labgob] of a
    snapshot is the pair of functions [Encode] and [Decode]. *)

From stdpp Require Import pretty.
From S2P Require Import Prelude RaftTest.

Open Scope string_scope.
Open Scope list_scope.
Open Scope Z_scope.

Definition SnapShotInterval : Z := 10.

(** A call from server to tester: not executed, executed without the caller
    learning it, or executed and answered. *)
Inductive delivery := Lost | ReplyLost | Delivered.

#[export] Instance delivery_eq_dec : EqDecision delivery.
Proof. solve_decision. Defined.

Section server.
Context {any : Type} `{EqDecision any} (nil : any) (show : any → string).
Context (Encode : Z → list any → string) (Decode : string → option (Z * list any)).

Abbreviation Test := (RaftTest.Test (any:=any)).
Abbreviation ApplyMsg := (RaftTest.ApplyMsg (any:=any)).

Record server := mkServer { me : Z; lastApplied : Z; log : gmap Z any }.

(** ** [proxy.go] *)

Definition call {A} (c : delivery) (f : Test → outcome (Test * A)) (failed : A) (ts : Test) : outcome (Test * A) :=
  match c with
  | Lost => Ret (ts, failed)
  | ReplyLost => '(ts, _) ← f ts; Ret (ts, failed)
  | Delivered => f ts
  end.

(** The handlers the tester registers, in [test.go]; the reply of the first is its
    fields [Err] and [Prevok]. *)
Record CheckLogsArgs := mkCheckLogsArgs { cl_Index : Z; cl_Msg : ApplyMsg }.
Record IngestLogArgs := mkIngestLogArgs { il_Index : Z; il_Log : gmap Z any }.
Record ApplyErrArgs := mkApplyErrArgs { ae_Index : Z; ae_Err : string }.
Definition CheckLogsRPC (args : CheckLogsArgs) : Test → outcome (Test * (string * bool)) :=
  CheckLogs show (cl_Index args) (cl_Msg args).
Definition IngestLogRPC (args : IngestLogArgs) (ts : Test) : outcome (Test * unit) :=
  ts ← IngestLog (il_Index args) (il_Log args) ts; Ret (ts, tt).
Definition ApplyErrRPC (args : ApplyErrArgs) (ts : Test) : outcome (Test * unit) :=
  ts ← ApplyErr (ae_Index args) (ae_Err args) ts; Ret (ts, tt).

Definition proxy_CheckLogs (c : delivery) (idx : Z) (m : ApplyMsg) : Test → outcome (Test * (string * bool)) :=
  call c (CheckLogsRPC (mkCheckLogsArgs idx m)) ("ErrRPC", false).
Definition proxy_IngestLog (c : delivery) (idx : Z) (xlog : gmap Z any) (ts : Test) : outcome Test :=
  '(ts, _) ← call c (IngestLogRPC (mkIngestLogArgs idx xlog)) tt ts; Ret ts.
Definition proxy_ApplyErr (c : delivery) (idx : Z) (err : string) (ts : Test) : outcome Test :=
  '(ts, _) ← call c (ApplyErrRPC (mkApplyErrArgs idx err)) tt ts; Ret ts.

(** The fate of the calls a message gives rise to. *)
Record fates := mkFates { f_check : delivery; f_ingest : delivery; f_err : delivery; f_info : delivery }.
Definition all_delivered : fates := mkFates Delivered Delivered Delivered Delivered.

(** ** [server.go] *)

Definition out_of_order (rs : server) (m : ApplyMsg) : string :=
  "server " +:+ pretty (me rs) +:+ " apply out of order " +:+ pretty (CommandIndex m).

Definition report_err (c : delivery) (rs : server) (err : string) (ts : Test) : outcome Test :=
  if decide (err = "") then Ret ts else proxy_ApplyErr c (me rs) err ts.

(** An iteration of [applier]. *)
Definition applier (f : fates) (rs : server) (m : ApplyMsg) (ts : Test) : outcome Test :=
  if CommandValid m then
    '(ts, (err_msg, prevok)) ← proxy_CheckLogs (f_check f) (me rs) m ts;
    let err_msg := if bool_decide (CommandIndex m > 1) && negb prevok then out_of_order rs m else err_msg in
    report_err (f_err f) rs err_msg ts
  else Ret ts.

(** [ingestSnap]; an empty string means success. *)
Definition ingestSnap (snapshot : option string) (idx : Z) (rs : server) : server * string :=
  match snapshot with
  | None => (rs, "nil snapshot")
  | Some sn =>
      match Decode sn with
      | None => (rs, "failed to decode snapshot")
      | Some (lastIncludedIndex, xlog) =>
          if decide (idx ≠ -1 ∧ idx ≠ lastIncludedIndex)
          then (rs, "server " +:+ pretty (me rs) +:+ " snapshot doesn't match m.SnapshotIndex")
          else (mkServer (me rs) lastIncludedIndex (map_seqZ 0 xlog), "")
      end
  end.

(** The entries that go into a snapshot. *)
Definition snapshot_entries (rs : server) (idx : Z) : list any :=
  map (λ j, lookup_zero nil j (log rs)) (seqZ 0 (idx + 1)).

(** An iteration of [applierSnap]; the last result is the call of the
    library's [Snapshot], if any. *)
Definition applierSnap (f : fates) (rs : server) (m : ApplyMsg) (ts : Test) :
    outcome (server * Test * option (Z * string)) :=
  if SnapshotValid m then
    let '(rs, err_msg) := ingestSnap (Snapshot m) (SnapshotIndex m) rs in
    ts ← proxy_IngestLog (f_ingest f) (me rs) (log rs) ts;
    ts ← report_err (f_err f) rs err_msg ts;
    Ret (rs, ts, None)
  else if CommandValid m then
    let err_msg := if decide (CommandIndex m ≠ lastApplied rs + 1)
      then "server " +:+ pretty (me rs) +:+ " apply out of order, expected index " +:+ pretty (lastApplied rs + 1) +:+
           ", got " +:+ pretty (CommandIndex m)
      else "" in
    '(ts, err_msg) ←
      (if decide (err_msg = "") then
         '(ts, (err_msg, prevok)) ← proxy_CheckLogs (f_check f) (me rs) m ts;
         Ret (ts, if bool_decide (err_msg ≠ "ErrRPC") && bool_decide (CommandIndex m > 1) && negb prevok
                  then out_of_order rs m else err_msg)
       else Ret (ts, err_msg));
    let rs := mkServer (me rs) (CommandIndex m) (<[CommandIndex m := Command m]> (log rs)) in
    let snap := if decide ((CommandIndex m + 1) `rem` SnapShotInterval = 0)
      then Some (CommandIndex m, Encode (CommandIndex m) (snapshot_entries rs (CommandIndex m))) else None in
    let ts := match snap, f_info f with
      | Some _, (ReplyLost | Delivered) =>
          log_note (InfoInterval ("snapshot created by " +:+ pretty (me rs))
            ("snapshot created by server " +:+ pretty (me rs) +:+ " after applying the command at index " +:+
             pretty (CommandIndex m))) ts
      | _, _ => ts
      end in
    ts ← report_err (f_err f) rs err_msg ts;
    Ret (rs, ts, snap)
  else Ret (rs, ts, None).

(** [newRfsrv] with the snapshot the persister holds; a bad one ends the
    process after it has been reported. *)
Definition newRfsrv (f : fates) (srv : Z) (snapshot : bool) (sn : option string) (ts : Test) :
    outcome (option server * Test) :=
  let rs := mkServer srv 0 ∅ in
  match snapshot, sn with
  | true, Some (String _ _ as s) =>
      let '(rs, err) := ingestSnap (Some s) (-1) rs in
      if decide (err = "") then ts ← proxy_IngestLog (f_ingest f) (me rs) (log rs) ts; Ret (Some rs, ts)
      else ts ← proxy_ApplyErr (f_err f) srv err ts; Ret (None, ts)
  | _, _ => Ret (Some rs, ts)
  end.

(** ** The servers and the tester together *)

(** The servers that run, the snapshots ever passed to a library, and ghosts:
    the commands reported, and how far each server has applied. *)
Record sys := mkSys {
  s_test : Test; s_srvs : gmap Z server; s_snaps : list (Z * string);
  s_reported : list (Z * Z * any); s_applied : gmap Z Z
}.

Inductive sys_label :=
| Deliver (i : Z) (m : ApplyMsg) (f : fates)
| Start (i : Z) (sn : option string) (f : fates).

Definition sys_next (snapshot : bool) (s : sys) (l : sys_label) : option sys :=
  match l with
  | Deliver i m f =>
      rs ← s_srvs s !! i;
      let reported := if CommandValid m then s_reported s ++ [(i, CommandIndex m, Command m)] else s_reported s in
      if snapshot then
        match applierSnap f rs m (s_test s) with
        | Ret (rs, ts, snap) =>
            Some (mkSys ts (<[i := rs]> (s_srvs s)) (s_snaps s ++ option_list snap) reported
                    (<[i := lastApplied rs]> (s_applied s)))
        | _ => None
        end
      else
        match applier f rs m (s_test s) with
        | Ret ts =>
            Some (mkSys ts (s_srvs s) (s_snaps s) reported
                    (if CommandValid m then <[i := CommandIndex m]> (s_applied s) else s_applied s))
        | _ => None
        end
  | Start i sn f =>
      match newRfsrv f i snapshot sn (s_test s) with
      | Ret (Some rs, ts) =>
          Some (mkSys ts (<[i := rs]> (s_srvs s)) (s_snaps s) (s_reported s) (<[i := lastApplied rs]> (s_applied s)))
      | Ret (None, ts) => Some (mkSys ts (delete i (s_srvs s)) (s_snaps s) (s_reported s) (s_applied s))
      | _ => None
      end
  end.

Definition sys_init (k : nat) : sys := mkSys (makeTest k) ∅ [] [] ∅.
End server.

(** ** Lemmas *)

Section lemmas.
Context {any : Type} `{EqDecision any} (nil : any) (show : any → string).
Context (Encode : Z → list any → string) (Decode : string → option (Z * list any)).
Implicit Types (ts : RaftTest.Test (any:=any)) (m : RaftTest.ApplyMsg (any:=any)).

Lemma on_srv_Some i f ts ts' :
  on_srv i f ts = Ret ts' ↔
  ∃ rs, 0 <= i ∧ srvs ts !! Z.to_nat i = Some rs ∧ ts' = set_srvs (<[Z.to_nat i := f rs]> (srvs ts)) ts.
Proof.
  unfold on_srv. split.
  - destruct (index (srvs ts) i) as [rs| |] eqn:E; [|done..]. apply index_Ret in E as [Hi Hl].
    simpl. unfold store. case_decide; [|done]. simpl. intros [= <-]. by exists rs.
  - intros (rs & Hi & Hl & ->). rewrite (proj2 (index_Ret _ _ _) (conj Hi Hl)). simpl. unfold store.
    rewrite decide_True; [done|]. apply lookup_lt_Some in Hl. lia.
Qed.

Lemma on_srv_total i f ts rs :
  0 <= i → srvs ts !! Z.to_nat i = Some rs → on_srv i f ts = Ret (set_srvs (<[Z.to_nat i := f rs]> (srvs ts)) ts).
Proof. intros Hi Hl. apply on_srv_Some. by exists rs. Qed.

(** The copy the tester keeps of a server after a report. *)
Definition recorded (m : RaftTest.ApplyMsg (any:=any)) (rs : raftServer (any:=any)) : raftServer :=
  mkRaftServer (rfsrv rs) (applyErr rs) (<[CommandIndex m := Command m]> (logs rs)).

Lemma CheckLogs_Some i m ts ts' err prevok :
  CheckLogs show i m ts = Ret (ts', (err, prevok)) →
  ∃ rs, 0 <= i ∧ srvs ts !! Z.to_nat i = Some rs ∧ err = check_loop show i m 0 (srvs ts) "" ∧
    prevok = bool_decide (is_Some (logs rs !! (CommandIndex m - 1))) ∧
    srvs ts' = <[Z.to_nat i := recorded m rs]> (srvs ts).
Proof.
  unfold CheckLogs. destruct (index (srvs ts) i) as [rs| |] eqn:E; [|done..]. cbn [mbind outcome_bind].
  destruct (on_srv i _ ts) as [ts1| |] eqn:E1; [|done..]. cbn [mbind outcome_bind].
  apply on_srv_Some in E1 as (rs' & Hi & Hl & ->). apply index_Ret in E as [_ Hl']. simplify_eq.
  intros [= <- <- <-]. exists rs. repeat split; try done. by case_decide.
Qed.

Lemma CheckLogs_total i m ts rs :
  0 <= i → srvs ts !! Z.to_nat i = Some rs → ∃ r, CheckLogs show i m ts = Ret r.
Proof.
  intros Hi Hl. unfold CheckLogs. rewrite (proj2 (index_Ret _ _ _) (conj Hi Hl)). cbn [mbind outcome_bind].
  rewrite (on_srv_total i _ ts rs) by done. by eexists.
Qed.

(** An error message is never empty. *)
Lemma commit_err_ne i m j (old : any) : commit_err show i m j old ≠ "".
Proof. done. Qed.

Lemma check_loop_ne i m l : ∀ j err, err ≠ "" → check_loop show i m j l err ≠ "".
Proof.
  induction l as [|rs l IH]; intros j err He; [done|]. simpl. apply IH.
  destruct (entry rs _); [|done]. by case_decide.
Qed.

Lemma check_loop_nil i m l : ∀ j,
  check_loop show i m j l "" = "" ↔ Forall (λ rs, ∀ old, logs rs !! CommandIndex m = Some old → old = Command m) l.
Proof.
  induction l as [|rs l IH]; intros j; simpl; [by split|]. rewrite Forall_cons. unfold entry.
  destruct (logs rs !! CommandIndex m) as [old|] eqn:E.
  - case_decide as Hd.
    + rewrite IH. split; [|by intros [_ ?]]. intros Hl. split; [|done]. by intros ? [= <-].
    + split; [|intros [Ho _]; by destruct (Hd (Ho old eq_refl))].
      intros H. by apply check_loop_ne in H.
  - rewrite IH. split; [|by intros [_ ?]]. by split.
Qed.

Definition noerr ts : Prop := Forall (λ rs, applyErr rs = "") (srvs ts).

Lemma noerr_recorded i m ts rs ts' :
  srvs ts !! i = Some rs → srvs ts' = <[i := recorded m rs]> (srvs ts) → (noerr ts' ↔ noerr ts).
Proof.
  unfold noerr. intros Hl ->. rewrite !Forall_lookup. split; intros H j r Hj.
  - destruct (decide (i = j)) as [->|Hne].
    + simplify_eq. apply (H j (recorded m rs)). rewrite list_lookup_insert_eq; [done|]. by apply lookup_lt_Some in Hl.
    + apply (H j). by rewrite list_lookup_insert_ne.
  - apply list_lookup_insert_Some in Hj as [(<- & <- & _)|[_ Hj]]; [|by apply (H j)]. simpl. by apply (H i).
Qed.

(** Reporting a non-empty error leaves a mark. *)
Lemma report_err_Some c (rs : server (any:=any)) err ts ts' :
  report_err c rs err ts = Ret ts' →
  (err = "" ∧ ts' = ts) ∨ (err ≠ "" ∧ (c = Delivered → ¬ noerr ts' ∧ length (srvs ts') = length (srvs ts))).
Proof.
  unfold report_err. case_decide as He; [intros [= ->]; by left|]. intros H. right. split; [done|]. intros ->.
  unfold proxy_ApplyErr, call, ApplyErrRPC, ApplyErr in H. destruct (on_srv _ _ ts) as [ts1| |] eqn:E; [|done..].
  simpl in H. injection H as <-. apply on_srv_Some in E as (r & Hi & Hl & ->). split; [|simpl; by rewrite length_insert]. intros Hn.
  unfold noerr in Hn. rewrite Forall_lookup in Hn. simpl in Hn.
  specialize (Hn (Z.to_nat (me rs))). rewrite list_lookup_insert_eq in Hn by (by apply lookup_lt_Some in Hl).
  by specialize (Hn _ eq_refl).
Qed.

(** ** Soundness of the tester, without snapshots *)

Definition key (r : Z * Z * any) : Z * Z := r.1.

Definition delivered (l : sys_label (any:=any)) : Prop :=
  match l with Deliver _ _ f | Start _ _ f => f = all_delivered end.

(** What holds as long as no error was reported. *)
Definition sound_inv (k : nat) (s : sys (any:=any)) : Prop :=
  length (srvs (s_test s)) = k ∧ (∀ i rs, s_srvs s !! i = Some rs → me rs = i) ∧
  (noerr (s_test s) →
   (∀ i idx v, (i, idx, v) ∈ s_reported s ↔
      0 <= i ∧ ∃ rs, srvs (s_test s) !! Z.to_nat i = Some rs ∧ logs rs !! idx = Some v) ∧
   (∀ i j idx v v', (i, idx, v) ∈ s_reported s → (j, idx, v') ∈ s_reported s → v = v') ∧
   (∀ i idx v, (i, idx, v) ∈ s_reported s → idx > 1 → ∃ v', (i, idx - 1, v') ∈ s_reported s)).

Lemma sound_report k s i m ts' rs :
  sound_inv k s → s_srvs s !! i = Some rs → CommandValid m = true →
  applier show all_delivered rs m (s_test s) = Ret ts' →
  sound_inv k (mkSys ts' (s_srvs s) (s_snaps s) (s_reported s ++ [(i, CommandIndex m, Command m)])
    (<[i := CommandIndex m]> (s_applied s))).
Proof.
  intros (Hlen & Hme & Hs) Hrs Hv. unfold applier. rewrite Hv, (Hme i rs Hrs). unfold proxy_CheckLogs, call, CheckLogsRPC. simpl.
  destruct (CheckLogs show i m (s_test s)) as [[ts1 [err prevok]]| |] eqn:Ec; [|done..]. simpl.
  apply CheckLogs_Some in Ec as (t & Hi & Ht & Herr & Hprev & Hts1). intros Hrep.
  assert (Hl1 : length (srvs ts1) = k) by (rewrite Hts1, length_insert; done).
  apply report_err_Some in Hrep as [[He ->]|[_ Hno]].
  2: { destruct (Hno eq_refl) as [Hno' Hl']. split; [simpl; congruence|]. by split; [|intros ?]. }
  split; [done|]. split; [done|]. cbn [s_test s_reported]. intros Hne.
  apply (noerr_recorded _ _ _ _ _ Ht Hts1) in Hne. destruct (Hs Hne) as (Hlogs & Hagree & Hcont).
  assert (Herr' : err = "" ∧ (CommandIndex m > 1 → prevok = true)).
  { case_bool_decide; destruct prevok; simpl in He; done. }
  clear He. destruct Herr' as [He Hprev']. rewrite Herr in He. apply check_loop_nil in He.
  rewrite Forall_lookup in He.
  assert (Hsame : ∀ j v, (j, CommandIndex m, v) ∈ s_reported s → v = Command m).
  { intros j v Hj. apply Hlogs in Hj as (_ & t' & Ht' & Hv'). by apply (He _ _ Ht'). }
  split; [|split].
  - intros j idx v. rewrite elem_of_app, list_elem_of_singleton, Hts1. split.
    + intros [Hj|[= -> -> ->]].
      * pose proof Hj as Hj'. apply Hlogs in Hj as (Hj & t' & Ht' & Hv'). split; [done|].
        destruct (decide (j = i)) as [->|Hne'].
        -- exists (recorded m t). rewrite list_lookup_insert_eq by (by apply lookup_lt_Some in Ht). split; [done|].
           simpl. simplify_eq. destruct (decide (idx = CommandIndex m)) as [->|].
           ++ rewrite lookup_insert_eq. by rewrite (Hsame i v).
           ++ by rewrite lookup_insert_ne.
        -- exists t'. rewrite list_lookup_insert_ne by lia. done.
      * split; [done|]. exists (recorded m t). rewrite list_lookup_insert_eq by (by apply lookup_lt_Some in Ht).
        split; [done|]. simpl. by rewrite lookup_insert_eq.
    + intros (Hj & t' & Ht' & Hv'). apply list_lookup_insert_Some in Ht' as [(Hij & <- & _)|[_ Ht']].
      * assert (j = i) as -> by lia. simpl in Hv'. apply lookup_insert_Some in Hv' as [[<- <-]|[_ Hv']]; [by right|].
        left. apply Hlogs. split; [done|]. by exists t.
      * left. apply Hlogs. split; [done|]. by exists t'.
  - intros j1 j2 idx v v'. rewrite !elem_of_app, !list_elem_of_singleton.
    intros [H1|[= -> -> ->]] [H2|H2]; [by eapply Hagree| |symmetry; by eapply Hsame|by simplify_eq].
    simplify_eq. by eapply Hsame.
  - intros j idx v. rewrite elem_of_app, list_elem_of_singleton. intros [Hj|[= -> -> ->]] Hidx.
    + destruct (Hcont _ _ _ Hj Hidx) as [v' Hv']. exists v'. rewrite elem_of_app. by left.
    + specialize (Hprev' Hidx). rewrite Hprev in Hprev'. apply bool_decide_eq_true in Hprev' as [v' Hv'].
      exists v'. rewrite elem_of_app. left. apply Hlogs. split; [done|]. by exists t.
Qed.

Lemma sound_step k s l s' :
  sound_inv k s → delivered l → sys_next nil show Encode Decode false s l = Some s' → sound_inv k s'.
Proof.
  intros Hs Hd. destruct l as [i m f|i sn f]; simpl in Hd; subst f; simpl.
  - destruct (s_srvs s !! i) as [rs|] eqn:Hrs; [|done]. simpl.
    destruct (applier _ _ _ _ _) as [ts'| |] eqn:Ha; [|done..]. intros [= <-].
    destruct (CommandValid m) eqn:Hv; [by eapply sound_report|].
    unfold applier in Ha. rewrite Hv in Ha. injection Ha as <-. by destruct s.
  - intros [= <-]. destruct Hs as (Hlen & Hme & Hs). split; [done|]. split; [|done]. simpl.
    intros j rs [[<- <-]|[_ Hj]]%lookup_insert_Some; [done|by apply Hme].
Qed.

Lemma sound_exec k ls s :
  exec (λ s l s', delivered l ∧ sys_next nil show Encode Decode false s l = Some s') (sys_init k) ls s → sound_inv k s.
Proof.
  intros He. eapply (exec_preserves _ (sound_inv k)); [| | exact He].
  - intros s1 l s2 Hi [Hd Hst]. by eapply sound_step.
  - split; [apply length_replicate|]. split; [intros i rs H; simpl in H; by rewrite lookup_empty in H|]. intros _. simpl. split; [|split].
    + intros i idx v. split; [by intros H%not_elem_of_nil|]. intros (_ & rs & [-> _]%lookup_replicate & H).
      unfold newRaftServer in H. simpl in H. by rewrite lookup_empty in H.
    + intros i j idx v v' H. by apply not_elem_of_nil in H.
    + intros i idx v H. by apply not_elem_of_nil in H.
Qed.

(** ** Counting *)

Lemma committed_loop_Ret idx (l : list (raftServer (any:=any))) : ∀ count cmd,
  Forall (λ rs, applyErr rs = "") l →
  (∀ rs rs' v v', rs ∈ l → rs' ∈ l → logs rs !! idx = Some v → logs rs' !! idx = Some v' → v = v') →
  0 <= count → (count > 0 → ∃ c, cmd = Some c ∧ ∀ rs v, rs ∈ l → logs rs !! idx = Some v → v = c) →
  ∃ cmd', committed_loop idx l count cmd =
      Ret (count + Z.of_nat (length (filter (λ rs, is_Some (logs rs !! idx)) l)), cmd') ∧
    (∀ rs v, rs ∈ l → logs rs !! idx = Some v → cmd' = Some v) ∧ (count > 0 → cmd' = cmd).
Proof.
  induction l as [|rs l IH]; intros count cmd Hne Hag Hc Hcmd; simpl.
  - exists cmd. split; [by rewrite Z.add_0_r|]. split; [by intros rs v H%not_elem_of_nil | done].
  - apply Forall_cons in Hne as [Hne1 Hne]. rewrite decide_False by (intros H; done). unfold entry.
    assert (Hag' : ∀ rs rs' v v', rs ∈ l → rs' ∈ l → logs rs !! idx = Some v → logs rs' !! idx = Some v' → v = v').
    { intros r r' v v' Hr Hr'. apply Hag; by apply list_elem_of_further. }
    destruct (logs rs !! idx) as [v|] eqn:Ev.
    + rewrite decide_False.
      2: { intros [Hgt Hn]. destruct (Hcmd Hgt) as (c & -> & Hall). apply Hn. f_equal. symmetry.
           apply (Hall rs v); [by left | done]. }
      destruct (IH (count + 1) (Some v)) as (cmd' & -> & Hv & Hk); [done|done|lia| |].
      { intros _. exists v. split; [done|]. intros r v' Hr Hv'. symmetry.
        apply (Hag rs r); [by left | by right | done | done]. }
      exists cmd'. rewrite filter_cons_True by (rewrite Ev; by eexists). cbn [length]. split; [do 2 f_equal; lia|].
      rewrite Hk by lia. split.
      * intros r v' Hr Hv'. f_equal. apply (Hag rs r); [by left | done | done | done].
      * intros Hgt. destruct (Hcmd Hgt) as (c & -> & Hall). f_equal. apply (Hall rs v); [by left | done].
    + destruct (IH count cmd) as (cmd' & -> & Hv & Hk); [done|done|done| |].
      { intros Hgt. destruct (Hcmd Hgt) as (c & ? & Hall). exists c. split; [done|]. intros r v Hr. apply Hall. by right. }
      exists cmd'. rewrite filter_cons_False by (rewrite Ev; by intros [? ?]). split; [done|]. split; [|done].
      intros r v [->|Hr]%elem_of_cons Hv'; [congruence | by apply (Hv r)].
Qed.
End lemmas.

(** ** Completeness: servers that follow a common log *)

Section complete.
Context {any : Type} `{EqDecision any} (nil : any) (show : any → string).
Context (Encode : Z → list any → string) (Decode : string → option (Z * list any)).
Context (Hgob : ∀ idx l, Decode (Encode idx l) = Some (idx, l)).
Context (snapshot : bool) (k : nat) (L : list any).
Implicit Types (s : sys (any:=any)).

(** What the messages of a correct Raft library are, when [L] is the log of
    committed commands: the next command, in order, starting over after a
    restart from the persisted snapshot or from nothing; or, in the
    configuration with snapshots, some snapshot that some server made; or a
    message that is neither. *)
Definition follows s (l : sys_label (any:=any)) : Prop :=
  delivered l ∧
  match l with
  | Deliver i m _ =>
      is_Some (s_srvs s !! i) ∧
      if CommandValid m then
        SnapshotValid m = false ∧ ∃ a, s_applied s !! i = Some a ∧ CommandIndex m = a + 1 ∧
          L !! Z.to_nat a = Some (Command m)
      else if SnapshotValid m then
        snapshot = true ∧ ∃ sn, Snapshot m = Some sn ∧ (SnapshotIndex m, sn) ∈ s_snaps s
      else True
  | Start i sn _ => 0 <= i < Z.of_nat k ∧ match sn with Some sn => sn = "" ∨ ∃ idx, (idx, sn) ∈ s_snaps s | None => True end
  end.

(** The entries of a copy are those of [L], but for index 0. *)
Definition of_log (lg : gmap Z any) : Prop := ∀ j v, lg !! j = Some v → j = 0 ∨ (1 <= j ∧ L !! Z.to_nat (j - 1) = Some v).
Definition has_prefix (a : Z) (lg : gmap Z any) : Prop := ∀ j, 1 <= j <= a → is_Some (lg !! j).

Definition tester_ok (ts : RaftTest.Test (any:=any)) : Prop :=
  length (srvs ts) = k ∧ noerr ts ∧ Forall (λ rs, of_log (logs rs)) (srvs ts).

(** Server [i], which has applied the first [a] commands, and its copy. *)
Definition srv_ok (ts : RaftTest.Test (any:=any)) (i a : Z) (rs : server (any:=any)) : Prop :=
  0 <= i < Z.of_nat k ∧ me rs = i ∧ of_log (log rs) ∧ 0 <= a <= Z.of_nat (length L) ∧
  (snapshot = true → lastApplied rs = a ∧ has_prefix a (log rs)) ∧
  ∀ t, srvs ts !! Z.to_nat i = Some t → has_prefix a (logs t).

Definition snaps_ok (snaps : list (Z * string)) : Prop :=
  ∀ idx sn, (idx, sn) ∈ snaps → 0 <= idx <= Z.of_nat (length L) ∧ ∃ x0, sn = Encode idx (x0 :: take (Z.to_nat idx) L).

Definition follow_inv s : Prop :=
  tester_ok (s_test s) ∧ snaps_ok (s_snaps s) ∧
  ∀ i rs, s_srvs s !! i = Some rs → ∃ a, s_applied s !! i = Some a ∧ srv_ok (s_test s) i a rs.

Lemma tester_ok_update ts ts' (i : nat) t t' :
  tester_ok ts → srvs ts !! i = Some t → srvs ts' = <[i := t']> (srvs ts) → applyErr t' = applyErr t →
  of_log (logs t') → tester_ok ts'.
Proof.
  intros (Hlen & Hne & Hof) Ht Hts' He Ht'. unfold tester_ok, noerr in *. rewrite Hts', length_insert.
  split; [done|]. split; apply Forall_insert; try done. rewrite He. by eapply Forall_lookup_1 in Hne.
Qed.

Lemma srvs_update (m : gmap Z (server (any:=any))) (ap : gmap Z Z) ts ts' i rs' a t' :
  (∀ j rs, m !! j = Some rs → ∃ b, ap !! j = Some b ∧ srv_ok ts j b rs) →
  srvs ts' = <[Z.to_nat i := t']> (srvs ts) → srv_ok ts' i a rs' →
  ∀ j rs, <[i := rs']> m !! j = Some rs → ∃ b, <[i := a]> ap !! j = Some b ∧ srv_ok ts' j b rs.
Proof.
  intros Hm Hts' Hi j rs [[<- <-]|[Hne Hj]]%lookup_insert_Some.
  - exists a. by rewrite lookup_insert_eq.
  - destruct (Hm j rs Hj) as (b & Hb & Hok). exists b. rewrite lookup_insert_ne by done. split; [done|].
    destruct Hi as [Hi _]. destruct Hok as (Hj0 & H1 & H2 & H3 & H4 & H5).
    split; [done|]. split; [done|]. split; [done|]. split; [done|]. split; [done|].
    intros t Ht. apply H5. rewrite Hts', list_lookup_insert_ne in Ht by lia. done.
Qed.

Lemma of_log_insert a v lg : 0 <= a → L !! Z.to_nat a = Some v → of_log lg → of_log (<[a + 1 := v]> lg).
Proof.
  intros Ha Hv Hlg j w [[<- <-]|[_ Hj]]%lookup_insert_Some; [|by apply Hlg]. right. split; [lia|].
  by replace (a + 1 - 1) with a by lia.
Qed.

Lemma has_prefix_insert a v lg : has_prefix a lg → has_prefix (a + 1) (<[a + 1 := v]> lg).
Proof.
  intros Hlg j Hj. destruct (decide (j = a + 1)) as [->|]; [rewrite lookup_insert_eq; by eexists|].
  rewrite lookup_insert_ne by done. apply Hlg. lia.
Qed.

(** The entries of a snapshot of a server that follows the log. *)
Lemma snapshot_entries_log rs a :
  of_log (log rs) → has_prefix a (log rs) → 0 <= a <= Z.of_nat (length L) →
  snapshot_entries nil rs a = lookup_zero nil 0 (log rs) :: take (Z.to_nat a) L.
Proof.
  intros Hof Hpre Ha. unfold snapshot_entries. rewrite seqZ_cons by lia. cbn [map]. f_equal.
  apply list_eq. intros i. rewrite lookup_take.
  change (map ?f ?l) with (f <$> l). rewrite list_lookup_fmap.
  replace (Z.pred (a + 1)) with a by lia. case_decide as Hi.
  - rewrite lookup_seqZ_lt by lia. simpl. unfold lookup_zero.
    destruct (Hpre (Z.succ 0 + Z.of_nat i)) as [v Hv]; [lia|]. rewrite Hv. simpl.
    destruct (Hof _ _ Hv) as [?|[_ HL]]; [lia|]. rewrite <- HL. f_equal. lia.
  - by rewrite lookup_seqZ_ge by lia.
Qed.

Lemma snapshot_map x0 a :
  0 <= a <= Z.of_nat (length L) →
  of_log (map_seqZ 0 (x0 :: take (Z.to_nat a) L)) ∧ has_prefix a (map_seqZ 0 (x0 :: take (Z.to_nat a) L)).
Proof.
  intros Ha. split.
  - intros j v Hj. apply lookup_map_seqZ_Some in Hj as [Hj Hl]. destruct (decide (j = 0)) as [->|Hne]; [by left|].
    right. split; [lia|]. replace (Z.to_nat (j - 0)) with (S (Z.to_nat (j - 1))) in Hl by lia. simpl in Hl.
    by apply lookup_take_Some in Hl as [? _].
  - intros j Hj. assert (Hl : is_Some ((x0 :: take (Z.to_nat a) L) !! Z.to_nat (j - 0))).
    { apply lookup_lt_is_Some. simpl. rewrite length_take. lia. }
    destruct Hl as [v Hv]. exists v. apply lookup_map_seqZ_Some. split; [lia | done].
Qed.

Lemma CheckLogs_follows ts i a m rs :
  tester_ok ts → srv_ok ts i a rs → CommandIndex m = a + 1 → L !! Z.to_nat a = Some (Command m) →
  ∃ ts' t prevok, CheckLogs show i m ts = Ret (ts', ("", prevok)) ∧ (CommandIndex m > 1 → prevok = true) ∧
    srvs ts !! Z.to_nat i = Some t ∧ srvs ts' = <[Z.to_nat i := recorded m t]> (srvs ts) ∧
    tester_ok ts' ∧ has_prefix (a + 1) (logs (recorded m t)).
Proof.
  intros Hts (Hi & _ & _ & Ha & _ & Hpre) Hidx HL. pose proof Hts as (Hlen & Hne & Hof).
  destruct (lookup_lt_is_Some_2 (srvs ts) (Z.to_nat i)) as [t Ht]; [lia|].
  destruct (CheckLogs_total show i m ts t) as [[ts' [err prevok]] Hc]; [lia|done|].
  rewrite Hc. apply CheckLogs_Some in Hc as (t' & _ & Ht' & -> & -> & Hts'). simplify_eq.
  specialize (Hpre t Ht). pose proof (proj1 (Forall_lookup _ _) Hof _ _ Ht) as Hoft.
  exists ts', t, (bool_decide (is_Some (logs t !! (CommandIndex m - 1)))).
  assert (Hrec : logs (recorded m t) = <[a + 1 := Command m]> (logs t)) by (simpl; by rewrite Hidx).
  split; [|split; [|split; [done|split; [done|split]]]].
  - do 3 f_equal. apply check_loop_nil. apply Forall_forall. intros r Hr old Hold.
    pose proof (proj1 (Forall_forall _ _) Hof r Hr _ _ Hold) as [?|[_ HL']]; [lia|].
    rewrite Hidx in HL'. replace (a + 1 - 1) with a in HL' by lia. congruence.
  - intros Hgt. apply bool_decide_eq_true. apply Hpre. lia.
  - eapply tester_ok_update; [done|done|done|done|]. rewrite Hrec. by apply of_log_insert; [lia|..].
  - rewrite Hrec. by apply has_prefix_insert.
Qed.

Lemma IngestLog_follows ts i lg c :
  tester_ok ts → 0 <= i < Z.of_nat k → c = Delivered → of_log lg →
  ∃ ts' t, proxy_IngestLog c i lg ts = Ret ts' ∧ srvs ts' = <[Z.to_nat i := t]> (srvs ts) ∧ logs t = lg ∧ tester_ok ts'.
Proof.
  intros Hts Hi -> Hlg. pose proof Hts as (Hlen & Hne & Hof).
  destruct (lookup_lt_is_Some_2 (srvs ts) (Z.to_nat i)) as [t Ht]; [lia|].
  unfold proxy_IngestLog, call, IngestLogRPC, IngestLog. rewrite (on_srv_total i _ ts t) by (done || lia). simpl.
  do 2 eexists. split; [done|]. split; [done|]. split; [done|]. by eapply tester_ok_update.
Qed.

(** A server that has just loaded a snapshot. *)
Lemma loaded_ok ts i idx x0 t :
  0 <= i < Z.of_nat k → 0 <= idx <= Z.of_nat (length L) → srvs ts !! Z.to_nat i = Some t →
  logs t = map_seqZ 0 (x0 :: take (Z.to_nat idx) L) →
  srv_ok ts i idx (mkServer i idx (map_seqZ 0 (x0 :: take (Z.to_nat idx) L))).
Proof.
  intros Hi Hidx Ht Hlg. destruct (snapshot_map x0 idx Hidx) as [H1 H2].
  split; [done|]. split; [done|]. split; [done|]. split; [done|]. split; [by intros _|].
  intros t' Ht'. simplify_eq. by rewrite Hlg.
Qed.

Abbreviation next := (sys_next nil show Encode Decode snapshot).

Lemma command_step s i m rs :
  follow_inv s → s_srvs s !! i = Some rs → follows s (Deliver i m all_delivered) → CommandValid m = true →
  ∃ s', next s (Deliver i m all_delivered) = Some s' ∧ follow_inv s'.
Proof.
  intros (Hts & Hsn & Hall) Hrs (_ & _ & Hf) Hv. rewrite Hv in Hf. destruct Hf as (Hsv & a & Hap & Hidx & HL).
  destruct (Hall i rs Hrs) as (a' & Hap' & Hok). simplify_eq.
  destruct (CheckLogs_follows _ _ _ m _ Hts Hok Hidx HL) as (ts' & t & prevok & Hc & Hprev & Ht & Hts' & Htok & Hpre).
  destruct Hok as (Hi & Hme & Hlog & Ha & Hsnap & _). pose proof (lookup_lt_Some _ _ _ HL) as HaL.
  assert (Hg : bool_decide (CommandIndex m > 1) && negb prevok = false).
  { case_bool_decide; [by rewrite Hprev | done]. }
  assert (Hok' : ∀ rs', me rs' = i → of_log (log rs') →
    (snapshot = true → lastApplied rs' = a + 1 ∧ has_prefix (a + 1) (log rs')) → srv_ok ts' i (a + 1) rs').
  { intros rs' H1 H2 H3. repeat (split; [done || lia|]). intros t' Ht'. rewrite Hts' in Ht'.
    rewrite list_lookup_insert_eq in Ht' by (by apply lookup_lt_Some in Ht). by simplify_eq. }
  unfold sys_next. rewrite Hrs. cbn [mbind option_bind]. destruct snapshot eqn:Esn.
  - destruct (Hsnap eq_refl) as [Hla Hpl]. unfold applierSnap. rewrite Hsv, Hv. cbv zeta.
    rewrite !(decide_False (P:=CommandIndex m ≠ lastApplied rs + 1)) by lia.
    rewrite (decide_True (P:="" = "")) by done.
    unfold proxy_CheckLogs, call, CheckLogsRPC. cbn [f_check all_delivered cl_Index cl_Msg].
    rewrite Hme, Hc. cbn [mbind outcome_bind]. rewrite bool_decide_true by done. cbn [andb]. rewrite Hg.
    set (rs' := mkServer _ _ _). set (snap := if decide _ then _ else _).
    set (ts1 := match snap with Some _ => _ | None => _ end).
    assert (Hts1 : srvs ts1 = srvs ts') by (unfold ts1, snap; by destruct (decide (_ `rem` _ = 0))).
    unfold report_err. rewrite decide_True by done. eexists. split; [reflexivity|].
    assert (Hlog' : of_log (log rs') ∧ has_prefix (a + 1) (log rs')).
    { unfold rs'. simpl. rewrite Hidx. split; [apply of_log_insert; [lia|done|done] | by apply has_prefix_insert]. }
    split; [|split].
    + unfold tester_ok, noerr in *. cbn [s_test]. by rewrite Hts1.
    + cbn [s_snaps]. intros idx sn [Hin|Hin]%elem_of_app; [by apply Hsn|].
      unfold snap in Hin. destruct (decide (_ `rem` _ = 0)); [|by apply not_elem_of_nil in Hin].
      apply list_elem_of_singleton in Hin. injection Hin as -> ->. split; [lia|].
      rewrite Hidx, snapshot_entries_log; [by eexists|apply Hlog'|apply Hlog'|lia].
    + cbn [s_srvs s_applied s_test]. apply (srvs_update _ _ (s_test s) _ _ _ _ (recorded m t)); [done|by rewrite Hts1|].
      change (lastApplied rs') with (CommandIndex m). rewrite Hidx. unfold srv_ok. rewrite Hts1.
      apply Hok'; [done|apply Hlog'|]. intros _. split; [simpl; lia | apply Hlog'].
  - unfold applier. rewrite Hv. unfold proxy_CheckLogs, call, CheckLogsRPC. cbn [f_check all_delivered cl_Index cl_Msg]. rewrite Hme, Hc.
    cbn [mbind outcome_bind]. rewrite Hg. unfold report_err. rewrite decide_True by done.
    eexists. split; [reflexivity|]. split; [done|]. split; [done|]. cbn [s_srvs s_applied s_test].
    rewrite <- (insert_id (s_srvs s) i rs) by done. rewrite Hidx.
    apply (srvs_update _ _ (s_test s) _ _ _ _ (recorded m t)); [done|done|]. by apply Hok'.
Qed.

(** Loading a snapshot that some server made. *)
Lemma ingest_step s i sn idx idx' rs :
  follow_inv s → 0 <= i < Z.of_nat k → me rs = i → (idx, sn) ∈ s_snaps s → (idx' = -1 ∨ idx' = idx) →
  ∃ lg ts', ingestSnap Decode (Some sn) idx' rs = (mkServer i idx lg, "") ∧
    proxy_IngestLog Delivered i lg (s_test s) = Ret ts' ∧
    ∀ reported, follow_inv (mkSys ts' (<[i := mkServer i idx lg]> (s_srvs s)) (s_snaps s) reported (<[i := idx]> (s_applied s))).
Proof.
  intros (Hts & Hsn & Hall) Hi Hme Hin Hidx'. destruct (Hsn _ _ Hin) as (Hidx & x0 & ->).
  exists (map_seqZ 0 (x0 :: take (Z.to_nat idx) L)).
  destruct (snapshot_map x0 idx Hidx) as [Hof Hpre]. pose proof Hts as (Hlen & _).
  destruct (lookup_lt_is_Some_2 (srvs (s_test s)) (Z.to_nat i)) as [t0 Ht0]; [lia|].
  assert (Hing : ∃ ts' t, proxy_IngestLog Delivered i (map_seqZ 0 (x0 :: take (Z.to_nat idx) L)) (s_test s) = Ret ts' ∧
    srvs ts' = <[Z.to_nat i := t]> (srvs (s_test s)) ∧ logs t = map_seqZ 0 (x0 :: take (Z.to_nat idx) L) ∧ tester_ok ts').
  { by apply IngestLog_follows. }
  destruct Hing as (ts' & t & Hp & Hts' & Hlg & Htok). exists ts'. split; [|split; [done|]].
  - unfold ingestSnap. rewrite Hgob, decide_False by lia. by rewrite Hme.
  - intros reported. split; [done|]. split; [done|]. cbn [s_srvs s_applied s_test].
    apply (srvs_update _ _ (s_test s) _ _ _ _ t); [done|done|].
    apply (loaded_ok _ _ _ _ t); [done|done| |done]. rewrite Hts'.
    apply list_lookup_insert_eq. by apply lookup_lt_Some in Ht0.
Qed.

Lemma follow_step s l : follow_inv s → follows s l → ∃ s', next s l = Some s' ∧ follow_inv s'.
Proof.
  intros Hs Hf. pose proof Hs as (Hts & Hsn & Hall). destruct l as [i m f|i sn f]; pose proof Hf as (Hd & Hf');
    simpl in Hd; subst f.
  - destruct Hf' as ([rs Hrs] & Hf'). destruct (CommandValid m) eqn:Hv; [by eapply command_step|].
    destruct (Hall i rs Hrs) as (a & Hap & Hok). destruct Hok as (Hi & Hme & Hok).
    unfold sys_next. rewrite Hrs, Hv. cbn [mbind option_bind]. unfold applierSnap, applier. rewrite Hv.
    destruct (SnapshotValid m) eqn:Hsv.
    + destruct Hf' as (Hsnap & sn & Hm & Hin).
      destruct (ingest_step s i sn _ (SnapshotIndex m) rs Hs Hi Hme Hin (or_intror eq_refl)) as (lg & ts' & Hing & Hp & Hinv).
      rewrite Hsnap, Hm, Hing. cbn [me log f_ingest all_delivered]. rewrite Hp. cbn [mbind outcome_bind].
      unfold report_err. rewrite decide_True by done. eexists. split; [reflexivity|]. cbn [option_list lastApplied].
      rewrite app_nil_r. apply Hinv.
    + destruct snapshot eqn:Esn; eexists; (split; [reflexivity|]); [|by destruct s].
      split; [done|]. cbn [s_snaps s_srvs s_applied s_test option_list]. rewrite app_nil_r. split; [done|].
      destruct (proj1 (proj2 (proj2 Hok)) eq_refl) as [Hla _]. rewrite Hla, !insert_id by done. done.
  - destruct Hf' as (Hi & Hsn'). unfold sys_next, newRfsrv.
    assert (Hfresh : follow_inv (mkSys (s_test s) (<[i := mkServer i 0 ∅]> (s_srvs s)) (s_snaps s) (s_reported s)
      (<[i := 0]> (s_applied s)))).
    { pose proof Hts as (Hlen & _). destruct (lookup_lt_is_Some_2 (srvs (s_test s)) (Z.to_nat i)) as [t Ht]; [lia|].
      split; [done|]. split; [done|]. apply (srvs_update _ _ (s_test s) _ _ _ _ t); [done|by rewrite list_insert_id|].
      split; [done|]. split; [done|]. split; [by intros j v Hj; simpl in Hj; rewrite lookup_empty in Hj|].
      split; [lia|]. split; [intros _; split; [done|]|intros t' _]; intros j Hj; lia. }
    destruct snapshot; [|by eexists]. destruct sn as [[|c sn]|]; [by eexists| |by eexists].
    destruct Hsn' as [?|[idx Hin]]; [done|].
    destruct (ingest_step s i _ _ (-1) (mkServer i 0 ∅) Hs Hi eq_refl Hin (or_introl eq_refl)) as (lg & ts' & Hing & Hp & Hinv).
    rewrite Hing, decide_True by done. cbn [me log f_ingest all_delivered]. rewrite Hp. cbn [mbind outcome_bind].
    eexists. split; [reflexivity|]. apply Hinv.
Qed.
End complete.

(** ** Properties *)

(** C12 In the configuration without snapshots, when every call of a server to
    the tester is delivered: if no server reports an error to the tester, then
    all servers have applied the same command at every index they have applied,
    whatever messages their Raft libraries produced and however often they were
    restarted; each has applied the preceding index of every index above 1; and
    [nCommitted] returns, for every index, the number of servers that applied it,
    and its command. (With snapshots it need not be so: [IngestLog] replaces the
    tester's copy of a server's log unchecked.) *)
Theorem silent_tester_means_agreement {any : Type} `{EqDecision any} (nil : any) show Encode Decode k ls s :
  exec (λ s l s', delivered l ∧ sys_next nil show Encode Decode false s l = Some s') (sys_init k) ls s →
  noerr (s_test s) →
  (∀ i j idx v v', (i, idx, v) ∈ s_reported s → (j, idx, v') ∈ s_reported s → v = v') ∧
  (∀ i idx v, (i, idx, v) ∈ s_reported s → idx > 1 → ∃ v', (i, idx - 1, v') ∈ s_reported s) ∧
  ∀ idx, ∃ cmd, nCommitted idx (s_test s) =
      Ret (Z.of_nat (length (filter (λ i, (i, idx) ∈ map key (s_reported s)) (seqZ 0 (Z.of_nat k)))), cmd) ∧
    ∀ i v, (i, idx, v) ∈ s_reported s → cmd = Some v.
Proof.
  intros He Hne. destruct (sound_exec _ _ _ _ _ _ _ He) as (Hlen & _ & Hs).
  destruct (Hs Hne) as (Hlogs & Hagree & Hcont). split; [done|]. split; [done|]. intros idx.
  assert (Hrep : ∀ (i : nat) rs v, srvs (s_test s) !! i = Some rs → logs rs !! idx = Some v → (Z.of_nat i, idx, v) ∈ s_reported s).
  { intros i rs v Hi Hv. apply Hlogs. split; [lia|]. exists rs. by rewrite Nat2Z.id. }
  destruct (committed_loop_Ret idx (srvs (s_test s)) 0 None) as (cmd & Hc & Hv & _); [done| |lia|lia|].
  { intros rs rs' v v' [i Hi]%list_elem_of_lookup [i' Hi']%list_elem_of_lookup Hv Hv'. eauto. }
  exists cmd. unfold nCommitted. rewrite Hc. split.
  - do 3 f_equal. rewrite Z.add_0_l. f_equal. rewrite <- Hlen. apply length_filter_seqZ. intros i rs Hi.
    rewrite list_elem_of_fmap. rewrite Z.add_0_l. split.
    + intros [v Hv']. exists (Z.of_nat i, idx, v). split; [done|]. by eapply Hrep.
    + intros ([[i' idx'] v] & [= <- <-] & Hin). apply Hlogs in Hin as (_ & rs' & Hi' & Hv').
      rewrite Nat2Z.id in Hi'. simplify_eq. by eexists.
  - intros i v Hin. apply Hlogs in Hin as (_ & rs & Hi & Hv'). by apply (Hv rs); [by eapply list_elem_of_lookup_2|].
Qed.

(** C11 If the Raft libraries deliver the commands of one log [L] in order,
    from the first or from a persisted snapshot after a restart, and the
    snapshots they hand out are ones that servers made, then no step fails, no
    server ever reports an error, the tester's copy of a server holds exactly
    the commands of [L] up to where that server is, and [nCommitted] answers
    with the command of [L]. *)
Theorem correct_raft_passes {any : Type} `{EqDecision any} (nil : any) show Encode Decode snapshot k (L : list any) ls s :
  (∀ idx l, Decode (Encode idx l) = Some (idx, l)) →
  exec (λ s l s', follows snapshot k L s l ∧ sys_next nil show Encode Decode snapshot s l = Some s') (sys_init k) ls s →
  noerr (s_test s) ∧
  (∀ l, follows snapshot k L s l → is_Some (sys_next nil show Encode Decode snapshot s l)) ∧
  (∀ i rs a t idx, s_srvs s !! i = Some rs → s_applied s !! i = Some a → srvs (s_test s) !! Z.to_nat i = Some t →
     1 <= idx <= a → logs t !! idx = L !! Z.to_nat (idx - 1) ∧ is_Some (logs t !! idx)) ∧
  ∀ idx, 1 <= idx → ∃ cnt cmd, nCommitted idx (s_test s) = Ret (cnt, cmd) ∧ (cnt > 0 → cmd = L !! Z.to_nat (idx - 1)).
Proof.
  intros Hgob He. assert (Hs : follow_inv Encode snapshot k L s).
  { eapply (exec_preserves _ (follow_inv Encode snapshot k L)); [| | exact He].
    - intros s1 l s2 Hi [Hf Hst]. destruct (follow_step nil show Encode Decode Hgob snapshot k L s1 l Hi Hf) as (s' & E & Hi').
      congruence.
    - split; [|split; [by intros idx sn Hin%not_elem_of_nil | intros i rs Hi; simpl in Hi; by rewrite lookup_empty in Hi]].
      split; [apply length_replicate|]. split; apply Forall_replicate; [done|].
      intros j v Hj. unfold newRaftServer in Hj. simpl in Hj. by rewrite lookup_empty in Hj. }
  pose proof Hs as ((Hlen & Hne & Hof) & Hsn & Hall). rewrite Forall_forall in Hof. split; [done|]. split; [|split].
  - intros l Hf. destruct (follow_step nil show Encode Decode Hgob snapshot k L s l Hs Hf) as (s' & -> & _). by eexists.
  - intros i rs a t idx Hrs Ha Ht Hidx. destruct (Hall i rs Hrs) as (a' & Ha' & _ & _ & _ & _ & _ & Hpre).
    simplify_eq. destruct (Hpre t Ht idx Hidx) as [v Hv]. rewrite Hv. split; [|by eexists].
    destruct (Hof t (list_elem_of_lookup_2 _ _ _ Ht) _ _ Hv) as [?|[_ ?]]; [lia | congruence].
  - intros idx Hidx.
    assert (HL : ∀ rs v, rs ∈ srvs (s_test s) → logs rs !! idx = Some v → L !! Z.to_nat (idx - 1) = Some v).
    { intros rs v Hrs Hv. destruct (Hof rs Hrs _ _ Hv) as [?|[_ ?]]; [lia | done]. }
    destruct (committed_loop_Ret idx (srvs (s_test s)) 0 None) as (cmd & Hc & Hcmd & _); [done| |lia|lia|].
    { intros rs rs' v v' Hrs Hrs' Hv Hv'. pose proof (HL _ _ Hrs Hv). pose proof (HL _ _ Hrs' Hv'). congruence. }
    do 2 eexists. split; [exact Hc|]. intros Hgt.
    destruct (filter (λ rs, is_Some (logs rs !! idx)) (srvs (s_test s))) as [|rs l] eqn:Ef; [simpl in Hgt; lia|].
    assert (Hin : rs ∈ filter (λ rs, is_Some (logs rs !! idx)) (srvs (s_test s))) by (rewrite Ef; by left).
    apply list_elem_of_filter in Hin as [[v Hv] Hin]. rewrite (Hcmd rs v Hin Hv). symmetry. by apply (HL rs).
Qed.

(** ** Witnesses *)

Module Ex.
(** Snapshots as strings of bits. *)
Definition zero : Ascii.ascii := Ascii.ascii_of_N 48.
Definition one : Ascii.ascii := Ascii.ascii_of_N 49.
Fixpoint bits (p : positive) : string :=
  match p with xH => EmptyString | xO p => String zero (bits p) | xI p => String one (bits p) end.
Fixpoint unbits (s : string) : positive :=
  match s with EmptyString => xH | String c s => if decide (c = one) then xI (unbits s) else xO (unbits s) end.
Lemma unbits_bits p : unbits (bits p) = p.
Proof. induction p; simpl; congruence. Qed.

Definition Encode (idx : Z) (l : list Z) : string := bits (encode (idx, l)).
Definition Decode (s : string) : option (Z * list Z) := decode (unbits s).
Lemma Decode_Encode idx l : Decode (Encode idx l) = Some (idx, l).
Proof. unfold Decode, Encode. by rewrite unbits_bits, decode_encode. Qed.

Definition cmd (i v : Z) : ApplyMsg := mkApplyMsg true v i false None 0 0.
Definition next := sys_next 0 pretty Encode Decode.
Definition step_if (allowed : sys (any:=Z) → sys_label → bool) (snapshot : bool) (s : sys) (l : sys_label) : option sys :=
  if allowed s l then next snapshot s l else None.
Definition deliver (i : Z) (m : ApplyMsg (any:=Z)) : sys_label := Deliver i m all_delivered.

(** Without snapshots: two servers apply two commands, one restarts. *)
Definition plain : list sys_label :=
  [Start 0 None all_delivered; Start 1 None all_delivered; deliver 0 (cmd 1 7); deliver 1 (cmd 1 7);
   deliver 0 (cmd 2 9); Start 0 None all_delivered; deliver 0 (cmd 1 7); deliver 1 (cmd 2 9)].
Definition plain_end : sys := default (sys_init 3) (run (step_if (λ _ _, true) false) (sys_init 3) plain).

(** With snapshots: server 0 applies nine commands and makes one; it goes to
    server 1, which then restarts from it and applies the tenth command. *)
Definition L : list Z := [5; 6; 7; 8; 9; 4; 3; 2; 1; 0].
Definition snap : string := Encode 9 (0 :: take 9 L).
Definition with_snap : list sys_label :=
  [Start 0 None all_delivered; Start 1 None all_delivered] ++
  imap (λ i v, deliver 0 (cmd (Z.of_nat i + 1) v)) (take 9 L) ++
  [deliver 1 (mkApplyMsg false 0 0 true (Some snap) 1 9); Start 1 (Some snap) all_delivered; deliver 1 (cmd 10 0)].
Definition follows_b (s : sys (any:=Z)) (l : sys_label (any:=Z)) : bool :=
  match l with
  | Deliver i m (mkFates Delivered Delivered Delivered Delivered) =>
      bool_decide (is_Some (s_srvs s !! i)) &&
      if CommandValid m then
        negb (SnapshotValid m) &&
        match s_applied s !! i with
        | Some a => bool_decide (CommandIndex m = a + 1) && bool_decide (L !! Z.to_nat a = Some (Command m))
        | None => false
        end
      else match Snapshot m with
           | Some sn => SnapshotValid m && bool_decide ((SnapshotIndex m, sn) ∈ s_snaps s)
           | None => false
           end
  | Start i sn (mkFates Delivered Delivered Delivered Delivered) =>
      bool_decide (0 <= i < 3) &&
      match sn with Some sn => bool_decide (sn ∈ (s_snaps s).*2) | None => true end
  | _ => false
  end.
Lemma follows_b_follows s l : follows_b s l = true → follows true 3 L s l.
Proof.
  destruct l as [i m [[] [] [] []]|i sn [[] [] [] []]]; simpl; try done; intros H; (split; [done|]).
  - apply andb_prop in H as [H1 H]. apply bool_decide_eq_true in H1. split; [done|].
    destruct (CommandValid m).
    + apply andb_prop in H as [H2 H]. apply negb_true_iff in H2. split; [done|].
      destruct (s_applied s !! i) as [a|]; [|done]. apply andb_prop in H as [H3 H4].
      apply bool_decide_eq_true in H3, H4. by exists a.
    + destruct (Snapshot m) as [sn|]; [|done]. apply andb_prop in H as [-> H]. apply bool_decide_eq_true in H.
      split; [done|]. by exists sn.
  - apply andb_prop in H as [H1 H]. apply bool_decide_eq_true in H1. split; [lia|].
    destruct sn as [sn|]; [|done]. right. apply bool_decide_eq_true, list_elem_of_fmap in H as ([idx sn'] & -> & H).
    by exists idx.
Qed.
Definition snap_end : sys := default (sys_init 3) (run (step_if follows_b true) (sys_init 3) with_snap).
End Ex.

Lemma silent_tester_means_agreement_witness :
  nCommitted 2 (s_test Ex.plain_end) = Ret (2, Some 9) ∧ nCommitted 3 (s_test Ex.plain_end) = Ret (0, None).
Proof.
  assert (He : exec (λ s l s', delivered l ∧ sys_next 0 pretty Ex.Encode Ex.Decode false s l = Some s')
    (sys_init 3) Ex.plain Ex.plain_end).
  { assert (Hr : run (Ex.step_if (λ _ l, match l with Deliver _ _ (mkFates Delivered Delivered Delivered Delivered)
        | Start _ _ (mkFates Delivered Delivered Delivered Delivered) => true | _ => false end) false)
        (sys_init 3) Ex.plain = Some Ex.plain_end) by (vm_compute; reflexivity).
    revert Hr. apply run_exec. intros s [i m [[] [] [] []]|i sn [[] [] [] []]] s'; unfold Ex.step_if; by try done. }
  assert (Hn : noerr (s_test Ex.plain_end)) by (vm_compute; by repeat constructor).
  destruct (silent_tester_means_agreement 0 pretty Ex.Encode Ex.Decode 3 Ex.plain Ex.plain_end He Hn) as (_ & _ & H).
  split.
  - destruct (H 2) as (c & -> & Hc). assert (Hin : (1, 2, 9) ∈ s_reported Ex.plain_end)
      by (apply (bool_decide_unpack _); vm_compute; exact I).
    rewrite (Hc 1 9 Hin). vm_compute. reflexivity.
  - vm_compute. reflexivity.
Defined.

Lemma correct_raft_passes_witness :
  noerr (s_test Ex.snap_end) ∧ maxIndex (s_test Ex.snap_end) = 10 ∧
  ∃ t, srvs (s_test Ex.snap_end) !! 1%nat = Some t ∧ logs t !! 4 = Some 8.
Proof.
  assert (He : exec (λ s l s', follows true 3 Ex.L s l ∧ sys_next 0 pretty Ex.Encode Ex.Decode true s l = Some s')
    (sys_init 3) Ex.with_snap Ex.snap_end).
  { assert (Hr : run (Ex.step_if Ex.follows_b true) (sys_init 3) Ex.with_snap = Some Ex.snap_end) by (vm_compute; reflexivity).
    revert Hr. apply run_exec. intros s l s'. unfold Ex.step_if. destruct (Ex.follows_b s l) eqn:E; [|done].
    intros Hs. split; [by apply Ex.follows_b_follows | exact Hs]. }
  destruct (correct_raft_passes 0 pretty Ex.Encode Ex.Decode true 3 Ex.L Ex.with_snap Ex.snap_end Ex.Decode_Encode He)
    as (Hn & _ & Hl & _).
  split; [exact Hn|]. split; [vm_compute; reflexivity|].
  assert (Ht : ∃ t, srvs (s_test Ex.snap_end) !! 1%nat = Some t) by (vm_compute; by eexists).
  destruct Ht as [t Ht]. exists t. split; [exact Ht|].
  assert (Hrs : ∃ rs, s_srvs Ex.snap_end !! 1 = Some rs) by (vm_compute; by eexists). destruct Hrs as [rs Hrs].
  rewrite (proj1 (Hl 1 rs 10 t 4 Hrs eq_refl Ht ltac:(lia))). vm_compute. reflexivity.
Defined.
