(* ===== verification/RaftLib.v ===== *)
(** * The Raft library behind its processes: [raftapi/raftapi.go], the calls of
      [raft1/server.go] and [raft1/proxy.go]

    The tester of [RaftTest] asks servers for their state and gives them commands
    through a proxy, over a connection that may fail, to a process that may have
    died; the process asks its Raft library. The library is a class: the methods
    of the interface [raftapi.Raft]. *)

From S2P Require Import Prelude RaftTest RaftServer.

Open Scope string_scope.
Open Scope list_scope.
Open Scope Z_scope.

(** [raftapi.Raft], on a state [R] of the library. *)
Class RaftAPI (any R : Type) := {
  api_Start : any → R → (Z * Z * bool) * R;
  api_GetState : R → Z * bool;
  api_Snapshot : Z → list Z → R → R;
  api_PersistBytes : R → Z
}.

(** ** [server.go] *)

Section server.
Context {any R : Type} `{RaftAPI any R}.

(** [rs.raft] may be nil: [Start] asks, [GetState] does not. *)
Definition rfsrv_Start (command : any) (raft : option R) : (Z * Z * bool) * option R :=
  match raft with
  | None => ((0, 0, false), None)
  | Some rf => let '(r, rf) := api_Start command rf in (r, Some rf)
  end.
Definition rfsrv_GetState (raft : option R) : outcome (Z * bool) :=
  match raft with None => Panic | Some rf => Ret (api_GetState rf) end.

Record GetStateReply := mkGetStateReply { gs_Term : Z; gs_Leader : bool }.
Record StartReply := mkStartReply { st_Index : Z; st_Term : Z; st_Leader : bool }.

Definition GetStateRPC (raft : option R) : outcome GetStateReply :=
  '(term, leader) ← rfsrv_GetState raft; Ret (mkGetStateReply term leader).
Definition StartRPC (command : any) (raft : option R) : StartReply * option R :=
  let '(idx, term, leader, raft) := rfsrv_Start command raft in (mkStartReply idx term leader, raft).

(** ** [proxy.go] *)

(** The process of a server: dead, or running with its field [raft]. A handler
    that panics ends it. *)
Inductive daemon := Dead | Up (raft : option R).

(** [rfp.dc.Call]: whether the handler runs, and whether its reply arrives. *)
Definition daemon_call {A} (c : delivery) (handler : option R → outcome (A * option R)) (d : daemon) : option A * daemon :=
  match d, c with
  | Dead, _ | _, Lost => (None, d)
  | Up raft, _ =>
      match handler raft with
      | Ret (rep, raft) => (match c with Delivered => Some rep | _ => None end, Up raft)
      | _ => (None, Dead)
      end
  end.

(** A reply that does not arrive leaves [rep] zero. *)
Definition Rfproxy_GetState (c : delivery) (d : daemon) : (Z * bool) * daemon :=
  let '(rep, d) := daemon_call c (λ raft, rep ← GetStateRPC raft; Ret (rep, raft)) d in
  (match rep with Some rep => (gs_Term rep, gs_Leader rep) | None => (0, false) end, d).
Definition Rfproxy_Start (c : delivery) (command : any) (d : daemon) : (Z * Z * bool) * daemon :=
  let '(rep, d) := daemon_call c (λ raft, Ret (StartRPC command raft)) d in
  (match rep with Some rep => (st_Index rep, st_Term rep, st_Leader rep) | None => (0, 0, false) end, d).

(** ** What a round of questions sees *)

(** For every server: whether it is connected, the fate of the call, and its
    process when it is asked. *)
Record situation := mkSituation { sit_connected : Z → bool; sit_call : Z → delivery; sit_daemon : Z → daemon }.

Definition answers_in (s : situation) : answers :=
  mkAnswers (sit_connected s) (λ i, (Rfproxy_GetState (sit_call s i) (sit_daemon s i)).1).

(** The library of server [i] says that it leads term [T]. *)
Definition leads (s : situation) (T i : Z) : Prop :=
  ∃ rf, sit_daemon s i = Up (Some rf) ∧ api_GetState rf = (T, true).

(** What Raft promises of its leaders: terms are not negative, and no term has two. *)
Definition election_safety (s : situation) : Prop :=
  (∀ T i, leads s T i → 0 <= T) ∧ ∀ T i j, leads s T i → leads s T j → i = j.

(** The tester hears of it. *)
Definition heard (s : situation) (T i : Z) : Prop := sit_connected s i = true ∧ sit_call s i = Delivered ∧ leads s T i.

(** A round of [one]: the starts go to the processes as they are then. *)
Record start_round := mkStartRound {
  sr_test : Test (any:=any); sr_sit : situation; sr_polls : list (Test (any:=any))
}.
Definition round_in (command : any) (r : start_round) : round (any:=any) :=
  mkRound (sr_test r) (sit_connected (sr_sit r))
    (λ i, (Rfproxy_Start (sit_call (sr_sit r) i) command (sit_daemon (sr_sit r) i)).1) (sr_polls r).

(** ** Lemmas *)

Lemma GetState_true c d T : (Rfproxy_GetState c d).1 = (T, true) ↔
  c = Delivered ∧ ∃ rf, d = Up (Some rf) ∧ api_GetState rf = (T, true).
Proof.
  unfold Rfproxy_GetState, daemon_call, GetStateRPC, rfsrv_GetState. split.
  - destruct d as [|[rf|]], c; cbn; try done; destruct (api_GetState rf) as [term leader] eqn:E; cbn; try done.
    intros [= -> ->]. split; [done|]. by exists rf.
  - intros [-> (rf & -> & E)]. cbn. by rewrite E.
Qed.

Lemma claims_heard s (ts : Test (any:=any)) T i : claims (answers_in s) ts T i ↔ 0 <= i < n ts ∧ heard s T i.
Proof. unfold claims, heard, leads, answers_in. cbn. rewrite GetState_true. tauto. Qed.

(** A proxy is not a leader of its own: its answers are those of the library. *)
Lemma Start_true c command d idx term : (Rfproxy_Start c command d).1 = (idx, term, true) ↔
  c = Delivered ∧ ∃ rf, d = Up (Some rf) ∧ (api_Start command rf).1 = (idx, term, true).
Proof.
  unfold Rfproxy_Start, daemon_call, StartRPC, rfsrv_Start. split.
  - destruct d as [|[rf|]], c; cbn; try done; destruct (api_Start command rf) as [[[i t] l] rf'] eqn:E; cbn; try done.
    intros [= -> -> ->]. split; [done|]. exists rf. by rewrite E.
  - intros [-> (rf & -> & E)]. cbn. destruct (api_Start command rf) as [r rf'] eqn:E'. cbn in E. subst r. done.
Qed.

End server.
Arguments Dead {R}.
Arguments situation R : clear implicits.

(** ** Properties *)


(** ** Witness *)

(** A library that only knows its term and whether it leads. *)
#[export] Instance term_raft : RaftAPI Z (Z * bool) := {
  api_Start _ r := ((1, r.1, r.2), r); api_GetState r := r; api_Snapshot _ _ r := r; api_PersistBytes _ := 0
}.

(** Server 0 leads term 2 but the call fails; then it is dead and server 1 leads term 3. *)
Definition ex_sits : list (situation (Z * bool)) :=
  [mkSituation (λ _, true) (λ i, if decide (i = 0) then ReplyLost else Delivered) (λ i, Up (Some (2, bool_decide (i = 0))));
   mkSituation (λ _, true) (λ _, Delivered) (λ i, if decide (i = 0) then Dead else Up (Some (3, bool_decide (i = 1))))].

