(* ===== verification/ServerGroup.v ===== *)
(** * Server groups: [tester1/group.go], [srv.go]

    A group keeps, for each server, its outgoing ends and whether it is on the
    network; connecting and disconnecting enable and disable ends of the network
    of [LabRPC]. The names of ends ([Randstring]) are arguments; the processes
    that run the servers are outside, so that starting one may fail and stopping
    one yields the persistent state it hands back. *)

From stdpp Require Import pretty.
From S2P Require Import Prelude JsonInt LabRPC.

Open Scope string_scope.
Open Scope list_scope.
Open Scope Z_scope.

Definition ServerName (gid i : Z) : string := "server-" +:+ pretty gid +:+ "-" +:+ pretty i.

Section group.
Context {St Saved : Type}.
Abbreviation Network := (LabRPC.Network (St:=St)).

(** [saved] is the persister, [dc] the client of the daemon that runs the
    server, here only present or absent. *)
Record Server := mkServer { saved : option Saved; endNames : list string; dc : bool }.

Record ServerGrp := mkGrp { srvs : list Server; connected : list bool; gid : Z }.

(** A group and its network. *)
Record world := mkWorld { net : Network; grp : ServerGrp }.

Definition on_net (f : Network → Network) (w : world) : world := mkWorld (f (net w)) (grp w).
Definition set_connected (l : list bool) (w : world) : world := mkWorld (net w) (mkGrp (srvs (grp w)) l (gid (grp w))).
Definition set_srvs (l : list Server) (w : world) : world := mkWorld (net w) (mkGrp l (connected (grp w)) (gid (grp w))).

(** ** [srv.go] *)

(** The loop of [makeServer] from server [j] on. *)
Fixpoint make_ends (g j : Z) (names : list string) (n : Network) : outcome Network :=
  match names with
  | [] => Ret n
  | e :: names => n ← MakeEnd e n; make_ends g (j + 1) names (Connect e (ServerName g j) n)
  end.

(** [makeServer] with [nsrv] ends; [rand] are the random names. *)
Definition makeServer (g : Z) (nsrv : nat) (rand : nat → string) (n : Network) : outcome (Server * Network) :=
  n ← make_ends g 0 (map rand (seq 0 nsrv)) n; Ret (mkServer None (map rand (seq 0 nsrv)) false, n).

(** [startServer], where [fresh] is what [MakePersister] returns. *)
Definition startServer (g : Z) (fresh : Saved) (rand : nat → string) (s : Server) (n : Network) :
    outcome (Server * Network) :=
  '(srv, n) ← makeServer g (length (endNames s)) rand n;
  Ret (mkServer (Some (default fresh (saved s))) (endNames srv) (dc srv), n).

Definition IsConnected (w : world) (i : Z) : outcome bool := index (connected (grp w)) i.

(** [endNames[j]] of server [i] *)
Definition end_name (w : world) (i j : Z) : outcome string :=
  s ← index (srvs (grp w)) i; index (endNames s) j.

(** [Server.connect] and [Server.disconnect] of server [i] *)
Definition Server_connect (i : Z) (to : list Z) : world → outcome world :=
  for_each (λ j w, c ← IsConnected w j;
    if c : bool then e ← end_name w i j; Ret (on_net (Enable e true) w) else Ret w) to.
Definition Server_disconnect (i : Z) (from : list Z) : world → outcome world :=
  for_each (λ j w, e ← end_name w i j; Ret (on_net (Enable e false) w)) from.

(** [shutdownServer]; [p] is the persister the process hands back. *)
Definition shutdownServer (p : Saved) (s : Server) : Server :=
  if dc s then mkServer (Some p) (endNames s) false else s.

(** ** [group.go] *)

Definition N (g : ServerGrp) : Z := Z.of_nat (length (srvs g)).
Definition all (g : ServerGrp) : list Z := seqZ 0 (N g).
Definition SrvName (g : ServerGrp) (i : Z) : outcome string :=
  if decide (0 <= i < N g) then Ret (ServerName (gid g) i) else Panic.
Fixpoint SrvNamesTo (g : ServerGrp) (to : list Z) : outcome (list string) :=
  match to with
  | [] => Ret []
  | i :: to => nm ← SrvName g i; ns ← SrvNamesTo g to; Ret (nm :: ns)
  end.

Fixpoint make_servers (g : Z) (nsrv k i : nat) (rand : nat → nat → string) (n : Network) :
    outcome (list Server * Network) :=
  match k with
  | O => Ret ([], n)
  | S k => '(s, n) ← makeServer g nsrv (rand i) n; '(l, n) ← make_servers g nsrv k (S i) rand n; Ret (s :: l, n)
  end.

(** [makeSrvGrp]; [rand i] are the random names for server [i]. *)
Definition makeSrvGrp (g : Z) (nsrv : nat) (rand : nat → nat → string) (n : Network) : outcome world :=
  '(l, n) ← make_servers g nsrv nsrv 0 rand n; Ret (mkWorld n (mkGrp l (replicate nsrv false) g)).

Definition connect (i : Z) (to : list Z) (w : world) : outcome world :=
  l ← store (connected (grp w)) i true;
  w ← Server_connect i to (set_connected l w);
  for_each (λ j w, c ← IsConnected w j;
    if c : bool then e ← end_name w j i; Ret (on_net (Enable e true) w) else Ret w) to w.

Definition disconnect (i : Z) (from : list Z) (w : world) : outcome world :=
  l ← store (connected (grp w)) i false;
  w ← Server_disconnect i from (set_connected l w);
  for_each (λ j w, e ← end_name w j i; Ret (on_net (Enable e false) w)) from w.

Definition ConnectOne (i : Z) (w : world) : outcome world := connect i (all (grp w)) w.
Definition ConnectAll (w : world) : outcome world := for_each ConnectOne (all (grp w)) w.
Definition DisconnectAll (i : Z) (w : world) : outcome world := disconnect i (all (grp w)) w.
Definition GetConnected (w : world) : list bool := connected (grp w).

(** [StartServer]: new ends, then the process, then the network; [addr] and
    [obj] are the server object registered, [ok] whether the process started. *)
Definition StartServer (fresh : Saved) (i : Z) (rand : nat → string) (ok : bool) (addr : nat) (obj : LabRPC.Server) (w : world) :
    outcome world :=
  s ← index (srvs (grp w)) i;
  '(srv, n) ← startServer (gid (grp w)) fresh rand s (net w);
  l ← store (srvs (grp w)) i srv;
  let w := set_srvs l (mkWorld n (grp w)) in
  if ok then
    l ← store (srvs (grp w)) i (mkServer (saved srv) (endNames srv) true);
    Ret (on_net (AddServer (ServerName (gid (grp w)) i) addr obj) (set_srvs l w))
  else Ret w.

Definition ShutdownServer (p : Saved) (i : Z) (w : world) : outcome world :=
  w ← disconnect i (all (grp w)) w;
  let w := on_net (DeleteServer (ServerName (gid (grp w)) i)) w in
  s ← index (srvs (grp w)) i;
  l ← store (srvs (grp w)) i (shutdownServer p s);
  Ret (set_srvs l w).

Definition Kill (p : Z → Saved) (l : list Z) : world → outcome world := for_each (λ i, ShutdownServer (p i) i) l.
Definition Shutdown (p : Z → Saved) (w : world) : outcome world := Kill p (all (grp w)) w.

(** What [StartSrvs] is given for each server it starts. *)
Record start_args := mkStart { sa_srv : Z; sa_rand : nat → string; sa_ok : bool; sa_addr : nat; sa_obj : LabRPC.Server (St:=St) }.
Definition StartSrvs (fresh : Saved) (l : list start_args) : world → outcome world :=
  for_each (λ a, StartServer fresh (sa_srv a) (sa_rand a) (sa_ok a) (sa_addr a) (sa_obj a)) l.
Definition StartServers (fresh : Saved) (l : list start_args) (w : world) : outcome world :=
  w ← StartSrvs fresh l w; ConnectAll w.

(** ** Partitions *)

(** The loop of [MakePartition], on server [i] with [k] to go. *)
Fixpoint partition_loop (l : Z) (k : nat) (i j : Z) (p1 p2 : list Z) : outcome (list Z * list Z) :=
  match k with
  | O => Ret (p1, p2)
  | S k =>
      if decide (i = l) then partition_loop l k (i + 1) j p1 p2
      else
        '(p1, p2) ← (if decide (j < Z.of_nat (length p1)) then p1 ← store p1 j i; Ret (p1, p2)
                     else p2 ← store p2 (j - Z.of_nat (length p1)) i; Ret (p1, p2));
        partition_loop l k (i + 1) (j + 1) p1 p2
  end.

Definition MakePartition (l : Z) (g : ServerGrp) : outcome (list Z * list Z) :=
  let n := length (srvs g) in
  '(p1, p2) ← partition_loop l n 0 0 (replicate (n / 2 + 1) 0) (replicate (n / 2) 0);
  p2 ← store p2 (Z.of_nat (length p2) - 1) l;
  Ret (p1, p2).

Definition Partition (p1 p2 : list Z) (w : world) : outcome world :=
  w ← for_each (λ i w, w ← disconnect i p2 w; connect i p1 w) p1 w;
  for_each (λ i w, w ← disconnect i p1 w; connect i p2 w) p2 w.

(** One round of [Partitioner] of [kvtest1/kvtest.go]; [a] are the random bits. *)
Definition side (a : list Z) (i n : Z) : list Z := filter (λ j, a !! Z.to_nat j = Some i) (seqZ 0 n).
Definition Partitioner_round (a : list Z) (w : world) : outcome world :=
  Partition (side a 0 (N (grp w))) (side a 1 (N (grp w))) w.
End group.

(** ** Lemmas *)

Lemma ServerName_gid g i g' i' : ServerName g i = ServerName g' i' → g = g'.
Proof.
  unfold ServerName. intros H%(inj _).
  assert (E : ∀ z j : Z, decode_int (encode_int z +:+ ("-" +:+ pretty j)) = Some (z, "-" +:+ pretty j)).
  { intros. by apply decode_encode_int. }
  pose proof (E g i) as H1. pose proof (E g' i') as H2. unfold encode_int in *. rewrite H in H1. congruence.
Qed.

Section facts.
Context {St Saved : Type}.
Implicit Types (w : world (St:=St) (Saved:=Saved)) (g : ServerGrp (Saved:=Saved)) (n : LabRPC.Network (St:=St)).

(** The name of the end from server [i] to server [j]. *)
Definition name g (i j : Z) : string :=
  match srvs g !! Z.to_nat i with Some s => default "" (endNames s !! Z.to_nat j) | None => "" end.
Definition conn g (j : Z) : bool := default false (connected g !! Z.to_nat j).

Definition grp_ok g : Prop :=
  length (connected g) = length (srvs g) ∧ Forall (λ s, length (endNames s) = length (srvs g)) (srvs g).

Definition in_grp g (i : Z) : Prop := 0 <= i < N g.

Lemma end_name_Ret w i j : grp_ok (grp w) → in_grp (grp w) i → in_grp (grp w) j → end_name w i j = Ret (name (grp w) i j).
Proof.
  intros [_ Hl] Hi Hj. unfold end_name, name, in_grp, N in *.
  destruct (index_in_range (srvs (grp w)) i Hi) as (s & -> & Hs). simpl. rewrite Hs.
  apply Forall_lookup_1 with (i:=Z.to_nat i) (x:=s) in Hl; [|done].
  destruct (index_in_range (endNames s) j) as (e & -> & He); [lia|]. by rewrite He.
Qed.

Lemma IsConnected_Ret w j : grp_ok (grp w) → in_grp (grp w) j → IsConnected w j = Ret (conn (grp w) j).
Proof.
  intros [Hl _] Hj. unfold IsConnected, conn, in_grp, N in *.
  destruct (index_in_range (connected (grp w)) j) as (c & -> & Hc); [lia|]. by rewrite Hc.
Qed.

(** Enabling or disabling a list of ends. *)
Definition enable_list (b : bool) (l : list string) n : LabRPC.Network := fold_left (λ n e, Enable e b n) l n.

Lemma enable_list_app b l l' n : enable_list b (l ++ l') n = enable_list b l' (enable_list b l n).
Proof. unfold enable_list. by rewrite fold_left_app. Qed.

(** What the lists of ends change: only [enabled]. *)
Lemma enable_list_tables b l n :
  ends (enable_list b l n) = ends n ∧ connections (enable_list b l n) = connections n ∧
  servers (enable_list b l n) = servers n ∧ reliable (enable_list b l n) = reliable n ∧
  longReordering (enable_list b l n) = longReordering n.
Proof. revert n. induction l as [|e l IH]; intros n; [done|]. apply (IH (Enable e b n)). Qed.

Lemma enable_list_enabled b l n e :
  lookup_zero false e (enabled (enable_list b l n)) = if decide (e ∈ l) then b else lookup_zero false e (enabled n).
Proof.
  revert n. induction l as [|e' l IH]; intros n; [done|].
  change (enable_list b (e' :: l) n) with (enable_list b l (Enable e' b n)). rewrite IH. simpl. rewrite lookup_zero_insert.
  destruct (decide (e ∈ l)), (decide (e = e')) as [->|]; repeat case_decide; try done; set_solver.
Qed.

Definition enable_ends (b : bool) (l : list string) w : world := mkWorld (enable_list b l (net w)) (grp w).

Lemma enable_conn_Ret (f : Z → world → outcome string) h to w :
  grp_ok (grp w) → Forall (in_grp (grp w)) to → (∀ j n, j ∈ to → f j (mkWorld n (grp w)) = Ret (h j)) →
  for_each (λ j w, c ← IsConnected w j; if c : bool then e ← f j w; Ret (on_net (Enable e true) w) else Ret w) to w =
  Ret (enable_ends true (map h (filter (λ j, conn (grp w) j = true) to)) w).
Proof.
  revert w. induction to as [|j to IH]; intros w Hok Hto Hf; [by destruct w|].
  apply Forall_cons in Hto as [Hj Hto]. cbn [for_each]. rewrite IsConnected_Ret by done.
  destruct w as [n g]. cbn [grp] in *. cbn [mbind outcome_bind]. destruct (conn g j) eqn:Hc.
  - rewrite (Hf j n) by (by left). cbn [mbind outcome_bind].
    rewrite IH; [|done|done|intros j' n' Hj'; apply Hf; by right]. by rewrite filter_cons_True.
  - cbn [mbind outcome_bind]. rewrite IH; [|done|done|intros j' n' Hj'; apply Hf; by right].
    rewrite filter_cons_False by congruence. done.
Qed.

Lemma disable_Ret (f : Z → world → outcome string) h from w :
  (∀ j n, j ∈ from → f j (mkWorld n (grp w)) = Ret (h j)) →
  for_each (λ j w, e ← f j w; Ret (on_net (Enable e false) w)) from w = Ret (enable_ends false (map h from) w).
Proof.
  revert w. induction from as [|j from IH]; intros w Hf; [by destruct w|]. cbn [for_each].
  destruct w as [n g]. cbn [grp] in Hf. rewrite (Hf j n) by (by left). cbn [mbind outcome_bind].
  rewrite IH; [done|]. intros j' n' Hj'. apply Hf. by right.
Qed.

(** Whether the end from server [a] to server [b] is enabled. *)
Definition up w (a b : Z) : bool := lookup_zero false (name (grp w) a b) (enabled (net w)).

Definition names_inj g : Prop :=
  ∀ a b a' b', in_grp g a → in_grp g b → in_grp g a' → in_grp g b' → name g a b = name g a' b' → a = a' ∧ b = b'.

(** What [connect] and [disconnect] change: server [i]'s flag, and the ends
    between [i] and the servers of [l] that are on the network. *)
Definition touched (i : Z) (l : list Z) g (a b : Z) : Prop :=
  (a = i ∧ b ∈ filter (λ j, conn g j = true) l) ∨ (b = i ∧ a ∈ filter (λ j, conn g j = true) l).

Definition same_tables n n' : Prop :=
  ends n' = ends n ∧ connections n' = connections n ∧ servers n' = servers n.

#[export] Instance touched_dec i l g a b : Decision (touched i l g a b).
Proof. unfold touched. apply _. Defined.

Lemma elem_of_names g (h : Z → Z * Z) a b l :
  names_inj g → in_grp g a → in_grp g b → Forall (λ j, in_grp g (h j).1 ∧ in_grp g (h j).2) l →
  name g a b ∈ map (λ j, name g (h j).1 (h j).2) l ↔ (a, b) ∈ map h l.
Proof.
  intros Hinj Ha Hb Hl. rewrite Forall_forall in Hl.
  rewrite !list_elem_of_fmap. split; intros (j & Hj & Hin); exists j; split; try done.
  - destruct (Hl j Hin) as [H1 H2]. destruct (Hinj _ _ _ _ Ha Hb H1 H2 Hj) as [-> ->]. by destruct (h j).
  - by rewrite <- Hj.
Qed.

(** The ends to and from [i] in one list. *)
Lemma elem_of_both g i l a b :
  names_inj g → in_grp g i → Forall (in_grp g) l → in_grp g a → in_grp g b →
  name g a b ∈ map (name g i) l ++ map (λ j, name g j i) l ↔ (a = i ∧ b ∈ l) ∨ (b = i ∧ a ∈ l).
Proof.
  intros Hinj Hi Hl Ha Hb. rewrite elem_of_app.
  assert (H1 : name g a b ∈ map (name g i) l ↔ (a = i ∧ b ∈ l)).
  { rewrite (elem_of_names g (λ j, (i, j))); [|done..|by eapply Forall_impl]. rewrite list_elem_of_fmap. split.
    - by intros (j & [= -> ->] & ?).
    - intros [-> ?]. by exists b. }
  assert (H2 : name g a b ∈ map (λ j, name g j i) l ↔ (b = i ∧ a ∈ l)).
  { rewrite (elem_of_names g (λ j, (j, i))); [|done..|by eapply Forall_impl]. rewrite list_elem_of_fmap. split.
    - by intros (j & [= -> ->] & ?).
    - intros [-> ?]. by exists a. }
  by rewrite H1, H2.
Qed.

Lemma connect_Ret i to w :
  grp_ok (grp w) → names_inj (grp w) → in_grp (grp w) i → Forall (in_grp (grp w)) to →
  ∃ n', connect i to w = Ret (mkWorld n' (mkGrp (srvs (grp w)) (<[Z.to_nat i := true]> (connected (grp w))) (gid (grp w)))) ∧
    same_tables (net w) n' ∧
    ∀ a b, in_grp (grp w) a → in_grp (grp w) b →
      lookup_zero false (name (grp w) a b) (enabled n') =
        if decide (touched i to (mkGrp (srvs (grp w)) (<[Z.to_nat i := true]> (connected (grp w))) (gid (grp w))) a b)
        then true else up w a b.
Proof.
  intros Hok Hinj Hi Hto. pose proof Hok as [Hl Hlen]. unfold connect.
  rewrite store_Ret by (unfold in_grp, N in Hi; lia). cbn [mbind outcome_bind].
  set (w1 := set_connected _ w). set (g1 := mkGrp _ _ _).
  assert (Hok1 : grp_ok (grp w1)) by (split; [simpl; by rewrite length_insert | done]).
  unfold Server_connect. rewrite (enable_conn_Ret (λ j w, end_name w i j) (name (grp w1) i)); [|done|done|].
  2: { intros j n' Hj. rewrite Forall_forall in Hto. apply (end_name_Ret (mkWorld n' (grp w1))); [done|done|by apply Hto]. }
  cbn [mbind outcome_bind]. rewrite (enable_conn_Ret (λ j w, end_name w j i) (λ j, name (grp w1) j i)); [|done|done|].
  2: { intros j n' Hj. rewrite Forall_forall in Hto. apply (end_name_Ret (mkWorld n' (grp w1))); [done|by apply Hto|done]. }
  unfold enable_ends. cbn [net grp]. rewrite <- enable_list_app. eexists. split; [reflexivity|]. split.
  - destruct (enable_list_tables true (map (name (grp w1) i) (filter (λ j, conn (grp w1) j = true) to) ++
      map (λ j, name (grp w1) j i) (filter (λ j, conn (grp w1) j = true) to)) (net w1)) as (H1 & H2 & H3 & _). done.
  - intros a b Ha Hb. rewrite enable_list_enabled.
    assert (Hel : name (grp w) a b ∈ map (name (grp w1) i) (filter (λ j, conn (grp w1) j = true) to) ++
      map (λ j, name (grp w1) j i) (filter (λ j, conn (grp w1) j = true) to) ↔ touched i to g1 a b).
    { apply (elem_of_both (grp w)); [done|done| |done|done].
      rewrite Forall_forall in Hto |- *. intros x [_ Hx]%list_elem_of_filter. by apply Hto. }
    repeat case_decide; tauto.
Qed.

Lemma disconnect_Ret i from w :
  grp_ok (grp w) → names_inj (grp w) → in_grp (grp w) i → Forall (in_grp (grp w)) from →
  ∃ n', disconnect i from w = Ret (mkWorld n' (mkGrp (srvs (grp w)) (<[Z.to_nat i := false]> (connected (grp w))) (gid (grp w)))) ∧
    same_tables (net w) n' ∧
    ∀ a b, in_grp (grp w) a → in_grp (grp w) b →
      lookup_zero false (name (grp w) a b) (enabled n') =
        if decide ((a = i ∧ b ∈ from) ∨ (b = i ∧ a ∈ from)) then false else up w a b.
Proof.
  intros Hok Hinj Hi Hto. pose proof Hok as [Hl Hlen]. unfold disconnect.
  rewrite store_Ret by (unfold in_grp, N in Hi; lia). cbn [mbind outcome_bind].
  set (w1 := set_connected _ w).
  assert (Hok1 : grp_ok (grp w1)) by (split; [simpl; by rewrite length_insert | done]).
  unfold Server_disconnect. rewrite (disable_Ret (λ j w, end_name w i j) (name (grp w1) i)).
  2: { intros j n' Hj. rewrite Forall_forall in Hto. apply (end_name_Ret (mkWorld n' (grp w1))); [done|done|by apply Hto]. }
  cbn [mbind outcome_bind]. rewrite (disable_Ret (λ j w, end_name w j i) (λ j, name (grp w1) j i)).
  2: { intros j n' Hj. rewrite Forall_forall in Hto. apply (end_name_Ret (mkWorld n' (grp w1))); [done|by apply Hto|done]. }
  unfold enable_ends. cbn [net grp]. rewrite <- enable_list_app. eexists. split; [reflexivity|]. split.
  - destruct (enable_list_tables false (map (name (grp w1) i) from ++ map (λ j, name (grp w1) j i) from) (net w1))
      as (H1 & H2 & H3 & _). done.
  - intros a b Ha Hb. rewrite enable_list_enabled.
    pose proof (elem_of_both (grp w) i from a b Hinj Hi Hto Ha Hb) as Hel.
    change (name (grp w1)) with (name (grp w)). repeat case_decide; tauto.
Qed.

(** Only flags and enabled ends have changed. *)
Definition keeps w w' : Prop :=
  srvs (grp w') = srvs (grp w) ∧ gid (grp w') = gid (grp w) ∧
  length (connected (grp w')) = length (connected (grp w)) ∧ same_tables (net w) (net w').

#[export] Instance keeps_preorder : PreOrder keeps.
Proof.
  split; [done|]. intros w1 w2 w3 (H1 & H2 & H3 & H4 & H5 & H6) (H1' & H2' & H3' & H4' & H5' & H6').
  unfold keeps, same_tables. by rewrite H1', H2', H3', H4', H5', H6'.
Qed.

Lemma keeps_in_grp w w' i : keeps w w' → in_grp (grp w') i ↔ in_grp (grp w) i.
Proof. intros (H & _). unfold in_grp, N. by rewrite H. Qed.

Lemma keeps_name w w' a b : keeps w w' → name (grp w') a b = name (grp w) a b.
Proof. intros (H & _). unfold name. by rewrite H. Qed.

Lemma keeps_ok w w' : keeps w w' → grp_ok (grp w) → names_inj (grp w) → grp_ok (grp w') ∧ names_inj (grp w').
Proof.
  intros Hk [H1 H2] Hinj. split.
  - destruct Hk as (E1 & _ & E3 & _). unfold grp_ok. by rewrite E1, E3.
  - intros a b a' b'. rewrite !(keeps_in_grp w w') by done. rewrite !(keeps_name w w') by done. apply Hinj.
Qed.

Lemma conn_insert l g i j b :
  in_grp g i → in_grp g j → length (connected g) = length (srvs g) →
  conn (mkGrp l (<[Z.to_nat i := b]> (connected g)) (gid g)) j = if decide (j = i) then b else conn g j.
Proof.
  unfold in_grp, N, conn. intros Hi Hj Hl. simpl. case_decide as E.
  - subst j. by rewrite list_lookup_insert_eq by lia.
  - by rewrite list_lookup_insert_ne by lia.
Qed.

(** Server [x] is cut off from the servers of [out] and joins those of [to]. *)
Lemma move_Ret x out to w :
  grp_ok (grp w) → names_inj (grp w) → in_grp (grp w) x → Forall (in_grp (grp w)) out → Forall (in_grp (grp w)) to →
  ∃ w', (disconnect x out w ≫= connect x to) = Ret w' ∧ keeps w w' ∧
    (∀ j, in_grp (grp w) j → conn (grp w') j = if decide (j = x) then true else conn (grp w) j) ∧
    ∀ a b, in_grp (grp w) a → in_grp (grp w) b → up w' a b =
      if decide ((a = x ∧ b ∈ to ∧ conn (grp w') b = true) ∨ (b = x ∧ a ∈ to ∧ conn (grp w') a = true)) then true
      else if decide ((a = x ∧ b ∈ out) ∨ (b = x ∧ a ∈ out)) then false else up w a b.
Proof.
  intros Hok Hinj Hx Hout Hto. destruct (disconnect_Ret x out w Hok Hinj Hx Hout) as (n1 & -> & Ht1 & Hup1).
  cbn [mbind outcome_bind]. set (w1 := mkWorld n1 _).
  assert (Hk1 : keeps w w1) by (split; [done|]; split; [done|]; split; [simpl; by rewrite length_insert | done]).
  destruct (keeps_ok w w1 Hk1 Hok Hinj) as [Hok1 Hinj1].
  destruct (connect_Ret x to w1 Hok1 Hinj1 Hx Hto) as (n2 & -> & Ht2 & Hup2).
  eexists. split; [reflexivity|]. set (w2 := mkWorld n2 _) in *.
  assert (Hk2 : keeps w1 w2) by (split; [done|]; split; [done|]; split; [simpl; by rewrite !length_insert | done]).
  split; [by etrans|]. split.
  - intros j Hj. unfold w2. cbn [grp].
    rewrite (conn_insert _ (grp w1)) by (done || apply Hok1). unfold w1 at 1. cbn [grp].
    case_decide; [done|]. rewrite (conn_insert _ (grp w)) by (done || apply Hok). by rewrite decide_False.
  - intros a b Ha Hb. etrans; [exact (Hup2 a b Ha Hb)|].
    assert (Ht : touched x to (grp w2) a b ↔
      (a = x ∧ b ∈ to ∧ conn (grp w2) b = true) ∨ (b = x ∧ a ∈ to ∧ conn (grp w2) a = true)).
    { unfold touched. rewrite !list_elem_of_filter. tauto. }
    change (up w1 a b) with (lookup_zero false (name (grp w) a b) (enabled n1)). rewrite (Hup1 a b Ha Hb).
    change (mkGrp (srvs (grp w1)) (<[Z.to_nat x:=true]> (connected (grp w1))) (gid (grp w1))) with (grp w2).
    repeat case_decide; tauto.
Qed.

(** One side of [Partition]: the servers of [side] leave those of [other] and
    join each other; [rest] are the ones still to be moved. *)
Definition side_inv w0 (side other rest : list Z) w : Prop :=
  keeps w0 w ∧ (∀ x, x ∈ rest → x ∈ side) ∧
  (∀ a, a ∈ side → a ∉ rest → conn (grp w) a = true) ∧
  (∀ a b, a ∈ side → b ∈ side → a ∉ rest → b ∉ rest → up w a b = true) ∧
  (∀ a b, a ∈ side → a ∉ rest → b ∈ other → up w a b = false ∧ up w b a = false) ∧
  (∀ a, a ∉ side → in_grp (grp w0) a → conn (grp w) a = conn (grp w0) a) ∧
  (∀ a b, a ∉ side → b ∉ side → in_grp (grp w0) a → in_grp (grp w0) b → up w a b = up w0 a b).

Lemma side_Ret side other w0 :
  grp_ok (grp w0) → names_inj (grp w0) → Forall (in_grp (grp w0)) side → Forall (in_grp (grp w0)) other →
  (∀ x, x ∈ side → x ∉ other) →
  ∃ w, for_each (λ i w, w ← disconnect i other w; connect i side w) side w0 = Ret w ∧ side_inv w0 side other [] w.
Proof.
  intros Hok Hinj Hside Hother Hdisj. rewrite Forall_forall in Hside, Hother.
  apply (for_each_ok _ (side_inv w0 side other)).
  { split; [done|]. split; [done|]. split; [by intros|]. by split; [|split; [|split]]; try (by intros). }
  intros x rest w (Hk & Hrest & Hconn & Hup & Hcross & Hothers & Hupo).
  destruct (keeps_ok w0 w Hk Hok Hinj) as [Hok1 Hinj1]. assert (Hx : x ∈ side) by (apply Hrest; by left).
  assert (Hin : ∀ a, in_grp (grp w0) a → in_grp (grp w) a) by (intros a; by rewrite (keeps_in_grp w0 w)).
  destruct (move_Ret x other side w) as (w' & Hw' & Hk' & Hc' & Hu');
    [done|done|by apply Hin, Hside|apply Forall_forall; auto|apply Forall_forall; auto|].
  exists w'. split; [exact Hw'|].
  assert (Hdone : ∀ a, a ∈ side → a ∉ rest → a = x ∨ a ∉ x :: rest).
  { intros a Ha Hn. destruct (decide (a = x)); [by left|right]. by intros [?|?]%elem_of_cons. }
  assert (Hconn' : ∀ a, a ∈ side → a ∉ rest → conn (grp w') a = true).
  { intros a Ha Hn. rewrite Hc' by auto. case_decide; [done|]. apply Hconn; [done|]. destruct (Hdone a Ha Hn); done. }
  split; [by etrans|]. split; [intros y Hy; apply Hrest; by right|]. split; [done|]. split; [|split; [|split]].
  - intros a b Ha Hb Hna Hnb. rewrite Hu' by auto. case_decide as E; [done|].
    destruct (Hdone a Ha Hna) as [->|Ha']; [destruct E; left; by auto|].
    destruct (Hdone b Hb Hnb) as [->|Hb']; [destruct E; right; by auto|].
    rewrite decide_False; [by apply Hup|]. intros [[-> ?]|[-> ?]]; [by apply Ha'; left | by apply Hb'; left].
  - intros a b Ha Hna Hb. assert (Hbs : b ∉ side) by (intros Hbs; by apply (Hdisj b)).
    assert (Hax : a = x ∨ up w a b = false ∧ up w b a = false).
    { destruct (Hdone a Ha Hna) as [->|Ha']; [by left|right; by apply Hcross]. }
    assert (Hbx : b ≠ x) by (by intros ->). rewrite !Hu' by auto. split.
    + rewrite decide_False by (by intros [(_ & ? & _)|(? & _)]). case_decide; [done|]. destruct Hax as [->|[? _]]; tauto.
    + rewrite decide_False by (by intros [(? & _)|(_ & ? & _)]). case_decide; [done|]. destruct Hax as [->|[_ ?]]; tauto.
  - intros a Ha Hia. rewrite Hc' by auto. rewrite decide_False by (by intros ->). by apply Hothers.
  - intros a b Ha Hb Hia Hib. rewrite Hu' by auto. rewrite !decide_False; [by apply Hupo| |].
    + by intros [[-> _]|[-> _]].
    + by intros [(-> & _)|(-> & _)].
Qed.

Lemma Partition_Ret p1 p2 w :
  grp_ok (grp w) → names_inj (grp w) → Forall (in_grp (grp w)) p1 → Forall (in_grp (grp w)) p2 →
  (∀ x, x ∈ p1 → x ∉ p2) →
  ∃ w', Partition p1 p2 w = Ret w' ∧ keeps w w' ∧ (∀ a, a ∈ p1 ++ p2 → conn (grp w') a = true) ∧
    ∀ a b, a ∈ p1 ++ p2 → b ∈ p1 ++ p2 → up w' a b = bool_decide (a ∈ p1 ↔ b ∈ p1).
Proof.
  intros Hok Hinj H1 H2 Hdisj.
  assert (Hdisj' : ∀ x, x ∈ p2 → x ∉ p1) by (intros x Hx Hx'; by apply (Hdisj x)).
  destruct (side_Ret p1 p2 w Hok Hinj H1 H2 Hdisj) as (w1 & Hw1 & Hk1 & _ & Hc1 & Hu1 & _ & _ & _).
  destruct (keeps_ok w w1 Hk1 Hok Hinj) as [Hok1 Hinj1].
  assert (Hr : ∀ l, Forall (in_grp (grp w)) l → Forall (in_grp (grp w1)) l).
  { intros l Hl. eapply Forall_impl; [exact Hl|]. intros x. by rewrite (keeps_in_grp w w1). }
  destruct (side_Ret p2 p1 w1 Hok1 Hinj1 (Hr _ H2) (Hr _ H1) Hdisj') as (w2 & Hw2 & Hk2 & _ & Hc2 & Hu2 & Hx2 & Hoc & Hou).
  exists w2. split; [unfold Partition; rewrite Hw1; exact Hw2|]. split; [by etrans|].
  assert (Hnil : ∀ x : Z, x ∉ []) by (intros x; apply not_elem_of_nil).
  pose proof (Hr _ H1) as Hr1. rewrite Forall_forall in Hr1. split.
  - intros a [Ha|Ha]%elem_of_app; [|by apply Hc2]. rewrite Hoc by auto. by apply Hc1.
  - intros a b [Ha|Ha]%elem_of_app [Hb|Hb]%elem_of_app.
    + rewrite bool_decide_true by tauto. rewrite Hou by auto. by apply Hu1.
    + rewrite bool_decide_false by (intros H; by apply (Hdisj' b Hb), H). by apply (Hx2 b a Hb).
    + rewrite bool_decide_false by (intros H; by apply (Hdisj' a Ha), H). by apply (Hx2 a b Ha).
    + rewrite bool_decide_true; [by apply Hu2|]. split; intros H; [by destruct (Hdisj' a) | by destruct (Hdisj' b)].
Qed.
End facts.

(** ** Runs *)

Section runs.
Context {St Saved : Type}.
Implicit Types (w : world (St:=St) (Saved:=Saved)).

Inductive grp_op :=
| GConnectOne (i : Z)
| GConnectAll
| GDisconnectAll (i : Z)
| GShutdownServer (i : Z) (p : Saved)
| GStartServer (fresh : Saved) (i : Z) (rand : nat → string) (ok : bool) (addr : nat) (obj : LabRPC.Server (St:=St))
| GPartition (p1 p2 : list Z)
| GReliable (yes : bool)
| GLongReordering (yes : bool)
| GLongDelays (yes : bool).

Definition grp_do (op : grp_op) w : outcome (world (St:=St) (Saved:=Saved)) :=
  match op with
  | GConnectOne i => ConnectOne i w
  | GConnectAll => ConnectAll w
  | GDisconnectAll i => DisconnectAll i w
  | GShutdownServer i p => ShutdownServer p i w
  | GStartServer fresh i rand ok addr obj => StartServer fresh i rand ok addr obj w
  | GPartition p1 p2 => Partition p1 p2 w
  | GReliable yes => Ret (on_net (Reliable yes) w)
  | GLongReordering yes => Ret (on_net (LongReordering yes) w)
  | GLongDelays yes => Ret (on_net (LongDelays yes) w)
  end.

(** A server is started when it was never connected or has been shut down
    (If restart servers, first call ShutdownServer); arguments are in range
    and the sides of a partition are disjoint. *)
Definition allowed (op : grp_op) w : Prop :=
  match op with
  | GConnectOne i | GDisconnectAll i | GShutdownServer i _ => in_grp (grp w) i
  | GStartServer _ i _ _ _ _ =>
      in_grp (grp w) i ∧ conn (grp w) i = false ∧ ∀ s, srvs (grp w) !! Z.to_nat i = Some s → dc s = false
  | GPartition p1 p2 =>
      Forall (in_grp (grp w)) p1 ∧ Forall (in_grp (grp w)) p2 ∧ ∀ x, x ∈ p1 → x ∉ p2
  | _ => True
  end.

Definition grp_step w (op : grp_op) w' : Prop := allowed op w ∧ grp_do op w = Ret w'.

Definition no_partition (op : grp_op) : Prop := match op with GPartition _ _ => False | _ => True end.

(** What holds of the ends and the registrations after any run. *)
Definition base_ok w : Prop :=
  grp_ok (grp w) ∧ names_inj (grp w) ∧
  (∀ a b, in_grp (grp w) a → in_grp (grp w) b →
     name (grp w) a b ∈ ends (net w) ∧
     connections (net w) !! name (grp w) a b = Some (Some (ServerName (gid (grp w)) b))) ∧
  ∀ a s, 0 <= a → srvs (grp w) !! Z.to_nat a = Some s →
    (is_Some (lookup_zero None (ServerName (gid (grp w)) a) (servers (net w))) ↔ dc s = true).

(** And what holds as long as no partition was made. *)
Definition precise w : Prop :=
  ∀ a b, in_grp (grp w) a → in_grp (grp w) b → up w a b = conn (grp w) a && conn (grp w) b.

Lemma base_ok_keeps w w' : keeps w w' → base_ok w → base_ok w'.
Proof.
  intros Hk (Hok & Hinj & Hends & Hreg). destruct (keeps_ok w w' Hk Hok Hinj) as [Hok' Hinj'].
  split; [done|]. split; [done|]. pose proof Hk as (E1 & E2 & _ & E4 & E5 & E6). split.
  - intros a b. rewrite !(keeps_in_grp w w') by done. rewrite (keeps_name w w'), E4, E5, E2 by done. apply Hends.
  - rewrite E1, E2, E6. done.
Qed.

Lemma all_in_grp (g : ServerGrp (Saved:=Saved)) : Forall (in_grp g) (all g).
Proof. apply Forall_forall. intros x Hx%elem_of_seqZ. unfold in_grp. lia. Qed.

Lemma elem_of_all (g : ServerGrp (Saved:=Saved)) x : x ∈ all g ↔ in_grp g x.
Proof. unfold all, in_grp. rewrite elem_of_seqZ. lia. Qed.

Lemma keeps_with_flags w n' i b :
  same_tables (net w) n' →
  keeps w (mkWorld n' (mkGrp (srvs (grp w)) (<[Z.to_nat i := b]> (connected (grp w))) (gid (grp w)))).
Proof. intros H. split; [done|]. split; [done|]. split; [simpl; by rewrite length_insert | done]. Qed.

(** What [ConnectOne i] does to the flags and the ends, and [DisconnectAll i]. *)
Definition joined i w w' : Prop :=
  (∀ j, in_grp (grp w) j → conn (grp w') j = if decide (j = i) then true else conn (grp w) j) ∧
  ∀ a b, in_grp (grp w) a → in_grp (grp w) b →
    up w' a b = if decide ((a = i ∧ conn (grp w') b = true) ∨ (b = i ∧ conn (grp w') a = true)) then true else up w a b.
Definition cut_off i w w' : Prop :=
  (∀ j, in_grp (grp w) j → conn (grp w') j = if decide (j = i) then false else conn (grp w) j) ∧
  ∀ a b, in_grp (grp w) a → in_grp (grp w) b → up w' a b = if decide (a = i ∨ b = i) then false else up w a b.

Lemma ConnectOne_ok i w :
  base_ok w → in_grp (grp w) i → ∃ w', ConnectOne i w = Ret w' ∧ keeps w w' ∧ (precise w → precise w') ∧ joined i w w'.
Proof.
  intros (Hok & Hinj & _) Hi. destruct (connect_Ret i (all (grp w)) w Hok Hinj Hi (all_in_grp _)) as (n' & E & Ht & Hup).
  eexists. split; [exact E|]. split; [by apply keeps_with_flags|]. split.
  2:{ split; [intros j Hj; apply (conn_insert _ (grp w)); [done|done|apply Hok]|]. intros a b Ha Hb.
      etrans; [exact (Hup a b Ha Hb)|]. apply decide_ext. unfold touched. cbn [grp]. rewrite !list_elem_of_filter, !elem_of_all. tauto. }
  intros Hp a b Ha Hb. etrans; [exact (Hup a b Ha Hb)|]. cbn [grp].
  rewrite !(conn_insert _ (grp w)) by (done || apply Hok).
  set (g' := mkGrp _ _ _). assert (Hc : ∀ x, in_grp (grp w) x → conn g' x = if decide (x = i) then true else conn (grp w) x).
  { intros x Hx. apply (conn_insert _ (grp w)); [done|done|apply Hok]. }
  assert (Htch : touched i (all (grp w)) g' a b ↔ (a = i ∧ conn g' b = true) ∨ (b = i ∧ conn g' a = true)).
  { unfold touched. rewrite !list_elem_of_filter, !elem_of_all. tauto. }
  rewrite (Hc a Ha), (Hc b Hb) in Htch. rewrite (Hp a b Ha Hb).
  destruct (decide (a = i)), (decide (b = i)), (conn (grp w) a), (conn (grp w) b); case_decide; simpl;
    first [reflexivity | exfalso; intuition congruence].
Qed.

Lemma DisconnectAll_ok i w :
  base_ok w → in_grp (grp w) i →
  ∃ w', DisconnectAll i w = Ret w' ∧ keeps w w' ∧ cut_off i w w'.
Proof.
  intros (Hok & Hinj & _) Hi. destruct (disconnect_Ret i (all (grp w)) w Hok Hinj Hi (all_in_grp _)) as (n' & E & Ht & Hup).
  eexists. split; [exact E|]. split; [by apply keeps_with_flags|]. cbn [grp]. split.
  { intros j Hj. apply (conn_insert _ (grp w)); [done|done|apply Hok]. }
  intros a b Ha Hb. etrans; [exact (Hup a b Ha Hb)|]. apply decide_ext. rewrite !elem_of_all. tauto.
Qed.

Lemma cut_off_precise i w w' : (∀ a, in_grp (grp w') a ↔ in_grp (grp w) a) → cut_off i w w' → precise w → precise w'.
Proof.
  intros Hin [Hc Hu] Hp a b Ha%Hin Hb%Hin. rewrite Hu, !Hc, (Hp a b) by done.
  destruct (decide (a = i)), (decide (b = i)); case_decide; try tauto; by rewrite ?andb_false_r.
Qed.

(** After [ConnectAll] every server is connected and every end is up, also if
    the group was partitioned before. *)
Lemma ConnectAll_ok w :
  base_ok w → ∃ w', ConnectAll w = Ret w' ∧ keeps w w' ∧ precise w'.
Proof.
  intros Hb. unfold ConnectAll.
  destruct (for_each_ok ConnectOne (λ l w', keeps w w' ∧ Forall (in_grp (grp w)) l ∧
      (∀ a, in_grp (grp w) a → a ∉ l → conn (grp w') a = true) ∧
      ∀ a b, in_grp (grp w) a → in_grp (grp w) b → a ∉ l → b ∉ l → up w' a b = true) (all (grp w)) w)
    as (w' & E & Hk & _ & Hc & Hu).
  - split; [done|]. split; [apply all_in_grp|]. split; [intros a Ha [] | intros a b Ha _ []]; by apply elem_of_all.
  - intros x l w1 (Hk & [Hx Hl]%Forall_cons & Hc & Hu). pose proof (λ a, keeps_in_grp w w1 a Hk) as Hin.
    destruct (ConnectOne_ok x w1) as (w2 & E & Hk2 & _ & Hc2 & Hu2); [by eapply base_ok_keeps|by apply Hin|].
    assert (Hc' : ∀ a, in_grp (grp w) a → a ∉ l → conn (grp w2) a = true).
    { intros a Ha Hn. rewrite Hc2 by by apply Hin. case_decide; [done|]. apply Hc; [done|]. by intros [?|?]%elem_of_cons. }
    exists w2. split; [done|]. split; [by etrans|]. split; [done|]. split; [exact Hc'|].
    intros a b Ha Hb' Hna Hnb. rewrite Hu2 by by apply Hin. case_decide as Hd; [done|].
    apply Hu; [done..| |]; intros [->|?]%elem_of_cons; try done; apply Hd; [left | right]; auto.
  - exists w'. split; [done|]. split; [done|]. intros a b. rewrite !(keeps_in_grp w w') by done. intros Ha Hb'.
    rewrite Hu, !Hc by (done || by intros ?%elem_of_nil). done.
Qed.

Lemma ServerName_inj (g i j : Z) : ServerName g i = ServerName g j → i = j.
Proof. unfold ServerName. by intros H%(inj _)%(inj _)%(inj _)%(inj _). Qed.

Lemma make_ends_spec (g : Z) names : ∀ j (n n' : LabRPC.Network (St:=St)), make_ends g j names n = Ret n' →
  NoDup names ∧ (∀ e, e ∈ names → e ∉ ends n) ∧ (∀ e, e ∈ ends n' ↔ e ∈ names ∨ e ∈ ends n) ∧ servers n' = servers n ∧
  (∀ (k : nat) e, names !! k = Some e →
     connections n' !! e = Some (Some (ServerName g (j + Z.of_nat k))) ∧ lookup_zero false e (enabled n') = false) ∧
  ∀ e, e ∉ names → connections n' !! e = connections n !! e ∧
    lookup_zero false e (enabled n') = lookup_zero false e (enabled n).
Proof.
  induction names as [|e0 names IH]; intros j n n'; simpl.
  { intros [= <-]. split; [constructor|]. split; [by intros e H%not_elem_of_nil|]. split; [|split; [done|split; done]].
    intros e. by rewrite elem_of_nil, or_False_l || set_solver. }
  unfold MakeEnd. case_decide as He0; [done|]. cbn [mbind outcome_bind]. intros H.
  destruct (IH _ _ _ H) as (Hnd & Hfresh & Hends & Hsrv & Hin & Hout). simpl in Hfresh, Hends, Hsrv, Hout.
  assert (Hn0 : e0 ∉ names) by (intros Hn; apply (Hfresh e0 Hn); set_solver).
  split; [by constructor|]. split; [intros e [->|He]%elem_of_cons; [done|]; intros Hi; apply (Hfresh e He); set_solver|].
  split; [intros e; rewrite Hends; set_solver|]. split; [done|]. split.
  - intros [|k] e Hk; simpl in Hk.
    + injection Hk as <-. destruct (Hout e0 Hn0) as [-> ->]. rewrite lookup_insert_eq, lookup_zero_insert, decide_True by done.
      by rewrite Z.add_0_r.
    + destruct (Hin k e Hk) as [-> ->]. split; [|done]. do 3 f_equal. lia.
  - intros e [Hne Hn]%not_elem_of_cons. destruct (Hout e Hn) as [-> ->].
    rewrite !lookup_insert_ne, lookup_zero_insert, decide_False by done. done.
Qed.

(** Replacing a server by one with the same ends. *)
Lemma name_insert (g : ServerGrp (Saved:=Saved)) i s s' c :
  srvs g !! Z.to_nat i = Some s → endNames s' = endNames s →
  ∀ a b, name (mkGrp (<[Z.to_nat i := s']> (srvs g)) c (gid g)) a b = name g a b.
Proof.
  intros Hs He a b. unfold name. cbn [srvs]. destruct (decide (Z.to_nat a = Z.to_nat i)) as [->|Hne].
  - rewrite list_lookup_insert_eq by (by apply lookup_lt_Some in Hs). by rewrite Hs, He.
  - by rewrite list_lookup_insert_ne.
Qed.

Lemma ShutdownServer_ok p i w :
  base_ok w → in_grp (grp w) i →
  ∃ w', ShutdownServer p i w = Ret w' ∧ base_ok w' ∧ (∀ a, in_grp (grp w') a ↔ in_grp (grp w) a) ∧ cut_off i w w'.
Proof.
  intros Hb Hi. destruct (DisconnectAll_ok i w Hb Hi) as (w1 & E & Hk & Hc & Hu).
  pose proof (base_ok_keeps _ _ Hk Hb) as (Hok & Hinj & Hends & Hreg).
  assert (Hi1 : in_grp (grp w1) i) by (by apply (keeps_in_grp w w1)).
  unfold ShutdownServer. fold (DisconnectAll i w). rewrite E. cbn [mbind outcome_bind grp on_net].
  destruct (index_in_range (srvs (grp w1)) i) as (s & -> & Hs); [done|]. cbn [mbind outcome_bind].
  rewrite store_Ret by done. cbn [mbind outcome_bind]. eexists. split; [reflexivity|].
  assert (He : endNames (shutdownServer p s) = endNames s) by (unfold shutdownServer; by destruct (dc s)).
  assert (Hdc : dc (shutdownServer p s) = false) by (unfold shutdownServer; by destruct (dc s) eqn:?).
  set (w' := set_srvs _ _). pose proof (name_insert (grp w1) i s (shutdownServer p s) (connected (grp w1)) Hs He) as Hn.
  assert (Hin : ∀ a, in_grp (grp w') a ↔ in_grp (grp w1) a) by (intros a; unfold in_grp, N; simpl; by rewrite length_insert).
  change (∀ a b, name (grp w') a b = name (grp w1) a b) in Hn.
  split; [split; [|split; [|split]]|split; [|split]].
  - destruct Hok as [H1 H2]. split; simpl; rewrite length_insert; [done|]. apply Forall_insert; [done|].
    rewrite He. by apply (Forall_lookup_1 _ _ _ _ H2 Hs).
  - intros a b a' b'. rewrite !Hin, !Hn. apply Hinj.
  - intros a b. rewrite !Hin, Hn. apply Hends.
  - intros a t Ha Ht. unfold w' in Ht |- *.
    cbn [grp set_srvs on_net srvs gid net servers DeleteServer with_tables] in Ht |- *. rewrite lookup_zero_insert.
    apply list_lookup_insert_Some in Ht as [(Hai & <- & _)|[Hne Ht]].
    + assert (a = i) as -> by (destruct Hi1; lia). rewrite decide_True by done. rewrite Hdc. by split; [intros [? ?]|].
    + rewrite decide_False; [by apply Hreg|]. intros ->%ServerName_inj. done.
  - intros a. rewrite Hin. by apply keeps_in_grp.
  - exact Hc.
  - intros a b Ha Hb'. unfold up at 1. rewrite Hn. by apply Hu.
Qed.

(** A server that is started anew: [w'] is [w] with the ends of server [i]
    replaced by fresh ones. *)
Section restart.
Context (i addr : Z) (ok : bool) (names : list string) (w w' : world (St:=St) (Saved:=Saved)).
Context (s s' : Server (Saved:=Saved)) (n1 : LabRPC.Network (St:=St)) (reg : nat).
Hypothesis (Hb : base_ok w) (Hi : in_grp (grp w) i).
Hypothesis (Hs : srvs (grp w) !! Z.to_nat i = Some s) (Hdc : dc s = false) (Hs' : endNames s' = names) (Hdc' : dc s' = ok).
Hypothesis (Hnames : make_ends (gid (grp w)) 0 names (net w) = Ret n1) (Hlen : length names = length (srvs (grp w))).
Hypothesis (Hg : grp w' = mkGrp (<[Z.to_nat i := s']> (srvs (grp w))) (connected (grp w)) (gid (grp w))).
Hypothesis (Hnet : ends (net w') = ends n1 ∧ connections (net w') = connections n1 ∧ enabled (net w') = enabled n1 ∧
  servers (net w') = if ok then <[ServerName (gid (grp w)) i := Some reg]> (servers (net w)) else servers (net w)).

Lemma restart_in a : in_grp (grp w') a ↔ in_grp (grp w) a.
Proof. unfold in_grp, N. rewrite Hg. simpl. by rewrite length_insert. Qed.

Lemma restart_old a b : a ≠ i → in_grp (grp w) a → name (grp w') a b = name (grp w) a b.
Proof. intros Ha Hra. unfold name. rewrite Hg. cbn [srvs]. unfold in_grp in *. by rewrite list_lookup_insert_ne by lia. Qed.

Lemma restart_new b : in_grp (grp w) b → names !! Z.to_nat b = Some (name (grp w') i b).
Proof.
  intros [Hb1 Hb2]. unfold name. rewrite Hg. cbn [srvs]. rewrite list_lookup_insert_eq by (by apply lookup_lt_Some in Hs).
  rewrite Hs'. unfold N in Hb2. destruct (lookup_lt_is_Some_2 names (Z.to_nat b)) as [e He]; [lia|]. by rewrite He.
Qed.

Lemma restart_new_in b : in_grp (grp w) b → name (grp w') i b ∈ names.
Proof. intros H. by eapply list_elem_of_lookup_2, restart_new. Qed.

Lemma restart_old_out a b : in_grp (grp w) a → in_grp (grp w) b → name (grp w) a b ∉ names.
Proof.
  intros Ha Hb' Hn. destruct (make_ends_spec _ _ _ _ _ Hnames) as (_ & Hfresh & _).
  apply (Hfresh _ Hn). by apply Hb.
Qed.

Lemma restart_inj : names_inj (grp w').
Proof.
  destruct (make_ends_spec _ _ _ _ _ Hnames) as (Hnd & _). destruct Hb as (_ & Hinj & _).
  intros a b a' b'. rewrite !restart_in. intros Ha Hb1 Ha' Hb'.
  destruct (decide (a = i)) as [->|Hna], (decide (a' = i)) as [->|Hna']; intros E.
  - split; [done|]. pose proof (restart_new b Hb1) as E1. rewrite E in E1.
    pose proof (NoDup_lookup _ _ _ _ Hnd E1 (restart_new b' Hb')) as E2. unfold in_grp in *. lia.
  - rewrite (restart_old a' b') in E by done. destruct (restart_old_out a' b' Ha' Hb'). rewrite <- E. by apply restart_new_in.
  - rewrite (restart_old a b) in E by done. destruct (restart_old_out a b Ha Hb1). rewrite E. by apply restart_new_in.
  - rewrite !restart_old in E by done. by apply Hinj.
Qed.

Lemma restart_base : base_ok w'.
Proof.
  destruct (make_ends_spec _ _ _ _ _ Hnames) as (_ & _ & Hends' & _ & Hin' & Hout').
  destruct Hb as (Hok & _ & Hends & Hreg), Hnet as (N1 & N2 & N3 & N4).
  assert (Hgid : gid (grp w') = gid (grp w)) by (by rewrite Hg).
  split; [|split; [exact restart_inj|split]].
  - rewrite Hg. destruct Hok as [H1 H2]. split; simpl; rewrite length_insert; [done|]. apply Forall_insert; [done|].
    by rewrite Hs'.
  - intros a b. rewrite !restart_in, N1, N2, Hgid, Hends'. intros Ha Hb1.
    destruct (decide (a = i)) as [->|Hna].
    + split; [left; by apply restart_new_in|]. destruct (Hin' _ _ (restart_new b Hb1)) as [-> _].
      do 3 f_equal. unfold in_grp in Hb1. lia.
    + rewrite restart_old by done. destruct (Hends a b Ha Hb1) as [H1 H2]. split; [by right|].
      by destruct (Hout' _ (restart_old_out a b Ha Hb1)) as [-> _].
  - intros a t Ha. rewrite N4, Hg. cbn [srvs gid]. intros [(Hai & <- & _)|[Hne Ht]]%list_lookup_insert_Some.
    + assert (a = i) as -> by (unfold in_grp in Hi; lia). rewrite Hdc'. destruct ok.
      * rewrite lookup_zero_insert, decide_True by done. split; [done | by eexists].
      * rewrite (Hreg i s Ha Hs). by rewrite Hdc.
    + destruct ok; [rewrite lookup_zero_insert, decide_False|]; [by apply Hreg| |by apply Hreg].
      intros ->%ServerName_inj. done.
Qed.

Lemma restart_precise : conn (grp w) i = false → precise w → precise w'.
Proof.
  destruct (make_ends_spec _ _ _ _ _ Hnames) as (_ & _ & _ & _ & Hin' & Hout'), Hnet as (_ & _ & N3 & _).
  intros Hc Hp a b. rewrite !restart_in. intros Ha Hb1. unfold up. rewrite N3.
  assert (Hcc : ∀ x, conn (grp w') x = conn (grp w) x) by (intros x; unfold conn; by rewrite Hg). rewrite !Hcc.
  destruct (decide (a = i)) as [->|Hna].
  - destruct (Hin' _ _ (restart_new b Hb1)) as [_ ->]. by rewrite Hc.
  - rewrite restart_old by done. destruct (Hout' _ (restart_old_out a b Ha Hb1)) as [_ ->]. by apply Hp.
Qed.
End restart.

Lemma StartServer_ok fresh i rand ok addr obj w w' :
  base_ok w → in_grp (grp w) i → conn (grp w) i = false →
  (∀ s, srvs (grp w) !! Z.to_nat i = Some s → dc s = false) →
  StartServer fresh i rand ok addr obj w = Ret w' → base_ok w' ∧ (precise w → precise w').
Proof.
  intros Hb Hi Hc Hdc. unfold StartServer, startServer, makeServer.
  destruct (index_in_range (srvs (grp w)) i) as (s & -> & Hs); [done|]. cbn [mbind outcome_bind].
  set (names := map rand _). destruct (make_ends (gid (grp w)) 0 names (net w)) as [n1| |] eqn:En; [|done..].
  cbn [mbind outcome_bind saved endNames dc]. rewrite store_Ret by done. cbn [mbind outcome_bind set_srvs grp srvs net].
  rewrite store_Ret by (rewrite length_insert; done). cbn [mbind outcome_bind]. rewrite list_insert_insert_eq.
  assert (Hlen : length names = length (srvs (grp w))).
  { unfold names. rewrite length_map, length_seq. destruct Hb as ([_ H2] & _). by apply (Forall_lookup_1 _ _ _ _ H2 Hs). }
  pose proof (make_ends_spec _ _ _ _ _ En) as (_ & _ & _ & Hsrv & _).
  set (s' := mkServer (Some (default fresh (saved s))) names ok). intros Hw'.
  assert (Hg : grp w' = mkGrp (<[Z.to_nat i := s']> (srvs (grp w))) (connected (grp w)) (gid (grp w)))
    by (unfold s'; destruct ok; injection Hw' as <-; done).
  assert (Hnet : ends (net w') = ends n1 ∧ connections (net w') = connections n1 ∧ enabled (net w') = enabled n1 ∧
    servers (net w') = if ok then <[ServerName (gid (grp w)) i := Some addr]> (servers (net w)) else servers (net w)).
  { destruct ok; injection Hw' as <-; simpl; by rewrite Hsrv. }
  split.
  - by apply (restart_base i ok names w w' s s' n1 addr); auto.
  - by apply (restart_precise i ok names w w' s s' n1 addr); auto.
Qed.

Lemma grp_step_ok w op w' :
  base_ok w → grp_step w op w' → base_ok w' ∧ (no_partition op → precise w → precise w').
Proof.
  intros Hb [Ha Hd]. destruct op as [i| |i|i p|fresh i rand ok addr obj|p1 p2|yes|yes|yes]; simpl in Ha, Hd.
  - destruct (ConnectOne_ok i w Hb Ha) as (w1 & E & Hk & Hp & _). rewrite Hd in E. injection E as <-.
    split; [by eapply base_ok_keeps | auto].
  - destruct (ConnectAll_ok w Hb) as (w1 & E & Hk & Hp). rewrite Hd in E. injection E as <-.
    split; [by eapply base_ok_keeps | auto].
  - destruct (DisconnectAll_ok i w Hb Ha) as (w1 & E & Hk & Hc). rewrite Hd in E. injection E as <-.
    split; [by eapply base_ok_keeps|]. intros _. apply (cut_off_precise i); [|done]. intros a. by apply keeps_in_grp.
  - destruct (ShutdownServer_ok p i w Hb Ha) as (w1 & E & Hb' & Hin & Hc). rewrite Hd in E. injection E as <-.
    split; [done|]. intros _. by apply (cut_off_precise i).
  - destruct Ha as (Hi & Hc & Hdc). destruct (StartServer_ok _ _ _ _ _ _ _ _ Hb Hi Hc Hdc Hd). auto.
  - destruct Hb as (Hok & Hinj & Hb'), Ha as (H1 & H2 & H3).
    destruct (Partition_Ret p1 p2 w Hok Hinj H1 H2 H3) as (w1 & E & Hk & _). rewrite Hd in E. injection E as <-.
    split; [by eapply base_ok_keeps | done].
  - injection Hd as <-. split; [exact Hb | auto].
  - injection Hd as <-. split; [exact Hb | auto].
  - injection Hd as <-. split; [exact Hb | auto].
Qed.

(** Whether a partition was made since all servers were last connected. *)
Definition grp_partitioned (op : grp_op) (before : bool) : bool :=
  match op with GPartition _ _ => true | GConnectAll => false | _ => before end.

Lemma grp_step_precise w op w' b :
  base_ok w → grp_step w op w' → (b = false → precise w) → grp_partitioned op b = false → precise w'.
Proof.
  intros Hb Hst Hp Hb'. destruct (grp_step_ok w op w' Hb Hst) as [_ H].
  destruct op; cbn [grp_partitioned] in Hb'; try (apply H; by auto).
  destruct Hst as [_ Hd]. destruct (ConnectAll_ok w Hb) as (w1 & E & _ & Hp1). cbn [grp_do] in Hd. rewrite Hd in E. by injection E as <-.
Qed.

(** The group as it is made: no process runs, nothing is connected. *)
Lemma make_servers_spec (g : Z) nsrv k : ∀ i rand n l n',
  @make_servers St Saved g nsrv k i rand n = Ret (l, n') →
  length l = k ∧ Forall (λ s, length (endNames s) = nsrv ∧ dc s = false) l ∧ servers n' = servers n ∧
  (∀ e, e ∈ ends n → e ∈ ends n' ∧ connections n' !! e = connections n !! e ∧
     lookup_zero false e (enabled n') = lookup_zero false e (enabled n)) ∧
  (∀ (a b : nat) s e, l !! a = Some s → endNames s !! b = Some e →
     (e ∉ ends n) ∧ e ∈ ends n' ∧ connections n' !! e = Some (Some (ServerName g (Z.of_nat b))) ∧
     lookup_zero false e (enabled n') = false) ∧
  ∀ (a b a' b' : nat) s s' e, l !! a = Some s → l !! a' = Some s' → endNames s !! b = Some e → endNames s' !! b' = Some e →
    a = a' ∧ b = b'.
Proof.
  induction k as [|k IH]; intros i rand n l n'; simpl; [intros [= <- <-]; by repeat split|].
  unfold makeServer. set (names := map (rand i) _). destruct (make_ends g 0 names n) as [n1| |] eqn:E1; [|done..].
  cbn [mbind outcome_bind]. destruct (make_servers g nsrv k (S i) rand n1) as [[l1 n2]| |] eqn:E2; [|done..].
  cbn [mbind outcome_bind]. intros [= <- <-].
  destruct (make_ends_spec _ _ _ _ _ E1) as (Hnd & Hfresh & Hends & Hsrv & Hin & Hout).
  destruct (IH _ _ _ _ _ E2) as (Hl & Hall & Hsrv2 & Hkeep & Hnew & Hinj).
  assert (Hfar : ∀ e, e ∈ names → e ∈ ends n1) by (intros e He; apply Hends; by left).
  split; [simpl; by rewrite Hl|]. split; [constructor; [split; [cbn [endNames]; unfold names; by rewrite length_map, length_seq|done]|done]|].
  split; [congruence|]. split; [|split].
  - intros e He. assert (Hn : e ∉ names) by (intros Hn; by apply (Hfresh e Hn)).
    destruct (Hout e Hn) as [H1 H2], (Hkeep e) as (H3 & H4 & H5); [apply Hends; by right|]. split; [done|]. split; congruence.
  - intros [|a] b s e Ha Hb'; simpl in Ha.
    + injection Ha as <-. simpl in Hb'. destruct (Hin _ _ Hb') as [H1 H2]. pose proof (list_elem_of_lookup_2 _ _ _ Hb') as He.
      destruct (Hkeep e (Hfar e He)) as (H3 & H4 & H5). split; [by apply Hfresh|]. split; [done|]. split; [|congruence].
      by rewrite H4, H1.
    + destruct (Hnew a b s e Ha Hb') as (H1 & H2 & H3 & H4). split; [|done]. intros Hn. apply H1, Hends. by right.
  - intros [|a] b [|a'] b' s s' e Ha Ha' Hb1 Hb2; simpl in Ha, Ha'.
    + simplify_eq. simpl in *. split; [done|]. by eapply NoDup_lookup.
    + injection Ha as <-. simpl in Hb1. destruct (Hnew _ _ _ _ Ha' Hb2) as [Hn _]. destruct Hn. by eapply Hfar, list_elem_of_lookup_2.
    + injection Ha' as <-. simpl in Hb2. destruct (Hnew _ _ _ _ Ha Hb1) as [Hn _]. destruct Hn. by eapply Hfar, list_elem_of_lookup_2.
    + destruct (Hinj _ _ _ _ _ _ _ Ha Ha' Hb1 Hb2) as [-> ->]. done.
Qed.
End runs.

Section init.
Context {St Saved : Type}.
Implicit Types (w : world (St:=St) (Saved:=Saved)).

Lemma makeSrvGrp_ok g nsrv rand n w :
  makeSrvGrp g nsrv rand n = Ret w → (∀ i, lookup_zero None (ServerName g i) (servers n) = None) →
  base_ok w ∧ precise w ∧ length (srvs (grp w)) = nsrv ∧ gid (grp w) = g.
Proof.
  unfold makeSrvGrp. destruct (make_servers _ _ _ _ _ _) as [[l n']| |] eqn:E; [|done..]. simpl. intros [= <-] Hnone.
  destruct (make_servers_spec _ _ _ _ _ _ _ _ E) as (Hl & Hall & Hsrv & _ & Hnew & Hinj).
  assert (Hends : ∀ s, s ∈ l → length (endNames s) = nsrv ∧ dc s = false) by (by apply Forall_forall).
  set (w := mkWorld n' _). assert (Hname : ∀ a b, in_grp (grp w) a → in_grp (grp w) b →
    ∃ s, l !! Z.to_nat a = Some s ∧ endNames s !! Z.to_nat b = Some (name (grp w) a b)).
  { intros a b Ha Hb. unfold in_grp, N in *. simpl in *. unfold name. simpl.
    destruct (lookup_lt_is_Some_2 l (Z.to_nat a)) as [s Hs]; [lia|]. exists s. rewrite Hs. split; [done|].
    destruct (Hends s) as [Hle _]; [by eapply list_elem_of_lookup_2|].
    destruct (lookup_lt_is_Some_2 (endNames s) (Z.to_nat b)) as [e He]; [lia|]. by rewrite He. }
  split; [split; [|split; [|split]]|split; [|done]].
  - split; simpl; [by rewrite length_replicate|]. rewrite Hl. eapply Forall_impl; [exact Hall|]. by intros s [? _].
  - intros a b a' b' Ha Hb Ha' Hb' Heq. destruct (Hname a b Ha Hb) as (s & Hs & He).
    destruct (Hname a' b' Ha' Hb') as (s' & Hs' & He'). rewrite Heq in He.
    destruct (Hinj _ _ _ _ _ _ _ Hs Hs' He He') as [? ?]. unfold in_grp in *. lia.
  - intros a b Ha Hb. destruct (Hname a b Ha Hb) as (s & Hs & He).
    destruct (Hnew _ _ _ _ Hs He) as (_ & H1 & H2 & _). split; [exact H1|]. etrans; [exact H2|].
    simpl. do 3 f_equal. unfold in_grp in Hb. lia.
  - intros a s Ha Hs. simpl in *. rewrite Hsrv, Hnone. destruct (Hends s) as [_ Hd]; [by eapply list_elem_of_lookup_2|].
    rewrite Hd. by split; [intros [? ?]|].
  - intros a b Ha Hb. destruct (Hname a b Ha Hb) as (s & Hs & He). destruct (Hnew _ _ _ _ Hs He) as (_ & _ & _ & H).
    unfold up. simpl in *. rewrite H. unfold conn. simpl. unfold in_grp, N in Ha. simpl in Ha.
    by rewrite lookup_replicate_2 by lia.
Qed.

Lemma grp_exec_ok w0 ops w :
  exec grp_step w0 ops w → base_ok w0 → base_ok w ∧ (Forall no_partition ops → precise w0 → precise w).
Proof.
  intros He. induction He as [|w1 op w2 ops w3 Hst He IH]; intros Hb; [done|].
  destruct (grp_step_ok _ _ _ Hb Hst) as [Hb2 Hp2]. destruct (IH Hb2) as [Hb3 Hp3]. split; [done|].
  intros [Hn Hns]%Forall_cons Hp. auto.
Qed.

(** What [processReq] reads for the end from [a] to [b]. *)
Lemma read_end w a b :
  base_ok w → in_grp (grp w) a → in_grp (grp w) b →
  ∃ srv, readEndnameInfo (name (grp w) a b) (net w) =
      (up w a b, Some (ServerName (gid (grp w)) b), srv, reliable (net w), longReordering (net w)) ∧
    ∀ s, srvs (grp w) !! Z.to_nat b = Some s → (is_Some srv ↔ dc s = true).
Proof.
  intros (_ & _ & Hends & Hreg) Ha Hb. destruct (Hends a b Ha Hb) as [_ Hc]. unfold readEndnameInfo, lookup_zero at 2 3.
  rewrite Hc. simpl. eexists. split; [reflexivity|]. intros s Hs. apply Hreg; [apply Hb | done].
Qed.
End init.

(** The loop of [MakePartition]: the servers other than [l], in order, fill
    first [p1] and then [p2]. *)
Lemma partition_loop_spec l k : ∀ i j p1 p2 q1 q2,
  partition_loop l k i j p1 p2 = Ret (q1, q2) → 0 <= j →
  let others := filter (λ x, x ≠ l) (seqZ i (Z.of_nat k)) in
  length q1 = length p1 ∧ length q2 = length p2 ∧
  ∀ m : nat, (q1 ++ q2) !! m =
    if decide (Z.to_nat j <= m < Z.to_nat j + length others)%nat then others !! (m - Z.to_nat j)%nat else (p1 ++ p2) !! m.
Proof.
  induction k as [|k IH]; intros i j p1 p2 q1 q2; simpl partition_loop.
  { intros [= <- <-] Hj. split; [done|]. split; [done|]. intros m.
    change (seqZ i (Z.of_nat 0)) with (@nil Z). rewrite filter_nil. simpl length. by rewrite decide_False by lia. }
  intros H Hj. rewrite seqZ_cons by lia. replace (Z.pred (Z.of_nat (S k))) with (Z.of_nat k) by lia.
  case_decide as Hil.
  { subst i. rewrite filter_cons_False by (intros H'; done). apply (IH _ _ _ _ _ _ H Hj). }
  rewrite filter_cons_True by done.
  assert (Hput : ∃ r1 r2, partition_loop l k (i + 1) (j + 1) r1 r2 = Ret (q1, q2) ∧ length r1 = length p1 ∧
    length r2 = length p2 ∧ (Z.to_nat j < length (p1 ++ p2))%nat ∧ r1 ++ r2 = <[Z.to_nat j := i]> (p1 ++ p2)).
  { case_decide as Hlt; unfold store in H; case_decide; try done; cbn [mbind outcome_bind] in H.
    - exists (<[Z.to_nat j:=i]> p1), p2. rewrite length_insert, length_app, insert_app_l by lia. repeat split; (done || lia).
    - exists p1, (<[Z.to_nat (j - Z.of_nat (length p1)):=i]> p2). rewrite length_insert, length_app. repeat split; try (done || lia).
      replace (Z.to_nat j) with (length p1 + Z.to_nat (j - Z.of_nat (length p1)))%nat by lia. by rewrite insert_app_r. }
  clear H. destruct Hput as (r1 & r2 & Hr & Hl1 & Hl2 & Hlt & Hins).
  destruct (IH _ _ _ _ _ _ Hr) as (E1 & E2 & Hm); [lia|]. split; [congruence|]. split; [congruence|].
  intros m. rewrite Hm, Hins. clear Hm. replace (Z.to_nat (j + 1)) with (S (Z.to_nat j)) by lia. change (Z.succ i) with (i + 1).
  set (others := filter _ (seqZ (i + 1) (Z.of_nat k))). cbn [length].
  destruct (decide (m = Z.to_nat j)) as [->|Hne].
  - rewrite decide_False by lia. rewrite decide_True by lia. rewrite Nat.sub_diag. simpl. by apply list_lookup_insert_eq.
  - rewrite list_lookup_insert_ne by done. case_decide.
    + rewrite decide_True by lia. by replace (m - Z.to_nat j)%nat with (S (m - S (Z.to_nat j))) by lia.
    + by rewrite decide_False by lia.
Qed.

Lemma partition_loop_total l k : ∀ i j p1 p2,
  0 <= j → (Z.to_nat j + length (filter (λ x, x ≠ l) (seqZ i (Z.of_nat k))) <= length p1 + length p2)%nat →
  ∃ q, partition_loop l k i j p1 p2 = Ret q.
Proof.
  induction k as [|k IH]; intros i j p1 p2 Hj; simpl partition_loop; [by eexists|].
  rewrite seqZ_cons by lia. replace (Z.pred (Z.of_nat (S k))) with (Z.of_nat k) by lia.
  case_decide as Hil.
  { rewrite filter_cons_False by (intros H'; done). by apply IH. }
  rewrite filter_cons_True by done. cbn [length]. change (Z.succ i) with (i + 1). intros Hlen.
  case_decide; rewrite store_Ret by lia; cbn [mbind outcome_bind]; apply IH; rewrite ?length_insert; lia.
Qed.

Lemma length_filter_ne l (n : nat) : 0 <= l < Z.of_nat n → length (filter (λ x, x ≠ l) (seqZ 0 (Z.of_nat n))) = (n - 1)%nat.
Proof.
  intros Hl. assert (Hp : seqZ 0 (Z.of_nat n) ≡ₚ l :: filter (λ x, x ≠ l) (seqZ 0 (Z.of_nat n))).
  { apply NoDup_Permutation; [apply NoDup_seqZ| |].
    - constructor; [by rewrite list_elem_of_filter; intros [? _] | apply NoDup_filter, NoDup_seqZ].
    - intros x. rewrite elem_of_cons, list_elem_of_filter, elem_of_seqZ. lia. }
  apply Permutation_length in Hp. rewrite length_seqZ in Hp. simpl in Hp. lia.
Qed.

Lemma MakePartition_Ret {Saved} l (g : ServerGrp (Saved:=Saved)) :
  in_grp g l → (2 <= length (srvs g))%nat →
  ∃ p1 p2, MakePartition l g = Ret (p1, p2) ∧ length p1 = (length (srvs g) / 2 + 1)%nat ∧
    length p2 = (length (srvs g) / 2)%nat ∧
    p1 ++ p2 = filter (λ x, x ≠ l) (all g) ++ (if Nat.even (length (srvs g)) then [0] else []) ++ [l].
Proof.
  unfold in_grp, N, all, N. intros Hl Hn. unfold MakePartition. set (n := length (srvs g)) in *.
  pose proof (length_filter_ne l n Hl) as Hf. set (others := filter _ _) in *.
  pose proof (Nat.div_mod_eq n 2) as Hdm. pose proof (Nat.mod_upper_bound n 2) as Hub.
  destruct (partition_loop_total l n 0 0 (replicate (n / 2 + 1) 0) (replicate (n / 2) 0)) as [[q1 q2] E]; [lia| |].
  { rewrite !length_replicate. fold others. rewrite Hf. lia. }
  rewrite E. cbn [mbind outcome_bind]. destruct (partition_loop_spec _ _ _ _ _ _ _ _ E) as (E1 & E2 & Hm); [lia|].
  rewrite length_replicate in E1, E2. rewrite store_Ret by lia. cbn [mbind outcome_bind].
  eexists _, _. split; [reflexivity|]. split; [done|]. rewrite length_insert. split; [done|].
  replace (Z.to_nat (Z.of_nat (length q2) - 1)) with (n / 2 - 1)%nat by lia.
  set (pad := if Nat.even n then [0] else []).
  assert (Hpad : (length others + length pad)%nat = (2 * (n / 2))%nat ∧ Forall (λ x, x = 0) pad).
  { unfold pad. rewrite Hf. destruct (Nat.even n) eqn:Ev; cbn [length].
    - apply Nat.even_spec in Ev as [h Ev]. split; [|by repeat constructor]. lia.
    - apply (f_equal negb) in Ev. rewrite Nat.negb_even in Ev. apply Nat.odd_spec in Ev as [h Ev]. split; [lia|done]. }
  destruct Hpad as [Hpl Hpz]. rewrite app_assoc. rewrite <- insert_app_r, E1. rewrite <- replicate_add in Hm.
  replace (n / 2 + 1 + (n / 2 - 1))%nat with (2 * (n / 2))%nat by lia.
  apply list_eq. intros m. destruct (decide (m = 2 * (n / 2))%nat) as [->|Hne].
  - rewrite list_lookup_insert_eq by (rewrite length_app; lia).
    rewrite lookup_app_r by (rewrite length_app; lia). rewrite length_app, Hpl, Nat.sub_diag. done.
  - rewrite list_lookup_insert_ne by done. rewrite Hm. fold others. change (Z.to_nat 0) with 0%nat. case_decide as Hin.
    + rewrite Nat.sub_0_r. rewrite lookup_app_l by (rewrite length_app; lia). by rewrite lookup_app_l by lia.
    + destruct (decide (m < 2 * (n / 2))%nat) as [Hlt|Hge].
      * rewrite lookup_replicate_2 by lia. rewrite lookup_app_l by (rewrite length_app; lia).
        rewrite lookup_app_r by lia. destruct (lookup_lt_is_Some_2 pad (m - length others)) as [x Hx]; [lia|].
        rewrite Hx. f_equal. symmetry. exact (Forall_lookup_1 _ _ _ _ Hpz Hx).
      * rewrite !lookup_ge_None_2; [done| |]; rewrite ?length_app, ?length_replicate; cbn [length]; lia.
Qed.


(** ** Properties *)

(** In a group whose servers were started, stopped, connected and
    disconnected in any order, but not partitioned, the network delivers
    requests from one server to another exactly if both are flagged as
    connected and the process of the second one runs: the end between them
    leads to that server, it is enabled iff both are connected, and the server
    is registered iff its process runs. *)
Theorem group_connectivity {St Saved} g nsrv rand n w0 ops (w : world (St:=St) (Saved:=Saved)) a b :
  makeSrvGrp g nsrv rand n = Ret w0 → (∀ i, lookup_zero None (ServerName g i) (servers n) = None) →
  exec grp_step w0 ops w → Forall no_partition ops → in_grp (grp w) a → in_grp (grp w) b →
  ∃ e srv, end_name w a b = Ret e ∧
    readEndnameInfo e (net w) =
      (conn (grp w) a && conn (grp w) b, Some (ServerName (gid (grp w)) b), srv, reliable (net w), longReordering (net w)) ∧
    ∀ s, srvs (grp w) !! Z.to_nat b = Some s → (is_Some srv ↔ dc s = true).
Proof.
  intros Hm Hnone He Hno Ha Hb. destruct (makeSrvGrp_ok _ _ _ _ _ Hm Hnone) as (Hb0 & Hp0 & _).
  destruct (grp_exec_ok _ _ _ He Hb0) as [Hbw Hpw]. specialize (Hpw Hno Hp0).
  destruct (read_end w a b Hbw Ha Hb) as (srv & Hread & Hreg). exists (name (grp w) a b), srv.
  split; [apply end_name_Ret; [apply Hbw|done|done]|]. split; [|done]. by rewrite Hread, Hpw.
Qed.

(** C24 [Partition] of disjoint sets of servers, after any run of the group
    with any earlier partitions, succeeds and leaves the end between two of
    these servers enabled exactly if they are on the same side, also when
    starting from a network in which other ends were enabled; all of them count
    as connected afterwards, so that the flags do not tell the sides. *)
Theorem partition_separates {St Saved} g nsrv rand n w0 ops (w : world (St:=St) (Saved:=Saved)) p1 p2 :
  makeSrvGrp g nsrv rand n = Ret w0 → (∀ i, lookup_zero None (ServerName g i) (servers n) = None) →
  exec grp_step w0 ops w → Forall (in_grp (grp w)) (p1 ++ p2) → (∀ x, x ∈ p1 → x ∉ p2) →
  ∃ w', Partition p1 p2 w = Ret w' ∧ (∀ a, a ∈ p1 ++ p2 → conn (grp w') a = true) ∧
    ∀ a b, a ∈ p1 ++ p2 → b ∈ p1 ++ p2 → ∃ e srv, end_name w' a b = Ret e ∧
      readEndnameInfo e (net w') =
        (bool_decide (a ∈ p1 ↔ b ∈ p1), Some (ServerName (gid (grp w')) b), srv, reliable (net w'), longReordering (net w')) ∧
      ∀ s, srvs (grp w') !! Z.to_nat b = Some s → (is_Some srv ↔ dc s = true).
Proof.
  intros Hm Hnone He Hin Hdisj. destruct (makeSrvGrp_ok _ _ _ _ _ Hm Hnone) as (Hb0 & _).
  destruct (grp_exec_ok _ _ _ He Hb0) as [Hbw _]. pose proof Hbw as (Hok & Hinj & _).
  pose proof Hin as [H1 H2]%Forall_app. destruct (Partition_Ret p1 p2 w Hok Hinj H1 H2 Hdisj) as (w' & E & Hk & Hc & Hup).
  exists w'. split; [done|]. split; [done|]. intros a b Ha Hb. rewrite Forall_forall in Hin.
  pose proof (base_ok_keeps _ _ Hk Hbw) as Hbw'.
  assert (Ha' : in_grp (grp w') a) by (by apply (keeps_in_grp w w' a Hk), Hin).
  assert (Hb' : in_grp (grp w') b) by (by apply (keeps_in_grp w w' b Hk), Hin).
  destruct (read_end w' a b Hbw' Ha' Hb') as (srv & Hread & Hreg). exists (name (grp w') a b), srv.
  split; [apply end_name_Ret; [apply Hbw'|done|done]|]. split; [|done]. by rewrite Hread, Hup.
Qed.

(** The sides [Partitioner] draws: every server is on one, and two are
    connected after the round exactly if their bits agree. *)
Lemma elem_of_side (a : list Z) i n j : j ∈ side a i n ↔ a !! Z.to_nat j = Some i ∧ 0 <= j < n.
Proof. unfold side. rewrite list_elem_of_filter, elem_of_seqZ. split; intros [? ?]; (split; [done|lia]). Qed.

Lemma Partitioner_round_separates {St Saved} a (w : world (St:=St) (Saved:=Saved)) :
  base_ok w → length a = length (srvs (grp w)) → Forall (λ b, b = 0 ∨ b = 1) a →
  ∃ w', Partitioner_round a w = Ret w' ∧
    ∀ i j, in_grp (grp w) i → in_grp (grp w) j → up w' i j = bool_decide (a !! Z.to_nat i = a !! Z.to_nat j).
Proof.
  intros (Hok & Hinj & _) Hlen Hbits. unfold Partitioner_round.
  assert (Hbit : ∀ i, in_grp (grp w) i → a !! Z.to_nat i = Some 0 ∨ a !! Z.to_nat i = Some 1).
  { intros i Hi. unfold in_grp, N in Hi. destruct (lookup_lt_is_Some_2 a (Z.to_nat i)) as [b Hb]; [lia|].
    rewrite Hb. rewrite Forall_forall in Hbits. destruct (Hbits b) as [-> | ->]; auto. by eapply list_elem_of_lookup_2. }
  assert (Hin : ∀ b, Forall (in_grp (grp w)) (side a b (N (grp w)))).
  { intros b. apply Forall_forall. intros j [_ Hj]%elem_of_side. exact Hj. }
  destruct (Partition_Ret _ _ w Hok Hinj (Hin 0) (Hin 1)) as (w' & E & _ & _ & Hup).
  { intros x [Hx _]%elem_of_side [Hy _]%elem_of_side. congruence. }
  exists w'. split; [exact E|]. intros i j Hi Hj.
  assert (Hs : ∀ i, in_grp (grp w) i → i ∈ side a 0 (N (grp w)) ++ side a 1 (N (grp w))).
  { intros i' Hi'. rewrite elem_of_app, !elem_of_side. destruct (Hbit i' Hi'); [left | right]; done. }
  rewrite Hup by (by apply Hs). apply bool_decide_ext. rewrite !elem_of_side.
  destruct (Hbit i Hi) as [-> | ->], (Hbit j Hj) as [-> | ->]; unfold in_grp in *; split; intros; naive_solver.
Qed.

(** C35 The bounds of [MakePartition]: it panics for a single server; for two
    or more it never does, and its parts have [n/2+1] and [n/2] entries. With an
    odd number of servers they split the group, the first part being a majority
    and the leader last in the second; with an even number, four or more, server
    0 is in both parts unless it is the leader; of two servers the first part is
    the other one and server 0, so that server 0 is in both parts exactly if it
    leads. *)
Theorem MakePartition_parts {Saved} l (g : ServerGrp (Saved:=Saved)) :
  in_grp g l →
  (length (srvs g) = 1%nat → MakePartition l g = Panic) ∧
  ((2 <= length (srvs g))%nat → ∃ p1 p2, MakePartition l g = Ret (p1, p2) ∧
     length p1 = (length (srvs g) / 2 + 1)%nat ∧ length p2 = (length (srvs g) / 2)%nat ∧ last p2 = Some l ∧
     (Nat.odd (length (srvs g)) = true → p1 ++ p2 ≡ₚ all g ∧ l ∉ p1) ∧
     (Nat.odd (length (srvs g)) = false → (4 <= length (srvs g))%nat → l ≠ 0 → 0 ∈ p1 ∧ 0 ∈ p2) ∧
     (length (srvs g) = 2%nat → p1 = [1 - l; 0] ∧ p2 = [l])).
Proof.
  intros Hl. split.
  - intros H1. unfold MakePartition. unfold in_grp, N in Hl. rewrite H1 in *. assert (l = 0) as -> by lia. reflexivity.
  - intros Hn. destruct (MakePartition_Ret l g Hl Hn) as (p1 & p2 & E & H1 & H2 & Happ). exists p1, p2.
    pose proof (Nat.div_mod_eq (length (srvs g)) 2) as Hdm. pose proof (Nat.mod_upper_bound (length (srvs g)) 2) as Hub.
    assert (Hlast : last p2 = Some l).
    { apply (f_equal last) in Happ. rewrite (app_assoc _ _ [l]), last_snoc, last_app in Happ.
      destruct (last p2) eqn:El; [done|]. apply last_None in El. subst p2. cbn [length] in H2. lia. }
    assert (H2' : length (srvs g) = 2%nat → p1 = [1 - l; 0] ∧ p2 = [l]).
    { intros L. unfold in_grp, N in Hl. unfold MakePartition in E. rewrite L in *.
      assert (l = 0 ∨ l = 1) as [-> | ->] by lia; vm_compute in E; by injection E as <- <-. }
    do 4 (split; [done|]). rewrite <- Nat.negb_even. destruct (Nat.even (length (srvs g))) eqn:Ev.
    + split; [done|]. split; [|exact H2']. intros _ H4 Hl0. apply Nat.even_spec in Ev as [h Ev].
      assert (Hf : length (filter (λ x, x ≠ l) (all g)) = (length (srvs g) - 1)%nat) by (by apply length_filter_ne).
      split.
      * assert (Hz : (p1 ++ p2) !! 0%nat = Some 0).
        { rewrite Happ, lookup_app_l by lia. unfold all, N. rewrite seqZ_cons, filter_cons_True by lia. done. }
        rewrite lookup_app_l in Hz by lia. by eapply list_elem_of_lookup_2.
      * assert (Hz : (p1 ++ p2) !! (length (srvs g) - 1)%nat = Some 0).
        { rewrite Happ, lookup_app_r by lia. by rewrite Hf, Nat.sub_diag. }
        rewrite lookup_app_r in Hz by lia. by eapply list_elem_of_lookup_2.
    + split; [|by split]. intros _. simpl in Happ.
      assert (Hp : p1 ++ p2 ≡ₚ all g).
      { rewrite Happ, Permutation_app_comm. simpl. symmetry. apply NoDup_Permutation; [apply NoDup_seqZ| |].
        - constructor; [by rewrite list_elem_of_filter; intros [? _] | apply NoDup_filter, NoDup_seqZ].
        - intros x. rewrite elem_of_cons, list_elem_of_filter. unfold all. rewrite elem_of_seqZ. unfold in_grp in Hl.
          destruct (decide (x = l)); [subst; lia | lia]. }
      split; [done|]. intros Hin. assert (Hnd : NoDup (p1 ++ p2)) by (rewrite Hp; apply NoDup_seqZ).
      apply NoDup_app in Hnd as (_ & Hd & _). apply (Hd l Hin). by apply last_Some_elem_of.
Qed.

(** ** Witnesses *)

Module GroupEx.
Abbreviation world := (ServerGroup.world (St:=unit) (Saved:=unit)).
(** The [k]-th name made in round [r]. *)
Definition rnd (r : Z) (k : nat) : string := "e" +:+ pretty r +:+ "-" +:+ pretty (Z.of_nat k).
Definition obj : LabRPC.Server (St:=unit) := MakeServer.

Definition allowed_b (op : grp_op (St:=unit) (Saved:=unit)) (w : world) : bool :=
  match op with
  | GConnectOne i | GDisconnectAll i | GShutdownServer i _ => bool_decide (0 <= i < N (grp w))
  | GStartServer _ i _ _ _ _ =>
      bool_decide (0 <= i < N (grp w)) && negb (conn (grp w) i) &&
      match srvs (grp w) !! Z.to_nat i with Some s => negb (dc s) | None => true end
  | GPartition p1 p2 =>
      bool_decide (Forall (λ i, 0 <= i < N (grp w)) (p1 ++ p2)) && bool_decide (Forall (λ x, x ∉ p2) p1)
  | _ => true
  end.

Lemma allowed_b_allowed op w : allowed_b op w = true → allowed op w.
Proof.
  destruct op as [i| |i|i p|fresh i rand ok addr o|p1 p2|yes|yes|yes]; simpl; try done; try (by intros H%bool_decide_eq_true).
  - intros [[H1 H2]%andb_prop H3]%andb_prop. apply bool_decide_eq_true in H1. apply negb_true_iff in H2.
    split; [done|]. split; [done|]. intros s Hs. rewrite Hs in H3. by apply negb_true_iff.
  - intros [H1 H2]%andb_prop. apply bool_decide_eq_true in H1, H2. apply Forall_app in H1 as [H1 H1'].
    split; [done|]. split; [done|]. by apply Forall_forall.
Qed.

Definition next (w : world) (op : grp_op) : option world :=
  if allowed_b op w then match grp_do op w with Ret w' => Some w' | _ => None end else None.
Lemma next_step w op w' : next w op = Some w' → grp_step w op w'.
Proof.
  unfold next. destruct (allowed_b op w) eqn:E; [|done]. destruct (grp_do op w) eqn:E'; intros; simplify_eq.
  split; [by apply allowed_b_allowed | done].
Qed.

Definition the (o : outcome world) : world := match o with Ret w => w | _ => mkWorld MakeNetwork (mkGrp [] [] 0) end.
Definition start : world := the (makeSrvGrp 0 3 (λ i, rnd (Z.of_nat i)) MakeNetwork).
Definition start_op (i r : Z) : grp_op := GStartServer tt i (rnd r) true (Z.to_nat r) obj.
(** All servers run; 1 is killed, restarted and connected again, 2 is cut off. *)
Definition ops : list grp_op :=
  [start_op 0 3; start_op 1 4; start_op 2 5; GConnectAll; GReliable false; GShutdownServer 1 tt; start_op 1 6;
   GConnectOne 1; GDisconnectAll 2].
Definition state : world := default start (run next start ops).
End GroupEx.

Lemma group_connectivity_witness :
  ∃ e srv, end_name GroupEx.state 0 1 = Ret e ∧
    readEndnameInfo e (net GroupEx.state) = (true, Some "server-0-1", srv, false, false) ∧ is_Some srv.
Proof.
  assert (H0 : makeSrvGrp 0 3 (λ i, GroupEx.rnd (Z.of_nat i)) MakeNetwork = Ret GroupEx.start) by (vm_compute; reflexivity).
  assert (H1 : ∀ i, lookup_zero None (ServerName 0 i) (servers (MakeNetwork (St:=unit))) = None)
    by (intros i; apply lookup_zero_empty).
  assert (H2 : exec grp_step GroupEx.start GroupEx.ops GroupEx.state)
    by (apply (run_exec _ GroupEx.next); [apply GroupEx.next_step | vm_compute; reflexivity]).
  assert (H3 : Forall no_partition GroupEx.ops) by (by repeat constructor).
  assert (H4 : in_grp (grp GroupEx.state) 0 ∧ in_grp (grp GroupEx.state) 1)
    by (unfold in_grp; apply (bool_decide_unpack _); vm_compute; exact I).
  destruct (group_connectivity 0 3 (λ i, GroupEx.rnd (Z.of_nat i)) MakeNetwork GroupEx.start GroupEx.ops GroupEx.state 0 1
    H0 H1 H2 H3 (proj1 H4) (proj2 H4)) as (e & srv & He & Hr & Hs).
  exists e, srv. split; [exact He|]. split; [rewrite Hr; vm_compute; reflexivity|].
  assert (Hd : ∃ s, srvs (grp GroupEx.state) !! 1%nat = Some s ∧ dc s = true)
    by (vm_compute; eexists; split; reflexivity).
  destruct Hd as (s & Hs1 & Hd). by apply (Hs s Hs1).
Defined.

Lemma partition_separates_witness :
  ∃ w' e srv, Partition [1; 0] [2] GroupEx.state = Ret w' ∧ end_name w' 0 2 = Ret e ∧
    readEndnameInfo e (net w') = (false, Some "server-0-2", srv, false, false).
Proof.
  assert (H0 : makeSrvGrp 0 3 (λ i, GroupEx.rnd (Z.of_nat i)) MakeNetwork = Ret GroupEx.start) by (vm_compute; reflexivity).
  assert (H1 : ∀ i, lookup_zero None (ServerName 0 i) (servers (MakeNetwork (St:=unit))) = None)
    by (intros i; apply lookup_zero_empty).
  assert (H2 : exec grp_step GroupEx.start GroupEx.ops GroupEx.state)
    by (apply (run_exec _ GroupEx.next); [apply GroupEx.next_step | vm_compute; reflexivity]).
  assert (H3 : Forall (in_grp (grp GroupEx.state)) ([1; 0] ++ [2])) by (vm_compute; by repeat constructor).
  assert (H4 : ∀ x, x ∈ [1; 0] → x ∉ [2]) by (apply Forall_forall, (bool_decide_unpack _); vm_compute; exact I).
  assert (H5 : 0 ∈ [1; 0] ++ [2] ∧ 2 ∈ [1; 0] ++ [2] ∧ bool_decide (0 ∈ [1; 0] ↔ 2 ∈ [1; 0]) = false)
    by (split; [right; left|split; [right; right; left|vm_compute; reflexivity]]).
  destruct H5 as (H5 & H6 & H7).
  destruct (partition_separates 0 3 (λ i, GroupEx.rnd (Z.of_nat i)) MakeNetwork GroupEx.start GroupEx.ops GroupEx.state
    [1; 0] [2] H0 H1 H2 H3 H4) as (w' & Hw & _ & H).
  destruct (H 0 2 H5 H6) as (e & srv & He & Hr & _). exists w', e, srv.
  split; [exact Hw|]. split; [exact He|]. rewrite Hr.
  assert (Ht : gid (grp w') = 0 ∧ reliable (net w') = false ∧ longReordering (net w') = false).
  { assert (Ew : w' = GroupEx.the (Partition [1; 0] [2] GroupEx.state)) by (rewrite Hw; reflexivity).
    rewrite Ew. vm_compute. split; [reflexivity|]. split; reflexivity. }
  destruct Ht as (-> & -> & ->). rewrite H7. reflexivity.
Defined.

Lemma MakePartition_parts_witness :
  ∃ p1 p2, MakePartition 1 (mkGrp (replicate 5 (mkServer (Saved:=unit) None [] true)) [] 0) = Ret (p1, p2) ∧
    p1 = [0; 2; 3] ∧ p2 = [4; 1].
Proof.
  destruct (MakePartition_parts 1 (mkGrp (replicate 5 (mkServer (Saved:=unit) None [] true)) [] 0)) as [_ H];
    [unfold in_grp, N; simpl; lia|].
  destruct H as (p1 & p2 & E & _); [simpl; lia|]. exists p1, p2. split; [exact E|].
  vm_compute in E. injection E as <- <-. done.
Defined.
