(* ===== verification/Groups.v ===== *)
(** * Several groups on one network: [Groups] of [tester1/group.go], [config.go]

    A test may run many groups of servers ([shardkv1] has one per shard group).
    They are kept in a map from group numbers and share one network; each
    operation acts on one group ([ServerGroup]). The processes of the servers are
    outside: what they answer when asked for the size of their state is an
    argument. *)

From S2P Require Import Prelude JsonInt LabRPC ServerGroup.

Open Scope string_scope.
Open Scope list_scope.
Open Scope Z_scope.

(** ** Operations *)

Section groups.
Context {St Saved : Type}.
Abbreviation Network := (LabRPC.Network (St:=St)).
Abbreviation ServerGrp := (ServerGrp (Saved:=Saved)).
Abbreviation world := (world (St:=St) (Saved:=Saved)).

Record Groups := mkGroups { gs_net : Network; grps : gmap Z ServerGrp }.

Definition newGroups (n : Network) : Groups := mkGroups n ∅.

(** A group that is there already is replaced. *)
Definition MakeGroup (g : Z) (nsrv : nat) (rand : nat → nat → string) (gs : Groups) : outcome Groups :=
  w ← makeSrvGrp g nsrv rand (gs_net gs); Ret (mkGroups (net w) (<[g := grp w]> (grps gs))).

Definition lookupGroup (g : Z) (gs : Groups) : option ServerGrp := grps gs !! g.

(** A method of [cfg.Group(gid)]; a group that is not there is nil. *)
Definition on_group (g : Z) (f : world → outcome world) (gs : Groups) : outcome Groups :=
  match lookupGroup g gs with
  | None => Panic
  | Some G => w ← f (mkWorld (gs_net gs) G); Ret (mkGroups (net w) (<[g := grp w]> (grps gs)))
  end.

Definition delete_group (g : Z) (gs : Groups) : Groups := mkGroups (gs_net gs) (delete g (grps gs)).

(** [Groups.cleanup]; [range] is the order in which the map is traversed. *)
Definition cleanup (p : Z → Z → Saved) (range : list Z) (gs : Groups) : outcome Groups :=
  for_each (λ g, on_group g (Shutdown (p g))) range gs.

(** [Config.MakeGroupStart] and [Config.ExitGroup] *)
Definition MakeGroupStart (g : Z) (nsrv : nat) (rand : nat → nat → string) (fresh : Saved) (l : list (start_args (St:=St)))
    (gs : Groups) : outcome Groups :=
  gs ← MakeGroup g nsrv rand gs; on_group g (StartServers fresh l) gs.
Definition ExitGroup (g : Z) (p : Z → Saved) (gs : Groups) : outcome Groups :=
  gs ← on_group g (Shutdown p) gs; Ret (delete_group g gs).

(** ** Sizes of the state *)

Section sizes.
Context (RaftStateSize SnapSize : Saved → Z).

(** [raftSize] and [snapshotSize] of [srv.go]; [state] is what the process
    answers. A server that was never started has no persister. *)
Definition raftSize (state : Z * Z) (s : Server (Saved:=Saved)) : outcome Z :=
  if dc s then Ret state.1 else match saved s with Some p => Ret (RaftStateSize p) | None => Panic end.
Definition snapshotSize (state : Z * Z) (s : Server (Saved:=Saved)) : outcome Z :=
  if dc s then Ret state.2 else match saved s with Some p => Ret (SnapSize p) | None => Panic end.

(** The loop that takes the largest, from server [i] on. *)
Fixpoint max_loop (size : Z → Server (Saved:=Saved) → outcome Z) (i : Z) (l : list (Server (Saved:=Saved))) (m : Z) : outcome Z :=
  match l with
  | [] => Ret m
  | s :: l => n ← size i s; max_loop size (i + 1) l (if decide (n > m) then n else m)
  end.

Definition RaftSize (state : Z → Z * Z) (G : ServerGrp) : outcome Z := max_loop (λ i, raftSize (state i)) 0 (srvs G) 0.
Definition SnapshotSize (state : Z → Z * Z) (G : ServerGrp) : outcome Z := max_loop (λ i, snapshotSize (state i)) 0 (srvs G) 0.

(** [MemSize]; to ask a server without a process is a nil dereference. *)
Definition memSize (mem : Z) (s : Server (Saved:=Saved)) : outcome Z := if dc s then Ret mem else Panic.
Definition MemSize (mem : Z → Z) (G : ServerGrp) : outcome Z := max_loop (λ i, memSize (mem i)) 0 (srvs G) 0.
End sizes.
End groups.

(** ** What an operation on a group leaves alone *)

Section frame.
Context {St Saved : Type}.
Implicit Types (w : world (St:=St) (Saved:=Saved)) (G : ServerGrp (Saved:=Saved)) (n : LabRPC.Network (St:=St)).

Definition owns G (e : string) : Prop := ∃ s, s ∈ srvs G ∧ e ∈ endNames s.

(** The ends of others that exist stay as they are, and are not taken over; the
    servers registered under other names too. *)
Record frame w w' : Prop := {
  fr_gid : gid (grp w') = gid (grp w);
  fr_N : length (srvs (grp w')) = length (srvs (grp w));
  fr_ends e : e ∈ ends (net w) → e ∈ ends (net w');
  fr_owns e : e ∈ ends (net w) → owns (grp w') e → owns (grp w) e;
  fr_other e : e ∈ ends (net w) → ¬ owns (grp w) e →
    connections (net w') !! e = connections (net w) !! e ∧
    lookup_zero false e (enabled (net w')) = lookup_zero false e (enabled (net w));
  fr_servers g i : g ≠ gid (grp w) ∨ ¬ in_grp (grp w) i →
    lookup_zero None (ServerName g i) (servers (net w')) = lookup_zero None (ServerName g i) (servers (net w))
}.

#[export] Instance frame_preorder : PreOrder frame.
Proof.
  split; [intros w; by split|]. intros w1 w2 w3 [A1 A2 A3 A4 A5 A6] [B1 B2 B3 B4 B5 B6]. split.
  - congruence.
  - congruence.
  - auto.
  - auto.
  - intros e He Hn. destruct (A5 e He Hn) as [<- <-]. apply B5; [auto|]. intros Ho. apply Hn, A4; auto.
  - intros g i H. rewrite B6, A6; [done|done|]. unfold in_grp, N in *. rewrite A1, A2. tauto.
Qed.

(** A loop whose iterations keep what they should. *)
Lemma for_each_rel {A S} (R : S → S → Prop) `{!PreOrder R} (f : A → S → outcome S) l s s' :
  (∀ x s s', f x s = Ret s' → R s s') → for_each f l s = Ret s' → R s s'.
Proof.
  intros Hf H. apply (for_each_inv f (λ _, R s) l s s' H); [reflexivity|].
  intros x l' s1 s2 H1 H2. etrans; [exact H1 | by eapply Hf].
Qed.

Lemma index_elem {A} (l : list A) i x : index l i = Ret x → x ∈ l.
Proof. intros [_ H]%index_Ret. by eapply list_elem_of_lookup_2. Qed.

Lemma end_name_owns w i j e : end_name w i j = Ret e → owns (grp w) e.
Proof.
  unfold end_name. destruct (index (srvs (grp w)) i) as [s| |] eqn:Hs; [|done..]. cbn [mbind outcome_bind]. intros H.
  exists s. split; by eapply index_elem.
Qed.

Lemma frame_Enable e b w : owns (grp w) e → frame w (on_net (Enable e b) w).
Proof.
  intros Ho. split; cbn [grp net on_net Enable with_tables ends connections enabled servers]; try done.
  intros e' _ Hn. split; [done|]. rewrite lookup_zero_insert, decide_False; [done|]. by intros ->.
Qed.

Lemma frame_flags l w : frame w (set_connected l w).
Proof. by split. Qed.

Lemma store_bind_frame {A} (l : list A) i x (f : list A → outcome (world (St:=St) (Saved:=Saved))) w w' :
  (l' ← store l i x; f l') = Ret w' → (∀ l', store l i x = Ret l' → f l' = Ret w' → frame w w') → frame w w'.
Proof. destruct (store l i x) as [l'| |]; [|done..]. cbn [mbind outcome_bind]. intros H1 H2. by apply (H2 l'). Qed.

(** The two loops of [connect] and [disconnect]. *)
Lemma frame_enable_conn (f : Z → world → outcome string) to w w' :
  (∀ j w e, f j w = Ret e → owns (grp w) e) →
  for_each (λ j w, c ← IsConnected w j; if c : bool then e ← f j w; Ret (on_net (Enable e true) w) else Ret w) to w = Ret w' →
  frame w w'.
Proof.
  intros Hf. apply (for_each_rel frame). intros j w1 w2. destruct (IsConnected w1 j) as [[]| |]; [| |done..]; cbn [mbind outcome_bind].
  - destruct (f j w1) as [e| |] eqn:E; [|done..]. intros [= <-]. apply frame_Enable. by eapply Hf.
  - by intros [= <-].
Qed.

Lemma frame_disable (f : Z → world → outcome string) from w w' :
  (∀ j w e, f j w = Ret e → owns (grp w) e) →
  for_each (λ j w, e ← f j w; Ret (on_net (Enable e false) w)) from w = Ret w' → frame w w'.
Proof.
  intros Hf. apply (for_each_rel frame). intros j w1 w2.
  destruct (f j w1) as [e| |] eqn:E; [|done..]. intros [= <-]. apply frame_Enable. by eapply Hf.
Qed.

Lemma frame_connect i to w w' : connect i to w = Ret w' → frame w w'.
Proof.
  intros H. apply (store_bind_frame _ _ _ _ _ _ H). intros l _. clear H.
  destruct (Server_connect i to (set_connected l w)) as [w1| |] eqn:E; [|done..]. cbn [mbind outcome_bind]. intros H.
  transitivity (set_connected l w); [apply frame_flags|]. transitivity w1.
  - apply (frame_enable_conn (λ j w, end_name w i j) to); [intros j w0 e; apply end_name_owns | exact E].
  - apply (frame_enable_conn (λ j w, end_name w j i) to); [intros j w0 e; apply end_name_owns | exact H].
Qed.

Lemma frame_disconnect i from w w' : disconnect i from w = Ret w' → frame w w'.
Proof.
  intros H. apply (store_bind_frame _ _ _ _ _ _ H). intros l _. clear H.
  destruct (Server_disconnect i from (set_connected l w)) as [w1| |] eqn:E; [|done..]. cbn [mbind outcome_bind]. intros H.
  transitivity (set_connected l w); [apply frame_flags|]. transitivity w1.
  - apply (frame_disable (λ j w, end_name w i j) from); [intros j w0 e; apply end_name_owns | exact E].
  - apply (frame_disable (λ j w, end_name w j i) from); [intros j w0 e; apply end_name_owns | exact H].
Qed.

(** [Partition], which works on each server in turn. *)
Lemma frame_Partition p1 p2 w w' : Partition p1 p2 w = Ret w' → frame w w'.
Proof.
  assert (Hside : ∀ side other w1 w2, for_each (λ i w, w ← disconnect i other w; connect i side w) side w1 = Ret w2 → frame w1 w2).
  { intros side other w1 w2. apply (for_each_rel frame). intros i w3 w4.
    destruct (disconnect i other w3) as [w5| |] eqn:E; [|done..]. cbn [mbind outcome_bind]. intros H.
    transitivity w5; [by eapply frame_disconnect | by eapply frame_connect]. }
  unfold Partition. destruct (for_each _ p1 w) as [w1| |] eqn:E; [|done..]. cbn [mbind outcome_bind]. intros H.
  transitivity w1; [by eapply Hside | by eapply Hside].
Qed.

(** Replacing a server by one that owns no end of others. *)
Lemma owns_insert G i s l e c :
  (e ∈ endNames s → owns G e) → owns (mkGrp (<[i := s]> (srvs G)) c (gid G)) e → l = srvs G → owns G e.
Proof.
  intros Hs (t & Ht & He) _. cbn [srvs] in Ht. apply list_elem_of_lookup in Ht as [k Hk].
  apply list_lookup_insert_Some in Hk as [(_ & <- & _)|[_ Hk]]; [by apply Hs|].
  exists t. split; [by eapply list_elem_of_lookup_2 | done].
Qed.

Lemma frame_ShutdownServer p i w w' : ShutdownServer p i w = Ret w' → frame w w'.
Proof.
  unfold ShutdownServer. destruct (disconnect i (all (grp w)) w) as [w1| |] eqn:E; [|done..]. cbn [mbind outcome_bind].
  intros H. transitivity w1; [by eapply frame_disconnect|]. clear E. revert H. cbn [on_net grp].
  destruct (index (srvs (grp w1)) i) as [s| |] eqn:Hs; [|done..]. cbn [mbind outcome_bind]. intros H.
  pose proof Hs as [Hi Hsi]%index_Ret. assert (Hin : in_grp (grp w1) i).
  { apply lookup_lt_Some in Hsi. unfold in_grp, N. lia. }
  rewrite store_Ret in H by exact Hin. injection H as <-. split; cbn [set_srvs on_net grp net]; try done.
  - cbn [srvs]. by rewrite length_insert.
  - intros e _ Ho. apply (owns_insert _ _ _ (srvs (grp w1)) _ _) in Ho; [done| |done]. intros He. exists s.
    split; [by eapply index_elem|]. unfold shutdownServer in He. by destruct (dc s).
  - intros g j Hg. cbn [DeleteServer with_tables servers]. rewrite lookup_zero_insert, decide_False; [done|].
    intros Heq. pose proof (ServerName_gid _ _ _ _ Heq) as ->. apply ServerName_inj in Heq as ->. by destruct Hg.
Qed.

Lemma frame_StartServer fresh i rand ok addr obj w w' : StartServer fresh i rand ok addr obj w = Ret w' → frame w w'.
Proof.
  unfold StartServer, startServer, makeServer. destruct (index (srvs (grp w)) i) as [s| |] eqn:Hs; [|done..].
  cbn [mbind outcome_bind]. set (names := map rand _). destruct (make_ends (gid (grp w)) 0 names (net w)) as [n1| |] eqn:En; [|done..].
  cbn [mbind outcome_bind saved endNames dc]. pose proof Hs as [Hi Hsi]%index_Ret.
  assert (Hin : in_grp (grp w) i) by (apply lookup_lt_Some in Hsi; unfold in_grp, N; lia).
  rewrite store_Ret by exact Hin. cbn [mbind outcome_bind set_srvs grp srvs net]. rewrite store_Ret by (rewrite length_insert; exact Hin).
  cbn [mbind outcome_bind]. rewrite list_insert_insert_eq.
  destruct (make_ends_spec _ _ _ _ _ En) as (_ & Hfresh & Hends & Hsrv & _ & Hout).
  set (s' := mkServer (Some (default fresh (saved s))) names ok). intros Hw'.
  assert (Hg : grp w' = mkGrp (<[Z.to_nat i := s']> (srvs (grp w))) (connected (grp w)) (gid (grp w)))
    by (unfold s'; destruct ok; injection Hw' as <-; done).
  assert (Hnet : ends (net w') = ends n1 ∧ connections (net w') = connections n1 ∧ enabled (net w') = enabled n1 ∧
    servers (net w') = if ok then <[ServerName (gid (grp w)) i := Some addr]> (servers (net w)) else servers (net w)).
  { destruct ok; injection Hw' as <-; simpl; by rewrite Hsrv. }
  clear Hw'. destruct Hnet as (N1 & N2 & N3 & N4). split.
  - by rewrite Hg.
  - rewrite Hg. cbn [srvs]. by rewrite length_insert.
  - intros e He. rewrite N1. apply Hends. by right.
  - intros e He Ho. rewrite Hg in Ho. apply (owns_insert _ _ _ (srvs (grp w)) _ _) in Ho; [done| |done].
    intros Hn. by destruct (Hfresh e Hn).
  - intros e He _. rewrite N2, N3. apply Hout. intros Hn. by destruct (Hfresh e Hn).
  - intros g j Hg'. rewrite N4. destruct ok; [|done]. rewrite lookup_zero_insert, decide_False; [done|].
    intros Heq. pose proof (ServerName_gid _ _ _ _ Heq) as ->. apply ServerName_inj in Heq as ->. by destruct Hg'.
Qed.

Lemma frame_ConnectAll w w' : ConnectAll w = Ret w' → frame w w'.
Proof. unfold ConnectAll. apply (for_each_rel frame). intros i w1 w2. apply frame_connect. Qed.

Lemma frame_do op w w' : grp_do op w = Ret w' → frame w w'.
Proof.
  destruct op; cbn [grp_do]; try (intros [= <-]; by split).
  - apply frame_connect.
  - apply frame_ConnectAll.
  - apply frame_disconnect.
  - apply frame_ShutdownServer.
  - apply frame_StartServer.
  - apply frame_Partition.
Qed.

Lemma frame_Shutdown p w w' : Shutdown p w = Ret w' → frame w w'.
Proof. unfold Shutdown, Kill. apply (for_each_rel frame). intros i w1 w2. apply frame_ShutdownServer. Qed.

Lemma frame_StartServers fresh l w w' : StartServers fresh l w = Ret w' → frame w w'.
Proof.
  unfold StartServers, StartSrvs. destruct (for_each _ l w) as [w1| |] eqn:E; [|done..]. cbn [mbind outcome_bind]. intros H.
  transitivity w1; [|by apply frame_ConnectAll]. revert E. apply (for_each_rel frame). intros a w2 w3. apply frame_StartServer.
Qed.
End frame.

(** ** All groups stay as they should *)

Section runs.
Context {St Saved : Type}.
Implicit Types (gs : Groups (St:=St) (Saved:=Saved)) (w : world (St:=St) (Saved:=Saved)) (G : ServerGrp (Saved:=Saved)).
Implicit Types (n : LabRPC.Network (St:=St)).

(** Each group is in order ([base_ok], and [precise] unless [P] says that it may
    be partitioned), no two own an end, and no server is registered that belongs
    to no group. *)
Record gs_ok (P : Z → bool) gs : Prop := {
  go_grp g G : grps gs !! g = Some G →
    gid G = g ∧ base_ok (mkWorld (gs_net gs) G) ∧ (P g = false → precise (mkWorld (gs_net gs) G));
  go_apart g g' G G' e : grps gs !! g = Some G → grps gs !! g' = Some G' → owns G e → owns G' e → g = g';
  go_free g i : (∀ G, grps gs !! g = Some G → ¬ in_grp G i) → lookup_zero None (ServerName g i) (servers (gs_net gs)) = None
}.

Lemma owns_name G e : grp_ok G → owns G e → ∃ a b, in_grp G a ∧ in_grp G b ∧ name G a b = e.
Proof.
  intros [_ Hl] (s & Hs & He). apply list_elem_of_lookup in Hs as [k Hk]. apply list_elem_of_lookup in He as [j Hj].
  pose proof (Forall_lookup_1 _ _ _ _ Hl Hk) as Hlen. exists (Z.of_nat k), (Z.of_nat j). unfold in_grp, N, name.
  rewrite !Nat2Z.id, Hk, Hj. apply lookup_lt_Some in Hk, Hj. cbn in *. split; [lia|]. split; [lia | done].
Qed.

Lemma name_owns G a b : grp_ok G → in_grp G a → in_grp G b → owns G (name G a b).
Proof.
  intros [_ Hl] Ha Hb. unfold in_grp, N in *. destruct (lookup_lt_is_Some_2 (srvs G) (Z.to_nat a)) as [s Hs]; [lia|].
  pose proof (Forall_lookup_1 _ _ _ _ Hl Hs) as Hlen. cbn in Hlen.
  destruct (lookup_lt_is_Some_2 (endNames s) (Z.to_nat b)) as [e He]; [lia|].
  exists s. split; [by eapply list_elem_of_lookup_2|]. unfold name. rewrite Hs, He. by eapply list_elem_of_lookup_2.
Qed.

Lemma owns_ends w e : base_ok w → owns (grp w) e → e ∈ ends (net w).
Proof. intros (Hok & _ & Hends & _) Ho. destruct (owns_name _ _ Hok Ho) as (a & b & Ha & Hb & <-). by apply Hends. Qed.

(** A group on a network in which its ends and registrations are as before. *)
Lemma base_ok_same n n' G :
  base_ok (mkWorld n G) →
  (∀ e, owns G e → e ∈ ends n' ∧ connections n' !! e = connections n !! e ∧
    lookup_zero false e (enabled n') = lookup_zero false e (enabled n)) →
  (∀ i, lookup_zero None (ServerName (gid G) i) (servers n') = lookup_zero None (ServerName (gid G) i) (servers n)) →
  base_ok (mkWorld n' G) ∧ (precise (mkWorld n G) → precise (mkWorld n' G)).
Proof.
  intros (Hok & Hinj & Hends & Hreg) He Hs. cbn [grp net] in *. split; [split; [done|split; [done|split]]|]; cbn [grp net].
  - intros a b Ha Hb. destruct (He _ (name_owns G a b Hok Ha Hb)) as (H1 & -> & _). split; [done|]. by apply Hends.
  - intros a s Ha Hsa. rewrite Hs. by apply Hreg.
  - intros Hp a b Ha Hb. unfold up. cbn [grp net]. destruct (He _ (name_owns G a b Hok Ha Hb)) as (_ & _ & ->). by apply Hp.
Qed.

(** Putting a group, old or new, into the map, with what the operation did to
    the network. *)
Lemma gs_ok_put (P P' : Z → bool) gs g w :
  gs_ok P gs → (∀ h, h ≠ g → P' h = P h) → gid (grp w) = g → base_ok w → (P' g = false → precise w) →
  (∀ e, e ∈ ends (gs_net gs) → (∀ G, grps gs !! g = Some G → ¬ owns G e) →
    e ∈ ends (net w) ∧ connections (net w) !! e = connections (gs_net gs) !! e ∧
    lookup_zero false e (enabled (net w)) = lookup_zero false e (enabled (gs_net gs)) ∧ ¬ owns (grp w) e) →
  (∀ g' i, g' ≠ g ∨ ¬ in_grp (grp w) i →
    lookup_zero None (ServerName g' i) (servers (net w)) = lookup_zero None (ServerName g' i) (servers (gs_net gs))) →
  (∀ G, grps gs !! g = Some G → N G = N (grp w)) →
  gs_ok P' (mkGroups (net w) (<[g := grp w]> (grps gs))).
Proof.
  intros Hgs HP Hg Hb Hp Hends Hsrv HN.
  assert (Hother : ∀ h G e, h ≠ g → grps gs !! h = Some G → owns G e →
    e ∈ ends (net w) ∧ connections (net w) !! e = connections (gs_net gs) !! e ∧
    lookup_zero false e (enabled (net w)) = lookup_zero false e (enabled (gs_net gs)) ∧ ¬ owns (grp w) e).
  { intros h G e Hne Hh Ho. apply Hends.
    - destruct (go_grp P gs Hgs h G Hh) as (_ & Hbh & _). exact (owns_ends _ e Hbh Ho).
    - intros G' HG' Ho'. by destruct (Hne (go_apart P gs Hgs h g G G' e Hh HG' Ho Ho')). }
  split; cbn [gs_net grps].
  - intros h G. rewrite lookup_insert_Some. intros [[<- <-]|[Hne HG]]; [by destruct w|].
    destruct (go_grp P gs Hgs h G HG) as (E & Hbh & Hph). split; [done|].
    destruct (base_ok_same (gs_net gs) (net w) G Hbh) as [H1 H2]; [| |split; [done|rewrite HP by done; auto]].
    + intros e Ho. destruct (Hother h G e) as (? & ? & ? & _); auto.
    + intros i. apply Hsrv. left. congruence.
  - intros h h' G G' e. rewrite !lookup_insert_Some. intros [[<- <-]|[Hne HG]] [[<- <-]|[Hne' HG']] Ho Ho'; [done|..].
    + by destruct (Hother h' G' e) as (_ & _ & _ & []).
    + by destruct (Hother h G e) as (_ & _ & _ & []).
    + by eapply (go_apart P gs Hgs).
  - intros h i Hfree. assert (Hh : h ≠ g ∨ ¬ in_grp (grp w) i).
    { destruct (decide (h = g)) as [->|Hne]; [right | by left]. apply Hfree. apply lookup_insert_eq. }
    rewrite Hsrv by done. apply (go_free P gs Hgs). intros G HG. destruct (decide (h = g)) as [->|Hne].
    + unfold in_grp. rewrite (HN G HG). by destruct Hh.
    + apply Hfree. by rewrite lookup_insert_ne.
Qed.

(** An operation on one group. *)
Lemma gs_ok_on (P P' : Z → bool) gs g G w :
  gs_ok P gs → (∀ h, h ≠ g → P' h = P h) → grps gs !! g = Some G → frame (mkWorld (gs_net gs) G) w → base_ok w →
  (P' g = false → precise w) → gs_ok P' (mkGroups (net w) (<[g := grp w]> (grps gs))).
Proof.
  intros Hgs HP HG [F1 F2 F3 F4 F5 F6] Hb Hp. cbn [grp net] in *. destruct (go_grp P gs Hgs g G HG) as (Eg & _ & _).
  apply (gs_ok_put P P'); [done|done|congruence|done|done|..].
  - intros e He Hn. specialize (Hn G HG). split; [auto|]. destruct (F5 e He Hn) as [-> ->]. split; [done|]. split; [done|]. auto.
  - intros h i Hh. apply F6. rewrite Eg. unfold in_grp, N in *. rewrite F2 in Hh. exact Hh.
  - intros G' HG'. unfold N. rewrite F2. congruence.
Qed.

(** A group as it is made. *)
Definition unstarted w : Prop :=
  (∀ i, conn (grp w) i = false) ∧ ∀ i s, srvs (grp w) !! i = Some s → dc s = false.

Lemma gs_ok_make (P P' : Z → bool) gs g nsrv rand w :
  gs_ok P gs → (∀ h, h ≠ g → P' h = P h) → grps gs !! g = None → makeSrvGrp g nsrv rand (gs_net gs) = Ret w →
  gs_ok P' (mkGroups (net w) (<[g := grp w]> (grps gs))) ∧ base_ok w ∧ precise w ∧ unstarted w ∧ length (srvs (grp w)) = nsrv.
Proof.
  intros Hgs HP Hg Hm.
  destruct (makeSrvGrp_ok _ _ _ _ _ Hm) as (Hb & Hp & Hl & Hgid).
  { intros i. apply (go_free P gs Hgs). intros G HG. congruence. }
  unfold makeSrvGrp in Hm. destruct (make_servers _ _ _ _ _ _) as [[l n']| |] eqn:E; [|done..]. injection Hm as <-.
  destruct (make_servers_spec _ _ _ _ _ _ _ _ E) as (_ & Hall & Hsrv & Hold & Hnew & _). cbn [grp net srvs gid] in *.
  assert (Hf : ∀ e, e ∈ ends (gs_net gs) → ¬ owns (mkGrp l (replicate nsrv false) g) e).
  { intros e He (s & Hs & Hes). cbn [srvs] in Hs. apply list_elem_of_lookup in Hs as [k Hk]. apply list_elem_of_lookup in Hes as [j Hj].
    by destruct (Hnew _ _ _ _ Hk Hj) as [[] _]. }
  split; [|split; [done|split; [done|split; [split|done]]]].
  - apply (gs_ok_put P P' gs g (mkWorld n' (mkGrp l (replicate nsrv false) g))); [done..| | |]; cbn [grp net].
    + intros e He _. destruct (Hold e He) as (H1 & -> & ->). split; [done|]. split; [done|]. split; [done|]. by apply Hf.
    + intros g' i _. by rewrite Hsrv.
    + intros G HG. congruence.
  - intros i. unfold conn. cbn [connected grp]. destruct (replicate nsrv false !! Z.to_nat i) as [b|] eqn:Hb'; [|done].
    by apply lookup_replicate in Hb' as [-> _].
  - intros i s Hs. cbn [srvs grp] in Hs. by apply (Forall_lookup_1 _ _ _ _ Hall Hs).
Qed.

(** What starting and shutting down do to the group itself. *)
Lemma StartServer_grp fresh i rand ok addr obj w w' :
  StartServer fresh i rand ok addr obj w = Ret w' →
  ∃ s', 0 <= i ∧ grp w' = mkGrp (<[Z.to_nat i := s']> (srvs (grp w))) (connected (grp w)) (gid (grp w)).
Proof.
  unfold StartServer. destruct (index (srvs (grp w)) i) as [s| |] eqn:Hs; [|done..]. cbn [mbind outcome_bind].
  destruct (startServer _ fresh rand s (net w)) as [[s1 n1]| |]; [|done..]. cbn [mbind outcome_bind].
  pose proof Hs as [Hi Hsi]%index_Ret. apply lookup_lt_Some in Hsi. rewrite store_Ret by lia. cbn [mbind outcome_bind set_srvs grp srvs].
  destruct ok; [rewrite store_Ret by (rewrite length_insert; lia)|]; cbn [mbind outcome_bind]; intros [= <-].
  - eexists. split; [done|]. cbn. by rewrite list_insert_insert_eq.
  - eexists. split; [done|]. reflexivity.
Qed.

Lemma ShutdownServer_grp p i w w' :
  ShutdownServer p i w = Ret w' →
  ∃ s' c, dc s' = false ∧ 0 <= i ∧ grp w' = mkGrp (<[Z.to_nat i := s']> (srvs (grp w))) c (gid (grp w)).
Proof.
  unfold ShutdownServer. intros H. assert (Hk : ∀ w1, disconnect i (all (grp w)) w = Ret w1 →
    srvs (grp w1) = srvs (grp w) ∧ gid (grp w1) = gid (grp w)).
  { unfold disconnect, Server_disconnect. clear H. intros w1. destruct (store _ i false) as [l| |]; [|done..]. cbn [mbind outcome_bind].
    assert (Hd : ∀ (f : Z → world → outcome string) l w1 w2, for_each (λ j w, e ← f j w; Ret (on_net (Enable e false) w)) l w1 = Ret w2 →
      grp w2 = grp w1).
    { intros f l0 w2 w3 Hf. apply (for_each_inv _ (λ _ w, grp w = grp w2) l0 w2 w3 Hf); [done|].
      intros j l' a b <-. destruct (f j a); [|done..]. by intros [= <-]. }
    destruct (for_each _ (all (grp w)) (set_connected l w)) as [w2| |] eqn:E; [|done..]. cbn [mbind outcome_bind]. intros H.
    apply (Hd (λ j w, end_name w i j)) in E. apply (Hd (λ j w, end_name w j i)) in H. by rewrite H, E. }
  destruct (disconnect i (all (grp w)) w) as [w1| |] eqn:E; [|done..]. cbn [mbind outcome_bind on_net grp] in H.
  destruct (Hk w1 eq_refl) as [<- <-]. destruct (index (srvs (grp w1)) i) as [s| |] eqn:Hs; [|done..]. cbn [mbind outcome_bind] in H.
  pose proof Hs as [Hi Hsi]%index_Ret. apply lookup_lt_Some in Hsi. rewrite store_Ret in H by lia. injection H as <-.
  eexists _, _. split; [|split; [done|reflexivity]]. unfold shutdownServer. by destruct (dc s) eqn:?.
Qed.

(** [StartServers] of a group just made. *)
Lemma StartServers_ok fresh l w w' :
  base_ok w → precise w → unstarted w → NoDup (sa_srv <$> l) → Forall (λ a, in_grp (grp w) (sa_srv a)) l →
  StartServers fresh l w = Ret w' → base_ok w' ∧ precise w'.
Proof.
  intros Hb Hp [Hc Hd] Hnd Hin. unfold StartServers, StartSrvs.
  destruct (for_each _ l w) as [w1| |] eqn:E; [|done..]. cbn [mbind outcome_bind]. intros H.
  assert (H1 : base_ok w1 ∧ precise w1).
  { apply (for_each_inv _ (λ l w1, base_ok w1 ∧ precise w1 ∧ NoDup (sa_srv <$> l) ∧ (∀ i, conn (grp w1) i = false) ∧
      Forall (λ a, in_grp (grp w1) (sa_srv a) ∧ ∀ s, srvs (grp w1) !! Z.to_nat (sa_srv a) = Some s → dc s = false) l)) in E.
    - by destruct E as (? & ? & _).
    - split; [done|]. split; [done|]. split; [done|]. split; [done|]. eapply Forall_impl; [exact Hin|]. intros a Ha. split; [done|].
      intros s. apply Hd.
    - intros a l' w2 w3 (Hb2 & Hp2 & [Hn2 Hnd2]%NoDup_cons & Hc2 & [[Ha Hda] Hl2]%Forall_cons) Hst.
      destruct (StartServer_ok _ _ _ _ _ _ _ _ Hb2 Ha (Hc2 _) Hda Hst) as [Hb3 Hp3].
      destruct (StartServer_grp _ _ _ _ _ _ _ _ Hst) as (s' & Hi & Hg).
      split; [done|]. split; [auto|]. split; [done|]. split; [intros i; rewrite Hg; apply Hc2|].
      rewrite Forall_forall in Hl2 |- *. intros b Hb'. destruct (Hl2 b Hb') as [Hbi Hbd].
      split; [unfold in_grp, N in *; rewrite Hg; cbn [srvs]; by rewrite length_insert|].
      intros s. rewrite Hg. cbn [srvs]. rewrite list_lookup_insert_ne; [apply Hbd|]. intros Heq. apply Hn2.
      replace (sa_srv a) with (sa_srv b) by (unfold in_grp in *; lia). by apply list_elem_of_fmap_2. }
  destruct H1 as [Hb1 Hp1]. destruct (ConnectAll_ok w1 Hb1) as (w2 & E2 & Hk & Hp2). rewrite H in E2. injection E2 as <-.
  split; [by eapply base_ok_keeps | done].
Qed.

(** [Shutdown] returns and leaves no process, and no end up, whatever
    partitions there were. *)
Definition stopped w : Prop := ∀ i, in_grp (grp w) i → lookup_zero None (ServerName (gid (grp w)) i) (servers (net w)) = None.

Lemma Shutdown_ok p w :
  base_ok w → ∃ w', Shutdown p w = Ret w' ∧ base_ok w' ∧ precise w' ∧ stopped w'.
Proof.
  intros Hb. unfold Shutdown, Kill.
  destruct (for_each_ok (λ i, ShutdownServer (p i) i) (λ l w1, base_ok w1 ∧ Forall (in_grp (grp w1)) l ∧
    (∀ a b, in_grp (grp w1) a → in_grp (grp w1) b → a ∉ l → up w1 a b = false ∧ conn (grp w1) a = false) ∧
    ∀ i s, in_grp (grp w1) i → i ∉ l → srvs (grp w1) !! Z.to_nat i = Some s → dc s = false) (all (grp w)) w)
    as (w' & E & Hb' & _ & Hq & Hd).
  - split; [done|]. split; [apply all_in_grp|]. split; [intros a b Ha _ [] | intros i s Hi []]; by apply elem_of_all.
  - intros i l w1 (Hb1 & [Hi Hl]%Forall_cons & Hq & Hd1).
    destruct (ShutdownServer_ok (p i) i w1 Hb1 Hi) as (w2 & Hst & Hb2 & Hin & Hc & Hu). exists w2. split; [done|].
    destruct (ShutdownServer_grp _ _ _ _ Hst) as (s' & c & Hs' & H0 & Hg).
    split; [done|]. split; [eapply Forall_impl; [exact Hl|]; intros j; apply Hin|]. split.
    + intros a b Ha%Hin Hb0%Hin Hn. rewrite Hu, Hc by done. destruct (decide (a = i)) as [->|Hne].
      * by rewrite decide_True by by left.
      * destruct (Hq a b Ha Hb0) as [-> ->]; [by intros [?|?]%elem_of_cons|]. by case_decide.
    + intros j s Hj Hn. rewrite Hg. cbn [srvs]. intros [(_ & <- & _)|[Hne Hs]]%list_lookup_insert_Some; [done|].
      apply (Hd1 j s); [by apply Hin| |done]. intros [->|?]%elem_of_cons; done.
  - exists w'. split; [done|]. split; [done|]. split.
    { intros a b Ha Hb0. destruct (Hq a b Ha Hb0) as [-> ->]; [by intros ?%elem_of_nil|done]. }
    intros i Hi. destruct (lookup_lt_is_Some_2 (srvs (grp w')) (Z.to_nat i)) as [s Hs]; [unfold in_grp, N in Hi; lia|].
    destruct Hb' as (_ & _ & _ & Hreg). apply eq_None_not_Some. intros Hsome. apply (Hreg i s) in Hsome; [|apply Hi|done].
    rewrite (Hd i s) in Hsome; [done|done|by intros ?%elem_of_nil|done].
Qed.

(** ** Runs *)

Inductive gs_op :=
| OMakeGroupStart (g : Z) (nsrv : nat) (rand : nat → nat → string) (fresh : Saved) (l : list (start_args (St:=St)))
| OGroup (g : Z) (op : grp_op (St:=St) (Saved:=Saved))
| OExitGroup (g : Z) (p : Z → Saved).

Definition gs_do (o : gs_op) gs : outcome (Groups (St:=St) (Saved:=Saved)) :=
  match o with
  | OMakeGroupStart g nsrv rand fresh l => MakeGroupStart g nsrv rand fresh l gs
  | OGroup g op => on_group g (grp_do op) gs
  | OExitGroup g p => ExitGroup g p gs
  end.

(** A group is made under a number that is not in use, and all its servers are
    started; the arguments of an operation on a group are in range. *)
Definition gs_allowed (o : gs_op) gs : Prop :=
  match o with
  | OMakeGroupStart g nsrv _ _ l => lookupGroup g gs = None ∧ sa_srv <$> l = seqZ 0 (Z.of_nat nsrv)
  | OGroup g op => ∀ G, lookupGroup g gs = Some G → allowed op (mkWorld (gs_net gs) G)
  | OExitGroup _ _ => True
  end.
Definition gs_step gs (o : gs_op) gs' : Prop := gs_allowed o gs ∧ gs_do o gs = Ret gs'.

Lemma on_group_ok (P P' : Z → bool) g (f : world → outcome world) gs gs' :
  gs_ok P gs → (∀ h, h ≠ g → P' h = P h) → on_group g f gs = Ret gs' →
  (∀ G w, grps gs !! g = Some G → base_ok (mkWorld (gs_net gs) G) → (P g = false → precise (mkWorld (gs_net gs) G)) →
    f (mkWorld (gs_net gs) G) = Ret w → frame (mkWorld (gs_net gs) G) w ∧ base_ok w ∧ (P' g = false → precise w)) →
  gs_ok P' gs'.
Proof.
  intros Hgs HP H Hf. unfold on_group, lookupGroup in H. destruct (grps gs !! g) as [G|] eqn:HG; [|done].
  destruct (f (mkWorld (gs_net gs) G)) as [w| |] eqn:E; [|done..]. injection H as <-.
  destruct (go_grp P gs Hgs g G HG) as (_ & Hb & Hp). destruct (Hf G w) as (H1 & H2 & H3); [done..|].
  by apply (gs_ok_on P P' gs g G).
Qed.

(** [Shutdown] of a group that is there. *)
Lemma on_Shutdown_ok P g p gs :
  gs_ok P gs → is_Some (grps gs !! g) →
  ∃ gs', on_group g (Shutdown p) gs = Ret gs' ∧ gs_ok P gs' ∧ (∀ h, is_Some (grps gs' !! h) ↔ is_Some (grps gs !! h)) ∧
    (∀ i, lookup_zero None (ServerName g i) (servers (gs_net gs')) = None) ∧
    ∀ h i, h ≠ g → lookup_zero None (ServerName h i) (servers (gs_net gs')) = lookup_zero None (ServerName h i) (servers (gs_net gs)).
Proof.
  intros Hgs [G HG]. destruct (go_grp P gs Hgs g G HG) as (Eg & Hb & _).
  destruct (Shutdown_ok p _ Hb) as (w & E & Hb' & Hp' & Hst). pose proof (frame_Shutdown _ _ _ E) as Hfr.
  unfold on_group, lookupGroup. rewrite HG, E. cbn [mbind outcome_bind]. eexists. split; [reflexivity|].
  assert (Hgs' : gs_ok P (mkGroups (net w) (<[g := grp w]> (grps gs)))) by (by apply (gs_ok_on P P gs g G)).
  split; [done|]. destruct Hfr as [F1 F2 _ _ _ F6]. cbn [grp net grps gs_net] in *. split; [|split].
  - intros h. destruct (decide (h = g)) as [->|Hne]; [rewrite lookup_insert_eq, HG; by split; eexists | by rewrite lookup_insert_ne].
  - intros i. destruct (decide (0 <= i < N (grp w))) as [Hi|Hi].
    + rewrite <- Eg, <- F1. by apply Hst.
    + apply (go_free _ _ Hgs'). cbn [grps]. intros G' HG'. rewrite lookup_insert_eq in HG'. injection HG' as <-. exact Hi.
  - intros h i Hne. apply F6. left. congruence.
Qed.

Lemma gs_ok_delete P gs g :
  gs_ok P gs → (∀ i, lookup_zero None (ServerName g i) (servers (gs_net gs)) = None) → gs_ok P (delete_group g gs).
Proof.
  intros [H1 H2 H3] Hn. split; cbn [delete_group grps gs_net].
  - intros h G [_ HG]%lookup_delete_Some. by apply H1.
  - intros h h' G G' e [_ HG]%lookup_delete_Some [_ HG']%lookup_delete_Some. by apply H2.
  - intros h i Hfree. destruct (decide (h = g)) as [->|Hne]; [done|]. apply H3. intros G HG. apply Hfree.
    by rewrite lookup_delete_ne.
Qed.

(** Whether a partition of group [g] may be in force: one was made since the
    group was made and since all its servers were last connected. *)
Definition gs_partitioned (g : Z) (before : bool) (o : gs_op) : bool :=
  match o with
  | OMakeGroupStart h _ _ _ _ => if decide (h = g) then false else before
  | OGroup h op => if decide (h = g) then grp_partitioned op before else before
  | OExitGroup _ _ => before
  end.
Definition partitioned (g : Z) (ops : list gs_op) : bool := fold_left (gs_partitioned g) ops false.

Lemma gs_step_ok P gs o gs' : gs_ok P gs → gs_step gs o gs' → gs_ok (λ g, gs_partitioned g (P g) o) gs'.
Proof.
  intros Hgs [Ha Hd]. destruct o as [g nsrv rand fresh l|g op|g p]; cbn [gs_allowed gs_do gs_partitioned] in *.
  - set (P' := λ h, if decide (g = h) then false else P h). destruct Ha as [Hg Hl]. unfold MakeGroupStart, MakeGroup in Hd.
    assert (HP : ∀ h, h ≠ g → P' h = P h) by (intros h Hne; unfold P'; by rewrite decide_False).
    destruct (makeSrvGrp g nsrv rand (gs_net gs)) as [w| |] eqn:E; [|done..]. cbn [mbind outcome_bind] in Hd.
    destruct (gs_ok_make P P' gs g nsrv rand w Hgs HP Hg E) as (Hgs1 & Hb & Hp & Hu & Hlen).
    apply (on_group_ok P' P' _ _ _ _ Hgs1 (λ _ _, eq_refl) Hd). cbn [grps gs_net]. intros G w1 HG Hb1 _ Hst.
    rewrite lookup_insert_eq in HG. injection HG as <-. split; [by eapply frame_StartServers|].
    destruct (StartServers_ok fresh l (mkWorld (net w) (grp w)) w1 Hb1) as [H1 H2]; [by destruct w..|rewrite Hl; apply NoDup_seqZ| |exact Hst|done].
    apply Forall_forall. intros a Ha. assert (Hin : sa_srv a ∈ sa_srv <$> l) by (by apply list_elem_of_fmap_2).
    rewrite Hl in Hin. apply elem_of_seqZ in Hin. unfold in_grp, N. cbn [grp]. lia.
  - apply (on_group_ok P (λ h, if decide (g = h) then grp_partitioned op (P h) else P h) g (grp_do op) gs gs' Hgs);
      [intros h Hne; by rewrite decide_False|done|]. intros G w HG Hb Hp Hw.
    assert (Hst : grp_step (mkWorld (gs_net gs) G) op w) by (by split; [apply Ha|]).
    split; [by eapply frame_do|]. split; [by apply (grp_step_ok _ op w Hb Hst)|]. rewrite decide_True by done.
    by apply (grp_step_precise (mkWorld (gs_net gs) G)).
  - unfold ExitGroup in Hd. destruct (on_group g (Shutdown p) gs) as [gs1| |] eqn:E; [|done..]. injection Hd as <-.
    assert (HG : is_Some (grps gs !! g)) by (unfold on_group, lookupGroup in E; by destruct (grps gs !! g)).
    destruct (on_Shutdown_ok P g p gs Hgs HG) as (gs2 & E2 & H1 & _ & H2 & _). rewrite E in E2. injection E2 as <-.
    by apply gs_ok_delete.
Qed.

Lemma gs_exec_ok P gs ops gs' : gs_ok P gs → exec gs_step gs ops gs' → gs_ok (λ g, fold_left (gs_partitioned g) ops (P g)) gs'.
Proof.
  intros Hgs Hex. revert P Hgs. induction Hex as [gs|gs o gs1 ops gs2 Hst _ IH]; intros P Hgs; [done|]. cbn [fold_left].
  by apply (IH (λ g, gs_partitioned g (P g) o)), (gs_step_ok P gs).
Qed.

(** [cleanup], in whatever order. *)
Lemma cleanup_ok P p range gs :
  gs_ok P gs → (∀ g, g ∈ range ↔ is_Some (grps gs !! g)) →
  ∃ gs', cleanup p range gs = Ret gs' ∧ ∀ g i, lookup_zero None (ServerName g i) (servers (gs_net gs')) = None.
Proof.
  intros Hgs Hr. unfold cleanup.
  destruct (for_each_ok (λ g, on_group g (Shutdown (p g))) (λ l gs1, gs_ok P gs1 ∧ (∀ g, is_Some (grps gs1 !! g) ↔ is_Some (grps gs !! g)) ∧
    (∀ g, g ∈ l → is_Some (grps gs !! g)) ∧
    ∀ g i, g ∉ l → lookup_zero None (ServerName g i) (servers (gs_net gs1)) = None) range gs) as (gs' & E & H1 & _ & _ & H2).
  - split; [done|]. split; [done|]. split; [intros g; apply Hr|]. intros g i Hg. apply (go_free P gs Hgs). intros G HG. destruct Hg.
    apply Hr. by eexists.
  - intros g l gs1 (Hgs1 & Hd & Hl & Hf). destruct (on_Shutdown_ok P g (p g) gs1 Hgs1) as (gs2 & E & Hgs2 & Hd2 & H0 & Hne).
    { apply Hd, Hl. by left. }
    exists gs2. split; [done|]. split; [done|]. split; [intros h; by rewrite Hd2|]. split; [intros h Hh; apply Hl; by right|].
    intros h i Hh. destruct (decide (h = g)) as [->|Hhg]; [apply H0|]. rewrite Hne by done. apply Hf.
    intros [->|?]%elem_of_cons; done.
  - exists gs'. split; [done|]. intros g i. apply H2. by intros ?%elem_of_nil.
Qed.

Lemma gs_ok_init P n : (∀ g i, lookup_zero None (ServerName g i) (servers n) = None) → gs_ok P (newGroups n).
Proof. intros Hn. split; cbn [newGroups grps gs_net]; [intros g G HG|intros g g' G G' e HG|done]; by rewrite lookup_empty in HG. Qed.
End runs.

(** [RaftSize], [SnapshotSize] and [MemSize] return the largest of the sizes. *)
Lemma max_loop_spec {Saved} size (l : list (Server (Saved:=Saved))) : ∀ i m r,
  max_loop size i l m = Ret r →
  m <= r ∧ (∀ k s, l !! k = Some s → ∃ n, size (i + Z.of_nat k) s = Ret n ∧ n <= r) ∧
  (r = m ∨ ∃ k s, l !! k = Some s ∧ size (i + Z.of_nat k) s = Ret r).
Proof.
  induction l as [|s l IH]; intros i m r; cbn [max_loop].
  - intros [= <-]. split; [lia|]. split; [done | by left].
  - destruct (size i s) as [n| |] eqn:E; [|done..]. cbn [mbind outcome_bind]. intros H.
    destruct (IH _ _ _ H) as (H1 & H2 & H3).
    assert (Hn : n <= r ∧ m <= r) by (case_decide; lia). split; [lia|]. split.
    + intros [|k] t Ht; cbn in Ht.
      * injection Ht as <-. exists n. rewrite Z.add_0_r. split; [done | lia].
      * replace (i + Z.of_nat (S k)) with (i + 1 + Z.of_nat k) by lia. by apply H2.
    + destruct H3 as [->|(k & t & Ht & Hr)].
      * case_decide; [right; exists 0%nat, s; by rewrite Z.add_0_r | by left].
      * right. exists (S k), t. split; [done|]. by replace (i + Z.of_nat (S k)) with (i + 1 + Z.of_nat k) by lia.
Qed.

(** ** Properties *)

(** However groups are made, removed, partitioned, and their servers started, shut
    down, connected and disconnected, groups do not interfere: in each group the
    end from one server to another leads to that server of that group, is enabled,
    if the group is not partitioned, exactly if both are connected, and reaches a
    registered server exactly if its process runs; no server of a group that is gone is registered; and [cleanup]
    returns and leaves no server registered, in whatever order it goes through
    the groups. *)
Theorem groups_are_independent {St Saved} (n : LabRPC.Network (St:=St)) ops (gs : Groups (Saved:=Saved)) :
  (∀ g i, lookup_zero None (ServerName g i) (servers n) = None) → exec gs_step (newGroups n) ops gs →
  (∀ g G a b, lookupGroup g gs = Some G → in_grp G a → in_grp G b →
    ∃ e up srv, end_name (mkWorld (gs_net gs) G) a b = Ret e ∧
      readEndnameInfo e (gs_net gs) = (up, Some (ServerName g b), srv, reliable (gs_net gs), longReordering (gs_net gs)) ∧
      (partitioned g ops = false → up = conn G a && conn G b) ∧
      ∀ s, srvs G !! Z.to_nat b = Some s → (is_Some srv ↔ dc s = true)) ∧
  (∀ g i, lookupGroup g gs = None → lookup_zero None (ServerName g i) (servers (gs_net gs)) = None) ∧
  ∀ p range, (∀ g, g ∈ range ↔ is_Some (lookupGroup g gs)) →
    ∃ gs', cleanup p range gs = Ret gs' ∧ ∀ g i, lookup_zero None (ServerName g i) (servers (gs_net gs')) = None.
Proof.
  intros Hn Hex. pose proof (gs_exec_ok (λ _, false) _ _ _ (gs_ok_init _ n Hn) Hex) as Hgs. split; [|split].
  - intros g G a b HG Ha Hb. destruct (go_grp _ gs Hgs g G HG) as (Eg & Hbw & Hpw).
    destruct (read_end _ a b Hbw Ha Hb) as (srv & Hread & Hreg). exists (name G a b), (up (mkWorld (gs_net gs) G) a b), srv.
    split; [exact (end_name_Ret (mkWorld (gs_net gs) G) a b (proj1 Hbw) Ha Hb)|]. cbn [grp net] in Hread. rewrite Eg in Hread.
    split; [exact Hread|]. split; [|exact Hreg]. intros HP. by apply (Hpw HP).
  - intros g i Hg. apply (go_free _ gs Hgs). intros G HG. unfold lookupGroup in Hg. congruence.
  - intros p range Hr. by apply (cleanup_ok _ p range gs Hgs).
Qed.

(** ** A test with three groups, one of which leaves *)

Module GroupsEx.
Abbreviation Groups := (Groups (St:=unit) (Saved:=unit)).
Definition names (g : Z) (i : nat) (k : nat) : string := GroupEx.rnd (100 * g + Z.of_nat i) k.
Definition args (g : Z) (k : nat) : list (start_args (St:=unit)) :=
  (λ i, mkStart i (GroupEx.rnd (1000 + 100 * g + i)) true (Z.to_nat (10 * g + i)) GroupEx.obj) <$> seqZ 0 (Z.of_nat k).
Definition make (g : Z) (k : nat) : gs_op (St:=unit) (Saved:=unit) := OMakeGroupStart g k (names g) tt (args g k).

Definition allowed_b (o : gs_op) (gs : Groups) : bool :=
  match o with
  | OMakeGroupStart g k _ _ l => bool_decide (is_Some (lookupGroup g gs) → False) && bool_decide (sa_srv <$> l = seqZ 0 (Z.of_nat k))
  | OGroup g op =>
      match lookupGroup g gs with Some G => GroupEx.allowed_b op (mkWorld (gs_net gs) G) | None => true end
  | OExitGroup _ _ => true
  end.

Lemma gs_allowed_b_allowed o gs : allowed_b o gs = true → gs_allowed o gs.
Proof.
  destruct o as [g k rand fresh l|g op|g p]; cbn [allowed_b gs_allowed]; [| |done].
  - intros [H1%bool_decide_eq_true H2%bool_decide_eq_true]%andb_prop. split; [by apply eq_None_not_Some | done].
  - intros H2 G HG. rewrite HG in H2. by apply GroupEx.allowed_b_allowed.
Qed.

Definition next (gs : Groups) (o : gs_op) : option Groups :=
  if allowed_b o gs then match gs_do o gs with Ret gs' => Some gs' | _ => None end else None.
Lemma gs_next_step gs o gs' : next gs o = Some gs' → gs_step gs o gs'.
Proof.
  unfold next. destruct (allowed_b o gs) eqn:E; [|done]. destruct (gs_do o gs) eqn:E'; intros; simplify_eq.
  split; [by apply gs_allowed_b_allowed | done].
Qed.

Definition ops : list gs_op :=
  [make 0 1; make 1 2; make 2 3; OGroup 2 (GDisconnectAll 0); OGroup 1 (GShutdownServer 0 tt); OExitGroup 1 (λ _, tt)].
Definition state : Groups := default (newGroups MakeNetwork) (run next (newGroups MakeNetwork) ops).
End GroupsEx.

Lemma groups_are_independent_witness :
  (∃ G e srv, lookupGroup 2 GroupsEx.state = Some G ∧ end_name (mkWorld (gs_net GroupsEx.state) G) 1 2 = Ret e ∧
    readEndnameInfo e (gs_net GroupsEx.state) = (true, Some "server-2-2", srv, true, false) ∧ is_Some srv) ∧
  lookup_zero None "server-1-1" (servers (gs_net GroupsEx.state)) = None.
Proof.
  destruct (groups_are_independent (MakeNetwork (St:=unit)) GroupsEx.ops GroupsEx.state) as (H1 & H2 & _).
  - intros g i. apply lookup_zero_empty.
  - apply (run_exec _ GroupsEx.next); [apply GroupsEx.gs_next_step | vm_compute; reflexivity].
  - split; [|exact (H2 1 1 eq_refl)].
    assert (HG : ∃ G s, lookupGroup 2 GroupsEx.state = Some G ∧ bool_decide (in_grp G 1 ∧ in_grp G 2) = true ∧
      conn G 1 && conn G 2 = true ∧ srvs G !! 2%nat = Some s ∧ dc s = true)
      by (eexists _, _; split; [vm_compute; reflexivity|]; vm_compute; repeat split).
    destruct HG as (G & s & HG & [Ha Hb]%bool_decide_eq_true & Hc & Hs & Hd).
    destruct (H1 2 G 1 2 HG Ha Hb) as (e & u & srv & He & Hr & Hu & Hreg). exists G, e, srv. split; [exact HG|]. split; [exact He|].
    split; [rewrite Hr, Hu, Hc by (vm_compute; reflexivity); vm_compute; reflexivity | by apply (Hreg s Hs)].
Defined.
