(* ===== verification/GroupFaults.v ===== *)
(** * Killing and restarting some of the servers of a group

    [Kill], [StartSrvs] and [ConnectAll] of [tester1/group.go], for any list of
    servers: what they do to every server of the group, to its flag and to what is
    registered under its name. The tests of [kvraft1] use them for all servers, the
    tests of [rsm] for those they choose. *)

From S2P Require Import Prelude Config LabRPC Clnts ServerGroup Groups.

Open Scope string_scope.
Open Scope list_scope.
Open Scope Z_scope.

Section faults.
Context {St Saved : Type}.
Implicit Types (w : world (St:=St) (Saved:=Saved)) (i : Z).

(** A server as the tester sees it: the server, whether it is connected, and who
    is registered under its name. *)
Definition registered_as w i : option nat := lookup_zero None (ServerName (gid (grp w)) i) (servers (net w)).
Definition view w i : option (Server (Saved:=Saved)) * bool * option nat :=
  (srvs (grp w) !! Z.to_nat i, conn (grp w) i, registered_as w i).

(** [i] is killed, with [p] for its persister. *)
Definition killed (p : Saved) w i : option (Server (Saved:=Saved)) * bool * option nat :=
  (shutdownServer p <$> srvs (grp w) !! Z.to_nat i, false, None).

Lemma ShutdownServer_exact p i w :
  base_ok w → in_grp (grp w) i →
  ∃ w', ShutdownServer p i w = Ret w' ∧ base_ok w' ∧ (precise w → precise w') ∧ gid (grp w') = gid (grp w) ∧
    (∀ j, in_grp (grp w') j ↔ in_grp (grp w) j) ∧
    ∀ j, in_grp (grp w) j → view w' j = if decide (j = i) then killed p w i else view w j.
Proof.
  intros Hb Hi. pose proof Hb as (Hok & Hinj & _).
  destruct (ShutdownServer_ok p i w Hb Hi) as (w' & E & Hb' & Hin' & Hcut). exists w'. split; [done|]. split; [done|].
  split; [by apply (cut_off_precise i)|].
  destruct (disconnect_Ret i (all (grp w)) w Hok Hinj Hi (all_in_grp _)) as (n' & Ed & (_ & _ & Hsv) & _).
  unfold ShutdownServer in E. rewrite Ed in E. cbn [mbind outcome_bind on_net grp srvs] in E.
  destruct (index_in_range (srvs (grp w)) i) as (s & Hs & Hl); [done|]. rewrite Hs in E. cbn [mbind outcome_bind] in E.
  rewrite store_Ret in E by done. injection E as <-. split; [done|].
  split; [intros j; unfold in_grp, N; cbn; by rewrite length_insert|].
  intros j Hj. unfold view, killed, registered_as. cbn [on_net set_srvs grp net srvs gid DeleteServer with_tables servers].
  rewrite (conn_insert _ (grp w) i j false Hi Hj (proj1 Hok)), lookup_zero_insert, Hsv.
  destruct (decide (j = i)) as [->|Hne].
  - by rewrite list_lookup_insert_eq, decide_True, Hl by (done || by eapply lookup_lt_Some).
  - rewrite list_lookup_insert_ne by (destruct Hi, Hj; lia). by rewrite decide_False by by intros ->%ServerName_inj.
Qed.

(** [Kill], of different servers. *)
Lemma Kill_exact p l w :
  base_ok w → NoDup l → Forall (in_grp (grp w)) l →
  ∃ w', Kill p l w = Ret w' ∧ base_ok w' ∧ (precise w → precise w') ∧ gid (grp w') = gid (grp w) ∧
    (∀ j, in_grp (grp w') j ↔ in_grp (grp w) j) ∧
    ∀ j, in_grp (grp w) j → view w' j = if decide (j ∈ l) then killed (p j) w j else view w j.
Proof.
  intros Hb Hnd Hl. revert w Hb Hl. unfold Kill. induction Hnd as [|i l Hi _ IH]; intros w Hb Hl.
  { exists w. split; [done|]. split; [done|]. split; [done|]. split; [done|]. split; [done|]. intros j _.
    by rewrite decide_False by by intros ?%elem_of_nil. }
  apply Forall_cons in Hl as [Hil Hl]. destruct (ShutdownServer_exact (p i) i w Hb Hil) as (w1 & E1 & Hb1 & Hp1 & Eg1 & Hin1 & Hv1).
  destruct (IH w1 Hb1) as (w2 & E2 & Hb2 & Hp2 & Eg2 & Hin2 & Hv2); [by eapply Forall_impl; [exact Hl|]; intros j; apply Hin1|].
  exists w2. cbn [for_each]. rewrite E1. cbn [mbind outcome_bind]. split; [done|]. split; [done|]. split; [auto|].
  split; [congruence|]. split; [intros j; by rewrite Hin2|]. intros j Hj. rewrite Hv2 by by apply Hin1.
  pose proof (Hv1 j Hj) as Hvj. destruct (decide (j = i)) as [->|Hne].
  - rewrite decide_False by done. by rewrite decide_True by by left.
  - destruct (decide (j ∈ l)) as [Hjl|Hjl].
    + rewrite decide_True by by right. unfold view in Hvj. injection Hvj as E _ _. unfold killed. by rewrite E.
    + by rewrite decide_False by by intros [?|?]%elem_of_cons.
Qed.

Lemma frame_Kill p l w w' : Kill p l w = Ret w' → frame w w'.
Proof. unfold Kill. apply (for_each_rel frame). intros i w1 w2. apply frame_ShutdownServer. Qed.

(** *** Starting servers *)

(** The server that [a] has started from [s]; it has new ends. *)
Definition started (fresh : Saved) (a : start_args (St:=St)) (s s' : Server (Saved:=Saved)) : Prop :=
  saved s' = Some (default fresh (saved s)) ∧ dc s' = sa_ok a.

Definition restartable w i : Prop :=
  in_grp (grp w) i ∧ conn (grp w) i = false ∧ ∀ s, srvs (grp w) !! Z.to_nat i = Some s → dc s = false.

Lemma StartServer_exact fresh a w w' :
  base_ok w → precise w → restartable w (sa_srv a) → sa_ok a = true →
  StartServer fresh (sa_srv a) (sa_rand a) (sa_ok a) (sa_addr a) (sa_obj a) w = Ret w' →
  base_ok w' ∧ precise w' ∧ gid (grp w') = gid (grp w) ∧ (∀ j, in_grp (grp w') j ↔ in_grp (grp w) j) ∧
  (∀ j, in_grp (grp w) j → j ≠ sa_srv a → view w' j = view w j) ∧
  ∃ s s', srvs (grp w) !! Z.to_nat (sa_srv a) = Some s ∧ started fresh a s s' ∧
    view w' (sa_srv a) = (Some s', false, Some (sa_addr a)).
Proof.
  intros Hb Hp (Hi & Hc & Hd) Hok H. destruct (StartServer_ok _ _ _ _ _ _ _ _ Hb Hi Hc Hd H) as [Hb' Hp'].
  split; [done|]. split; [auto|]. rewrite Hok in H. revert H. unfold StartServer, startServer, makeServer.
  destruct (index_in_range (srvs (grp w)) (sa_srv a)) as (s & Hs & Hl); [done|]. rewrite Hs. cbn [mbind outcome_bind].
  set (names := map (sa_rand a) _). destruct (make_ends _ 0 names (net w)) as [n1| |] eqn:En; [|done..].
  cbn [mbind outcome_bind saved endNames dc]. rewrite store_Ret by done. cbn [mbind outcome_bind set_srvs grp srvs net].
  rewrite store_Ret by (rewrite length_insert; done). cbn [mbind outcome_bind]. rewrite list_insert_insert_eq.
  pose proof (make_ends_spec _ _ _ _ _ En) as (_ & _ & _ & Hsrv & _). intros [= <-]. split; [done|].
  split; [intros j; unfold in_grp, N; cbn; by rewrite length_insert|].
  unfold view, registered_as. cbn [on_net set_srvs grp net srvs gid AddServer servers]. split.
  - intros j Hj Hne. rewrite list_lookup_insert_ne by (destruct Hi, Hj; lia). rewrite lookup_zero_insert, Hsrv.
    by rewrite decide_False by by intros ->%ServerName_inj.
  - exists s, (mkServer (Some (default fresh (saved s))) names true). split; [done|]. split; [by rewrite <- Hok|].
    rewrite list_lookup_insert_eq, lookup_zero_insert, decide_True by (done || by eapply lookup_lt_Some).
    unfold conn in Hc |- *. cbn [ServerGroup.connected]. by rewrite Hc.
Qed.

(** [StartSrvs], of different servers that do not run and are not connected. *)
Lemma StartSrvs_exact fresh l w w' :
  base_ok w → precise w → NoDup (sa_srv <$> l) → Forall (λ a, restartable w (sa_srv a) ∧ sa_ok a = true) l →
  StartSrvs fresh l w = Ret w' →
  base_ok w' ∧ precise w' ∧ gid (grp w') = gid (grp w) ∧ (∀ j, in_grp (grp w') j ↔ in_grp (grp w) j) ∧
  (∀ j, in_grp (grp w) j → j ∉ sa_srv <$> l → view w' j = view w j) ∧
  ∀ a, a ∈ l → ∃ s s', srvs (grp w) !! Z.to_nat (sa_srv a) = Some s ∧ started fresh a s s' ∧
    view w' (sa_srv a) = (Some s', false, Some (sa_addr a)).
Proof.
  intros Hb Hp Hnd Hl. revert w Hb Hp Hl. unfold StartSrvs. induction l as [|a l IH]; intros w Hb Hp Hl.
  { intros [= <-]. split; [done|]. split; [done|]. split; [done|]. split; [done|]. split; [done|]. by intros a ?%elem_of_nil. }
  apply NoDup_cons in Hnd as [Hn Hnd]. apply Forall_cons in Hl as [[Ha Hoka] Hl]. cbn [for_each].
  destruct (StartServer _ _ _ _ _ _ w) as [w1| |] eqn:E; [|done..]. cbn [mbind outcome_bind]. intros H.
  destruct (StartServer_exact fresh a w w1 Hb Hp Ha Hoka E) as (Hb1 & Hp1 & Eg1 & Hin1 & Hv1 & s & s' & Hs & Hst & Hva).
  destruct (IH Hnd w1 Hb1 Hp1) as (Hb2 & Hp2 & Eg2 & Hin2 & Hv2 & Hw2); [|done|].
  { rewrite Forall_forall in Hl |- *. intros b Hbl. destruct (Hl b Hbl) as [(Hbi & Hbc & Hbd) Hbok]. split; [|done].
    assert (Hne : sa_srv b ≠ sa_srv a) by (intros Heq; apply Hn; rewrite <- Heq; by apply list_elem_of_fmap_2).
    pose proof (Hv1 _ Hbi Hne) as Hv. injection Hv as E1 E2 _. split; [by apply Hin1|]. by rewrite E1, E2. }
  split; [done|]. split; [done|]. split; [congruence|]. split; [intros j; by rewrite Hin2|]. split.
  - intros j Hj [Hne Hjl]%not_elem_of_cons. rewrite Hv2, Hv1; [done|done|done|by apply Hin1|done].
  - intros b [->|Hbl]%elem_of_cons.
    + exists s, s'. split; [done|]. split; [done|]. rewrite Hv2; [done|by apply Hin1, Ha|done].
    + destruct (Hw2 b Hbl) as (t & t' & Ht & Htt & Hvt). exists t, t'. split; [|done]. rewrite Forall_forall in Hl.
      destruct (Hl b Hbl) as [(Hbi & _) _].
      assert (Hne : sa_srv b ≠ sa_srv a) by (intros Heq; apply Hn; rewrite <- Heq; by apply list_elem_of_fmap_2).
      pose proof (Hv1 _ Hbi Hne) as Hv. injection Hv as E1 _ _. by rewrite <- E1.
Qed.

(** [ConnectAll] connects every server. *)
Lemma ConnectAll_conn w w' :
  base_ok w → ConnectAll w = Ret w' → keeps w w' ∧ ∀ i, in_grp (grp w) i → conn (grp w') i = true.
Proof.
  intros Hb H. unfold ConnectAll in H.
  destruct (for_each_ok ConnectOne (λ l w1, keeps w w1 ∧ Forall (in_grp (grp w)) l ∧ ∀ i, in_grp (grp w) i → i ∉ l → conn (grp w1) i = true)
    (all (grp w)) w) as (w2 & E & Hk & _ & Hc).
  - split; [done|]. split; [apply all_in_grp|]. intros i Hi []. by apply elem_of_all.
  - intros x l w1 (Hk & [Hx Hl]%Forall_cons & Hc). pose proof (base_ok_keeps _ _ Hk Hb) as (Hok & Hinj & _).
    assert (Hx1 : in_grp (grp w1) x) by (by apply (keeps_in_grp w w1)).
    destruct (connect_Ret x (all (grp w1)) w1 Hok Hinj Hx1 (all_in_grp _)) as (n' & E & Ht & _).
    eexists. split; [exact E|]. split; [etrans; [exact Hk|by apply keeps_with_flags]|]. split; [done|].
    intros i Hi Hn. cbn [grp]. assert (Hi1 : in_grp (grp w1) i) by (by apply (keeps_in_grp w w1)).
    rewrite (conn_insert _ (grp w1)) by (done || apply Hok). case_decide as Hd; [done|]. apply Hc; [done|].
    by intros [?|?]%elem_of_cons.
  - rewrite H in E. injection E as <-. split; [done|]. intros i Hi. apply Hc; [done|]. by intros ?%elem_of_nil.
Qed.

(** [StartSrvs] and [ConnectAll]: then every server is connected. *)
Lemma StartServers_restart fresh l w w' :
  base_ok w → precise w → NoDup (sa_srv <$> l) → Forall (λ a, restartable w (sa_srv a) ∧ sa_ok a = true) l →
  StartServers fresh l w = Ret w' →
  base_ok w' ∧ precise w' ∧ gid (grp w') = gid (grp w) ∧ (∀ j, in_grp (grp w') j ↔ in_grp (grp w) j) ∧
  (∀ j, in_grp (grp w) j → j ∉ sa_srv <$> l → view w' j = (srvs (grp w) !! Z.to_nat j, true, registered_as w j)) ∧
  ∀ a, a ∈ l → ∃ s s', srvs (grp w) !! Z.to_nat (sa_srv a) = Some s ∧ started fresh a s s' ∧
    view w' (sa_srv a) = (Some s', true, Some (sa_addr a)).
Proof.
  intros Hb Hp Hnd Hl. unfold StartServers. destruct (StartSrvs fresh l w) as [w1| |] eqn:E; [|done..]. cbn [mbind outcome_bind]. intros H.
  destruct (StartSrvs_exact fresh l w w1 Hb Hp Hnd Hl E) as (Hb1 & Hp1 & Eg1 & Hin1 & Hv1 & Hw1).
  destruct (ConnectAll_ok w1 Hb1) as (w2 & E2 & Hk & Hpk). rewrite H in E2. injection E2 as <-.
  destruct (ConnectAll_conn w1 w' Hb1 H) as [_ Hc]. pose proof Hk as (K1 & K2 & _ & _ & _ & K3).
  assert (Hvk : ∀ j, in_grp (grp w) j → view w' j = (srvs (grp w1) !! Z.to_nat j, true, registered_as w1 j)).
  { intros j Hj. unfold view, registered_as. by rewrite K1, K2, K3, Hc by by apply Hin1. }
  split; [by eapply base_ok_keeps|]. split; [auto|]. split; [congruence|].
  split; [intros j; by rewrite (keeps_in_grp w1 w' j Hk), Hin1|]. split.
  - intros j Hj Hjl. rewrite Hvk by done. pose proof (Hv1 j Hj Hjl) as Hv. unfold view in Hv. injection Hv as -> _ ->. done.
  - intros a Ha. destruct (Hw1 a Ha) as (s & s' & Hs & Hst & Hv). exists s, s'. split; [done|]. split; [done|].
    rewrite Forall_forall in Hl. rewrite Hvk by apply (Hl a Ha). unfold view in Hv. injection Hv as -> _ ->. done.
Qed.
End faults.
