(* ===== verification/Testbed.v ===== *)
(** * The environment of a test: [Config] of [tester1/config.go]

    A test has one network, which its groups of servers ([Groups]) and its clients
    ([Clnts]) share, and counters of requests and operations ([Config]). Setting it
    up, the operations a test performs on it in any order, and taking it down. The
    forwarding between processes, the annotations and the operating system's
    settings are other files' or left out. *)

From S2P Require Import Prelude Config LabRPC Clnts ServerGroup Groups.

Open Scope string_scope.
Open Scope list_scope.
Open Scope Z_scope.

(** ** Operations *)

Section testbed.
Context {St Saved : Type}.
(** The order in which Go walks a client's map of ends. *)
Context (order : gmap string string → list (string * string)).

Abbreviation Network := (LabRPC.Network (St:=St)).
Abbreviation Groups := (Groups (St:=St) (Saved:=Saved)).
Abbreviation Clnts := (Clnts (St:=St)).

Record TestConfig := mkConfig {
  cf_net : Network;
  cf_grps : gmap Z (ServerGrp (Saved:=Saved));
  cf_clerks : gmap nat Clnt;
  cf_stats : stats
}.

(** The embedded fields [Groups] and [Clnts], which have the same network. *)
Definition cf_groups (c : TestConfig) : Groups := mkGroups (cf_net c) (cf_grps c).
Definition cf_clnts (c : TestConfig) : Clnts := mkClnts (cf_net c) (cf_clerks c).
Definition with_groups (c : TestConfig) (gs : Groups) : TestConfig := mkConfig (gs_net gs) (grps gs) (cf_clerks c) (cf_stats c).
Definition with_clnts (c : TestConfig) (t : Clnts) : TestConfig := mkConfig (Clnts.net t) (cf_grps c) (clerks t) (cf_stats c).
Definition with_net (c : TestConfig) (n : Network) : TestConfig := mkConfig n (cf_grps c) (cf_clerks c) (cf_stats c).
Definition with_stats (c : TestConfig) (s : stats) : TestConfig := mkConfig (cf_net c) (cf_grps c) (cf_clerks c) s.

Definition GRP0 : Z := 0.

(** [MakeConfig]; the counters are zero until [Begin]. *)
Definition MakeConfig (n : nat) (yes : bool) (rand : nat → nat → string) (fresh : Saved) (l : list (start_args (St:=St))) :
    outcome TestConfig :=
  gs ← MakeGroupStart GRP0 n rand fresh l (newGroups MakeNetwork);
  Ret (mkConfig (Reliable yes (gs_net gs)) (grps gs) ∅ (mkStats 0 0)).

Definition SetReliable (yes : bool) (c : TestConfig) : TestConfig := with_net c (Reliable yes (cf_net c)).
Definition Config_IsReliable (c : TestConfig) : bool := IsReliable (cf_net c).
Definition SetLongReordering (yes : bool) (c : TestConfig) : TestConfig := with_net c (LongReordering yes (cf_net c)).
Definition SetLongDelays (yes : bool) (c : TestConfig) : TestConfig := with_net c (LongDelays yes (cf_net c)).
Definition Config_Group (g : Z) (c : TestConfig) : option (ServerGrp (Saved:=Saved)) := lookupGroup g (cf_groups c).
Definition RpcTotal (c : TestConfig) : Z := GetTotalCount (cf_net c).
Definition BytesTotal (c : TestConfig) : Z := GetTotalBytes (cf_net c).
Definition Config_Begin (c : TestConfig) : TestConfig := with_stats c (Begin (RpcTotal c)).
(** One more operation is counted: by a [TestClerk] for each call, and by
    [Test.Get] and the tests of Raft and of the counter for themselves. *)
Definition Config_OpInc (c : TestConfig) : TestConfig := with_stats c (OpInc (cf_stats c)).
(** [Clnts.cleanup]; [range] is the order in which the map is walked. *)
Definition Clnts_cleanup (range : list nat) (t : Clnts) : outcome Clnts :=
  n ← for_each (λ id n, match clerks t !! id with Some c => remove order c n | None => Ret n end) range (Clnts.net t);
  Ret (mkClnts n ∅).

(** [Cleanup], up to the network's own, which closes its channel [done]: [net_next]
    of [LabRPC] with [NCleanup]. *)
Definition Cleanup (ids : list nat) (p : Z → Z → Saved) (range : list Z) (c : TestConfig) : outcome TestConfig :=
  t ← Clnts_cleanup ids (cf_clnts c);
  gs ← cleanup p range (cf_groups (with_clnts c t));
  Ret (with_groups (with_clnts c t) gs).

(** [CheckTimeout]; [elapsed] is the time since [MakeConfig]. *)
Definition second : Z := 10 ^ 9.
Definition CheckTimeout (failed : bool) (elapsed : Z) : outcome unit :=
  if negb failed && bool_decide (elapsed > 120 * second) then Fatal else Ret tt.

(** [End]: the numbers of servers, requests and operations that it prints. A group 0
    that has left is a nil dereference. *)
Definition Config_End (failed : bool) (elapsed : Z) (c : TestConfig) : outcome (option (Z * Z * Z)) :=
  CheckTimeout failed elapsed;;
  if failed then Ret None
  else match Config_Group GRP0 c with
       | None => Panic
       | Some G => let '(nrpc, ops) := End_stats (RpcTotal c) (cf_stats c) in Ret (Some (N G, nrpc, ops))
       end.

(** *** The clerks of a test: [kvtest1/kvtest.go] *)

(** [TestClerk.Put] and [TestClerk.Get] count an operation and call the clerk. *)
Definition TestClerk_call {R} (call : TestConfig → TestConfig * R) (c : TestConfig) : TestConfig * R := call (Config_OpInc c).

(** [Test.Get] and [Test.Put] of [kvtest1/porcupine.go], as far as they count
    ([CheckHistory] has what they log); [Get] counts the call again. *)
Definition Test_Get {R} (ck_Get : TestConfig → TestConfig * R) (c : TestConfig) : TestConfig * R :=
  let '(c, r) := ck_Get c in (Config_OpInc c, r).
Definition Test_Put {R} (ck_Put : TestConfig → TestConfig * R) (c : TestConfig) : TestConfig * R := ck_Put c.

(** [Test.ConnectClnts] *)
Definition ConnectClnts (ids : list nat) (c : TestConfig) : TestConfig :=
  fold_left (λ c id, match cf_clerks c !! id with
    | Some cl => with_clnts c (set_client id (Clnts.ConnectAll order cl (cf_net c)) (cf_clnts c))
    | None => c end) ids c.

(** ** Runs *)

Inductive test_op :=
| TReliable (yes : bool)
| TLongReordering (yes : bool)
| TLongDelays (yes : bool)
| TGroup (o : gs_op (St:=St) (Saved:=Saved))
| TClnt (o : clnt_op)
| TBegin
(** Somebody calls [OpInc]. *)
| TOpInc
(** A request enters the network, which counts it. *)
| TRequest (a : bytes).

Definition test_do (o : test_op) (c : TestConfig) : option (outcome TestConfig) :=
  match o with
  | TReliable yes => Some (Ret (SetReliable yes c))
  | TLongReordering yes => Some (Ret (SetLongReordering yes c))
  | TLongDelays yes => Some (Ret (SetLongDelays yes c))
  | TGroup o => Some (gs ← gs_do o (cf_groups c); Ret (with_groups c gs))
  | TClnt o => t ← clnt_do order o (cf_clnts c); Some (t ← t; Ret (with_clnts c t))
  | TBegin => Some (Ret (Config_Begin c))
  | TOpInc => Some (Ret (Config_OpInc c))
  | TRequest a => Some (Ret (with_net c (add_bytes (len a) (add_count (cf_net c)))))
  end.

Definition test_allowed (o : test_op) (c : TestConfig) : Prop :=
  match o with TGroup o => gs_allowed o (cf_groups c) | _ => True end.
Definition test_step (c : TestConfig) (o : test_op) (c' : TestConfig) : Prop :=
  test_allowed o c ∧ test_do o c = Some (Ret c').

(** The operations on groups among those of a run, and those on clients. *)
Definition group_ops (ops : list test_op) : list (gs_op (St:=St) (Saved:=Saved)) :=
  omap (λ o, match o with TGroup o => Some o | _ => None end) ops.
Definition clnt_ops (ops : list test_op) : list clnt_op := omap (λ o, match o with TClnt o => Some o | _ => None end) ops.
End testbed.

(** ** Clients and groups on one network *)

Section facts.
Context {St Saved : Type} (order : gmap string string → list (string * string)).
Context (any_order : ∀ m, order m ≡ₚ map_to_list m).
Implicit Types (c : TestConfig (St:=St) (Saved:=Saved)) (n : LabRPC.Network (St:=St)).
Implicit Types (gs : Groups (St:=St) (Saved:=Saved)) (t : Clnts (St:=St)).

(** An end is as it was. *)
Definition same_end n n' (e : string) : Prop :=
  e ∈ ends n' ∧ connections n' !! e = connections n !! e ∧ lookup_zero false e (enabled n') = lookup_zero false e (enabled n).

Definition group_end gs (e : string) : Prop := ∃ g G, grps gs !! g = Some G ∧ owns G e.
Definition client_end t (e : string) : Prop := ∃ id cl srv, clerks t !! id = Some cl ∧ c_ends cl !! srv = Some e.

(** *** The groups when something else has changed the network *)

Lemma gs_ok_net P gs n' :
  gs_ok P gs → (∀ e, group_end gs e → same_end (gs_net gs) n' e) → servers n' = servers (gs_net gs) →
  gs_ok P (mkGroups n' (grps gs)).
Proof using.
  intros Hgs He Hs. split; cbn [gs_net grps].
  - intros g G HG. destruct (go_grp P gs Hgs g G HG) as (Eg & Hb & Hp). split; [done|].
    destruct (base_ok_same (gs_net gs) n' G Hb) as [H1 H2]; [| |by split; [|auto]].
    + intros e Ho. apply He. by exists g, G.
    + intros i. by rewrite Hs.
  - apply Hgs.
  - intros g i. rewrite Hs. apply Hgs.
Qed.

Lemma group_end_in P gs e : gs_ok P gs → group_end gs e → e ∈ ends (gs_net gs).
Proof using. intros Hgs (g & G & HG & Ho). destruct (go_grp P gs Hgs g G HG) as (_ & Hb & _). exact (owns_ends _ e Hb Ho). Qed.

(** *** The clients when something else has changed the network *)

Lemma synced_net t n' ops :
  synced t ops → (∀ e, client_end t e → same_end (Clnts.net t) n' e) → synced (mkClnts n' (clerks t)) ops.
Proof using.
  intros [[He Hu] Hv] Hs. split; [split|]; cbn [clerks Clnts.net].
  - intros id cl srv e Hc Hce. destruct (He id cl srv e Hc Hce) as [_ Hcon].
    destruct (Hs e) as (Hin & Hc' & _); [by exists id, cl, srv|]. split; [done|]. unfold lookup_zero in *. by rewrite Hc'.
  - apply Hu.
  - intros id srv. specialize (Hv id srv). unfold agrees in *. cbn [clerks Clnts.net].
    destruct (clerks t !! id) as [cl|] eqn:Hc; [|done]. destruct (view_after id srv ops) as [v|]; [|done].
    destruct Hv as [H1 H2]. split; [done|]. destruct (c_ends cl !! srv) as [e|] eqn:Hce; [|done].
    destruct (Hs e) as (_ & _ & ->); [by exists id, cl, srv|]. done.
Qed.

(** *** What a group's operation leaves alone *)

Lemma on_group_frame g (f : world → outcome (world (St:=St) (Saved:=Saved))) gs gs' e :
  on_group g f gs = Ret gs' → (∀ w w', f w = Ret w' → frame w w') →
  e ∈ ends (gs_net gs) → ¬ group_end gs e → same_end (gs_net gs) (gs_net gs') e ∧ ¬ group_end gs' e.
Proof using.
  intros H Hf He Hn. unfold on_group, lookupGroup in H. destruct (grps gs !! g) as [G|] eqn:HG; [|done].
  destruct (f (mkWorld (gs_net gs) G)) as [w| |] eqn:E; [|done..]. injection H as <-.
  destruct (Hf _ _ E) as [_ _ F3 F4 F5 _]. cbn [net grp] in *.
  assert (Ho : ¬ owns G e) by (intros Ho; apply Hn; by exists g, G).
  split; [split; [by apply F3|by apply F5]|]. intros (h & G' & HG' & Ho'). cbn [grps] in HG'.
  apply lookup_insert_Some in HG' as [[<- <-]|[_ HG']]; [by apply Ho, F4|]. apply Hn. by exists h, G'.
Qed.

Lemma make_group_frame g nsrv rand gs (w : world (St:=St) (Saved:=Saved)) e :
  makeSrvGrp g nsrv rand (gs_net gs) = Ret w → e ∈ ends (gs_net gs) →
  same_end (gs_net gs) (net w) e ∧ ¬ owns (grp w) e.
Proof using.
  intros Hm He. unfold makeSrvGrp in Hm. destruct (make_servers _ _ _ _ _ _) as [[l n']| |] eqn:E; [|done..]. injection Hm as <-.
  destruct (make_servers_spec _ _ _ _ _ _ _ _ E) as (_ & Hall & Hsrv & Hold & Hnew & _). cbn [grp net srvs].
  split; [by apply Hold|]. intros (s & Hs & Hes). cbn [srvs] in Hs.
  apply list_elem_of_lookup in Hs as [k Hk]. apply list_elem_of_lookup in Hes as [j Hj].
  by destruct (Hnew _ _ _ _ Hk Hj) as [[] _].
Qed.

Lemma same_end_trans n1 n2 n3 e : same_end n1 n2 e → same_end n2 n3 e → same_end n1 n3 e.
Proof using. intros (H1 & H2 & H3) (K1 & K2 & K3). split; [done|]. by rewrite K2, K3. Qed.

Lemma gs_step_frame gs o gs' e :
  gs_step gs o gs' → e ∈ ends (gs_net gs) → ¬ group_end gs e → same_end (gs_net gs) (gs_net gs') e ∧ ¬ group_end gs' e.
Proof using.
  intros [_ Hd] He Hn. destruct o as [g nsrv rand fresh l|g op|g p]; cbn [gs_do] in Hd.
  - unfold MakeGroupStart, MakeGroup in Hd. destruct (makeSrvGrp g nsrv rand (gs_net gs)) as [w| |] eqn:E; [|done..].
    cbn [mbind outcome_bind] in Hd. destruct (make_group_frame g nsrv rand gs w e E He) as [Hs Ho].
    destruct (on_group_frame _ _ _ _ e Hd) as [H1 H2]; cbn [gs_net grps] in *; try done.
    + intros w1 w2. apply frame_StartServers.
    + apply Hs.
    + intros (h & G & HG & Hoh). cbn [grps] in HG. apply lookup_insert_Some in HG as [[<- <-]|[_ HG]]; [done|]. apply Hn. by exists h, G.
    + split; [|done]. by eapply same_end_trans.
  - apply (on_group_frame _ _ _ _ e Hd); [intros w w'; apply frame_do|done|done].
  - unfold ExitGroup in Hd. destruct (on_group g (Shutdown p) gs) as [gs1| |] eqn:E; [|done..]. injection Hd as <-.
    destruct (on_group_frame _ _ _ _ e E) as [H1 H2]; [intros w w'; apply frame_Shutdown|done|done|].
    split; [done|]. intros (h & G & HG & Ho). cbn [delete_group grps] in HG. apply lookup_delete_Some in HG as [_ HG]. apply H2. by exists h, G.
Qed.

(** *** What a client's operation leaves alone *)

Lemma set_ends_other P b l n e : e ∉ l.*2 → e ∈ ends n → same_end n (set_ends P b l n) e.
Proof using.
  intros Hl He. destruct (set_ends_tables P b l n) as (E1 & E2 & _). unfold same_end. rewrite E1, E2. split; [done|]. split; [done|].
  rewrite set_ends_enabled, decide_False; [done|]. rewrite Exists_exists. intros (x & Hx & _ & <-).
  by apply Hl, list_elem_of_fmap_2.
Qed.

Lemma order_client t id cl e : clerks t !! id = Some cl → e ∈ (order (c_ends cl)).*2 → client_end t e.
Proof using any_order.
  intros Hc ([s e'] & -> & Hin)%list_elem_of_fmap. rewrite any_order in Hin. apply elem_of_map_to_list in Hin. by exists id, cl, s.
Qed.

Lemma client_end_set t id cl cl' n e :
  clerks t !! id = Some cl → (∀ srv, c_ends cl' !! srv = Some e → client_end t e) →
  client_end (set_client id (cl', n) t) e → client_end t e.
Proof using.
  intros Hc Hn (i & d & srv & Hd & He). cbn [set_client clerks fst] in Hd.
  apply lookup_insert_Some in Hd as [[<- <-]|[_ Hd]]; [by eapply Hn|by exists i, d, srv].
Qed.

(** Deleting ends, exactly. *)
Lemma delete_ends_exact (l : list (string * string)) n n' :
  for_each (λ x n, DeleteEnd x.2 n) l n = Ret n' →
  (∀ e, e ∈ ends n' ↔ e ∈ ends n ∧ e ∉ l.*2) ∧ servers n' = servers n ∧
  ∀ e, e ∉ l.*2 → connections n' !! e = connections n !! e ∧ lookup_zero false e (enabled n') = lookup_zero false e (enabled n).
Proof using.
  clear order any_order. revert n. induction l as [|[s x] l IH]; intros n; cbn [for_each].
  { intros [= <-]. split; [|done]. intros e. cbn [fmap list_fmap]. set_solver. }
  cbn [snd]. destruct (DeleteEnd x n) as [n1| |] eqn:Ed; [|done..]. cbn [mbind outcome_bind]. intros H.
  unfold DeleteEnd in Ed. case_decide as Hx; [|done]. injection Ed as <-.
  destruct (IH _ H) as (H1 & H2 & H3). cbn [with_tables ends servers connections enabled] in *. rewrite fmap_cons. cbn [snd]. split; [|split; [done|]].
  - intros e. rewrite H1, not_elem_of_cons. set_solver.
  - intros e [Hne He]%not_elem_of_cons. destruct (H3 e He) as [-> ->]. rewrite lookup_delete_ne by done. split; [done|].
    unfold lookup_zero. by rewrite lookup_delete_ne.
Qed.

(** A loop over the ends of client [id]. *)
Lemma loop_frame t id cl srvs P b e :
  clerks t !! id = Some cl → e ∈ ends (Clnts.net t) → ¬ client_end t e →
  let t' := set_client id (mkClnt (c_ends cl) srvs, set_ends P b (order (c_ends cl)) (Clnts.net t)) t in
  same_end (Clnts.net t) (Clnts.net t') e ∧ ¬ client_end t' e.
Proof using any_order.
  intros Hc He Hn t'. split; [apply set_ends_other; [|done]; intros Hin; by eapply Hn, order_client|].
  intros Hce. apply Hn. eapply (client_end_set t id cl); [done| |exact Hce]. intros srv Hs. by exists id, cl, srv.
Qed.

Lemma clnt_step_frame t op t' e :
  ends_ok t → clnt_step order t op t' → e ∈ ends (Clnts.net t) → ¬ client_end t e →
  same_end (Clnts.net t) (Clnts.net t') e ∧ ¬ client_end t' e.
Proof using any_order.
  intros Hok Hst He Hn. unfold clnt_step in Hst.
  destruct op as [id srvs|id name server|id|id l|id srv0|id|id]; cbn [clnt_do] in Hst.
  - case_decide as Hid; [|done]. injection Hst as <-. split; [done|]. intros (i & d & srv & Hd & Hde).
    cbn [MakeClientTo clerks] in Hd. apply lookup_insert_Some in Hd as [[<- <-]|[_ Hd]].
    + cbn [makeClntTo c_ends] in Hde. by rewrite lookup_empty in Hde.
    + apply Hn. by exists i, d, srv.
  - apply bind_Some in Hst as (cl & Hc & Hm). injection Hm as Hm.
    destruct (makeEnd name server cl (Clnts.net t)) as [[[e' cl'] n']| |] eqn:E; [|done..]. injection Hm as <-.
    unfold makeEnd in E. destruct (c_ends cl !! server) as [e0|] eqn:He0.
    + injection E as <- <- <-. split; [done|]. intros Hce. apply Hn.
      eapply (client_end_set t id cl); [done| |exact Hce]. intros srv Hs. by exists id, cl, srv.
    + unfold MakeEnd in E. case_decide as Hnew; [done|]. cbn [mbind outcome_bind] in E. injection E as <- <- <-.
      assert (Hne : name ≠ e) by (by intros ->). split.
      * unfold same_end. cbn [set_client Clnts.net snd Enable Connect with_tables ends connections enabled].
        rewrite !lookup_zero_insert, !decide_False by done. rewrite !lookup_insert_ne by done. split; [set_solver|done].
      * intros Hce. apply Hn. eapply (client_end_set t id cl); [done| |exact Hce]. intros srv Hs. cbn [c_ends] in Hs.
        apply lookup_insert_Some in Hs as [[_ ?]|[_ Hs]]; [done|]. by exists id, cl, srv.
  - apply bind_Some in Hst as (cl & Hc & Hm). injection Hm as <-. exact (loop_frame t id cl None (λ _, true) true e Hc He Hn).
  - apply bind_Some in Hst as (cl & Hc & Hm). injection Hm as <-. exact (loop_frame t id cl (Some l) (allowedL (mkClnt (c_ends cl) (Some l))) true e Hc He Hn).
  - apply bind_Some in Hst as (cl & Hc & Hm). injection Hm as <-.
    replace (Disconnect order srv0 cl (Clnts.net t)) with
      (mkClnt (c_ends cl) (c_srvs cl), set_ends (λ s, bool_decide (s = srv0)) false (order (c_ends cl)) (Clnts.net t)) by (by destruct cl).
    exact (loop_frame t id cl (c_srvs cl) (λ s, bool_decide (s = srv0)) false e Hc He Hn).
  - apply bind_Some in Hst as (cl & Hc & Hm). injection Hm as <-. exact (loop_frame t id cl (Some []) (λ _, true) false e Hc He Hn).
  - injection Hst as Hst. unfold DeleteClient in Hst. destruct (clerks t !! id) as [cl|] eqn:Hc; [|by injection Hst as <-].
    unfold remove in Hst. destruct (for_each _ (order (c_ends cl)) (Clnts.net t)) as [n'| |] eqn:E; [|done..].
    cbn [mbind outcome_bind] in Hst. injection Hst as <-. cbn [Clnts.net clerks].
    destruct (delete_ends_exact _ _ _ E) as (H1 & _ & H3).
    assert (Hnot : e ∉ (order (c_ends cl)).*2) by (intros Hin; by eapply Hn, order_client). split.
    + split; [by apply H1|]. by apply H3.
    + intros (i & d & srv & Hd & Hde). cbn [clerks] in Hd. apply lookup_delete_Some in Hd as [_ Hd]. apply Hn. by exists i, d, srv.
Qed.

Lemma clnt_step_servers t op t' : clnt_step order t op t' → servers (Clnts.net t') = servers (Clnts.net t).
Proof using.
  intros Hst. unfold clnt_step in Hst. destruct op as [id srvs|id name server|id|id l|id srv0|id|id]; cbn [clnt_do] in Hst.
  - case_decide; [|done]. by injection Hst as <-.
  - apply bind_Some in Hst as (cl & Hc & Hm). injection Hm as Hm.
    destruct (makeEnd name server cl (Clnts.net t)) as [[[e' cl'] n']| |] eqn:E; [|done..]. injection Hm as <-.
    unfold makeEnd, MakeEnd in E. destruct (c_ends cl !! server); [by injection E as <- <- <-|]. case_decide; [done|]. by injection E as <- <- <-.
  - apply bind_Some in Hst as (cl & Hc & Hm). injection Hm as <-. apply set_ends_tables.
  - apply bind_Some in Hst as (cl & Hc & Hm). injection Hm as <-. apply set_ends_tables.
  - apply bind_Some in Hst as (cl & Hc & Hm). injection Hm as <-. apply set_ends_tables.
  - apply bind_Some in Hst as (cl & Hc & Hm). injection Hm as <-. apply set_ends_tables.
  - injection Hst as Hst. unfold DeleteClient, remove in Hst. destruct (clerks t !! id) as [cl|]; [|by injection Hst as <-].
    destruct (for_each _ _ _) as [n'| |] eqn:E; [|done..]. injection Hst as <-. by destruct (delete_ends_exact _ _ _ E) as (_ & ? & _).
Qed.

(** ** The invariant *)

Record tb_ok (P : Z → bool) c (ops : list clnt_op) : Prop := {
  tb_groups : gs_ok P (cf_groups c);
  tb_clnts : synced (cf_clnts c) ops;
  tb_apart : ∀ e, client_end (cf_clnts c) e → ¬ group_end (cf_groups c) e
}.

(** Flags and counters of the network, and statistics, do not matter. *)
Lemma tb_ok_net P c ops n' s :
  tb_ok P c ops → ends n' = ends (cf_net c) → connections n' = connections (cf_net c) → enabled n' = enabled (cf_net c) →
  servers n' = servers (cf_net c) → tb_ok P (mkConfig n' (cf_grps c) (cf_clerks c) s) ops.
Proof using.
  intros [Hg Hs Ha] E1 E2 E3 E4.
  assert (Hsame : ∀ e, e ∈ ends (cf_net c) → same_end (cf_net c) n' e) by (intros e He; unfold same_end; by rewrite E1, E2, E3).
  split; [| |exact Ha].
  - apply (gs_ok_net P (cf_groups c)); [done| |done]. intros e He. apply Hsame. by apply (group_end_in P (cf_groups c)).
  - apply (synced_net (cf_clnts c)); [done|]. intros e (id & cl & srv & Hc & He). apply Hsame.
    by destruct Hs as [[Hin _] _]; destruct (Hin id cl srv e Hc He).
Qed.

Lemma client_end_in t e : ends_ok t → client_end t e → e ∈ ends (Clnts.net t).
Proof using. intros [H _] (id & cl & srv & Hc & He). by destruct (H id cl srv e Hc He). Qed.

Lemma test_step_ok P c ops o c' :
  tb_ok P c ops → test_step order c o c' → tb_ok (λ g, fold_left (gs_partitioned g) (group_ops [o]) (P g)) c' (ops ++ clnt_ops [o]).
Proof using any_order.
  intros Hok [Hal Hd]. pose proof Hok as [Hg [He Hv] Ha].
  destruct o as [yes|yes|yes|o|o| | |a]; cbn [test_do clnt_ops group_ops omap list_omap fold_left] in *; rewrite ?app_nil_r.
  - injection Hd as <-. by apply tb_ok_net.
  - injection Hd as <-. by apply tb_ok_net.
  - injection Hd as <-. by apply tb_ok_net.
  - injection Hd as Hd. destruct (gs_do o (cf_groups c)) as [gs| |] eqn:E; [|done..]. injection Hd as <-.
    assert (Hst : gs_step (cf_groups c) o gs) by done.
    assert (Hfr : ∀ e, client_end (cf_clnts c) e → same_end (cf_net c) (gs_net gs) e ∧ ¬ group_end gs e).
    { intros e Hce. apply (gs_step_frame _ _ _ e Hst); [by apply (client_end_in (cf_clnts c))|by apply Ha]. }
    split; cbn.
    + replace (cf_groups (with_groups c gs)) with gs by (by destruct gs). by apply (gs_step_ok P (cf_groups c)).
    + apply (synced_net (cf_clnts c)); [done|]. intros e Hce. by apply Hfr.
    + intros e Hce Hge. destruct (Hfr e Hce) as [_ Hn]. apply Hn. by destruct gs.
  - apply bind_Some in Hd as (ot & Hot & Hd). injection Hd as Hd. destruct ot as [t| |]; [|done..]. injection Hd as <-.
    assert (Hst : clnt_step order (cf_clnts c) o t) by done.
    assert (Hfr : ∀ e, group_end (cf_groups c) e → same_end (cf_net c) (Clnts.net t) e ∧ ¬ client_end t e).
    { intros e Hge. apply (clnt_step_frame _ _ _ e He Hst); [by apply (group_end_in P (cf_groups c))|]. intros Hce. by apply (Ha e). }
    split.
    + apply (gs_ok_net P (cf_groups c)); [done| |by apply (clnt_step_servers _ _ _ Hst)]. intros e Hge. by apply Hfr.
    + replace (cf_clnts (with_clnts c t)) with t by (by destruct t). by eapply synced_do.
    + intros e Hce Hge. destruct (Hfr e Hge) as [_ Hn]. apply Hn. by destruct t.
  - injection Hd as <-. by apply tb_ok_net.
  - injection Hd as <-. by apply tb_ok_net.
  - injection Hd as <-. by apply tb_ok_net.
Qed.

Lemma test_exec_ok P c ops os c' :
  tb_ok P c ops → exec (test_step order) c os c' → tb_ok (λ g, fold_left (gs_partitioned g) (group_ops os) (P g)) c' (ops ++ clnt_ops os).
Proof using any_order.
  intros Hok Hex. revert P ops Hok. induction Hex as [c|c o c1 os c2 Hst _ IH]; intros P ops Hok; [by rewrite app_nil_r|].
  pose proof (IH _ _ (test_step_ok P c ops o c1 Hok Hst)) as H. rewrite <- app_assoc in H.
  by destruct o; cbn [clnt_ops group_ops omap list_omap fold_left app] in *.
Qed.

Lemma MakeConfig_ok k yes rand fresh (l : list (start_args (St:=St))) c :
  sa_srv <$> l = seqZ 0 (Z.of_nat k) → MakeConfig k yes rand fresh l = Ret c → tb_ok (λ _, false) c [].
Proof using.
  intros Hl. unfold MakeConfig. destruct (MakeGroupStart GRP0 k rand fresh l (newGroups MakeNetwork)) as [gs| |] eqn:E; [|done..].
  intros [= <-]. apply (tb_ok_net _ (mkConfig (gs_net gs) (grps gs) ∅ (mkStats 0 0)) [] (Reliable yes (gs_net gs))); try done.
  assert (H0 : gs_ok (λ _, false) (newGroups (Saved:=Saved) (MakeNetwork (St:=St)))) by by apply gs_ok_init.
  pose proof (gs_step_ok _ _ (OMakeGroupStart GRP0 k rand fresh l) gs H0 ltac:(by split)) as Hgs. cbn [gs_partitioned] in Hgs.
  split.
  - destruct gs as [n gm]. destruct Hgs as [H1 H2 H3]. split; [|exact H2|exact H3]. intros g G HG.
    destruct (H1 g G HG) as (A1 & A2 & A3). split; [done|]. split; [done|]. intros _. apply A3. by case_decide.
  - apply synced_init.
  - intros e (id & cl & srv & Hc & _). cbn in Hc. by rewrite lookup_empty in Hc.
Qed.

(** *** Taking down *)

(** What [Clnts.cleanup] has to do with [ids] and has done with the others. *)
Record removed t (ids : list nat) n : Prop := {
  rm_nodup : NoDup ids;
  rm_left : ∀ id cl srv e, id ∈ ids → clerks t !! id = Some cl → c_ends cl !! srv = Some e → e ∈ ends n;
  rm_gone : ∀ id cl srv e, id ∉ ids → clerks t !! id = Some cl → c_ends cl !! srv = Some e → e ∉ ends n;
  rm_same : ∀ e, e ∈ ends (Clnts.net t) → ¬ client_end t e → same_end (Clnts.net t) n e;
  rm_servers : servers n = servers (Clnts.net t)
}.

Lemma elem_order t id cl srv e : clerks t !! id = Some cl → c_ends cl !! srv = Some e → e ∈ (order (c_ends cl)).*2.
Proof using any_order.
  intros Hc He. apply list_elem_of_fmap. exists (srv, e). split; [done|]. rewrite any_order. by apply elem_of_map_to_list.
Qed.

Lemma removed_step t id ids n :
  ends_ok t → removed t (id :: ids) n → is_Some (clerks t !! id) →
  ∃ n', match clerks t !! id with Some cl => remove order cl n | None => Ret n end = Ret n' ∧ removed t ids n'.
Proof using any_order.
  intros Hok [Hnd Hl Hg Hs Hv] [cl Hc]. apply NoDup_cons in Hnd as [Hni Hnd]. rewrite Hc. unfold remove.
  destruct (delete_ends_spec order any_order (order (c_ends cl)) n) as (n' & Hr & _).
  { by eapply order_names. }
  { apply Forall_forall. intros [s x] Hin. rewrite any_order in Hin. apply elem_of_map_to_list in Hin. eapply Hl; [by left|exact Hc|exact Hin]. }
  exists n'. split; [done|]. destruct (delete_ends_exact _ _ _ Hr) as (H1 & H2 & H3).
  assert (Hown : ∀ i d srv e, clerks t !! i = Some d → c_ends d !! srv = Some e → e ∈ (order (c_ends cl)).*2 ↔ i = id).
  { intros i d srv e Hd He. split; [|by intros ->; rewrite Hc in Hd; injection Hd as <-; by eapply elem_order].
    intros ([s x] & -> & Hin)%list_elem_of_fmap. rewrite any_order in Hin. apply elem_of_map_to_list in Hin.
    by destruct (eo_unique _ Hok _ _ _ _ _ _ _ Hd He Hc Hin) as [-> _]. }
  split; [done| | | |by rewrite H2].
  - intros i d srv e Hi Hd He. apply H1. split; [eapply Hl; [by right|exact Hd|exact He]|].
    rewrite (Hown i d srv e Hd He). by intros ->.
  - intros i d srv e Hi Hd He. rewrite H1, (Hown i d srv e Hd He). destruct (decide (i = id)) as [->|Hne]; [naive_solver|].
    intros [Hin _]. eapply (Hg i); [|exact Hd|exact He|exact Hin]. by intros [?|?]%elem_of_cons.
  - intros e He Hn. destruct (Hs e He Hn) as (K1 & K2 & K3).
    assert (Hnot : e ∉ (order (c_ends cl)).*2) by (intros Hin; by eapply Hn, order_client).
    destruct (H3 e Hnot) as [E1 E2]. split; [by apply H1|]. by rewrite E1, E2.
Qed.

Lemma Clnts_cleanup_ok t ids :
  ends_ok t → NoDup ids → (∀ id, id ∈ ids ↔ is_Some (clerks t !! id)) →
  ∃ n, Clnts_cleanup order ids t = Ret (mkClnts n ∅) ∧ removed t [] n.
Proof using any_order.
  intros Hok Hnd Hids. unfold Clnts_cleanup.
  destruct (for_each_ok (λ id n, match clerks t !! id with Some c => remove order c n | None => Ret n end)
    (λ l n, removed t l n ∧ ∀ id, id ∈ l → is_Some (clerks t !! id)) ids (Clnts.net t)) as (n & E & Hr & _).
  - split; [|intros id; apply Hids]. split; [done| | |done|done].
    + intros id cl srv e _ Hc He. by destruct (eo_ends _ Hok id cl srv e Hc He).
    + intros id cl srv e Hn Hc. destruct Hn. apply Hids. by eexists.
  - intros id l n [Hr Hl]. destruct (removed_step t id l n Hok Hr) as (n' & E & Hr'); [apply Hl; by left|].
    exists n'. split; [done|]. split; [done|]. intros id' Hid'. apply Hl. by right.
  - exists n. rewrite E. by split.
Qed.
End facts.

(** How often [OpInc] was called since the last [Begin]; a call of a clerk may
    count more than once ([Get_counted_twice]). *)
Definition count_op {St Saved} (k : Z) (o : test_op (St:=St) (Saved:=Saved)) : Z :=
  match o with TBegin => 0 | TOpInc => k + 1 | _ => k end.
Definition ops_since_Begin {St Saved} (ops : list (test_op (St:=St) (Saved:=Saved))) : Z := fold_left count_op ops 0.

Lemma wrapS_add_1 w z : 0 < w → wrapS w (wrapS w z + 1) = wrapS w (z + 1).
Proof.
  intros Hw. unfold wrapS. set (m := 2 ^ w). set (h := 2 ^ (w - 1)). assert (Hm : 0 < m) by (apply Z.pow_pos_nonneg; lia).
  f_equal. replace ((z + h) `mod` m - h + 1 + h) with ((z + h) `mod` m + 1) by lia. rewrite Z.add_mod_idemp_l by lia. f_equal. lia.
Qed.

Lemma ops_counted {St Saved} order (c c' : TestConfig (St:=St) (Saved:=Saved)) os :
  ops (cf_stats c) = 0 → exec (test_step order) c os c' → ops (cf_stats c') = wrapS 32 (ops_since_Begin os).
Proof.
  intros H0 Hex. unfold ops_since_Begin.
  assert (H : ops (cf_stats c) = wrapS 32 0) by (by rewrite H0). clear H0. revert H. generalize 0.
  induction Hex as [c|c o c1 os c2 [_ Hd] _ IH]; intros k Hk; [done|]. cbn [fold_left]. apply IH.
  unfold count_op. destruct o; cbn [test_do] in Hd; simplify_eq/=; try done.
  - destruct (gs_do o (cf_groups c)); simplify_eq/=. done.
  - apply bind_Some in Hd as (ot & _ & Hd). destruct ot; simplify_eq/=. done.
  - rewrite Hk. by apply wrapS_add_1.
Qed.

Lemma makeEnd_flags {St} name server cl (n : LabRPC.Network (St:=St)) e cl' n' :
  makeEnd name server cl n = Ret (e, cl', n') →
  servers n' = servers n ∧ reliable n' = reliable n ∧ longReordering n' = longReordering n.
Proof.
  unfold makeEnd, MakeEnd. destruct (c_ends cl !! server); [by intros [= <- <- <-]|]. case_decide; [done|]. by intros [= <- <- <-].
Qed.

(** Who is registered: the running servers of the groups that are there. *)
Lemma registered {St Saved} P (gs : Groups (St:=St) (Saved:=Saved)) g b :
  gs_ok P gs →
  is_Some (lookup_zero None (ServerName g b) (servers (gs_net gs))) ↔
  ∃ G s, grps gs !! g = Some G ∧ 0 <= b ∧ srvs G !! Z.to_nat b = Some s ∧ dc s = true.
Proof.
  intros Hgs. split.
  - intros [x Hx]. destruct (grps gs !! g) as [G|] eqn:HG; [|by rewrite (go_free P gs Hgs) in Hx by (intros ? ?; congruence)].
    destruct (decide (in_grp G b)) as [Hb|Hb].
    + destruct (lookup_lt_is_Some_2 (srvs G) (Z.to_nat b)) as [s Hs]; [unfold in_grp, N in Hb; lia|].
      exists G, s. split; [done|]. split; [apply Hb|]. split; [done|].
      destruct (go_grp P gs Hgs g G HG) as (<- & (_ & _ & _ & Hr) & _). apply (Hr b s); [apply Hb|done|by eexists].
    + rewrite (go_free P gs Hgs) in Hx; [done|]. intros G' HG'. congruence.
  - intros (G & s & HG & Hb & Hs & Hd). destruct (go_grp P gs Hgs g G HG) as (<- & (_ & _ & _ & Hr) & _). by apply (Hr b s).
Qed.

(** A call of [Test.Get] with a [TestClerk] counts as two operations, one of
    [Test.Put] as one, although [End] reports the count as the number of calls. *)
Lemma Get_counted_twice {St Saved} {R} (clerk : TestConfig (St:=St) (Saved:=Saved) → TestConfig * R) c k :
  (∀ c, cf_stats (clerk c).1 = cf_stats c) → ops (cf_stats c) = wrapS 32 k →
  ops (cf_stats (Test_Get (TestClerk_call clerk) c).1) = wrapS 32 (k + 2) ∧
  ops (cf_stats (Test_Put (TestClerk_call clerk) c).1) = wrapS 32 (k + 1).
Proof.
  intros Hcl Hk. specialize (Hcl (Config_OpInc c)). unfold Test_Get, Test_Put, TestClerk_call.
  destruct (clerk (Config_OpInc c)) as [c1 r]. cbn [fst] in *. cbn [Config_OpInc with_stats cf_stats OpInc ops] in *.
  rewrite Hcl. unfold OpInc. cbn [ops]. rewrite Hk. split; [|by apply wrapS_add_1]. rewrite (wrapS_add_1 32 k), (wrapS_add_1 32 (k + 1)) by done. by replace (k + 1 + 1) with (k + 2) by lia.
Qed.


(** ** A test: three servers, clients, a second group, a partition and a crash *)

Module TestbedEx.
Abbreviation TestConfig := (TestConfig (St:=unit) (Saved:=unit)).
Definition begin : outcome TestConfig := MakeConfig 3 false (GroupsEx.names 0) tt (GroupsEx.args 0 3).
Definition start : TestConfig := match begin with Ret c => c | _ => mkConfig MakeNetwork ∅ ∅ (mkStats 0 0) end.

Definition allowed_b (o : test_op) (c : TestConfig) : bool :=
  match o with TGroup o => GroupsEx.allowed_b o (cf_groups c) | _ => true end.
Definition next (c : TestConfig) (o : test_op) : option TestConfig :=
  if allowed_b o c then match test_do map_to_list o c with Some (Ret c') => Some c' | _ => None end else None.

Lemma test_next_step c o c' : next c o = Some c' → test_step map_to_list c o c'.
Proof.
  unfold next. destruct (allowed_b o c) eqn:E; [|done]. destruct (test_do map_to_list o c) as [[c1| |]|] eqn:Ed; intros [= <-].
  split; [|done]. destruct o; try done. by apply GroupsEx.gs_allowed_b_allowed.
Qed.

Definition ops : list test_op :=
  [TOpInc; TBegin; TClnt (OpMake 0 None); TOpInc; TClnt (OpEnd 0 "c0" "server-0-1"); TRequest "get"; TGroup (GroupsEx.make 2 2);
   TClnt (OpMake 1 None); TGroup (OGroup 0 (GPartition [0; 2] [1])); TGroup (OGroup 0 (GShutdownServer 1 tt)); TClnt (OpEnd 1 "c1" "server-2-0"); TOpInc;
   TClnt (OpDisconnect 0 "server-0-1"); TLongReordering true].
Definition state : TestConfig := default start (run next start ops).
End TestbedEx.

