(* ===== verification/ShardTest.v ===== *)
(** * The test of sharded services: [shardkv1/test.go]

    The tester changes the configuration of a sharded service by the controller
    ([shardctrler]), which is left to be written there: it is a parameter here, of
    which only the comments of [shardctrler.go] are assumed. The servers of a
    group ([ServerGroup]) are here up or down. *)

From stdpp Require Import pretty.
From S2P Require Import Prelude JsonInt ShardCfg LabRPC ServerGroup.

Open Scope string_scope.
Open Scope list_scope.
Open Scope Z_scope.

(** ** Data and operations *)

Definition NSRV : Z := 3.
Definition Gid1 : Z := 1.

(** [SrvNames] of a group of [NSRV] servers. *)
Definition SrvNames (gid : Z) : list string := map (ServerName gid) (seqZ 0 NSRV).

(** What the tester keeps of its groups and what it has of the controllers, [C];
    [grps] says whether the servers of a group are up. *)
Record world {C : Type} := mkWorld { ngid : Z; grps : gmap Z bool; ctl : C }.
Arguments world : clear implicits.
Arguments mkWorld {C} _ _ _.

(** A call that may run forever ([None]), as [Rebalance] is modelled. *)
Abbreviation call A := (option (outcome A)).
Definition then_ {A B} (m : call A) (k : A → call B) : call B :=
  match m with
  | None => None
  | Some (Ret a) => k a
  | Some Fatal => Some Fatal
  | Some Panic => Some Panic
  end.
Local Notation "x ⇠ m ; k" := (then_ m (λ x, k)) (at level 20, m at level 100, k at level 200, right associativity).
Local Notation "' x ⇠ m ; k" := (then_ m (λ x : _, k)) (at level 20, x pattern, m at level 100, k at level 200, only parsing).
Local Abbreviation ret x := (Some (Ret x)).

Section test.
Context {C : Type} (Query : C → ShardConfig) (ChangeConfigTo : ShardConfig → C → C).
Abbreviation world := (world C).

Definition set_ctl (f : C → C) (w : world) : world := mkWorld (ngid w) (grps w) (f (ctl w)).

(** [int] wraps around. *)
Definition newGid (w : world) : Z * world := (ngid w, mkWorld (wrapS 64 (ngid w + 1)) (grps w) (ctl w)).

Fixpoint groups (n : nat) (w : world) : list Z * world :=
  match n with
  | O => ([], w)
  | S n => let '(gid, w) := newGid w in let '(gids, w) := groups n w in (gid :: gids, w)
  end.

(** [Config.MakeGroupStart] and [Config.ExitGroup]. *)
Definition MakeGroupStart (gid : Z) (w : world) : world := mkWorld (ngid w) (<[gid := true]> (grps w)) (ctl w).
Definition ExitGroup (gid : Z) (w : world) : outcome world :=
  match grps w !! gid with
  | None => Panic
  | Some _ => Ret (mkWorld (ngid w) (delete gid (grps w)) (ctl w))
  end.
Definition Group_SrvNames (gid : Z) (w : world) : outcome (list string) :=
  match grps w !! gid with None => Panic | Some _ => Ret (SrvNames gid) end.

(** The configurations that [join] and [leave] make from the one they find; to
    find the group there, or not there, is fatal. *)
Definition changed (r : call (ShardConfig * bool)) : call ShardConfig :=
  '(newcfg, ok) ⇠ r; if ok : bool then ret newcfg else Some Fatal.
Definition join_config (gid : Z) (srvs : list string) (cfg : ShardConfig) : call ShardConfig :=
  changed (JoinBalance [(gid, srvs)] (Copy cfg)).
Definition leave_config (gid : Z) (cfg : ShardConfig) : call ShardConfig := changed (LeaveBalance [gid] (Copy cfg)).

Definition checkMember (gid : Z) (w : world) : bool := IsMember gid (Query (ctl w)).
Definition join (gid : Z) (srvs : list string) (w : world) : call world :=
  newcfg ⇠ join_config gid srvs (Query (ctl w)); ret (set_ctl (ChangeConfigTo newcfg) w).
Definition leave (gid : Z) (w : world) : call world :=
  newcfg ⇠ leave_config gid (Query (ctl w)); ret (set_ctl (ChangeConfigTo newcfg) w).

Fixpoint joinGroups (gids : list Z) (w : world) : call (bool * world) :=
  match gids with
  | [] => ret (true, w)
  | gid :: gids =>
      let w := MakeGroupStart gid w in
      srvs ⇠ Some (Group_SrvNames gid w);
      w ⇠ join gid srvs w;
      if checkMember gid w then joinGroups gids w else ret (false, w)
  end.

Fixpoint leaveGroups (gids : list Z) (w : world) : call (bool * world) :=
  match gids with
  | [] => ret (true, w)
  | gid :: gids =>
      w ⇠ leave gid w;
      if checkMember gid w then ret (false, w)
      else w ⇠ Some (ExitGroup gid w); leaveGroups gids w
  end.

(** [setupKVService]; [InitConfig] is the controller's. *)
Definition setupKVService (InitConfig : ShardConfig → C → C) (w : world) : call (Z * world) :=
  let w := MakeGroupStart Gid1 w in
  srvs ⇠ Some (Group_SrvNames Gid1 w);
  '(scfg, _) ⇠ JoinBalance [(Gid1, srvs)] MakeShardConfig;
  ret (Gid1, set_ctl (InitConfig scfg) w).

(** ** Concurrent controllers *)

(** The goroutine [f] of [concurCtrler], and the one of [partitionCtrler], which
    differ in what they do when deposed: between any two of these points others
    may run. *)
Inductive pc :=
| Select
| Start (gid : Z)
| JoinQuery (gid : Z)
| JoinChange (gid : Z) (newcfg : ShardConfig)
| JoinCheck (gid : Z)
| Check (gid : Z)
| LeaveQuery (gid : Z)
| LeaveChange (gid : Z) (newcfg : ShardConfig)
| LeaveCheck (gid : Z)
| Exit (gid : Z)
| Stopped.

(** The next step of a goroutine; the result of [joinGroups] is not used. *)
Definition act (deposed : pc) (p : pc) (w : world) : call (pc * world) :=
  match p with
  | Select => let '(gid, w) := newGid w in ret (Start gid, w)
  | Start gid => ret (JoinQuery gid, MakeGroupStart gid w)
  | JoinQuery gid =>
      srvs ⇠ Some (Group_SrvNames gid w);
      newcfg ⇠ join_config gid srvs (Query (ctl w)); ret (JoinChange gid newcfg, w)
  | JoinChange gid newcfg => ret (JoinCheck gid, set_ctl (ChangeConfigTo newcfg) w)
  | JoinCheck gid => ret (Check gid, w)
  | Check gid => ret (if checkMember gid w then LeaveQuery gid else deposed, w)
  | LeaveQuery gid => newcfg ⇠ leave_config gid (Query (ctl w)); ret (LeaveChange gid newcfg, w)
  | LeaveChange gid newcfg => ret (LeaveCheck gid, set_ctl (ChangeConfigTo newcfg) w)
  | LeaveCheck gid => ret (if checkMember gid w then Select else Exit gid, w)
  | Exit gid => w ⇠ Some (ExitGroup gid w); ret (Select, w)
  | Stopped => ret (Stopped, w)
  end.
End test.

(** What a goroutine does whose group has not become a member. *)
Definition partitionCtrler_deposed : pc := Stopped.
Definition concurCtrler_deposed : pc := Select.

(** What [shardctrler.go] says of concurrent controllers: a call of
    [ChangeConfigTo] asks for a configuration, and a controller, the same or one
    that takes over, may at any time make a configuration that was asked for
    the current one, provided it is the next; or never, when superseded. *)
Class Controller (C : Type) (Query : C → ShardConfig) (ChangeConfigTo : ShardConfig → C → C) := {
  asked : C → ShardConfig → Prop;
  work : C → C → Prop;
  Query_ChangeConfigTo new c : Query (ChangeConfigTo new c) = Query c;
  asked_ChangeConfigTo new c p : asked (ChangeConfigTo new c) p → p = new ∨ asked c p;
  asked_work c c' p : work c c' → asked c' p → asked c p;
  Query_work c c' : work c c' → Query c' = Query c ∨ (asked c (Query c') ∧ Num (Query c') = Num (Query c) + 1)
}.

Section system.
Context {C : Type} (Query : C → ShardConfig) (ChangeConfigTo : ShardConfig → C → C).
Context `{!Controller C Query ChangeConfigTo} (deposed : pc).

Record sys := mkSys { sw : world C; procs : gmap nat pc }.

Inductive event := Run (t : nat) | Stop (t : nat) | Work (c : C).

Inductive step : sys → event → sys → Prop :=
| step_run s t p p' w' :
    procs s !! t = Some p → act Query ChangeConfigTo deposed p (sw s) = Some (Ret (p', w')) →
    step s (Run t) (mkSys w' (<[t := p']> (procs s)))
| step_stop s t : procs s !! t = Some Select → step s (Stop t) (mkSys (sw s) (<[t := Stopped]> (procs s)))
| step_work s c : work (ctl (sw s)) c → step s (Work c) (mkSys (set_ctl (λ _, c) (sw s)) (procs s)).
End system.

(** ** [checkShutdownSharding] *)

(** The goroutine that gets the [i]-th key: it waits for the answer, may find the
    test over ([Silent]), sends its verdict on the answer, and is received. *)
Inductive getter := Getting | Got (v : string) | Silent | Sending (v : string) | Received (v : string).

Record shutdown := mkShutdown { done : bool; ndone : Z; getters : list getter; verdict : option (outcome unit) }.

Definition get_error (key expected v : string) : string :=
  let nl := String (Ascii.ascii_of_nat 10) "" in
  if decide (v ≠ expected) then "Get(" +:+ key +:+ "): expected:" +:+ nl +:+ expected +:+ nl +:+ "received:" +:+ nl +:+ v
  else "".

Definition set_getter (i : nat) (g : getter) (s : shutdown) : shutdown :=
  mkShutdown (done s) (ndone s) (<[i := g]> (getters s)) (verdict s).

Inductive sd_event := Answer (i : nat) (v : string) | Report (i : nat) | Receive (i : nat) | Timeout.

(** The goroutines and the loop of the tester, which a time-out ends; to have no
    expected value is a panic. *)
Definition sd_next (ka va : list string) (s : shutdown) (e : sd_event) : option shutdown :=
  match e with
  | Answer i v => g ← getters s !! i; match g with Getting => Some (set_getter i (Got v) s) | _ => None end
  | Report i =>
      g ← getters s !! i;
      match g with
      | Got v =>
          if done s then Some (set_getter i Silent s)
          else match va !! i with
               | Some _ => Some (set_getter i (Sending v) s)
               | None => Some (mkShutdown (done s) (ndone s) (getters s) (Some Panic))
               end
      | _ => None
      end
  | Receive i =>
      g ← getters s !! i; key ← ka !! i; expected ← va !! i;
      match g, verdict s, done s with
      | Sending v, None, false =>
          Some (if decide (get_error key expected v ≠ "")
                then mkShutdown false (ndone s) (<[i := Received v]> (getters s)) (Some Fatal)
                else mkShutdown false (ndone s + 1) (<[i := Received v]> (getters s)) None)
      | _, _, _ => None
      end
  | Timeout =>
      match verdict s, done s with
      | None, false =>
          Some (mkShutdown true (ndone s) (getters s)
            (Some (if decide (ndone s >= Z.of_nat (length ka)) then Fatal else Ret tt)))
      | _, _ => None
      end
  end.

Definition sd_init (ka : list string) : shutdown := mkShutdown false 0 (replicate (length ka) Getting) None.
Definition sd_step (ka va : list string) (s : shutdown) (e : sd_event) (s' : shutdown) : Prop := sd_next ka va s e = Some s'.

(** ** Changing a configuration *)

(** What a configuration of the tester is: balanced, with the servers of each
    group under their names, and with the first group in it. *)
Record good (c : ShardConfig) : Prop := {
  gd_serves : serves_all_keys c;
  gd_assigned : assigned c;
  gd_names g l : Groups c !! g = Some l → l = SrvNames g;
  gd_base : is_group c Gid1
}.

Lemma names_disjoint (m : gmap Z (list string)) :
  (∀ g l, m !! g = Some l → l = SrvNames g) → servers_disjoint m.
Proof.
  intros Hn g g' l l' s Hne Hl Hl' Hs Hs'. apply Hn in Hl as ->. apply Hn in Hl' as ->.
  unfold SrvNames in *. rewrite list_elem_of_fmap in Hs, Hs'.
  destruct Hs as (i & -> & _), Hs' as (i' & E%ServerName_gid & _). done.
Qed.

Lemma good_wf c : good c → cfg_wf c.
Proof. intros [[? _] _ _ _]. done. Qed.

(** The configuration that a change makes of [c], given the groups it leaves. *)
Lemma changed_ok c m :
  cfg_wf c → is_Some (m !! Gid1) → (∀ g l, m !! g = Some l → l = SrvNames g) →
  ∃ new, changed (rebalanced (Ret (mkShardConfig (wrapS 64 (Num c + 1)) (Shards c) m, true))) = ret new ∧
    good new ∧ Groups new = m ∧ Num new = wrapS 64 (Num c + 1) ∧ balanced new ∧
    ∀ g, is_Some (m !! g) → g ∈ Shards c → g ∈ Shards new.
Proof.
  intros Hwf Hb Hn. set (c1 := mkShardConfig (wrapS 64 (Num c + 1)) (Shards c) m).
  assert (Hne : Groups c1 ≠ ∅) by (intros E; destruct Hb as [? Hb]; cbn [c1 Groups] in E; by rewrite E, lookup_empty in Hb).
  destruct (Rebalance_total c1 Hwf) as (new & Hr & HG & HN & Hwf' & _ & Has & Hbal). exists new.
  split; [cbn [rebalanced]; by rewrite Hr|]. split; [split|split; [done|split; [done|split; [done|]]]].
  - by apply (Rebalance_serves c1).
  - by apply Has.
  - rewrite HG. exact Hn.
  - unfold is_group. by rewrite HG.
  - intros g Hg Hin. exact (Rebalance_keeps c1 new g Hwf Hr Hg Hin).
Qed.

Lemma join_config_ok c g :
  good c → Groups c !! g = None →
  ∃ new, join_config g (SrvNames g) c = ret new ∧
    good new ∧ Groups new = <[g := SrvNames g]> (Groups c) ∧ Num new = wrapS 64 (Num c + 1) ∧ balanced new ∧
    ∀ h, is_group c h → h ∈ Shards c → h ∈ Shards new.
Proof.
  intros Hg Hng. pose proof (good_wf c Hg) as Hwf. unfold join_config. rewrite Copy_same by done.
  destruct (changed_ok c (<[g := SrvNames g]> (Groups c)) Hwf) as (new & Hc & Hgd & HG & HN & Hbal & Hk).
  { destruct (decide (g = Gid1)) as [->|Hne]; [by rewrite lookup_insert_eq | rewrite lookup_insert_ne by done; apply Hg]. }
  { intros h l [[<- <-]|[_ Hl]]%lookup_insert_Some; [done | by apply (gd_names c Hg)]. }
  exists new. split; [|split; [done|split; [done|split; [done|split; [done|]]]]].
  - unfold JoinBalance, Join. cbn [Join_loop]. rewrite Hng.
    rewrite (proj1 (servers_disjoint_insert g (SrvNames g) (Groups c) Hng (names_disjoint _ (gd_names c Hg)))).
    + exact Hc.
    + apply names_disjoint. intros h l [[<- <-]|[_ Hl]]%lookup_insert_Some; [done | by apply (gd_names c Hg)].
  - intros h Hh. apply Hk. apply lookup_insert_is_Some. destruct (decide (g = h)); [by left | right; done].
Qed.

Lemma leave_config_ok c g :
  good c → is_group c g → g ≠ Gid1 →
  ∃ new, leave_config g c = ret new ∧
    good new ∧ Groups new = delete g (Groups c) ∧ Num new = wrapS 64 (Num c + 1) ∧ balanced new ∧
    ∀ h, h ≠ g → is_group c h → h ∈ Shards c → h ∈ Shards new.
Proof.
  intros Hg [l Hl] Hne. pose proof (good_wf c Hg) as Hwf. unfold leave_config. rewrite Copy_same by done.
  destruct (changed_ok c (delete g (Groups c)) Hwf) as (new & Hc & Hgd & HG & HN & Hbal & Hk).
  { rewrite lookup_delete_ne by done. apply Hg. }
  { intros h l' [_ Hl']%lookup_delete_Some. by apply (gd_names c Hg). }
  exists new. split; [|split; [done|split; [done|split; [done|split; [done|]]]]].
  - unfold LeaveBalance, Leave. cbn [Leave_loop]. rewrite Hl. exact Hc.
  - intros h Hh Hin. apply Hk. rewrite lookup_delete_ne by done. exact Hin.
Qed.

Lemma changed_inv r c : changed r = ret c → r = ret (c, true).
Proof. destruct r as [[[c' []]| |]|]; simpl; congruence. Qed.

Lemma setup_config : ∃ cfg, JoinBalance [(Gid1, SrvNames Gid1)] MakeShardConfig = ret (cfg, true) ∧
  good cfg ∧ Groups cfg = {[Gid1 := SrvNames Gid1]} ∧ Num cfg = 1 ∧ balanced cfg.
Proof.
  destruct (changed_ok MakeShardConfig {[Gid1 := SrvNames Gid1]}) as (cfg & Hc & Hg & HG & HN & Hb & _).
  - done.
  - by eexists.
  - intros g l [<- <-]%lookup_singleton_Some. done.
  - exists cfg. apply changed_inv in Hc. split; [|split; [exact Hg|split; [exact HG|split; [rewrite HN; vm_compute; reflexivity | exact Hb]]]].
    unfold JoinBalance.
    assert (E : Join [(Gid1, SrvNames Gid1)] MakeShardConfig =
      Ret (mkShardConfig (wrapS 64 (Num MakeShardConfig + 1)) (Shards MakeShardConfig) {[Gid1 := SrvNames Gid1]}, true))
      by (vm_compute; reflexivity).
    rewrite E. exact Hc.
Qed.

Lemma good_member c g : good c → IsMember g c = true → is_group c g.
Proof. intros Hg H%IsMember_spec. by apply (proj1 (Forall_forall _ _) (gd_assigned c Hg)). Qed.

Lemma wrapS_next n : 0 <= n → wrapS 64 (n + 1) <= n + 1.
Proof. intros Hn. unfold wrapS. pose proof (Z.mod_le (n + 1 + 2 ^ (64 - 1)) (2 ^ 64)). lia. Qed.

(** ** Goroutines and the configurations that may come *)

Definition held (p : pc) : option Z :=
  match p with
  | Select | Stopped => None
  | Start g | JoinQuery g | JoinChange g _ | JoinCheck g | Check g
  | LeaveQuery g | LeaveChange g _ | LeaveCheck g | Exit g => Some g
  end.

(** The configuration a goroutine is about to ask for. *)
Definition asking (p : pc) : option ShardConfig :=
  match p with JoinChange _ c | LeaveChange _ c => Some c | _ => None end.

Section held.
Context (cur : ShardConfig) (L : ShardConfig → Prop) (up : Z → Prop).

(** [L] are the configurations that may come after [cur]. *)
Definition absent (g : Z) : Prop := ¬ is_group cur g ∧ ∀ p, L p → ¬ is_group p g.
Definition staying (g : Z) : Prop := is_group cur g → ∀ p, L p → is_group p g.
Definition owner (g : Z) : Prop := is_group cur g ∧ g ∈ Shards cur.

(** What a goroutine may count on. *)
Definition held_ok (p : pc) : Prop :=
  match p with
  | Select | Stopped => True
  | Start g => absent g
  | JoinQuery g => absent g ∧ up g
  | JoinChange g _ | JoinCheck g | Check g => staying g ∧ up g
  | LeaveQuery g => owner g ∧ staying g ∧ up g
  | LeaveChange g _ | LeaveCheck g => (owner g ∨ absent g) ∧ up g
  | Exit g => absent g ∧ up g
  end.

(** Configurations that may come keep the owners that remain. *)
Definition coming : Prop := ∀ p, L p → good p ∧ ∀ g, is_group p g → owner g → g ∈ Shards p.
End held.

Section moves.
Context (cur : ShardConfig) (L : ShardConfig → Prop).

Lemma held_ok_mono L' (up up' : Z → Prop) p :
  (∀ c, L' c → L c) → (∀ g, held p = Some g → up g → up' g) → held_ok cur L up p → held_ok cur L' up' p.
Proof. intros HL Hup. destruct p; unfold held_ok, absent, staying in *; simpl in *; naive_solver. Qed.

(** A coming configuration becomes the current one, and no other is the next. *)
Lemma held_ok_install new up p :
  coming cur L → L new → held_ok cur L up p → held_ok new (λ _, False) up p.
Proof.
  intros Hc Hnew. destruct (Hc new Hnew) as [_ Hk].
  assert (Ho : ∀ g, owner cur g → owner new g ∨ absent new (λ _, False) g).
  { intros g Hg. destruct (decide (is_group new g)) as [Hn|Hn]; [left; split; [done|]; by apply Hk | by right; split]. }
  assert (Hs : ∀ g, owner cur g → staying cur L g → owner new g).
  { intros g Hg Hs. destruct (Ho g Hg) as [?|[Hn _]]; [done|]. destruct Hn. by apply Hs; [apply Hg|]. }
  assert (Ha : ∀ g, absent cur L g → absent new (λ _, False) g).
  { intros g [_ Ha]. split; [by apply Ha | done]. }
  destruct p; unfold held_ok, staying in *; simpl; naive_solver.
Qed.

(** Another goroutine, about group [g0], has made a configuration from [cur]. *)
Lemma held_ok_propose new g0 up p :
  (∀ g, g ≠ g0 → is_group new g ↔ is_group cur g) → held p ≠ Some g0 →
  held_ok cur L up p → held_ok cur (λ c, c = new ∨ L c) up p.
Proof.
  intros Hg Hne.
  assert (Ha : ∀ g, g ≠ g0 → absent cur L g → absent cur (λ c, c = new ∨ L c) g).
  { intros g Hgn [H1 H2]. split; [done|]. intros c [->|Hc]; [by rewrite Hg | by apply H2]. }
  assert (Hs : ∀ g, g ≠ g0 → staying cur L g → staying cur (λ c, c = new ∨ L c) g).
  { intros g Hgn H1 H2 c [->|Hc]; [by rewrite Hg | by apply H1]. }
  destruct p; unfold held_ok in *; simpl in *; naive_solver.
Qed.

Lemma coming_propose new :
  good new → (∀ g, is_group new g → is_group cur g → g ∈ Shards cur → g ∈ Shards new) →
  coming cur L → coming cur (λ c, c = new ∨ L c).
Proof. intros Hg Hk Hc c [->|HL]; [|by apply Hc]. split; [done|]. intros g Hn [??]. by apply Hk. Qed.
End moves.

Section safety.
Context {C : Type} (Query : C → ShardConfig) (ChangeConfigTo : ShardConfig → C → C).
Context `{!Controller C Query ChangeConfigTo} (deposed : pc) (not_holding : held deposed = None).
Implicit Types s : sys (C:=C).

Definition cur s : ShardConfig := Query (ctl (sw s)).
Definition up s (g : Z) : Prop := grps (sw s) !! g = Some true.
Definition proposal s (c : ShardConfig) : Prop :=
  asked (ctl (sw s)) c ∨ ∃ t q, procs s !! t = Some q ∧ asking q = Some c.
Definition next s (c : ShardConfig) : Prop := proposal s c ∧ Num c = Num (cur s) + 1.

(** With [n] the number of steps to go, as group ids are counted in an [int]. *)
Record safe (n : nat) s : Prop := {
  sf_good : good (cur s);
  sf_num : 0 <= Num (cur s);
  sf_nums c : proposal s c → Num c <= Num (cur s) + 1;
  sf_coming : coming (cur s) (next s);
  sf_run g : is_group (cur s) g ∨ (∃ c, next s c ∧ is_group c g) → up s g ∧ g < ngid (sw s);
  sf_held t p : procs s !! t = Some p → held_ok (cur s) (next s) (up s) p;
  sf_gid t p g : procs s !! t = Some p → held p = Some g → Gid1 < g < ngid (sw s);
  sf_unique t t' p p' g : procs s !! t = Some p → procs s !! t' = Some p' →
    held p = Some g → held p' = Some g → t = t';
  sf_bound : Gid1 < ngid (sw s) ∧ ngid (sw s) + Z.of_nat n < 2 ^ 63
}.

(** A step that makes no configuration, of a goroutine that goes from [p] to [p']. *)
Lemma safe_quiet n s t p p' w' :
  safe (Datatypes.S n) s → procs s !! t = Some p → Query (ctl w') = cur s →
  (∀ c, asked (ctl w') c → proposal s c) → asking p' = None →
  ngid (sw s) <= ngid w' <= ngid (sw s) + 1 →
  (∀ g, up s g → grps w' !! g = Some true ∨ held p = Some g ∧ absent (cur s) (next s) g) →
  (held p' = None ∨ held p' = held p ∨ (held p' = Some (ngid (sw s)) ∧ ngid w' = ngid (sw s) + 1)) →
  held_ok (cur s) (next s) (λ g, grps w' !! g = Some true) p' →
  safe n (mkSys w' (<[t := p']> (procs s))).
Proof.
  intros [Hg Hn Hns Hc Hr Hh Hgid Hu [Hb1 Hb2]] Hp HQ Ha Hask Hng Hup Hheld Hok.
  set (s' := mkSys w' (<[t := p']> (procs s))).
  assert (Hprop : ∀ c, proposal s' c → proposal s c).
  { intros c [H|(t' & q & Hq & Hqa)]; [by apply Ha|]. cbn [s' procs] in Hq.
    apply lookup_insert_Some in Hq as [[<- <-]|[_ Hq]]; [congruence | right; by exists t', q]. }
  assert (Hcur : cur s' = cur s) by done.
  assert (Hnext : ∀ c, next s' c → next s c) by (intros c [H1 H2]; split; [by apply Hprop | by rewrite Hcur in H2]).
  assert (Hgid' : ∀ t' q g, procs s' !! t' = Some q → held q = Some g →
    (t' = t ∧ g = ngid (sw s) ∧ ngid w' = ngid (sw s) + 1) ∨ ∃ q0, procs s !! t' = Some q0 ∧ held q0 = Some g).
  { intros t' q g Hq Hqg. cbn [s' procs] in Hq. apply lookup_insert_Some in Hq as [[<- <-]|[_ Hq]]; [|right; by exists q].
    destruct Hheld as [H|[H|[H H']]]; [congruence | right; exists p; by rewrite <- H | left; split; [done|split; [congruence | done]]]. }
  split; rewrite ?Hcur.
  - done.
  - done.
  - intros c H. by apply Hns, Hprop.
  - intros c H. by apply Hc, Hnext.
  - intros g H. assert (Hg0 : is_group (cur s) g ∨ (∃ c, next s c ∧ is_group c g)) by naive_solver.
    destruct (Hr g Hg0) as [H1 H2]. destruct (Hup g H1) as [H3|[_ [H3 H4]]]; [split; [done | cbn [s' sw]; lia]|].
    destruct Hg0 as [?|(c & Hc1 & Hc2)]; [done | by destruct (H4 c)].
  - intros t' q Hq. cbn [s' procs] in Hq. apply lookup_insert_Some in Hq as [[<- <-]|[Hne Hq]].
    { eapply held_ok_mono; [exact Hnext | | exact Hok]. done. }
    eapply held_ok_mono; [exact Hnext | | by eapply Hh]. intros g Hqg H. destruct (Hup g H) as [?|[Hpg _]]; [done|].
    destruct Hne. by eapply Hu.
  - intros t' q g Hq Hqg. cbn [s' sw]. destruct (Hgid' t' q g Hq Hqg) as [(-> & -> & ->)|(q0 & H1 & H2)]; [lia|].
    specialize (Hgid t' q0 g H1 H2). lia.
  - intros t1 t2 q1 q2 g Hq1 Hq2 Hg1 Hg2.
    destruct (Hgid' t1 q1 g Hq1 Hg1) as [(-> & -> & _)|(q0 & H1 & H2)],
      (Hgid' t2 q2 _ Hq2 Hg2) as [(-> & H3 & _)|(q0' & H3 & H4)]; try done.
    + specialize (Hgid t2 q0' _ H3 H4). lia.
    + subst g. specialize (Hgid t1 q0 _ H1 H2). lia.
    + by eapply Hu.
  - cbn [s' sw]. lia.
Qed.

(** A step in which a goroutine makes a configuration, [new], from the current one. *)
Lemma safe_propose n s t p p' g0 new :
  safe (Datatypes.S n) s → procs s !! t = Some p → held p = Some g0 → held p' = Some g0 → asking p' = Some new →
  up s g0 → good new → Num new <= Num (cur s) + 1 →
  (∀ g, g ≠ g0 → is_group new g ↔ is_group (cur s) g) →
  (∀ g, is_group new g → is_group (cur s) g → g ∈ Shards (cur s) → g ∈ Shards new) →
  held_ok (cur s) (λ c, c = new ∨ next s c) (up s) p' →
  safe n (mkSys (sw s) (<[t := p']> (procs s))).
Proof.
  intros [Hg Hn Hns Hc Hr Hh Hgid Hu [Hb1 Hb2]] Hp Hpg Hpg' Hask Hup Hnew HNum Hgr Hk Hok.
  set (s' := mkSys (sw s) (<[t := p']> (procs s))).
  assert (Hprop : ∀ c, proposal s' c → c = new ∨ proposal s c).
  { intros c [H|(t' & q & Hq & Hqa)]; [by right; left|]. cbn [s' procs] in Hq.
    apply lookup_insert_Some in Hq as [[<- <-]|[_ Hq]]; [left; congruence | right; right; by exists t', q]. }
  assert (Hcur : cur s' = cur s) by done.
  assert (Hnext : ∀ c, next s' c → c = new ∨ next s c).
  { intros c [H1 H2]. destruct (Hprop c H1) as [?|?]; [by left | right; split; [done | exact H2]]. }
  assert (Hgid' : ∀ t' q g, procs s' !! t' = Some q → held q = Some g → ∃ q0, procs s !! t' = Some q0 ∧ held q0 = Some g).
  { intros t' q g Hq Hqg. cbn [s' procs] in Hq. apply lookup_insert_Some in Hq as [[<- <-]|[_ Hq]]; [|by exists q].
    exists p. split; [done | congruence]. }
  split; rewrite ?Hcur.
  - done.
  - done.
  - intros c [->|H]%Hprop; [done | by apply Hns].
  - intros c H. by apply (coming_propose (cur s) (next s) new Hnew Hk Hc), Hnext.
  - intros g H. destruct (decide (g = g0)) as [->|Hne].
    { split; [done|]. by destruct (Hgid t p g0 Hp Hpg). }
    apply Hr. destruct H as [?|(c & [->|Hc1]%Hnext & Hc2)]; [by left | left; by apply Hgr | right; by exists c].
  - intros t' q Hq. eapply held_ok_mono; [exact Hnext | by intros g _ H; exact H |]. cbn [s' procs] in Hq.
    apply lookup_insert_Some in Hq as [[<- <-]|[Hne Hq]]; [done|].
    apply (held_ok_propose (cur s) (next s) new g0); [done | | by eapply Hh].
    intros H. destruct Hne. by eapply Hu.
  - intros t' q g Hq Hqg. destruct (Hgid' t' q g Hq Hqg) as (q0 & H1 & H2). by eapply Hgid.
  - intros t1 t2 q1 q2 g Hq1 Hq2 Hg1 Hg2. destruct (Hgid' t1 q1 g Hq1 Hg1) as (? & ? & ?), (Hgid' t2 q2 g Hq2 Hg2) as (? & ? & ?).
    by eapply Hu.
  - cbn [s' sw]. lia.
Qed.

Lemma held_pos n s t p g : safe n s → procs s !! t = Some p → held p = Some g → g ≠ Gid1.
Proof. intros Hs Hp Hg. pose proof (sf_gid n s Hs t p g Hp Hg). lia. Qed.

(** The world is left as it is. *)
Lemma safe_stutter n s t p p' :
  safe (Datatypes.S n) s → procs s !! t = Some p → asking p' = None → (held p' = None ∨ held p' = held p) →
  held_ok (cur s) (next s) (up s) p' → safe n (mkSys (sw s) (<[t := p']> (procs s))).
Proof.
  intros Hs Hp Ha Hh Hok. eapply safe_quiet; [exact Hs | exact Hp | done | | done | lia | | | exact Hok].
  - intros c Hc. by left.
  - intros g Hg. by left.
  - destruct Hh; auto.
Qed.

(** The steps that change the world or make a configuration. *)
Lemma safe_newGid n s t :
  safe (Datatypes.S n) s → procs s !! t = Some Select →
  safe n (mkSys (newGid (sw s)).2 (<[t := Start (newGid (sw s)).1]> (procs s))).
Proof.
  intros Hs Hp. pose proof (sf_bound _ _ Hs) as [Hb1 Hb2].
  assert (Ew : wrapS 64 (ngid (sw s) + 1) = ngid (sw s) + 1) by (apply wrapS_small; unfold Gid1 in Hb1; lia).
  eapply safe_quiet; [exact Hs | exact Hp | done | | done | | | |];
    cbn [newGid fst snd ngid grps ctl held]; rewrite ?Ew.
  - intros c Hc. by left.
  - lia.
  - intros g Hg. by left.
  - by right; right.
  - cbn [held_ok]. split.
    + intros H. destruct (sf_run _ _ Hs (ngid (sw s))) as [_ ?]; [by left | lia].
    + intros c Hc H. destruct (sf_run _ _ Hs (ngid (sw s))) as [_ ?]; [right; by exists c | lia].
Qed.

Lemma safe_start n s t g :
  safe (Datatypes.S n) s → procs s !! t = Some (Start g) →
  safe n (mkSys (MakeGroupStart g (sw s)) (<[t := JoinQuery g]> (procs s))).
Proof.
  intros Hs Hp. pose proof (sf_held _ _ Hs _ _ Hp) as Hok.
  eapply safe_quiet; [exact Hs | exact Hp | done | | done | | | |]; cbn [MakeGroupStart ngid grps ctl held].
  - intros c Hc. by left.
  - lia.
  - intros h Hh. left. destruct (decide (g = h)) as [->|Hne]; [by rewrite lookup_insert_eq | by rewrite lookup_insert_ne].
  - by right; left.
  - split; [exact Hok | by rewrite lookup_insert_eq].
Qed.

Lemma safe_change n s t p p' c :
  safe (Datatypes.S n) s → procs s !! t = Some p → asking p = Some c → asking p' = None → held p' = held p →
  held_ok (cur s) (next s) (up s) p' →
  safe n (mkSys (set_ctl (ChangeConfigTo c) (sw s)) (<[t := p']> (procs s))).
Proof.
  intros Hs Hp Ha Ha' Hh Hok. eapply safe_quiet; [exact Hs | exact Hp | | | exact Ha' | | | |]; cbn [set_ctl ngid grps ctl].
  - unfold cur. apply Query_ChangeConfigTo.
  - intros q [->|Hq]%asked_ChangeConfigTo; [right; by exists t, p | by left].
  - lia.
  - intros g Hg. by left.
  - by right; left.
  - exact Hok.
Qed.

Lemma safe_exit n s t g :
  safe (Datatypes.S n) s → procs s !! t = Some (Exit g) →
  ∃ w', ExitGroup g (sw s) = Ret w' ∧ safe n (mkSys w' (<[t := Select]> (procs s))).
Proof.
  intros Hs Hp. destruct (sf_held _ _ Hs _ _ Hp) as [Hab Hup]. unfold ExitGroup. rewrite Hup.
  eexists. split; [reflexivity|].
  eapply safe_quiet; [exact Hs | exact Hp | done | | done | | | |]; cbn [ngid grps ctl held].
  - intros c Hc. by left.
  - lia.
  - intros h Hh. destruct (decide (g = h)) as [->|Hne]; [by right | left; by rewrite lookup_delete_ne].
  - by left.
  - done.
Qed.

Lemma safe_join n s t g :
  safe (Datatypes.S n) s → procs s !! t = Some (JoinQuery g) →
  ∃ new, join_config g (SrvNames g) (cur s) = ret new ∧
    safe n (mkSys (sw s) (<[t := JoinChange g new]> (procs s))).
Proof.
  intros Hs Hp. pose proof (sf_good _ _ Hs) as Hgood. destruct (sf_held _ _ Hs _ _ Hp) as [[Hni Hab] Hup].
  destruct (join_config_ok (cur s) g Hgood) as (new & Hj & Hgn & HG & HN & _ & Hk); [by apply eq_None_not_Some|].
  exists new. split; [exact Hj|].
  assert (Hgr : ∀ h, is_group new h ↔ h = g ∨ is_group (cur s) h).
  { intros h. unfold is_group. rewrite HG, lookup_insert_is_Some. destruct (decide (g = h)); naive_solver. }
  eapply safe_propose; [exact Hs | exact Hp | done | done | done | exact Hup | exact Hgn | | | |].
  - rewrite HN. apply wrapS_next, (sf_num _ _ Hs).
  - intros h Hh. rewrite Hgr. naive_solver.
  - intros h _ Hh Hin. by apply Hk.
  - cbn [held_ok]. split; [|exact Hup]. by intros H.
Qed.

Lemma safe_leave n s t g :
  safe (Datatypes.S n) s → procs s !! t = Some (LeaveQuery g) →
  ∃ new, leave_config g (cur s) = ret new ∧
    safe n (mkSys (sw s) (<[t := LeaveChange g new]> (procs s))).
Proof.
  intros Hs Hp. pose proof (sf_good _ _ Hs) as Hgood. destruct (sf_held _ _ Hs _ _ Hp) as ([Hin Hown] & Hst & Hup).
  destruct (leave_config_ok (cur s) g Hgood Hin) as (new & Hj & Hgn & HG & HN & _ & Hk); [by eapply held_pos|].
  exists new. split; [exact Hj|].
  assert (Hgr : ∀ h, is_group new h ↔ h ≠ g ∧ is_group (cur s) h).
  { intros h. unfold is_group. rewrite HG, lookup_delete_is_Some. naive_solver. }
  eapply safe_propose; [exact Hs | exact Hp | done | done | done | exact Hup | exact Hgn | | | |].
  - rewrite HN. apply wrapS_next, (sf_num _ _ Hs).
  - intros h Hh. rewrite Hgr. naive_solver.
  - intros h [Hh _]%Hgr Hh' Hs'. by apply Hk.
  - cbn [held_ok]. split; [by left; split | exact Hup].
Qed.

(** Every goroutine can take its next step, and all stay safe. *)
Lemma safe_act n s t p :
  safe (Datatypes.S n) s → procs s !! t = Some p →
  ∃ p' w', act Query ChangeConfigTo deposed p (sw s) = ret (p', w') ∧ safe n (mkSys w' (<[t := p']> (procs s))).
Proof.
  intros Hs Hp. pose proof (sf_held _ _ Hs t p Hp) as Hok. pose proof (sf_good _ _ Hs) as Hgood.
  destruct p as [|g|g|g c|g|g|g|g c|g|g|]; cbn [act].
  - eexists _, _. split; [reflexivity|]. by apply safe_newGid.
  - eexists _, _. split; [reflexivity|]. by apply safe_start.
  - destruct (safe_join n s t g Hs Hp) as (new & Hj & H). destruct Hok as [_ Hup]. unfold Group_SrvNames, up in *.
    rewrite Hup. cbn [then_]. unfold cur in Hj. rewrite Hj. eexists _, _. split; [reflexivity | exact H].
  - eexists _, _. split; [reflexivity|]. eapply safe_change; [exact Hs | exact Hp | done..| exact Hok].
  - eexists _, _. split; [reflexivity|]. eapply safe_stutter; [exact Hs | exact Hp | done | by right | exact Hok].
  - eexists _, _. split; [reflexivity|]. destruct Hok as [Hst Hup]. unfold checkMember.
    destruct (IsMember g (Query (ctl (sw s)))) eqn:Hm.
    + eapply safe_stutter; [exact Hs | exact Hp | done | by right |]. cbn [held_ok].
      split; [|done]. split; [by apply good_member | by apply IsMember_spec].
    + eapply safe_stutter; [exact Hs | exact Hp | | by left |]; by destruct deposed.
  - destruct (safe_leave n s t g Hs Hp) as (new & Hj & H). unfold cur in Hj. rewrite Hj. cbn [then_].
    eexists _, _. split; [reflexivity | exact H].
  - eexists _, _. split; [reflexivity|]. eapply safe_change; [exact Hs | exact Hp | done..| exact Hok].
  - eexists _, _. split; [reflexivity|]. destruct Hok as [Hst Hup]. unfold checkMember.
    destruct (IsMember g (Query (ctl (sw s)))) eqn:Hm.
    + eapply safe_stutter; [exact Hs | exact Hp | done | by left | done].
    + eapply safe_stutter; [exact Hs | exact Hp | done | by right |]. cbn [held_ok]. split; [|done].
      destruct Hst as [[_ Ho]|?]; [|done]. apply IsMember_spec in Ho. unfold cur in Ho. congruence.
  - destruct (safe_exit n s t g Hs Hp) as (w' & Hw & H). rewrite Hw. cbn [then_]. eexists _, _. split; [reflexivity | exact H].
  - eexists _, _. split; [reflexivity|]. eapply safe_stutter; [exact Hs | exact Hp | done | by left | done].
Qed.

Lemma safe_work n s c : safe (Datatypes.S n) s → work (ctl (sw s)) c → safe n (mkSys (set_ctl (λ _, c) (sw s)) (procs s)).
Proof.
  intros [Hg Hn Hns Hc Hr Hh Hgid Hu [Hb1 Hb2]] Hw. set (s' := mkSys (set_ctl (λ _, c) (sw s)) (procs s)).
  assert (Hprop : ∀ q, proposal s' q → proposal s q).
  { intros q [H|H]; [left; by eapply asked_work | by right]. }
  destruct (Query_work _ _ Hw) as [Hcur|[Hin HN]].
  - assert (Hnext : ∀ q, next s' q → next s q).
    { intros q [H1 H2]. split; [by apply Hprop|]. unfold cur in *. cbn [s' set_ctl sw ctl] in H2. by rewrite Hcur in H2. }
    change (Query c) with (cur s') in Hcur. change (Query (ctl (sw s))) with (cur s) in Hcur.
    split; rewrite ?Hcur; try done.
    + intros q H. by apply Hns, Hprop.
    + intros q H. by apply Hc, Hnext.
    + intros g H. apply Hr. destruct H as [?|(q & H1 & H2)]; [by left | right; exists q; auto].
    + intros t p Hp. eapply held_ok_mono; [exact Hnext | by intros g _ H; exact H | by apply (Hh t)].
    + cbn [s' set_ctl sw ngid]. lia.
  - change (Query c) with (cur s') in Hin, HN. change (Query (ctl (sw s))) with (cur s) in HN.
    assert (HL : next s (cur s')) by (split; [by left | exact HN]).
    assert (Hnext : ∀ q, ¬ next s' q).
    { intros q [H1 H2]. specialize (Hns q (Hprop q H1)). lia. }
    destruct (Hc _ HL) as [Hg' _]. split; try done.
    + lia.
    + intros q H. specialize (Hns q (Hprop q H)). lia.
    + intros q H. by destruct (Hnext q).
    + intros g [H|(q & H & _)]; [|by destruct (Hnext q)]. apply Hr. right. by exists (cur s').
    + intros t p Hp. eapply held_ok_mono; [| by intros g _ H; exact H |]; [|eapply held_ok_install; [exact Hc | exact HL | by apply (Hh t)]].
      intros q H. by destruct (Hnext q).
    + cbn [s' set_ctl sw ngid]. lia.
Qed.

Lemma safe_step n s l s' : safe (Datatypes.S n) s → step Query ChangeConfigTo deposed s l s' → safe n s'.
Proof.
  intros Hs Hst. destruct Hst as [s t p p' w' Hp Ha|s t Hp|s c Hw].
  - destruct (safe_act n s t p Hs Hp) as (p1 & w1 & Ha1 & H1). rewrite Ha in Ha1. injection Ha1 as <- <-. exact H1.
  - eapply safe_stutter; [exact Hs | exact Hp | done | by left | done].
  - by apply safe_work.
Qed.
End safety.

(** ** Groups that join and leave one after the other *)

Section sequential.
Context {C : Type} (Query : C → ShardConfig) (ChangeConfigTo : ShardConfig → C → C).
Hypothesis installs : ∀ new c, Num new = Num (Query c) + 1 → Query (ChangeConfigTo new c) = new.
Implicit Types w : world C.
Local Abbreviation config w := (Query (ctl w)).

(** A configuration that can be changed [n] times. *)
Definition settled (n : nat) (c : ShardConfig) : Prop :=
  good c ∧ balanced c ∧ 0 <= Num c ∧ Num c + Z.of_nat n < 2 ^ 63.

Lemma settled_next n c new :
  settled (Datatypes.S n) c → good new → balanced new → Num new = wrapS 64 (Num c + 1) →
  settled n new ∧ Num new = Num c + 1.
Proof.
  intros (_ & _ & H0 & H1) Hg Hb HN. assert (E : wrapS 64 (Num c + 1) = Num c + 1) by (apply wrapS_small; lia).
  rewrite E in HN. split; [|done]. split; [done|]. split; [done|]. lia.
Qed.

Lemma joinGroups_ok gids w :
  NoDup gids → settled (length gids) (config w) → (∀ g, g ∈ gids → ¬ is_group (config w) g) →
  (size (Groups (config w)) + length gids <= Z.to_nat NShards)%nat →
  ∃ w', joinGroups Query ChangeConfigTo gids w = ret (true, w') ∧ settled 0 (config w') ∧
    Num (config w') = Num (config w) + Z.of_nat (length gids) ∧
    (∀ h, is_group (config w') h ↔ h ∈ gids ∨ is_group (config w) h) ∧
    (size (Groups (config w')) <= Z.to_nat NShards)%nat ∧
    (∀ h, grps w' !! h = if decide (h ∈ gids) then Some true else grps w !! h).
Proof.
  revert w. induction gids as [|g gids IH]; intros w Hnd Hs Hni Hsz.
  { exists w. cbn [joinGroups length]. rewrite Z.add_0_r. split; [done|]. split; [exact Hs|]. split; [done|].
    split; [intros h; rewrite elem_of_nil; naive_solver|]. split; [simpl in Hsz; lia|].
    intros h. by rewrite decide_False by (by intros ?%elem_of_nil). }
  apply NoDup_cons in Hnd as [Hg Hnd]. cbn [joinGroups]. set (w1 := MakeGroupStart g w).
  assert (Hup : grps w1 !! g = Some true) by (cbn [w1 MakeGroupStart grps]; by rewrite lookup_insert_eq).
  unfold Group_SrvNames. rewrite Hup. cbn [then_].
  destruct (join_config_ok (config w) g (proj1 Hs)) as (new & Hj & Hgn & HG & HN & Hb & _).
  { apply eq_None_not_Some, Hni. by left. }
  destruct (settled_next _ _ new Hs Hgn Hb HN) as [Hs' HN'].
  unfold join. change (ctl w1) with (ctl w). rewrite Hj. cbn [then_]. set (w2 := set_ctl (ChangeConfigTo new) w1).
  assert (Hc : config w2 = new) by (by apply installs).
  assert (Hgr : ∀ h, is_group (config w2) h ↔ h = g ∨ is_group (config w) h).
  { intros h. rewrite Hc. unfold is_group. rewrite HG, lookup_insert_is_Some. destruct (decide (g = h)); naive_solver. }
  assert (Hsz2 : size (Groups (config w2)) = Datatypes.S (size (Groups (config w)))).
  { rewrite Hc, HG. apply map_size_insert_None, eq_None_not_Some, Hni. by left. }
  cbn [length] in Hsz.
  assert (Hm : checkMember Query g w2 = true).
  { apply IsMember_spec. rewrite Hc. apply balanced_owns; [by apply good_wf | apply Hgn | done | rewrite <- Hc; lia | rewrite <- Hc; apply Hgr; by left]. }
  rewrite Hm. rewrite <- Hc in Hs', HN'. destruct (IH w2 Hnd Hs') as (w' & Hr & Hs2 & HN2 & Hgr2 & Hsz' & Hgp).
  { intros h Hh. rewrite Hgr. intros [->|?]; [done|]. by apply (Hni h); [right|]. }
  { lia. }
  exists w'. split; [exact Hr|]. split; [exact Hs2|]. split; [cbn [length]; lia|].
  split; [intros h; rewrite Hgr2, Hgr, elem_of_cons; tauto|]. split; [exact Hsz'|].
  intros h. rewrite Hgp. cbn [w2 w1 set_ctl MakeGroupStart grps].
  destruct (decide (h = g)) as [->|Hne].
  - rewrite decide_False by done. rewrite decide_True by (by left). by rewrite lookup_insert_eq.
  - rewrite lookup_insert_ne by done. destruct (decide (h ∈ gids)); [by rewrite decide_True by (by right)|].
    by rewrite decide_False by (by intros [?|?]%elem_of_cons).
Qed.

Lemma leaveGroups_ok gids w :
  NoDup gids → settled (length gids) (config w) →
  (∀ g, g ∈ gids → is_group (config w) g ∧ g ≠ Gid1 ∧ is_Some (grps w !! g)) →
  ∃ w', leaveGroups Query ChangeConfigTo gids w = ret (true, w') ∧ settled 0 (config w') ∧
    (∀ h, is_group (config w') h ↔ (h ∉ gids) ∧ is_group (config w) h) ∧
    (∀ h, grps w' !! h = if decide (h ∈ gids) then None else grps w !! h).
Proof.
  revert w. induction gids as [|g gids IH]; intros w Hnd Hs Hin.
  { exists w. split; [done|]. split; [exact Hs|].
    split; [intros h; rewrite elem_of_nil; naive_solver|].
    intros h. by rewrite decide_False by (by intros ?%elem_of_nil). }
  apply NoDup_cons in Hnd as [Hg Hnd]. cbn [leaveGroups].
  destruct (Hin g) as (Hgin & Hg1 & Hup); [by left|].
  destruct (leave_config_ok (config w) g (proj1 Hs) Hgin Hg1) as (new & Hj & Hgn & HG & HN & Hb & _).
  destruct (settled_next _ _ new Hs Hgn Hb HN) as [Hs' HN'].
  unfold leave. rewrite Hj. cbn [then_]. set (w2 := set_ctl (ChangeConfigTo new) w).
  assert (Hc : config w2 = new) by (by apply installs).
  assert (Hgr : ∀ h, is_group (config w2) h ↔ h ≠ g ∧ is_group (config w) h).
  { intros h. rewrite Hc. unfold is_group. rewrite HG, lookup_delete_is_Some. naive_solver. }
  assert (Hm : checkMember Query g w2 = false).
  { apply not_true_iff_false. intros H. apply good_member in H; [|by rewrite Hc]. by apply Hgr in H as [? _]. }
  rewrite Hm. unfold ExitGroup. change (grps w2) with (grps w). destruct Hup as [b Hup]. rewrite Hup. cbn [then_].
  set (w3 := mkWorld _ _ _). destruct (IH w3 Hnd) as (w' & Hr & Hs3 & Hgr3 & Hgp).
  { change (config w3) with (config w2). by rewrite Hc. }
  { intros h Hh. change (config w3) with (config w2). assert (h ≠ g) by (by intros ->).
    destruct (Hin h) as (H1 & H2 & H3); [by right|]. split; [by apply Hgr|]. split; [done|].
    cbn [w3 grps]. by rewrite lookup_delete_ne. }
  exists w'. split; [exact Hr|]. split; [exact Hs3|].
  split; [intros h; rewrite Hgr3; change (config w3) with (config w2); rewrite Hgr; rewrite not_elem_of_cons; tauto|].
  intros h. rewrite Hgp. cbn [w3 grps].
  destruct (decide (h = g)) as [->|Hne].
  - rewrite decide_False by done. rewrite decide_True by (by left). by rewrite lookup_delete_eq.
  - rewrite lookup_delete_ne by done. destruct (decide (h ∈ gids)); [by rewrite decide_True by (by right)|].
    by rewrite decide_False by (by intros [?|?]%elem_of_cons).
Qed.

Lemma same_groups c c' : good c → good c' → (∀ h, is_group c' h ↔ is_group c h) → Groups c' = Groups c.
Proof.
  intros Hg Hg' H. apply map_eq. intros h. specialize (H h). unfold is_group in H.
  destruct (Groups c !! h) as [l|] eqn:E, (Groups c' !! h) as [l'|] eqn:E'; [|destruct H as [_ H]; by destruct H | destruct H as [H _]; by destruct H | done].
  f_equal. rewrite (gd_names c Hg h l E). by apply (gd_names c' Hg').
Qed.
End sequential.

(** ** The verdict on a shut-down shard *)

Section verdict.
Context (ka va : list string) (Hva : (length ka <= length va)%nat).
Implicit Types s : shutdown.

Definition received s (i : nat) (v : string) : Prop := getters s !! i = Some (Received v).
Definition is_received (g : getter) : bool := match g with Received _ => true | _ => false end.
Definition wrong s : Prop := ∃ i v, received s i v ∧ va !! i ≠ Some v.
Definition all_right s : Prop := ∀ i, (i < length ka)%nat → ∃ v, received s i v ∧ va !! i = Some v.

(** The answers received so far are right and counted. *)
Definition counted s : Prop := ∃ R : list nat,
  NoDup R ∧ (∀ i, i ∈ R ↔ ∃ v, received s i v) ∧ ndone s = Z.of_nat (length R) ∧ ∀ i v, received s i v → va !! i = Some v.

Definition sd_ok s : Prop :=
  length (getters s) = length ka ∧
  match verdict s with
  | None => done s = false ∧ counted s
  | Some (Ret _) => counted s ∧ ndone s < Z.of_nat (length ka)
  | Some Fatal => wrong s ∨ (counted s ∧ ndone s >= Z.of_nat (length ka))
  | Some Panic => False
  end.

Lemma get_error_empty key expected v : get_error key expected v = "" ↔ v = expected.
Proof. unfold get_error. destruct (decide (v ≠ expected)) as [H|H]; [by split | split; [by apply dec_stable in H | done]]. Qed.

(** A goroutine whose answer has not been received goes on. *)
Lemma set_getter_received s i g g' j v :
  getters s !! i = Some g → is_received g = false → is_received g' = false →
  received (set_getter i g' s) j v ↔ received s j v.
Proof.
  intros Hg Hr Hr'. unfold received. cbn [set_getter getters].
  destruct (decide (i = j)) as [<-|Hne]; [|by rewrite list_lookup_insert_ne].
  rewrite list_lookup_insert_eq by (by eapply lookup_lt_Some). rewrite Hg. destruct g, g'; naive_solver.
Qed.

Lemma sd_ok_set s i g g' :
  sd_ok s → getters s !! i = Some g → is_received g = false → is_received g' = false → sd_ok (set_getter i g' s).
Proof.
  intros [Hl Hv] Hg Hr Hr'. pose proof (set_getter_received s i g g') as Hrec.
  assert (Hc : counted s → counted (set_getter i g' s)).
  { intros (R & H1 & H2 & H3 & H4). exists R. split; [done|]. split; [|split; [done|]].
    - intros j. rewrite H2. by setoid_rewrite Hrec.
    - intros j v. rewrite Hrec by done. apply H4. }
  split; [cbn [set_getter getters]; by rewrite length_insert|]. cbn [set_getter verdict done ndone].
  destruct (verdict s) as [[[]| |]|]; [tauto | | done | tauto].
  destruct Hv as [(j & v & H1 & H2)|[H1 H2]]; [left; exists j, v; by rewrite Hrec | right; tauto].
Qed.

Lemma insert_received s i v w (d : bool) k o j x :
  getters s !! i = Some (Sending w) →
  received (mkShutdown d k (<[i := Received v]> (getters s)) o) j x ↔ (j = i ∧ x = v) ∨ received s j x.
Proof.
  intros Hg. unfold received. cbn [getters]. destruct (decide (i = j)) as [<-|Hne].
  - rewrite list_lookup_insert_eq by (by eapply lookup_lt_Some). rewrite Hg. naive_solver.
  - rewrite list_lookup_insert_ne by done. naive_solver.
Qed.

Lemma sd_ok_step s e s' : sd_ok s → sd_step ka va s e s' → sd_ok s'.
Proof.
  intros Hs Hst. unfold sd_step in Hst. destruct e as [i v|i|i|]; cbn [sd_next] in Hst.
  - apply bind_Some in Hst as (g & Hg & Hst). destruct g; simplify_eq. by eapply sd_ok_set.
  - apply bind_Some in Hst as (g & Hg & Hst). destruct g; simplify_eq.
    destruct (done s); [injection Hst as <-; by eapply sd_ok_set|].
    destruct (lookup_lt_is_Some_2 va i) as [x Hx].
    { destruct Hs as [Hl _]. apply lookup_lt_Some in Hg. lia. }
    rewrite Hx in Hst. injection Hst as <-. by eapply sd_ok_set.
  - apply bind_Some in Hst as (g & Hg & Hst). apply bind_Some in Hst as (key & Hk & Hst).
    apply bind_Some in Hst as (x & Hx & Hst). destruct Hs as [Hl Hv].
    destruct g as [| | |v|]; try done. destruct (verdict s) as [o|] eqn:Ho; [done|].
    destruct Hv as [Hd (R & H1 & H2 & H3 & H4)]. rewrite Hd in Hst.
    destruct (decide (get_error key x v ≠ "")) as [He|He]; injection Hst as <-;
      (split; [cbn [getters]; by rewrite length_insert|]); cbn [verdict done ndone].
    + left. exists i, v. rewrite (insert_received s i v v) by done. split; [by left|].
      intros E. destruct He. apply get_error_empty. congruence.
    + apply dec_stable, get_error_empty in He. subst x. split; [done|]. exists (i :: R).
      assert (Hi : i ∉ R) by (rewrite H2; unfold received; intros [? ?]; congruence).
      split; [by constructor|]. split; [|split; [cbn [ndone length]; lia|]].
      * intros j. rewrite elem_of_cons, H2. setoid_rewrite (insert_received s i v v); [|done..]. naive_solver.
      * intros j y. rewrite (insert_received s i v v) by done. naive_solver.
  - destruct Hs as [Hl Hv]. destruct (verdict s) as [o|] eqn:Ho; [done|]. destruct Hv as [Hd Hc]. rewrite Hd in Hst.
    injection Hst as <-. split; [done|]. cbn [verdict ndone].
    destruct (decide (ndone s >= Z.of_nat (length ka))) as [Hn|Hn]; [right; by split | split; [exact Hc | lia]].
Qed.

Lemma counted_all s : length (getters s) = length ka → counted s → ndone s >= Z.of_nat (length ka) → all_right s.
Proof.
  intros Hl (R & H1 & H2 & H3 & H4) Hn i Hi.
  assert (Hsub : ∀ j, j ∈ R → j ∈ seq 0 (length ka)).
  { intros j [v Hj]%H2. apply lookup_lt_Some in Hj. apply elem_of_seq. lia. }
  assert (Hp : R ≡ₚ seq 0 (length ka)).
  { apply submseteq_length_Permutation; [by apply NoDup_submseteq | rewrite length_seq; lia]. }
  assert (Hi' : i ∈ R) by (rewrite Hp; apply elem_of_seq; lia).
  apply H2 in Hi' as [v Hv]. exists v. split; [done | by apply H4].
Qed.

Lemma sd_ok_init : sd_ok (sd_init ka).
Proof.
  split; [cbn [sd_init getters]; by rewrite length_replicate|]. split; [done|]. exists [].
  assert (Hn : ∀ i v, ¬ received (sd_init ka) i v) by (intros i v H; apply lookup_replicate in H as [? _]; done).
  split; [constructor|]. split; [intros i; rewrite elem_of_nil; split; [done | intros [v Hv]; by destruct (Hn i v)]|].
  split; [done|]. intros i v H. by destruct (Hn i v).
Qed.
End verdict.

(** ** Properties *)

(** The state of the service after [setupKVService]. *)
Lemma setup_ok {C} (Query : C → ShardConfig) InitConfig w g w' :
  (∀ cfg c, Query (InitConfig cfg c) = cfg) → setupKVService InitConfig w = ret (g, w') →
  g = Gid1 ∧ settled 0 (Query (ctl w')) ∧ Num (Query (ctl w')) = 1 ∧ Groups (Query (ctl w')) = {[Gid1 := SrvNames Gid1]} ∧
  ngid w' = ngid w ∧ grps w' = <[Gid1 := true]> (grps w).
Proof.
  intros Hi. destruct setup_config as (cfg & Hj & Hg & HG & HN & Hb).
  unfold setupKVService, Group_SrvNames. cbn [MakeGroupStart grps]. rewrite lookup_insert_eq. cbn [then_].
  rewrite Hj. cbn [then_]. intros [= <- <-]. cbn [set_ctl ctl ngid grps MakeGroupStart]. rewrite Hi, HN.
  split; [reflexivity|]. split; [split; [exact Hg|split; [exact Hb|lia]]|].
  split; [reflexivity|]. split; [exact HG|]. split; reflexivity.
Qed.

(** C19 However the goroutines of [concurCtrler] (or the one of
    [partitionCtrler]) interleave with each other and with controllers that
    supersede one another, none of them ever finds a group where there should be
    none or none where there should be one, which would end the test; every group
    of the current configuration has its servers up, and the configuration has
    groups and serves every key. The steps are those of these goroutines and of
    the controllers; that [partitionCtrler] shuts the servers of a group down and
    recovers with a second controller is in [ShardRecover]. *)
Theorem concurrent_controllers_safe {C} (Query : C → ShardConfig) ChangeConfigTo `{!Controller C Query ChangeConfigTo}
    InitConfig deposed w0 g0 w ps ls s :
  deposed ∈ [concurCtrler_deposed; partitionCtrler_deposed] →
  (∀ cfg c, Query (InitConfig cfg c) = cfg) → (∀ cfg c p, ¬ asked (InitConfig cfg c) p) →
  ngid w0 = Gid1 + 1 → setupKVService InitConfig w0 = ret (g0, w) →
  (∀ t p, ps !! t = Some p → p = Select) → Z.of_nat (length ls) < 2 ^ 62 →
  exec (step Query ChangeConfigTo deposed) (mkSys w ps) ls s →
  (∀ t p, procs s !! t = Some p → ∃ r, act Query ChangeConfigTo deposed p (sw s) = ret r) ∧
  (∀ g, is_group (Query (ctl (sw s))) g → grps (sw s) !! g = Some true) ∧
  serves_all_keys (Query (ctl (sw s))).
Proof.
  intros Hdep Hi Hna Hn Hset Hps Hlen Hex.
  assert (Hh : held deposed = None) by (rewrite !elem_of_cons, elem_of_nil in Hdep; naive_solver).
  destruct (setup_ok Query InitConfig w0 g0 w Hi Hset) as (-> & (Hg & _ & _) & HN & HG & Hng & Hgr).
  assert (Hask : ∀ p, ¬ asked (ctl w) p).
  { unfold setupKVService in Hset. intros p. destruct (Group_SrvNames _ _) as [l| |]; [|done..]. cbn [then_] in Hset.
    destruct (JoinBalance _ _) as [[[cfg b]| |]|]; [|done..]. cbn [then_] in Hset. injection Hset as <-. apply Hna. }
  assert (H0 : safe Query ChangeConfigTo (1 + length ls)%nat (mkSys w ps)).
  { assert (Hprop : ∀ c, ¬ proposal Query ChangeConfigTo (mkSys w ps) c).
    { intros c [H|(t & q & Hq & Hqa)]; [by apply (Hask c)|]. by rewrite (Hps t q Hq) in Hqa. }
    split; unfold cur; cbn [sw].
    - done.
    - lia.
    - intros c H. by destruct (Hprop c).
    - intros c [H _]. by destruct (Hprop c).
    - intros g [Hgg|(c & [H _] & _)]; [|by destruct (Hprop c)]. unfold is_group in Hgg. rewrite HG in Hgg.
      destruct Hgg as [l [<- _]%lookup_singleton_Some]. unfold up. cbn [sw]. rewrite Hgr, lookup_insert_eq. split; [done | lia].
    - intros t p Hp. by rewrite (Hps t p Hp).
    - intros t p g Hp Hpg. by rewrite (Hps t p Hp) in Hpg.
    - intros t t' p p' g Hp _ Hpg. by rewrite (Hps t p Hp) in Hpg.
    - rewrite Hng, Hn. unfold Gid1. lia. }
  assert (Hs : safe Query ChangeConfigTo 1 s).
  { eapply (exec_preserves_bounded _ (safe Query ChangeConfigTo)); [|exact H0 | exact Hex].
    intros n s1 l s2. by apply safe_step. }
  split; [|split].
  - intros t p Hp. destruct (safe_act Query ChangeConfigTo deposed Hh 0 s t p Hs Hp) as (p' & w' & Ha & _). by exists (p', w').
  - intros g Hgg. destruct (sf_run Query ChangeConfigTo _ _ Hs g) as [H _]; [by left | exact H].
  - apply (sf_good Query ChangeConfigTo _ _ Hs).
Qed.

(** [checkShutdownSharding] fails the test exactly on a wrong answer or on
    right answers to all the keys, so that the service works without the group
    that is down; it passes when the time is over, nothing received is wrong, and
    some key has not been answered. *)
Theorem checkShutdownSharding_verdict ka va ls s :
  (length ka <= length va)%nat → exec (sd_step ka va) (sd_init ka) ls s →
  (verdict s = Some Fatal → wrong va s ∨ all_right ka va s) ∧
  (verdict s = Some (Ret tt) → (∀ i v, received s i v → va !! i = Some v) ∧ ¬ all_right ka va s) ∧
  verdict s ≠ Some Panic.
Proof.
  intros Hva Hex. assert (Hs : sd_ok ka va s).
  { eapply (exec_preserves _ (sd_ok ka va)); [by apply sd_ok_step | apply sd_ok_init | exact Hex]. }
  destruct Hs as [Hl Hv]. split; [|split].
  - intros Ho. rewrite Ho in Hv. destruct Hv as [?|[Hc Hn]]; [by left | right; by apply counted_all].
  - intros Ho. rewrite Ho in Hv. destruct Hv as [(R & H1 & H2 & H3 & H4) Hn]. split; [exact H4|]. intros Hall.
    assert (Hsub : seq 0 (length ka) ⊆+ R).
    { apply NoDup_submseteq; [apply NoDup_seq|]. intros j Hj%elem_of_seq. apply H2.
      destruct (Hall j) as (v & Hv & _); [lia | by exists v]. }
    apply submseteq_length in Hsub. rewrite length_seq in Hsub. lia.
  - intros Ho. by rewrite Ho in Hv.
Qed.

(** With a controller that makes the changes it is asked for, groups that
    join a service of at most twelve groups in all become members, and when they
    leave again the configuration has the groups it had before, the servers of
    those groups are gone, and every key is served throughout. *)
Theorem joinGroups_leaveGroups {C} (Query : C → ShardConfig) ChangeConfigTo gids w :
  (∀ new c, Num new = Num (Query c) + 1 → Query (ChangeConfigTo new c) = new) →
  NoDup gids → settled (2 * length gids) (Query (ctl w)) →
  (∀ g, g ∈ gids → ¬ is_group (Query (ctl w)) g ∧ grps w !! g = None) →
  (size (Groups (Query (ctl w))) + length gids <= Z.to_nat NShards)%nat →
  ∃ w1 w2,
    joinGroups Query ChangeConfigTo gids w = ret (true, w1) ∧
    serves_all_keys (Query (ctl w1)) ∧ (∀ g, g ∈ gids → checkMember Query g w1 = true) ∧
    leaveGroups Query ChangeConfigTo gids w1 = ret (true, w2) ∧
    serves_all_keys (Query (ctl w2)) ∧ Groups (Query (ctl w2)) = Groups (Query (ctl w)) ∧ grps w2 = grps w.
Proof.
  intros Hi Hnd (Hg & Hb & H0 & H1) Hni Hsz.
  destruct (joinGroups_ok Query ChangeConfigTo Hi gids w Hnd) as (w1 & Hj & (Hg1 & Hb1 & H2 & _) & HN & Hgr1 & Hsz1 & Hup1).
  { split; [done|]. split; [done|]. lia. }
  { intros g Hin. by apply Hni. }
  { exact Hsz. }
  destruct (leaveGroups_ok Query ChangeConfigTo Hi gids w1 Hnd) as (w2 & Hl & (Hg2 & _ & _) & Hgr2 & Hup2).
  { split; [done|]. split; [done|]. lia. }
  { intros g Hin. split; [apply Hgr1; by left|]. split.
    - intros ->. destruct (Hni Gid1 Hin) as [[] _]. apply Hg.
    - rewrite Hup1, decide_True by done. by eexists. }
  exists w1, w2. split; [exact Hj|]. split; [apply Hg1|]. split.
  { intros g Hin. apply IsMember_spec, balanced_owns; [by apply good_wf | apply Hg1 | done | done | apply Hgr1; by left]. }
  split; [exact Hl|]. split; [apply Hg2|]. split.
  - apply same_groups; [done..|]. intros h. rewrite Hgr2, Hgr1. specialize (Hni h).
    destruct (decide (h ∈ gids)); naive_solver.
  - apply map_eq. intros h. rewrite Hup2, Hup1. case_decide as Hd; [symmetry; by apply Hni | done].
Qed.

(** ** A controller, and runs with it *)

(** The current configuration and those asked for. *)
Definition cell : Type := ShardConfig * list ShardConfig.
Definition cell_ask (new : ShardConfig) (c : cell) : cell := (c.1, new :: c.2).
Definition cell_init (cfg : ShardConfig) (_ : cell) : cell := (cfg, []).

#[export] Instance cell_controller : Controller cell fst cell_ask.
Proof.
  refine {| asked c p := p ∈ c.2; work c c' := c'.2 = c.2 ∧ c'.1 ∈ c.2 ∧ Num c'.1 = Num c.1 + 1 |}.
  - done.
  - intros new c p. apply elem_of_cons.
  - intros c c' p (-> & _) H. exact H.
  - intros c c' (_ & H). by right.
Defined.

(** [Some t] lets goroutine [t] take a step, [None] the controllers, who install
    the next configuration if one has been asked for. *)
Definition install (c : cell) : option cell :=
  (λ p, (p, c.2)) <$> List.find (λ p, bool_decide (Num p = Num c.1 + 1)) c.2.
Definition move (m : option nat) (s : sys) : option (event * sys) :=
  match m with
  | Some t =>
      p ← procs s !! t;
      match act fst cell_ask Select p (sw s) with
      | Some (Ret (p', w')) => Some (Run t, mkSys w' (<[t := p']> (procs s)))
      | _ => None
      end
  | None => c ← install (ctl (sw s)); Some (Work c, mkSys (set_ctl (λ _, c) (sw s)) (procs s))
  end.
Fixpoint play (ms : list (option nat)) (s : sys) : list event * sys :=
  match ms with
  | [] => ([], s)
  | m :: ms => match move m s with Some (e, s) => let r := play ms s in (e :: r.1, r.2) | None => play ms s end
  end.

Lemma move_step m s e s' : move m s = Some (e, s') → step fst cell_ask Select s e s'.
Proof.
  destruct m as [t|]; simpl.
  - destruct (procs s !! t) as [p|] eqn:Hp; [|done]. simpl.
    destruct (act fst cell_ask Select p (sw s)) as [[[p' w']| |]|] eqn:Ha; [|done..]. intros [= <- <-]. by eapply step_run.
  - unfold install. destruct (List.find _ _) as [p|] eqn:Hf; [|done]. simpl. intros [= <- <-].
    apply find_some in Hf as [Hin HN%bool_decide_eq_true]. apply step_work. simpl. split; [done|].
    split; [by apply list_elem_of_In | done].
Qed.

Lemma play_exec ms s : exec (step fst cell_ask Select) s (play ms s).1 (play ms s).2.
Proof.
  revert s. induction ms as [|m ms IH]; intros s; [constructor|]. simpl.
  destruct (move m s) as [[e s']|] eqn:Hm; [|apply IH]. econstructor; [by eapply move_step | apply IH].
Qed.

Definition start : world cell :=
  match setupKVService cell_init (mkWorld (Gid1 + 1) ∅ (MakeShardConfig, [])) with
  | Some (Ret (_, w)) => w
  | _ => mkWorld 0 ∅ (MakeShardConfig, [])
  end.

(** Two controllers ask for the second configuration; one of them succeeds and
    removes its group again, the other goes on. *)
Definition two_controllers : list (option nat) :=
  [Some 1; Some 2; Some 1; Some 2; Some 1; Some 2; Some 2; Some 1; None; Some 1; Some 1; Some 1; Some 1; Some 2; Some 2;
   None; Some 1; Some 1; Some 2]%nat.
Definition two_end : sys := (play two_controllers (mkSys start {[1%nat := Select; 2%nat := Select]})).2.

Lemma concurrent_controllers_safe_witness :
  grps (sw two_end) !! Gid1 = Some true ∧ serves_all_keys (ctl (sw two_end)).1 ∧
  procs two_end !! 1%nat = Some Select ∧ grps (sw two_end) !! 2 = None ∧ Num (ctl (sw two_end)).1 = 3.
Proof.
  destruct (concurrent_controllers_safe fst cell_ask cell_init Select
    (mkWorld (Gid1 + 1) ∅ (MakeShardConfig, [])) Gid1 start {[1%nat := Select; 2%nat := Select]}
    (play two_controllers (mkSys start {[1%nat := Select; 2%nat := Select]})).1 two_end) as (_ & Hup & Hs).
  - left.
  - reflexivity.
  - intros cfg c p H. by apply elem_of_nil in H.
  - reflexivity.
  - vm_compute. reflexivity.
  - intros t p [[_ <-]|[_ H]]%lookup_insert_Some; [reflexivity|]. by apply lookup_singleton_Some in H as [_ <-].
  - vm_compute. reflexivity.
  - apply play_exec.
  - split; [apply Hup; eexists; vm_compute; reflexivity|]. split; [exact Hs|].
    split; [|split]; vm_compute; reflexivity.
Defined.

Lemma joinGroups_leaveGroups_witness :
  ∃ w1 w2, joinGroups fst (λ new _, (new, [])) [2; 3; 4] start = ret (true, w1) ∧
    leaveGroups fst (λ new _, (new, [])) [2; 3; 4] w1 = ret (true, w2) ∧ grps w2 = {[Gid1 := true]}.
Proof.
  destruct (joinGroups_leaveGroups fst (λ new (_ : cell), (new, [])) [2; 3; 4] start) as (w1 & w2 & H1 & _ & _ & H2 & _ & _ & H3).
  - done.
  - apply (bool_decide_unpack _). vm_compute. exact I.
  - destruct (setup_ok fst cell_init (mkWorld (Gid1 + 1) ∅ (MakeShardConfig, [])) Gid1 start) as (_ & (Hg & Hb & _) & HN & _);
      [done | vm_compute; reflexivity |]. split; [exact Hg|]. split; [exact Hb|]. rewrite HN. simpl. lia.
  - intros g. rewrite !elem_of_cons, elem_of_nil. intros [->|[->|[->|[]]]]; (split; [intros [l Hl]; vm_compute in Hl; discriminate Hl | vm_compute; reflexivity]).
  - vm_compute. lia.
  - exists w1, w2. split; [exact H1|]. split; [exact H2|]. rewrite H3. vm_compute. reflexivity.
Defined.

(** With twelve groups the next one to join gets no shard and is reported as not
    a member, although the configuration has it. *)
Example thirteenth_group_is_no_member :
  (λ r, match r with Some (Ret (ok, w)) => Some (ok, bool_decide (is_Some (Groups (fst (ctl w)) !! 13))) | _ => None end)
    (joinGroups fst (λ new (_ : cell), (new, [])) (seqZ 2 12) start) = Some (false, true).
Proof. vm_compute. reflexivity. Qed.

(** Two keys, one of them on the group that is down. *)
Definition one_down : list sd_event := [Answer 0 "x"; Report 0; Receive 0; Timeout; Answer 1 ""; Report 1].
Definition one_down_end : shutdown := default (sd_init []) (run (sd_next ["a"; "b"] ["x"; "y"]) (sd_init ["a"; "b"]) one_down).

Lemma checkShutdownSharding_verdict_witness :
  verdict one_down_end = Some (Ret tt) ∧ ¬ all_right ["a"; "b"] ["x"; "y"] one_down_end.
Proof.
  split; [vm_compute; reflexivity|].
  apply (checkShutdownSharding_verdict ["a"; "b"] ["x"; "y"] one_down one_down_end).
  - cbn. lia.
  - apply (run_exec _ (sd_next ["a"; "b"] ["x"; "y"])); [intros ? ? ? H; exact H | vm_compute; reflexivity].
  - vm_compute. reflexivity.
Defined.
