(* ===== verification/ShardRecover.v ===== *)
(** * Recovery by a second controller: [partitionCtrler] of [shardkv1/test.go]

    A controller joins and leaves groups in a loop until it is cut off in the
    middle of a change; a second one starts, has to finish that change, and the
    tester looks at the configuration it finds. The controllers are parameters, as
    in [ShardTest], with what [shardctrler.go] says of [InitController]. *)

From S2P Require Import Prelude Rpc KvTest ShardCfg LabRPC ServerGroup ShardTest.

Open Scope string_scope.
Open Scope list_scope.
Open Scope Z_scope.

Local Notation "x ⇠ m ; k" := (then_ m (λ x, k)) (at level 20, m at level 100, k at level 200, right associativity).
Local Notation "' x ⇠ m ; k" := (then_ m (λ x : _, k)) (at level 20, x pattern, m at level 100, k at level 200, only parsing).
Local Abbreviation ret x := (Some (Ret x)).

(** ** The test *)

(** [MakeTestMaxRaft]: the group numbers start after [Gid1], which is in use, and
    the group of the key/value server is there. *)
Record params := mkParams { partition : bool; maxraftstate : Z }.
Definition MakeTestMaxRaft {C} (partition : bool) (maxraftstate : Z) (c : C) : params * ShardTest.world C :=
  (mkParams partition maxraftstate, mkWorld (Gid1 + 1) {[0 := true]} c).
Definition MakeTest {C} (c : C) : params * ShardTest.world C := MakeTestMaxRaft false (-1) c.
Definition MakeTestLeases {C} (c : C) : params * ShardTest.world C := MakeTestMaxRaft true (-1) c.

(** ** [partitionCtrler] *)

(** [JOIN] and [LEAVE]: what the first controller was doing. *)
Inductive phase := JOIN | LEAVE.

#[export] Instance phase_eq_dec : EqDecision phase.
Proof. solve_decision. Defined.

Section recover.
Context {C : Type} (Query : C → ShardConfig) (ChangeConfigTo : ShardConfig → C → C).
(** A call of [ChangeConfigTo] that is cut off, and [InitController]. *)
Context (Cut : ShardConfig → C → C) (InitController : C → C).
Abbreviation world := (ShardTest.world C).

(** [ts.Group(gid).Shutdown()] and [StartServers()]. *)
Definition set_group (b : bool) (gid : Z) (w : world) : call world :=
  match grps w !! gid with
  | None => Some Panic
  | Some _ => ret (mkWorld (ngid w) (<[gid := b]> (grps w)) (ctl w))
  end.

(** A round of the goroutine; false when the controller was deposed. *)
Definition round (w : world) : call (bool * world) :=
  let '(g, w) := newGid w in
  '(_, w) ⇠ joinGroups Query ChangeConfigTo [g] w;
  if checkMember Query g w then '(_, w) ⇠ leaveGroups Query ChangeConfigTo [g] w; ret (true, w)
  else ret (false, w).
Fixpoint rounds (n : nat) (w : world) : call (bool * world) :=
  match n with
  | O => ret (true, w)
  | S n => '(ok, w) ⇠ round w; if ok : bool then rounds n w else ret (false, w)
  end.

(** The round in which it is cut off, up to the call that does not return. *)
Definition cut_round (st : phase) (w : world) : call (Z * world) :=
  let '(g, w) := newGid w in
  match st with
  | JOIN =>
      let w := MakeGroupStart g w in
      srvs ⇠ Some (Group_SrvNames g w);
      newcfg ⇠ join_config g srvs (Query (ctl w)); ret (g, set_ctl (Cut newcfg) w)
  | LEAVE =>
      '(_, w) ⇠ joinGroups Query ChangeConfigTo [g] w;
      newcfg ⇠ leave_config g (Query (ctl w)); ret (g, set_ctl (Cut newcfg) w)
  end.

(** The checks of the configuration the second controller finds; the result says
    whether the group is left to be removed. *)
Definition recovered (st : phase) (ngid num : Z) (cfg : ShardConfig) : outcome bool :=
  if decide (Num cfg <= num) then Fatal
  else
    let present := IsMember ngid cfg in
    if decide ((st = JOIN ∧ present = false) ∨ (st = LEAVE ∧ present = true)) then Fatal
    else Ret (bool_decide (st = JOIN) && present).

(** The last loop; [answers] are those of the clerk to [Get]s of the keys, whose
    values are [va]. *)
Fixpoint check_gets (answers : list (string * Z * string)) (va : list string) : outcome unit :=
  match answers, va with
  | a :: answers, v :: va => _ ← CheckGet a v 1; check_gets answers va
  | [], _ => Ret tt
  | _ :: _, [] => Panic
  end.

Definition partitionCtrler (gid : Z) (n : nat) (st : phase) (answers : list (string * Z * string)) (va : list string) (w : world) :
    call world :=
  let w := set_ctl InitController w in
  let num := Num (Query (ctl w)) in
  '(_, w) ⇠ rounds n w;
  '(g, w) ⇠ cut_round st w;
  w ⇠ set_group false gid w;
  w ⇠ set_group true gid w;
  let w := set_ctl InitController w in
  cleanup ⇠ Some (recovered st g num (Query (ctl w)));
  w ⇠ (if cleanup : bool then '(_, w) ⇠ leaveGroups Query ChangeConfigTo [g] w; ret w else ret w);
  _ ⇠ Some (check_gets answers va);
  ret w.

(** ** What is known of the controllers *)

(** A controller that is not disturbed makes the change; one that is cut off has
    made none; and a new one finds a change under way and completes it, or ([done]
    is false) does not. *)
Record promises (done : bool) : Prop := {
  pr_change new c : Num new = Num (Query c) + 1 → Query (ChangeConfigTo new c) = new;
  pr_cut new c : Query (Cut new c) = Query c;
  pr_init new c : Num new = Num (Query c) + 1 → Query (InitController (Cut new c)) = if done then new else Query c
}.

(** ** Lemmas *)

(** The tester's world when [n] more changes are to come: group numbers are new. *)
Record ready (n : nat) (w : world) : Prop := {
  rd_cfg : settled n (Query (ctl w));
  rd_new h : ngid w <= h → ¬ is_group (Query (ctl w)) h ∧ grps w !! h = None;
  rd_pos : Gid1 < ngid w;
  rd_room : ngid w + Z.of_nat n < 2 ^ 63;
  rd_size : (size (Groups (Query (ctl w))) < Z.to_nat NShards)%nat
}.

Context (done : bool) (Hpr : promises done).

Lemma settled_mono n m c : (m <= n)%nat → settled n c → settled m c.
Proof. intros Hm (Hg & Hb & H0 & H1). split; [done|]. split; [done|]. lia. Qed.

Lemma newGid_ready n w : ready (S (S n)) w →
  newGid w = (ngid w, mkWorld (ngid w + 1) (grps w) (ctl w)) ∧ ngid w ≠ Gid1.
Proof.
  intros [_ _ H1 H2 _]. unfold newGid, Gid1 in *. rewrite wrapS_small by lia. split; [done|lia].
Qed.

(** The group joins, when nothing stands in the way. *)
Lemma join_ready n w : ready (S (S n)) w → let w0 := mkWorld (ngid w + 1) (grps w) (ctl w) in
  ∃ w1, joinGroups Query ChangeConfigTo [ngid w] w0 = ret (true, w1) ∧ checkMember Query (ngid w) w1 = true ∧
    settled (S n) (Query (ctl w1)) ∧ Num (Query (ctl w1)) = Num (Query (ctl w)) + 1 ∧
    (∀ h, is_group (Query (ctl w1)) h ↔ h = ngid w ∨ is_group (Query (ctl w)) h) ∧
    (∀ h, grps w1 !! h = if decide (h = ngid w) then Some true else grps w !! h) ∧ ngid w1 = ngid w + 1.
Proof.
  intros Hr w0. destruct (newGid_ready _ _ Hr) as [_ Hg1]. pose proof Hr as [Hs Hnew _ _ Hsz].
  destruct (Hnew (ngid w) ltac:(lia)) as [Hni _].
  destruct (joinGroups_ok Query ChangeConfigTo (pr_change _ Hpr) [ngid w] w0) as (w1 & Hj & (Hg & Hb & _ & _) & HN & Hgr & Hsz1 & Hup).
  { apply NoDup_singleton. }
  { eapply settled_mono; [|exact Hs]. simpl. lia. }
  { by intros g ->%list_elem_of_singleton. }
  { simpl. lia. }
  assert (Hw0 : Query (ctl w0) = Query (ctl w)) by done. rewrite Hw0 in *. exists w1. split; [exact Hj|].
  assert (Hn1 : ngid w1 = ngid w + 1).
  { cbn [joinGroups] in Hj. destruct (Some _) as [[srvs| |]|] in Hj; try done. cbn [then_] in Hj.
    unfold join in Hj. destruct (join_config _ _ _) as [[new| |]|]; try done. cbn [then_] in Hj.
    destruct (checkMember _ _ _); by simplify_eq. }
  split; [|split; [|split; [cbn in HN; lia|split; [|split; [|done]]]]].
  - apply IsMember_spec, balanced_owns; [by apply good_wf | apply Hg | done | done | apply Hgr; left; by left].
  - destruct Hs as (_ & _ & H0 & H1). split; [done|]. split; [done|]. cbn in HN. lia.
  - intros h. rewrite Hgr, list_elem_of_singleton. done.
  - intros h. rewrite Hup. destruct (decide (h = ngid w)) as [->|Hne].
    + by rewrite decide_True by by left.
    + by rewrite decide_False by (by intros ?%list_elem_of_singleton).
Qed.

(** It leaves again. *)
Lemma leave_ready w g :
  settled 1 (Query (ctl w)) → is_group (Query (ctl w)) g → g ≠ Gid1 → is_Some (grps w !! g) →
  ∃ w', leaveGroups Query ChangeConfigTo [g] w = ret (true, w') ∧ settled 0 (Query (ctl w')) ∧
    (∀ h, is_group (Query (ctl w')) h ↔ h ≠ g ∧ is_group (Query (ctl w)) h) ∧
    (∀ h, grps w' !! h = if decide (h = g) then None else grps w !! h) ∧ ngid w' = ngid w ∧
    Num (Query (ctl w')) = Num (Query (ctl w)) + 1.
Proof.
  intros Hs Hg Hg1 Hup.
  destruct (leave_config_ok (Query (ctl w)) g (proj1 Hs) Hg Hg1) as (new & Hl & Hgn & HG & HN & Hb & _).
  destruct (settled_next _ _ new Hs Hgn Hb HN) as [Hs' HN'].
  cbn [leaveGroups]. unfold leave. rewrite Hl. cbn [then_]. set (w2 := set_ctl (ChangeConfigTo new) w).
  assert (Hc : Query (ctl w2) = new) by (by apply Hpr).
  assert (Hgr : ∀ h, is_group (Query (ctl w2)) h ↔ h ≠ g ∧ is_group (Query (ctl w)) h).
  { intros h. rewrite Hc. unfold is_group. rewrite HG, lookup_delete_is_Some. naive_solver. }
  assert (Hm : checkMember Query g w2 = false).
  { apply not_true_iff_false. intros H. apply good_member in H; [|by rewrite Hc]. by apply Hgr in H as [? _]. }
  rewrite Hm. unfold ExitGroup. change (grps w2) with (grps w). destruct Hup as [b Hup]. rewrite Hup. cbn [then_].
  eexists. split; [reflexivity|]. cbn [ctl grps ngid]. rewrite Hc in *. split; [exact Hs'|]. split; [done|].
  split; [|by split]. intros h. destruct (decide (h = g)) as [->|Hne]; [by rewrite lookup_delete_eq | by rewrite lookup_delete_ne].
Qed.

Lemma round_ready n w : ready (S (S n)) w → ∃ w', round w = ret (true, w') ∧ ready n w' ∧
  Groups (Query (ctl w')) = Groups (Query (ctl w)) ∧ grps w' = grps w ∧ Num (Query (ctl w)) < Num (Query (ctl w')) ∧
  ngid w' = ngid w + 1.
Proof.
  intros Hr. destruct (newGid_ready _ _ Hr) as [HE Hg1]. unfold round. rewrite HE.
  destruct (join_ready n w Hr) as (w1 & -> & Hm & Hs1 & HN1 & Hgr1 & Hup1 & Hn1). cbn [then_]. rewrite Hm.
  pose proof Hr as [Hs Hnew Hpos Hroom Hsz].
  destruct (leave_ready w1 (ngid w)) as (w2 & -> & Hs2 & Hgr2 & Hup2 & Hn2 & HN2).
  { eapply settled_mono; [|exact Hs1]. lia. }
  { apply Hgr1. by left. }
  { done. }
  { rewrite Hup1, decide_True by done. by eexists. }
  cbn [then_]. destruct (Hnew (ngid w) ltac:(lia)) as [Hni Hnu].
  assert (HG : Groups (Query (ctl w2)) = Groups (Query (ctl w))).
  { apply same_groups; [apply Hs | apply Hs2 |]. intros h. rewrite Hgr2, Hgr1. naive_solver. }
  assert (Hgp : grps w2 = grps w).
  { apply map_eq. intros h. rewrite Hup2, Hup1. case_decide as Hd; [by subst h | done]. }
  exists w2. split; [done|]. split; [|split; [done|split; [done|split; lia]]]. split.
  - destruct Hs2 as (? & ? & _), Hs as (_ & _ & ? & ?). split; [done|]. split; [done|]. lia.
  - intros h Hh. unfold is_group. rewrite HG, Hgp. apply Hnew. lia.
  - lia.
  - lia.
  - by rewrite HG.
Qed.

Lemma rounds_ready n m : ∀ w, ready (2 * n + m) w → ∃ w', rounds n w = ret (true, w') ∧ ready m w' ∧
  Groups (Query (ctl w')) = Groups (Query (ctl w)) ∧ grps w' = grps w ∧ Num (Query (ctl w)) <= Num (Query (ctl w')) ∧
  ngid w' = ngid w + Z.of_nat n.
Proof.
  induction n as [|n IH]; intros w Hr; [by exists w; split; [|split; [exact Hr|split; [|split; [|split; lia]]]]|].
  replace (2 * S n + m)%nat with (S (S (2 * n + m))) in Hr by lia.
  destruct (round_ready _ w Hr) as (w1 & E & Hr1 & HG1 & Hgp1 & HN1 & Hn1).
  destruct (IH w1 Hr1) as (w2 & E2 & Hr2 & HG2 & Hgp2 & HN2 & Hn2). cbn [rounds]. rewrite E. cbn [then_]. exists w2.
  split; [done|]. split; [done|]. split; [congruence|]. split; [congruence|]. split; lia.
Qed.

(** The change that is cut off: from what configuration to which, and who is a
    member before and after it. *)
Record cut_off (st : phase) (g : Z) (old : ShardConfig) (c1 : C) (new : ShardConfig) : Prop := {
  co_num : Num new = Num (Query c1) + 1;
  co_old : Num old <= Num (Query c1);
  co_settled : settled (match st with JOIN => 1 | LEAVE => 0 end) new;
  co_groups h : is_group new h ↔ (st = JOIN ∧ h = g) ∨ is_group old h;
  co_before : IsMember g (Query c1) = bool_decide (st = LEAVE);
  co_after : IsMember g new = bool_decide (st = JOIN)
}.

Lemma is_member_iff c g : good c → balanced c → (size (Groups c) <= Z.to_nat NShards)%nat → (IsMember g c = true ↔ is_group c g).
Proof.
  intros Hg Hb Hsz. split; [by apply good_member|]. intros Hi.
  apply IsMember_spec, balanced_owns; [by apply good_wf | apply Hg | done..].
Qed.

Lemma not_member c g : good c → ¬ is_group c g → IsMember g c = false.
Proof. intros Hg Hn. apply not_true_iff_false. intros H. by apply good_member in H. Qed.

Lemma cut_ready st w : ready 2 w → ∃ w' c1 new,
  cut_round st w = ret (ngid w, w') ∧ ctl w' = Cut new c1 ∧ cut_off st (ngid w) (Query (ctl w)) c1 new ∧
  ∀ h, grps w' !! h = if decide (h = ngid w) then Some true else grps w !! h.
Proof.
  intros Hr. destruct (newGid_ready 0 w Hr) as [HE Hg1]. unfold cut_round. rewrite HE.
  pose proof Hr as [Hs Hnew _ _ Hsz]. destruct (Hnew (ngid w) ltac:(lia)) as [Hni _]. destruct st.
  - unfold Group_SrvNames. cbn [MakeGroupStart grps ctl]. rewrite lookup_insert_eq. cbn [then_].
    destruct (join_config_ok (Query (ctl w)) (ngid w) (proj1 Hs)) as (new & -> & Hgn & HG & HN & Hb & _); [by apply eq_None_not_Some|].
    destruct (settled_next _ _ new Hs Hgn Hb HN) as [Hs' HN']. cbn [then_]. eexists _, (ctl w), new. split; [reflexivity|].
    split; [done|]. split.
    + assert (Hgr : ∀ h, is_group new h ↔ h = ngid w ∨ is_group (Query (ctl w)) h).
      { intros h. unfold is_group. rewrite HG, lookup_insert_is_Some. destruct (decide (ngid w = h)); naive_solver. }
      split; [done|lia|done| | |].
      * intros h. rewrite Hgr. naive_solver.
      * by apply not_member; [apply Hs|].
      * apply is_member_iff; [done..| |apply Hgr; by left]. rewrite HG, map_size_insert_None by by apply eq_None_not_Some. lia.
    + intros h. cbn [set_ctl MakeGroupStart grps]. destruct (decide (h = ngid w)) as [->|];
        [by rewrite lookup_insert_eq | by rewrite lookup_insert_ne].
  - destruct (join_ready 0 w Hr) as (w1 & -> & Hm & Hs1 & HN1 & Hgr1 & Hup1 & _). cbn [then_].
    destruct (leave_config_ok (Query (ctl w1)) (ngid w) (proj1 Hs1)) as (new & -> & Hgn & HG & HN & Hb & _); [apply Hgr1; by left|done|].
    destruct (settled_next 0 _ new Hs1 Hgn Hb HN) as [Hs' HN']. cbn [then_]. eexists _, (ctl w1), new. split; [reflexivity|].
    split; [done|]. split; [|exact Hup1].
    assert (Hgr : ∀ h, is_group new h ↔ is_group (Query (ctl w)) h).
    { intros h. unfold is_group. rewrite HG, lookup_delete_is_Some. fold (is_group (Query (ctl w1)) h). rewrite Hgr1.
      split; [intros [? [?|?]]; [congruence|done] | intros H; split; [intros E; apply Hni; by rewrite E | by right]]. }
    split; [done|lia|done| |exact Hm|].
    + intros h. rewrite Hgr. naive_solver.
    + apply not_member; [done|]. by rewrite Hgr.
Qed.

(** The verdict on what the second controller finds. *)
Lemma recovered_verdict st g old num c1 new : num <= Num old → cut_off st g old c1 new →
  recovered st g num new = Ret (bool_decide (st = JOIN)) ∧ recovered st g num (Query c1) = Fatal.
Proof.
  intros Hn Hc. pose proof (co_num _ _ _ _ _ Hc). pose proof (co_old _ _ _ _ _ Hc). unfold recovered.
  rewrite (co_before _ _ _ _ _ Hc), (co_after _ _ _ _ _ Hc). split.
  - rewrite decide_False by lia. by destruct st.
  - case_decide; [done|]. rewrite decide_True; [done|]. destruct st; [by left | by right].
Qed.

Lemma check_gets_right va : check_gets ((λ v, (v, 1, OK)) <$> va) va = Ret tt.
Proof.
  induction va as [|v va IH]; [done|]. cbn [fmap list_fmap check_gets]. unfold CheckGet. rewrite decide_False by (by intros H; apply H).
  rewrite decide_False by (intros [H|H]; by apply H). exact IH.
Qed.

(** The group that is shut down and started again is as before. *)
Lemma restart_group {A} gid w (k : world → call A) : grps w !! gid = Some true →
  (w ⇠ set_group false gid w; w ⇠ set_group true gid w; k w) = k w.
Proof.
  intros Hx. unfold set_group. rewrite Hx. cbn [then_ grps ngid ctl]. rewrite lookup_insert_eq. cbn [then_].
  rewrite insert_insert_eq, insert_id by done. by destruct w.
Qed.
End recover.

(** ** Properties *)

(** [partitionCtrler] returns exactly if the second controller completes the
    change in which the first was cut off, be it a join or a leave, after however
    many rounds; otherwise it stops the test. When it returns, the service is
    configured with the groups it had before, every key is served, and no joined
    group is left in the configuration. *)
Theorem partitionCtrler_verdict {C} (Query : C → ShardConfig) ChangeConfigTo Cut InitController done gid n st va w :
  promises Query ChangeConfigTo Cut InitController done →
  Query (InitController (ctl w)) = Query (ctl w) → ready Query (2 * n + 2) w → grps w !! gid = Some true →
  match partitionCtrler Query ChangeConfigTo Cut InitController gid n st ((λ v, (v, 1, OK)) <$> va) va w with
  | Some (Ret w') => done = true ∧ Groups (Query (ctl w')) = Groups (Query (ctl w)) ∧ serves_all_keys (Query (ctl w')) ∧
      grps w' = if decide (st = JOIN) then grps w else <[ngid w + Z.of_nat n := true]> (grps w)
  | Some Fatal => done = false
  | _ => False
  end.
Proof.
  intros Hpr Hidle Hr Hgid. set (w0 := set_ctl InitController w).
  assert (Hr0 : ready Query (2 * n + 2) w0) by (destruct Hr; split; cbn [w0 set_ctl ctl ngid grps]; rewrite ?Hidle; done).
  destruct (rounds_ready Query ChangeConfigTo Cut InitController done Hpr n 2 w0 Hr0) as (w1 & E1 & Hr1 & HG1 & Hgp1 & HN1 & Hn1).
  destruct (cut_ready Query ChangeConfigTo Cut InitController done Hpr st w1 Hr1) as (w2 & c1 & new & E2 & Hc2 & Hco & Hgp2).
  unfold partitionCtrler. fold w0. rewrite E1. cbn [then_]. rewrite E2. cbn [then_].
  assert (Hg1 : grps w1 !! gid = Some true) by (by rewrite Hgp1).
  assert (Hg2 : grps w2 !! gid = Some true) by (rewrite Hgp2; by case_decide).
  rewrite restart_group by done. set (w3 := set_ctl InitController w2).
  assert (Hq3 : Query (ctl w3) = if done then new else Query c1).
  { cbn [w3 set_ctl ctl]. rewrite Hc2. apply (pr_init _ _ _ _ _ Hpr), Hco. }
  cbv zeta. rewrite Hq3.
  destruct (recovered_verdict Query st (ngid w1) (Query (ctl w1)) (Num (Query (ctl w0))) c1 new HN1 Hco) as [Hv1 Hv2].
  destruct done; [rewrite Hv1 | by rewrite Hv2]. cbn [then_].
  assert (Hgp3 : grps w3 = <[ngid w1 := true]> (grps w)).
  { apply map_eq. intros h. cbn [w3 set_ctl grps]. rewrite Hgp2, Hgp1.
    destruct (decide (h = ngid w1)) as [->|]; [by rewrite lookup_insert_eq | by rewrite lookup_insert_ne]. }
  assert (Hold : good (Query (ctl w1)) ∧ Groups (Query (ctl w1)) = Groups (Query (ctl w))).
  { split; [apply Hr1|]. rewrite HG1. cbn [w0 set_ctl ctl]. by rewrite Hidle. }
  destruct Hold as [Hgd1 HGw]. assert (Hfresh : ¬ is_group (Query (ctl w1)) (ngid w1) ∧ grps w1 !! ngid w1 = None)
    by (apply (rd_new _ _ _ Hr1); lia).
  assert (Hn : ngid w1 = ngid w + Z.of_nat n) by exact Hn1. destruct Hfresh as [Hng Hngp].
  pose proof (co_settled _ _ _ _ _ _ Hco) as Hset. pose proof (co_groups _ _ _ _ _ _ Hco) as Hgrs. destruct st.
  - rewrite bool_decide_true by done.
    destruct (leave_ready Query ChangeConfigTo Cut InitController true Hpr w3 (ngid w1)) as (w4 & -> & Hs4 & Hgr4 & Hgp4 & _ & _).
    { by rewrite Hq3. }
    { rewrite Hq3. apply Hgrs. by left. }
    { pose proof (rd_pos _ _ _ Hr1). unfold Gid1 in *. lia. }
    { rewrite Hgp3, lookup_insert_eq. by eexists. }
    cbn [then_]. rewrite check_gets_right. cbn [then_]. split; [done|]. rewrite decide_True by done.
    split; [|split; [apply Hs4|]].
    + rewrite <- HGw. apply same_groups; [done|apply Hs4|]. intros h. rewrite Hgr4, Hq3, Hgrs.
      split; [intros [? [[_ ?]|?]]; done | intros H; split; [intros E; apply Hng; by rewrite <- E | by right]].
    + apply map_eq. intros h. rewrite Hgp4, Hgp3. destruct (decide (h = ngid w1)) as [->|Hne]; [|by rewrite lookup_insert_ne].
      by rewrite <- Hngp, Hgp1.
  - rewrite bool_decide_false by done. cbn [then_]. rewrite check_gets_right. cbn [then_]. split; [done|].
    rewrite decide_False by done. rewrite Hq3. split; [|split; [apply Hset|by rewrite <- Hn]].
    rewrite <- HGw. apply same_groups; [done|apply Hset|]. intros h. rewrite Hgrs. naive_solver.
Qed.

(** ** Witness *)

(** The current configuration and a change under way, which a new controller
    completes. *)
Definition store : Type := ShardConfig * option ShardConfig.
Definition store_change (new : ShardConfig) (_ : store) : store := (new, None).
Definition store_cut (new : ShardConfig) (c : store) : store := (c.1, Some new).
Definition store_init (c : store) : store := match c.2 with Some new => (new, None) | None => c end.

Lemma store_promises : promises fst store_change store_cut store_init true.
Proof. by split. Qed.

Definition one_group : world store :=
  match setupKVService (λ cfg _, (cfg, None)) ((MakeTest (MakeShardConfig, None)).2) with
  | Some (Ret (_, w)) => w
  | _ => mkWorld 0 ∅ (MakeShardConfig, None)
  end.

Lemma one_group_ready : ready (C:=store) fst 4 one_group.
Proof.
  destruct (setup_ok (C:=store) fst (λ cfg _, (cfg, None)) ((MakeTest (MakeShardConfig, None)).2) Gid1 one_group)
    as (_ & (Hg & Hb & _) & HN & HG & Hn & Hgp); [done | vm_compute; reflexivity |].
  cbn in Hn, Hgp. split.
  - split; [exact Hg|]. split; [exact Hb|]. rewrite HN. lia.
  - intros h Hh. rewrite Hn in Hh. unfold is_group. rewrite HG, Hgp. unfold Gid1 in *.
    rewrite lookup_singleton_ne, lookup_insert_ne by lia. split; [by intros [? ?]|]. cbn. by rewrite lookup_singleton_ne by lia.
  - rewrite Hn. unfold Gid1. lia.
  - rewrite Hn. unfold Gid1. lia.
  - rewrite HG, map_size_singleton. unfold NShards. lia.
Qed.

(** A round, and a join that is cut off; a controller that did not look for the
    change would stop the test. *)
Lemma partitionCtrler_verdict_witness :
  (∃ w', partitionCtrler fst store_change store_cut store_init Gid1 1 JOIN [("v", 1, OK)] ["v"] one_group = ret w' ∧
    Groups (fst (ctl w')) = Groups (fst (ctl one_group)) ∧ serves_all_keys (fst (ctl w')) ∧ grps w' = grps one_group) ∧
  partitionCtrler fst store_change store_cut id Gid1 1 LEAVE [] [] one_group = Some Fatal.
Proof.
  assert (Hgid : grps one_group !! Gid1 = Some true) by (vm_compute; reflexivity). split.
  - pose proof (partitionCtrler_verdict (C:=store) fst store_change store_cut store_init true Gid1 1 JOIN ["v"] one_group store_promises
      ltac:(vm_compute; reflexivity) one_group_ready Hgid) as H. cbn [fmap list_fmap] in H.
    destruct (partitionCtrler _ _ _ _ _ _ _ _ _ _) as [[w'| |]|]; [|discriminate H|destruct H|destruct H].
    exists w'. split; [reflexivity|]. destruct H as (_ & HG & Hs & Hgp). split; [exact HG|]. split; [exact Hs|exact Hgp].
  - pose proof (partitionCtrler_verdict (C:=store) fst store_change store_cut id false Gid1 1 LEAVE [] one_group ltac:(by split)
      eq_refl one_group_ready Hgid) as H. cbn [fmap list_fmap] in H.
    destruct (partitionCtrler _ _ _ _ _ _ _ _ _ _) as [[w'| |]|]; [destruct H as [H _]; discriminate H|reflexivity|destruct H|destruct H].
Defined.
