(* ===== verification/Persister.v ===== *)
(** * The persister: [tester1/persister.go]

    A persister keeps the state of a Raft peer and its snapshot. Slices are shared
    memory: they are addresses here, into a heap of arrays, so that a client may go
    on writing to what it has saved or read. *)

From S2P Require Import Prelude.

Open Scope list_scope.
Open Scope Z_scope.

(** ** Slices *)

(** A slice is nil or a whole array; [next_addr] is not used yet. *)
Record heap := mkHeap { arrays : gmap nat (list Z); next_addr : nat }.
Definition slice := option nat.

Definition contents (h : heap) (s : slice) : list Z :=
  match s with None => [] | Some a => lookup_zero [] a (arrays h) end.
Definition alloc (l : list Z) (h : heap) : slice * heap :=
  (Some (next_addr h), mkHeap (<[next_addr h := l]> (arrays h)) (S (next_addr h))).

(** [s[i] = b] *)
Definition poke (s : slice) (i : Z) (b : Z) (h : heap) : outcome heap :=
  match s with
  | None => Panic
  | Some a => l ← store (contents h s) i b; Ret (mkHeap (<[a := l]> (arrays h)) (next_addr h))
  end.

(** ** Operations *)

Record Persister := mkPersister { raftstate : slice; snapshot : slice }.

Definition MakePersister : Persister := mkPersister None None.
Definition clone (orig : slice) (h : heap) : slice * heap := alloc (contents h orig) h.

Definition Checkpoint (ps : Persister) (h : heap) : Persister * heap :=
  let '(r, h) := clone (raftstate ps) h in
  let '(s, h) := clone (snapshot ps) h in (mkPersister r s, h).
Definition ReadRaftState (ps : Persister) (h : heap) : slice * heap := clone (raftstate ps) h.
Definition RaftStateSize (ps : Persister) (h : heap) : Z := Z.of_nat (length (contents h (raftstate ps))).
Definition Save (raftstate snapshot : slice) (ps : Persister) (h : heap) : Persister * heap :=
  let '(r, h) := clone raftstate h in
  let '(s, h) := clone snapshot h in (mkPersister r s, h).
Definition ReadSnapshot (ps : Persister) (h : heap) : slice * heap := clone (snapshot ps) h.
Definition SnapshotSize (ps : Persister) (h : heap) : Z := Z.of_nat (length (contents h (snapshot ps))).

(** ** Clients *)

(** Clients have slices of their own and persisters, each call atomic by the
    persister's lock. *)
Record sys := mkSys { sh : heap; mine : list slice; persisters : list Persister }.

Inductive op :=
| New (l : list Z)                  (* a slice of the client's own *)
| Write (k : nat) (i b : Z)         (* to the [k]-th slice the client has *)
| OpMake
| OpCheckpoint (p : nat)
| OpSave (p r s : nat)
| OpReadRaft (p : nat)
| OpReadSnap (p : nat).

Definition add_slice (r : slice * heap) (s : sys) : sys := mkSys r.2 (mine s ++ [r.1]) (persisters s).

Definition op_next (s : sys) (o : op) : option sys :=
  match o with
  | New l => Some (add_slice (alloc l (sh s)) s)
  | Write k i b =>
      x ← mine s !! k;
      match poke x i b (sh s) with Ret h => Some (mkSys h (mine s) (persisters s)) | _ => None end
  | OpMake => Some (mkSys (sh s) (mine s) (persisters s ++ [MakePersister]))
  | OpCheckpoint p =>
      ps ← persisters s !! p;
      let '(np, h) := Checkpoint ps (sh s) in Some (mkSys h (mine s) (persisters s ++ [np]))
  | OpSave p r x =>
      ps ← persisters s !! p; r ← mine s !! r; x ← mine s !! x;
      let '(ps, h) := Save r x ps (sh s) in Some (mkSys h (mine s) (<[p := ps]> (persisters s)))
  | OpReadRaft p => ps ← persisters s !! p; Some (add_slice (ReadRaftState ps (sh s)) s)
  | OpReadSnap p => ps ← persisters s !! p; Some (add_slice (ReadSnapshot ps (sh s)) s)
  end.
Definition op_step (s : sys) (o : op) (s' : sys) : Prop := op_next s o = Some s'.

(** ** What a persister is: two byte strings *)

(** The same operations on values: what clients do to their slices does not
    reach the persisters. *)
Record spec := mkSpec { own : list (list Z); saved : list (list Z * list Z) }.

Definition spec_next (a : spec) (o : op) : option spec :=
  match o with
  | New l => Some (mkSpec (own a ++ [l]) (saved a))
  | Write k i b =>
      l ← own a !! k; match store l i b with Ret l => Some (mkSpec (<[k := l]> (own a)) (saved a)) | _ => None end
  | OpMake => Some (mkSpec (own a) (saved a ++ [([], [])]))
  | OpCheckpoint p => v ← saved a !! p; Some (mkSpec (own a) (saved a ++ [v]))
  | OpSave p r x => _ ← saved a !! p; r ← own a !! r; x ← own a !! x; Some (mkSpec (own a) (<[p := (r, x)]> (saved a)))
  | OpReadRaft p => v ← saved a !! p; Some (mkSpec (own a ++ [v.1]) (saved a))
  | OpReadSnap p => v ← saved a !! p; Some (mkSpec (own a ++ [v.2]) (saved a))
  end.

(** ** Lemmas *)

(** A slice has been allocated. *)
Definition fresh (h : heap) (s : slice) : Prop := match s with None => True | Some a => (a < next_addr h)%nat end.

(** [h'] has what [h] has. *)
Definition extends (h h' : heap) : Prop :=
  (next_addr h <= next_addr h')%nat ∧ ∀ x, fresh h x → contents h' x = contents h x.

#[export] Instance extends_preorder : PreOrder extends.
Proof.
  split; [by split|]. intros h1 h2 h3 [H1 H2] [H3 H4]. split; [lia|]. intros x Hx. rewrite H4, H2; [done..|].
  destruct x; simpl in *; [lia | done].
Qed.

Lemma extends_fresh h h' x : extends h h' → fresh h x → fresh h' x.
Proof. intros [H _]. destruct x; simpl; [lia | done]. Qed.

Lemma alloc_spec l h :
  extends h (alloc l h).2 ∧ contents (alloc l h).2 (alloc l h).1 = l ∧ fresh (alloc l h).2 (alloc l h).1 ∧
  ¬ fresh h (alloc l h).1.
Proof.
  split; [split; simpl; [lia|]|].
  - intros [a|] Ha; [|done]. simpl in *. rewrite lookup_zero_insert, decide_False; [done | lia].
  - simpl. rewrite lookup_zero_insert, decide_True by done. split; [done|]. lia.
Qed.

Lemma clone_spec x h :
  extends h (clone x h).2 ∧ contents (clone x h).2 (clone x h).1 = contents h x ∧ fresh (clone x h).2 (clone x h).1 ∧
  ¬ fresh h (clone x h).1.
Proof. apply alloc_spec. Qed.

Lemma poke_spec a i b h :
  match poke (Some a) i b h with
  | Ret h' => ∃ l, store (contents h (Some a)) i b = Ret l ∧ next_addr h' = next_addr h ∧
      ∀ x, contents h' x = if decide (x = Some a) then l else contents h x
  | Panic => store (contents h (Some a)) i b = Panic
  | Fatal => False
  end.
Proof.
  unfold poke. destruct (store (contents h (Some a)) i b) as [l| |] eqn:E; cbn [mbind outcome_bind];
    [|unfold store in E; by case_match | done].
  exists l. split; [done|]. split; [done|]. intros [a'|]; cbn [contents arrays]; [|by case_decide]. rewrite lookup_zero_insert. by repeat case_decide; simplify_eq.
Qed.

(** The slices of a persister. *)
Definition inner (p : Persister) (x : slice) : Prop := x = raftstate p ∨ x = snapshot p.

Record refines (s : sys) (a : spec) : Prop := {
  rf_own : Forall2 (λ x l, contents (sh s) x = l) (mine s) (own a);
  rf_saved : Forall2 (λ p v, contents (sh s) (raftstate p) = v.1 ∧ contents (sh s) (snapshot p) = v.2) (persisters s) (saved a);
  rf_fresh x : x ∈ mine s ∨ (∃ p, p ∈ persisters s ∧ inner p x) → fresh (sh s) x;
  rf_distinct k k' y : mine s !! k = Some (Some y) → mine s !! k' = Some (Some y) → k = k';
  rf_apart y p : Some y ∈ mine s → p ∈ persisters s → ¬ inner p (Some y)
}.

Lemma Forall2_extends {A} (f g : A → slice) h h' (l : list A) (v : list (list Z * list Z)) :
  extends h h' → (∀ x, x ∈ l → fresh h (f x) ∧ fresh h (g x)) →
  Forall2 (λ x v, contents h (f x) = v.1 ∧ contents h (g x) = v.2) l v →
  Forall2 (λ x v, contents h' (f x) = v.1 ∧ contents h' (g x) = v.2) l v.
Proof.
  intros [_ He] Hf H. eapply Forall2_impl_in; [exact H|]. intros x w Hx [H1 H2].
  destruct (Hf x Hx) as [??]. by rewrite !He.
Qed.

(** The client gets a new slice. *)
Lemma refines_add s a l : refines s a → refines (add_slice (alloc l (sh s)) s) (mkSpec (own a ++ [l]) (saved a)).
Proof.
  intros [Ho Hs Hf Hd Ha]. destruct (alloc_spec l (sh s)) as (He & Hc & Hfr & Hnf). unfold add_slice.
  set (x := (alloc l (sh s)).1) in *. set (h' := (alloc l (sh s)).2) in *.
  assert (Hx : ∀ y, y ∈ mine s → y ≠ x) by (intros y Hy ->; apply Hnf, Hf; by left).
  split; cbn [sh mine persisters own saved].
  - apply Forall2_app; [|by constructor]. eapply Forall2_impl_in; [exact Ho|]. intros y v Hy <-.
    apply He, Hf. by left.
  - eapply Forall2_extends; [exact He | | exact Hs]. intros p Hp. split; apply Hf; right; exists p; split; unfold inner; auto.
  - intros y [[Hy|Hy%list_elem_of_singleton]%elem_of_app|Hy].
    + eapply extends_fresh; [exact He|]. apply Hf. by left.
    + by rewrite Hy.
    + eapply extends_fresh; [exact He|]. apply Hf. by right.
  - intros k k' y [Hk|[Hk1 Hk]]%lookup_app_Some [Hk'|[Hk1' Hk']]%lookup_app_Some.
    + by eapply Hd.
    + apply list_lookup_singleton_Some in Hk' as [_ Hk']. destruct (Hx (Some y)); [by eapply list_elem_of_lookup_2 | done].
    + apply list_lookup_singleton_Some in Hk as [_ Hk]. destruct (Hx (Some y)); [by eapply list_elem_of_lookup_2 | done].
    + apply list_lookup_singleton_Some in Hk as [Hk _], Hk' as [Hk' _]. lia.
  - intros y p [Hy|Hy%list_elem_of_singleton]%elem_of_app Hp Hi; [by eapply Ha|].
    apply Hnf. rewrite <- Hy. apply Hf. right. by exists p.
Qed.

(** A persister is made, or replaced, with slices of its own. *)
Lemma refines_persister s a h' np v l vs :
  refines s a → extends (sh s) h' →
  contents h' (raftstate np) = v.1 → contents h' (snapshot np) = v.2 →
  (∀ x, inner np x → fresh h' x ∧ (x ≠ None → ¬ fresh (sh s) x)) →
  (∀ p, p ∈ l → p ∈ persisters s ∨ p = np) →
  (∀ (P : Persister → list Z * list Z → Prop), Forall2 P (persisters s) (saved a) → P np v → Forall2 P l vs) →
  refines (mkSys h' (mine s) l) (mkSpec (own a) vs).
Proof.
  intros [Ho Hs Hf Hd Ha] He H1 H2 Hn Hl Hvs. split; cbn [sh mine persisters own saved].
  - eapply Forall2_impl_in; [exact Ho|]. intros y w Hy <-. apply He, Hf. by left.
  - apply Hvs; [|done]. eapply Forall2_extends; [exact He | | exact Hs].
    intros p Hp. split; apply Hf; right; exists p; split; unfold inner; auto.
  - intros x [Hx|(p & Hp & Hx)]; [eapply extends_fresh; [exact He|]; apply Hf; by left|].
    destruct (Hl p Hp) as [Hp'| ->]; [|by apply Hn]. eapply extends_fresh; [exact He|]. apply Hf. right. by exists p.
  - exact Hd.
  - intros y p Hy Hp Hi. destruct (Hl p Hp) as [Hp'| ->]; [by eapply Ha|].
    destruct (Hn _ Hi) as [_ Hnf]. apply Hnf; [done|]. apply Hf. by left.
Qed.

(** Cloning two slices one after the other. *)
Lemma clone2_spec x y h :
  let h1 := (clone x h).2 in let h2 := (clone y h1).2 in
  fresh h y → extends h h2 ∧ contents h2 (clone x h).1 = contents h x ∧ contents h2 (clone y h1).1 = contents h y ∧
  ∀ z, z = (clone x h).1 ∨ z = (clone y h1).1 → fresh h2 z ∧ (z ≠ None → ¬ fresh h z).
Proof.
  intros h1 h2 Hy. destruct (clone_spec x h) as (E1 & C1 & F1 & N1), (clone_spec y h1) as (E2 & C2 & F2 & N2).
  fold h1 in E1, C1, F1. fold h2 in E2, C2, F2. split; [by etrans|].
  split; [rewrite (proj2 E2) by done; exact C1|]. split; [rewrite C2; by apply E1|].
  intros z [-> | ->].
  - split; [by eapply extends_fresh | by intros _].
  - split; [done|]. intros _ H. by apply N2, (extends_fresh h).
Qed.

Lemma refines_own s a k x : refines s a → mine s !! k = Some x → own a !! k = Some (contents (sh s) x).
Proof.
  intros [Ho _ _ _ _] Hk. destruct (Forall2_lookup_l _ _ _ _ _ Ho Hk) as (l & Hl & <-). exact Hl.
Qed.
Lemma refines_saved s a k p : refines s a → persisters s !! k = Some p →
  saved a !! k = Some (contents (sh s) (raftstate p), contents (sh s) (snapshot p)).
Proof.
  intros [_ Hs _ _ _] Hk. destruct (Forall2_lookup_l _ _ _ _ _ Hs Hk) as ([r x] & Hv & H1 & H2). simpl in *. congruence.
Qed.

Lemma refines_write s a k x i b h' :
  refines s a → mine s !! k = Some x → poke x i b (sh s) = Ret h' →
  ∃ l, store (contents (sh s) x) i b = Ret l ∧ refines (mkSys h' (mine s) (persisters s)) (mkSpec (<[k := l]> (own a)) (saved a)).
Proof.
  intros [Ho Hs Hf Hd Ha] Hk Hp. destruct x as [y|]; [|done]. pose proof (poke_spec y i b (sh s)) as H.
  rewrite Hp in H. destruct H as (l & Hl & Hn & Hc). exists l. split; [done|].
  assert (Hfr : ∀ x, fresh h' x ↔ fresh (sh s) x) by (intros [z|]; simpl; [by rewrite Hn | done]).
  assert (Hin : ∀ p x, p ∈ persisters s → inner p x → contents h' x = contents (sh s) x).
  { intros p x Hp' Hi. rewrite Hc, decide_False; [done|]. intros ->. eapply (Ha y); [by eapply list_elem_of_lookup_2 | done..]. }
  split; cbn [sh mine persisters own saved].
  - apply Forall2_same_length_lookup. split; [rewrite length_insert; by eapply Forall2_length|].
    intros j x w Hj Hw. destruct (decide (k = j)) as [<-|Hne].
    + rewrite list_lookup_insert_eq in Hw by (apply lookup_lt_is_Some; rewrite (refines_own s a k (Some y)); [by eexists | by split | done]).
      assert (x = Some y) as -> by congruence. rewrite Hc, decide_True by done. congruence.
    + rewrite list_lookup_insert_ne in Hw by done. rewrite Hc, decide_False.
      * destruct (Forall2_lookup_lr _ _ _ _ _ _ Ho Hj Hw). done.
      * intros ->. by apply Hne, (Hd k j y).
  - eapply Forall2_impl_in; [exact Hs|]. intros p v Hp' [H1 H2].
    rewrite (Hin p (raftstate p)), (Hin p (snapshot p)); unfold inner; auto.
  - intros x. rewrite Hfr. apply Hf.
  - exact Hd.
  - exact Ha.
Qed.

Lemma refines_step s a o s' : refines s a → op_step s o s' → ∃ a', spec_next a o = Some a' ∧ refines s' a'.
Proof.
  intros Hr Hst. unfold op_step in Hst. destruct o as [l|k i b| |p|p r x|p|p]; cbn [op_next spec_next] in *.
  - injection Hst as <-. eexists. split; [done|]. by apply refines_add.
  - apply bind_Some in Hst as (x & Hk & Hst). destruct (poke x i b (sh s)) as [h'| |] eqn:Hp; [|done..]. injection Hst as <-.
    destruct (refines_write s a k x i b h' Hr Hk Hp) as (l & Hl & H). rewrite (refines_own s a k x Hr Hk). cbn [mbind option_bind].
    rewrite Hl. eexists. split; [done | exact H].
  - injection Hst as <-. eexists. split; [done|]. eapply (refines_persister s a (sh s) MakePersister ([], [])); try done.
    + intros x [-> | ->]; by split.
    + intros q [?|?%list_elem_of_singleton]%elem_of_app; auto.
    + intros P HP Hn. apply Forall2_app; [done | by constructor].
  - apply bind_Some in Hst as (ps & Hp & Hst). rewrite (refines_saved s a p ps Hr Hp). cbn [mbind option_bind].
    unfold Checkpoint in Hst. pose proof (clone2_spec (raftstate ps) (snapshot ps) (sh s)) as H. cbv zeta in H.
    destruct (clone (raftstate ps) (sh s)) as [r h1]. destruct (clone (snapshot ps) h1) as [x h2] eqn:E2. cbn [fst snd] in H.
    rewrite E2 in H. injection Hst as <-.
    destruct H as (He & H1 & H2 & H3). { apply Hr. right. exists ps. split; [by eapply list_elem_of_lookup_2 | by right]. }
    cbn [fst snd] in *. eexists. split; [done|].
    apply (refines_persister s a h2 (mkPersister r x) (_, _) _ _ Hr He H1 H2 H3).
    + intros q [?|?%list_elem_of_singleton]%elem_of_app; auto.
    + intros P HP Hn. apply Forall2_app; [done | by constructor].
  - apply bind_Some in Hst as (ps & Hp & Hst). apply bind_Some in Hst as (y & Hy & Hst). apply bind_Some in Hst as (z & Hz & Hst).
    rewrite (refines_saved s a p ps Hr Hp), (refines_own s a r y Hr Hy), (refines_own s a x z Hr Hz). cbn [mbind option_bind].
    unfold Save in Hst. pose proof (clone2_spec y z (sh s)) as H. cbv zeta in H.
    destruct (clone y (sh s)) as [r' h1]. destruct (clone z h1) as [x' h2] eqn:E2. cbn [fst snd] in H. rewrite E2 in H.
    injection Hst as <-. destruct H as (He & H1 & H2 & H3). { apply Hr. left. by eapply list_elem_of_lookup_2. }
    cbn [fst snd] in *. eexists. split; [done|].
    apply (refines_persister s a h2 (mkPersister r' x') (_, _) _ _ Hr He H1 H2 H3).
    + intros q [j Hj]%list_elem_of_lookup. apply list_lookup_insert_Some in Hj as [(_ & -> & _)|[_ Hj]]; [by right|].
      left. by eapply list_elem_of_lookup_2.
    + intros P HP Hn. by apply Forall2_insert.
  - apply bind_Some in Hst as (ps & Hp & Hst). rewrite (refines_saved s a p ps Hr Hp). cbn [mbind option_bind].
    injection Hst as <-. eexists. split; [done|]. by apply refines_add.
  - apply bind_Some in Hst as (ps & Hp & Hst). rewrite (refines_saved s a p ps Hr Hp). cbn [mbind option_bind].
    injection Hst as <-. eexists. split; [done|]. by apply refines_add.
Qed.

Lemma refines_exec s a os s' : refines s a → exec op_step s os s' → ∃ a', run spec_next a os = Some a' ∧ refines s' a'.
Proof.
  intros Hr H. revert a Hr. induction H as [s|s o s1 os s2 Hst _ IH]; intros a Hr; [by exists a|].
  destruct (refines_step s a o s1 Hr Hst) as (a1 & Ha & Hr1). destruct (IH a1 Hr1) as (a2 & Ha2 & Hr2).
  exists a2. split; [|done]. simpl. by rewrite Ha.
Qed.

Definition init : sys := mkSys (mkHeap ∅ 0) [] [].
Lemma refines_init : refines init (mkSpec [] []).
Proof.
  split; cbn [init mine persisters own saved]; [constructor..| | |].
  - intros x [H|(p & H & _)]; by apply elem_of_nil in H.
  - intros k k' y H. by rewrite lookup_nil in H.
  - intros y p H. by apply elem_of_nil in H.
Qed.

(** ** Properties *)

(** C25 Persisters behave as pairs of byte strings, whatever clients do to the
    slices they pass and get: after any sequence of calls and writes, what is
    read from a persister, and its sizes, are those of the contents of the two
    slices at the time of the last [Save] to it or to the persister it is a
    checkpoint of. *)
Theorem persister_isolated os s :
  exec op_step init os s →
  ∃ a, run spec_next (mkSpec [] []) os = Some a ∧ length (persisters s) = length (saved a) ∧
    ∀ p ps v, persisters s !! p = Some ps → saved a !! p = Some v →
      contents (ReadRaftState ps (sh s)).2 (ReadRaftState ps (sh s)).1 = v.1 ∧
      contents (ReadSnapshot ps (sh s)).2 (ReadSnapshot ps (sh s)).1 = v.2 ∧
      RaftStateSize ps (sh s) = Z.of_nat (length v.1) ∧ SnapshotSize ps (sh s) = Z.of_nat (length v.2).
Proof.
  intros H. destruct (refines_exec _ _ _ _ refines_init H) as (a & Ha & Hr). exists a. split; [exact Ha|].
  split; [by eapply Forall2_length, Hr|]. intros p ps v Hp Hv.
  rewrite (refines_saved s a p ps Hr Hp) in Hv. injection Hv as <-. unfold ReadRaftState, ReadSnapshot.
  destruct (clone_spec (raftstate ps) (sh s)) as (_ & C1 & _), (clone_spec (snapshot ps) (sh s)) as (_ & C2 & _).
  split; [exact C1|]. split; [exact C2|]. by split.
Qed.

(** ** Witness *)

(** The client writes to what it has saved, and to what it has read. *)
Definition scribble : list op :=
  [New [1; 2; 3]; New [7]; OpMake; OpSave 0 0 1; Write 0 0 9; OpReadRaft 0; Write 2 1 9; OpCheckpoint 0; OpSave 0 1 0].
Definition scribbled : sys := default init (run op_next init scribble).

Lemma persister_isolated_witness :
  (contents (ReadRaftState (nth 1 (persisters scribbled) MakePersister) (sh scribbled)).2
    (ReadRaftState (nth 1 (persisters scribbled) MakePersister) (sh scribbled)).1) = [1; 2; 3].
Proof.
  destruct (persister_isolated scribble scribbled) as (a & Ha & _ & H).
  - apply (run_exec op_step op_next); [intros ? ? ? E; exact E | vm_compute; reflexivity].
  - vm_compute in Ha. injection Ha as <-.
    exact (proj1 (H 1%nat (nth 1 (persisters scribbled) MakePersister) ([1; 2; 3], [7]) ltac:(vm_compute; reflexivity) ltac:(reflexivity))).
Defined.
