(* ===== verification/Daemon.v ===== *)
(** * Servers in processes of their own: [tester1/daemonclnt.go], [daemonsrv.go]

    The tester runs each server as a process, which it tells by its arguments
    which server it is ([runDaemon], [InitDaemon]), sends the state it saved
    ([Init]), and asks for its state before it kills it ([CheckpointPersister]).
    The tester and the daemon call each other over sockets ([sockrpc], [Demux]).
    Processes, sockets and the gob encoding are outside. *)

From Stdlib Require Import Ascii.
From stdpp Require Import pretty.
From S2P Require Import Prelude JsonInt LabRPC Persister.

Open Scope string_scope.
Open Scope list_scope.
Open Scope Z_scope.

(** ** Arguments *)

(** [strconv.Itoa] *)
Definition Itoa (z : Z) : string := pretty z.
Definition options (UseRaftStateMachine : bool) : list string :=
  if UseRaftStateMachine then ["--raft-state-machine"] else [].

(** The arguments [runDaemon] gives the process. *)
Definition daemon_args (use_rsm : bool) (pargs : list string) (endName : string) (gid srv : Z) (endNames : list string) :
    list string :=
  pargs ++ options use_rsm ++
  [Itoa gid; Itoa srv; Itoa (Z.of_nat (length endNames)); endName] ++ endNames.

(** The loop of [InitDaemon] that skips options; [args[0]] panics on an empty one. *)
Definition is_option (arg : string) : outcome bool :=
  match arg with EmptyString => Panic | String c _ => Ret (bool_decide (c = "-"%char)) end.
Fixpoint skip_options (args : list string) : outcome Z :=
  match args with
  | [] => Ret 0
  | a :: args => o ← is_option a; if o : bool then s ← skip_options args; Ret (s + 1) else Ret 0
  end.

(** [l[lo:hi]] *)
Definition subslice {A} (l : list A) (lo hi : Z) : outcome (list A) :=
  if decide (0 <= lo <= hi ∧ hi <= Z.of_nat (length l)) then Ret (take (Z.to_nat (hi - lo)) (drop (Z.to_nat lo) l)) else Panic.

(** What a daemon knows of itself; [None]: [InitDaemon] returns an error. *)
Record identity := mkIdentity { gid : Z; sid : Z; testerEndName : string; endNames : list string; endName : string }.

Definition InitDaemon_args (args : list string) : outcome (option identity) :=
  s ← skip_options args;
  a ← index args s;
  match Atoi a with
  | None => Ret None
  | Some gid =>
      a ← index args (s + 1);
      match Atoi a with
      | None => Ret None
      | Some sid =>
          a ← index args (s + 2);
          match Atoi a with
          | None => Ret None
          | Some nsrv =>
              testerEndName ← index args (s + 3);
              endNames ← subslice args (s + 4) (wrapS 64 (s + 4 + nsrv));
              e ← index endNames sid;
              Ret (Some (mkIdentity gid sid testerEndName endNames e))
          end
      end
  end.

Lemma Itoa_no_option z : 0 <= z → is_option (Itoa z) = Ret false.
Proof.
  intros Hz. destruct (pretty_nonneg z Hz) as (c & s & E & Hc & _). unfold Itoa. rewrite E. simpl. f_equal. apply bool_decide_eq_false.
  intros ->. by apply Hc.
Qed.

Lemma skip_options_app opts a rest :
  Forall (λ o, is_option o = Ret true) opts → is_option a = Ret false →
  skip_options (opts ++ a :: rest) = Ret (Z.of_nat (length opts)).
Proof.
  intros Ho Ha. induction Ho as [|o opts Ho _ IH]; simpl; [by rewrite Ha|]. rewrite Ho. simpl. rewrite IH. simpl. f_equal. lia.
Qed.

Lemma index_app {A} (l l' : list A) i : 0 <= i → index (l ++ l') (Z.of_nat (length l) + i) = index l' i.
Proof.
  intros Hi. unfold index. replace (Z.to_nat (Z.of_nat (length l) + i)) with (length l + Z.to_nat i)%nat by lia.
  rewrite lookup_app_r by lia. replace (length l + Z.to_nat i - length l)%nat with (Z.to_nat i) by lia.
  by repeat case_decide; try lia.
Qed.

Lemma subslice_suffix {A} (l l' : list A) : subslice (l ++ l') (Z.of_nat (length l)) (Z.of_nat (length l + length l')) = Ret l'.
Proof.
  unfold subslice. rewrite length_app, decide_True by lia. f_equal. rewrite Nat2Z.id, drop_app_length.
  apply take_ge. lia.
Qed.

Lemma InitDaemon_daemon_args use_rsm pargs endName g srv ends :
  Forall (λ o, is_option o = Ret true) pargs → 0 <= g < 2 ^ 63 → 0 <= srv < Z.of_nat (length ends) →
  Z.of_nat (length pargs) + Z.of_nat (length ends) < 2 ^ 62 →
  ∃ e, index ends srv = Ret e ∧
    InitDaemon_args (daemon_args use_rsm pargs endName g srv ends) = Ret (Some (mkIdentity g srv endName ends e)).
Proof.
  intros Hp Hg Hs Hl. destruct (lookup_lt_is_Some_2 ends (Z.to_nat srv)) as [e He]; [lia|].
  assert (Hi : index ends srv = Ret e) by (apply index_Ret; split; [lia | done]). exists e. split; [done|].
  set (opts := pargs ++ options use_rsm).
  assert (Ho : Forall (λ o, is_option o = Ret true) opts) by (apply Forall_app; split; [done | by destruct use_rsm; repeat constructor]).
  assert (Hlo : Z.of_nat (length opts) <= Z.of_nat (length pargs) + 1).
  { unfold opts. rewrite length_app. destruct use_rsm; simpl; lia. }
  assert (E : daemon_args use_rsm pargs endName g srv ends =
    opts ++ [Itoa g; Itoa srv; Itoa (Z.of_nat (length ends)); endName] ++ ends) by (unfold daemon_args, opts; by rewrite <- app_assoc).
  rewrite E. unfold InitDaemon_args.
  replace (skip_options _) with (Ret (Z.of_nat (length opts))) by (symmetry; apply skip_options_app; [done | apply Itoa_no_option; lia]).
  cbn [mbind outcome_bind]. rewrite <- (Z.add_0_r (Z.of_nat (length opts))) at 1. rewrite !index_app by lia.
  change (index _ 0) with (Ret (Itoa g)). cbn [mbind outcome_bind]. rewrite Atoi_pretty by lia.
  change (index _ 1) with (Ret (Itoa srv)). cbn [mbind outcome_bind]. rewrite Atoi_pretty by lia.
  change (index _ 2) with (Ret (Itoa (Z.of_nat (length ends)))). cbn [mbind outcome_bind]. rewrite Atoi_pretty by lia.
  change (index _ 3) with (Ret endName). cbn [mbind outcome_bind].
  rewrite wrapS_small by lia. rewrite app_assoc.
  assert (Hsub : subslice ((opts ++ [Itoa g; Itoa srv; Itoa (Z.of_nat (length ends)); endName]) ++ ends)
    (Z.of_nat (length opts) + 4) (Z.of_nat (length opts) + 4 + Z.of_nat (length ends)) = Ret ends).
  { rewrite <- subslice_suffix at 1. f_equal; rewrite length_app; simpl; lia. }
  rewrite Hsub. cbn [mbind outcome_bind]. by rewrite Hi.
Qed.

(** ** State that survives a process *)

(** [InitArgs] and [CheckpointPersisterReply] carry the contents of two slices,
    as the encoding copies them. *)
Record state_bytes := mkState { Raftstate : list Z; Snapshot : list Z }.

(** [DaemonClnt.init] reads the saved state, and [DaemonSrv.Init] puts it into a
    new persister in the memory of the daemon. *)
Definition init_args (saved : Persister) (h : heap) : state_bytes * heap :=
  let '(r, h) := ReadRaftState saved h in
  let '(s, h) := ReadSnapshot saved h in (mkState (contents h r) (contents h s), h).
Definition receive_state (a : state_bytes) (h : heap) : Persister * heap :=
  let '(r, h) := alloc (Raftstate a) h in
  let '(s, h) := alloc (Snapshot a) h in Save r s MakePersister h.
Definition Init (a : state_bytes) (h : heap) : Persister * heap := receive_state a h.

(** [DaemonSrv.CheckpointPersister], and what [checkpointPersister] makes of the
    reply in the memory of the tester. *)
Definition CheckpointPersister (ps : Persister) (h : heap) : state_bytes * heap :=
  let '(p, h) := Checkpoint ps h in
  let '(r, h) := ReadRaftState p h in
  let '(s, h) := ReadSnapshot p h in (mkState (contents h r) (contents h s), h).
Definition checkpointPersister (reply : state_bytes) (h : heap) : Persister * heap := receive_state reply h.

Definition stateSize (ps : Persister) (h : heap) : Z * Z := (RaftStateSize ps h, SnapshotSize ps h).

(** [DaemonClnt.stateSize] and [memSize]: without an answer the tester stops. *)
Definition ask_daemon {A} (answer : option A) : outcome A := match answer with Some a => Ret a | None => Fatal end.
Definition DaemonClnt_stateSize (answered : bool) (ps : Persister) (h : heap) : outcome (Z * Z) :=
  ask_daemon (if answered then Some (stateSize ps h) else None).
Definition DaemonClnt_memSize (answered : bool) (HeapAlloc : Z) : outcome Z :=
  ask_daemon (if answered then Some HeapAlloc else None).

(** What a persister holds. *)
Definition value (ps : Persister) (h : heap) : state_bytes := mkState (contents h (raftstate ps)) (contents h (snapshot ps)).
Definition allocated (ps : Persister) (h : heap) : Prop := fresh h (raftstate ps) ∧ fresh h (snapshot ps).

Lemma read_two ps h :
  allocated ps h →
  let '(r, h1) := ReadRaftState ps h in
  let '(s, h2) := ReadSnapshot ps h1 in contents h2 r = Raftstate (value ps h) ∧ contents h2 s = Snapshot (value ps h).
Proof.
  intros [Hr Hs]. unfold ReadRaftState, ReadSnapshot. pose proof (clone2_spec (raftstate ps) (snapshot ps) h) as H.
  cbv zeta in H. destruct (clone (raftstate ps) h) as [r h1]. destruct (clone (snapshot ps) h1) as [s h2] eqn:E.
  cbn [fst snd] in H. rewrite E in H. destruct (H Hs) as (_ & H1 & H2 & _). by split.
Qed.

Lemma init_args_value ps h : allocated ps h → (init_args ps h).1 = value ps h.
Proof.
  intros Ha. pose proof (read_two ps h Ha) as H. unfold init_args. destruct (ReadRaftState ps h) as [r h1].
  destruct (ReadSnapshot ps h1) as [s h2]. destruct H as [-> ->]. by destruct (value ps h).
Qed.

Lemma Save_value r s ps h :
  fresh h r → fresh h s →
  value (Save r s ps h).1 (Save r s ps h).2 = mkState (contents h r) (contents h s) ∧ allocated (Save r s ps h).1 (Save r s ps h).2.
Proof.
  intros Hr Hs. unfold Save. pose proof (clone2_spec r s h Hs) as H. cbv zeta in H.
  destruct (clone r h) as [r' h1]. destruct (clone s h1) as [s' h2] eqn:E. cbn [fst snd] in H. rewrite E in H.
  destruct H as (_ & H1 & H2 & H3). unfold value, allocated. cbn [fst snd raftstate snapshot] in *. rewrite H1, H2.
  split; [done|]. split; apply H3; auto.
Qed.

Lemma receive_value a h :
  value (receive_state a h).1 (receive_state a h).2 = a ∧ allocated (receive_state a h).1 (receive_state a h).2.
Proof.
  unfold receive_state. destruct (alloc_spec (Raftstate a) h) as (E1 & C1 & F1 & _).
  destruct (alloc (Raftstate a) h) as [r h1]. cbn [fst snd] in *.
  destruct (alloc_spec (Snapshot a) h1) as (E2 & C2 & F2 & _). destruct (alloc (Snapshot a) h1) as [s h2]. cbn [fst snd] in *.
  assert (Hr : fresh h2 r) by (by eapply extends_fresh).
  destruct (Save_value r s MakePersister h2 Hr F2) as [H1 H2]. rewrite H1, C2, (proj2 E2 r F1), C1. split; [by destruct a | exact H2].
Qed.

Lemma Checkpoint_value ps h : allocated ps h →
  value (Checkpoint ps h).1 (Checkpoint ps h).2 = value ps h ∧ allocated (Checkpoint ps h).1 (Checkpoint ps h).2.
Proof. intros [Hr Hs]. exact (Save_value (raftstate ps) (snapshot ps) ps h Hr Hs). Qed.

Lemma CheckpointPersister_value ps h : allocated ps h → (CheckpointPersister ps h).1 = value ps h.
Proof.
  intros Ha. destruct (Checkpoint_value ps h Ha) as [Hv Hal]. unfold CheckpointPersister.
  destruct (Checkpoint ps h) as [p h0]. cbn [fst snd] in *. exact (eq_trans (init_args_value p h0 Hal) Hv).
Qed.

(** ** Starting a daemon *)

(** The daemon's main goroutine and two handlers share one channel, unbuffered:
    [Init] sends the persister on it, the main goroutine sends when its services
    are registered, and [InitWait] receives. A daemon is described by the value
    of the persister it received. *)
Inductive main_pc :=
| Booting
| Waiting                      (* control calls are served; at [<-ds.ch] *)
| Received (v : state_bytes)
| Listening (v : state_bytes)  (* calls are accepted, services are not registered *)
| Signalling (v : state_bytes) (* services are registered; at [ds.ch <- nil] *)
| Idle (v : state_bytes)       (* at the last [<-ds.ch] *)
| Exited.
Inductive handler := NotCalled | Blocked | Replied.

(** The tester, in [StartServer]: [runDaemon] connects, [init] calls [Init] and
    connects again, [waitInit] calls [InitWait]. *)
Inductive tester_pc := TDial | TInit | TDialSrv | TInitWait | TReady.

Record handshake := mkHs { main : main_pc; h_init : handler; h_wait : handler; tester : tester_pc }.
Definition hs_init : handshake := mkHs Booting NotCalled NotCalled TDial.

Inductive hs_event :=
| EvBoot | EvDial | EvSend | EvListen | EvRegister | EvInitReply | EvDialSrv | EvSignal | EvWaitReply
| EvMisdeliver   (* [InitWait] receives what [Init] sends *)
| EvExit.        (* [Init] sends to the last receive *)

Definition listening (m : main_pc) : bool := match m with Listening _ | Signalling _ | Idle _ => true | _ => false end.

Definition hs_next (args : state_bytes) (s : handshake) (e : hs_event) : option handshake :=
  match e, s with
  | EvBoot, mkHs Booting hi hw t => Some (mkHs Waiting hi hw t)
  | EvDial, mkHs m hi hw TDial => match m with Booting => None | _ => Some (mkHs m Blocked hw TInit) end
  | EvSend, mkHs Waiting Blocked hw t => Some (mkHs (Received args) Replied hw t)
  | EvListen, mkHs (Received v) hi hw t => Some (mkHs (Listening v) hi hw t)
  | EvRegister, mkHs (Listening v) hi hw t => Some (mkHs (Signalling v) hi hw t)
  | EvInitReply, mkHs m Replied hw TInit => Some (mkHs m Replied hw TDialSrv)
  | EvDialSrv, mkHs m hi hw TDialSrv => if listening m then Some (mkHs m hi Blocked TInitWait) else None
  | EvSignal, mkHs (Signalling v) hi Blocked t => Some (mkHs (Idle v) hi Replied t)
  | EvWaitReply, mkHs m hi Replied TInitWait => Some (mkHs m hi Replied TReady)
  | EvMisdeliver, mkHs m Blocked Blocked t => Some (mkHs m Replied Replied t)
  | EvExit, mkHs (Idle v) Blocked hw t => Some (mkHs Exited Replied hw t)
  | _, _ => None
  end.
Definition hs_step (args : state_bytes) (s : handshake) (e : hs_event) (s' : handshake) : Prop := hs_next args s e = Some s'.

Definition started (args : state_bytes) (m : main_pc) : Prop := m = Received args ∨ m = Listening args ∨ m = Signalling args.

Definition hs_ok (args : state_bytes) (s : handshake) : Prop :=
  match tester s with
  | TDial => h_init s = NotCalled ∧ h_wait s = NotCalled ∧ (main s = Booting ∨ main s = Waiting)
  | TInit => h_wait s = NotCalled ∧ (h_init s = Blocked ∧ main s = Waiting ∨ h_init s = Replied ∧ started args (main s))
  | TDialSrv => h_init s = Replied ∧ h_wait s = NotCalled ∧ started args (main s)
  | TInitWait => h_init s = Replied ∧
      (h_wait s = Blocked ∧ (main s = Listening args ∨ main s = Signalling args) ∨ h_wait s = Replied ∧ main s = Idle args)
  | TReady => h_init s = Replied ∧ h_wait s = Replied ∧ main s = Idle args
  end.

(** How far the two have come. *)
Definition main_rank (m : main_pc) : nat :=
  match m with Booting => 0 | Waiting => 1 | Received _ => 2 | Listening _ => 3 | Signalling _ => 4 | Idle _ => 5 | Exited => 6 end.
Definition tester_rank (t : tester_pc) : nat :=
  match t with TDial => 0 | TInit => 1 | TDialSrv => 2 | TInitWait => 3 | TReady => 4 end.
Definition rank (s : handshake) : nat := (main_rank (main s) + tester_rank (tester s))%nat.

Lemma hs_ok_step args s e s' : hs_ok args s → hs_step args s e s' → hs_ok args s' ∧ rank s' = S (rank s).
Proof.
  destruct s as [m hi hw t]. unfold hs_ok, hs_step, started, rank. cbn [tester h_init h_wait main].
  destruct t; intros H Hst; destruct_and?; destruct_or?; simplify_eq/=; destruct_and?; destruct_or?; simplify_eq/=;
    destruct e; simpl in Hst; simplify_eq/=; split; try (simpl; lia); naive_solver.
Qed.

Lemma hs_ok_progress args s : hs_ok args s → tester s ≠ TReady → ∃ e s', hs_step args s e s'.
Proof.
  destruct s as [m hi hw t]. unfold hs_ok, hs_step, started. cbn [tester h_init h_wait main]. intros H Ht.
  destruct t; destruct_and?; destruct_or?; simplify_eq/=; destruct_and?; destruct_or?; simplify_eq/=; try done;
    first [by exists EvBoot; eexists | by exists EvDial; eexists | by exists EvSend; eexists | by exists EvInitReply; eexists
      | by exists EvDialSrv; eexists | by exists EvListen; eexists | by exists EvRegister; eexists | by exists EvSignal; eexists
      | by exists EvWaitReply; eexists].
Qed.

Lemma hs_ok_exec args ls s :
  exec (hs_step args) hs_init ls s → hs_ok args s ∧ rank s = length ls.
Proof.
  intros H. assert (Hg : ∀ s0 n, hs_ok args s0 → rank s0 = n → exec (hs_step args) s0 ls s →
    hs_ok args s ∧ rank s = (n + length ls)%nat).
  { clear H. intros s0 n H0 Hn H. revert n Hn H0. induction H as [s|s e s1 ls s2 Hst _ IH]; intros n Hn H0.
    - split; [done | simpl; lia].
    - destruct (hs_ok_step args s e s1 H0 Hst) as [H1 Hr]. destruct (IH (S n)) as [H2 Hr2]; [congruence | done|].
      split; [done | simpl; lia]. }
  apply (Hg hs_init 0%nat); [|done..]. repeat split. by left.
Qed.

Lemma rank_bound args s : hs_ok args s → (rank s <= 9)%nat.
Proof.
  destruct s as [m hi hw t]. unfold hs_ok, started, rank. cbn [tester h_init h_wait main].
  destruct t; intros; destruct_and?; destruct_or?; simplify_eq/=; destruct_and?; destruct_or?; simplify_eq/=; lia.
Qed.

(** ** Properties *)

(** A daemon learns from its arguments who it is exactly as the tester says,
    with whatever options before them. *)
Theorem daemon_knows_itself use_rsm pargs endName g srv ends :
  Forall (λ o, is_option o = Ret true) pargs → 0 <= g < 2 ^ 63 → 0 <= srv < Z.of_nat (length ends) →
  Z.of_nat (length pargs) + Z.of_nat (length ends) < 2 ^ 62 →
  ∃ e, index ends srv = Ret e ∧
    InitDaemon_args (daemon_args use_rsm pargs endName g srv ends) = Ret (Some (mkIdentity g srv endName ends e)).
Proof. apply InitDaemon_daemon_args. Qed.


(** ** Witnesses *)

Lemma daemon_knows_itself_witness :
  InitDaemon_args ["--max-raft-state=-1"; "--raft-state-machine"; "0"; "1"; "3"; "tester"; "-x"; "y"; "z"] =
    Ret (Some (mkIdentity 0 1 "tester" ["-x"; "y"; "z"] "y")).
Proof.
  destruct (daemon_knows_itself true ["--max-raft-state=-1"] "tester" 0 1 ["-x"; "y"; "z"]) as (e & He & H).
  - by repeat constructor.
  - lia.
  - simpl. lia.
  - simpl. lia.
  - vm_compute in He. injection He as <-. exact H.
Defined.

Definition ex_heap : heap := mkHeap {[0%nat := [1; 2]; 1%nat := [3]]} 2.
Definition ex_run : list hs_event := [EvBoot; EvDial; EvSend; EvInitReply; EvListen; EvDialSrv; EvRegister; EvSignal; EvWaitReply].


(** A daemon whose group had a negative number would take it for an option. *)
Example negative_gid : InitDaemon_args (daemon_args false [] "tester" (-1) 0 ["x"]) = Ret None.
Proof. vm_compute. reflexivity. Qed.

(** ** Calls over sockets: [sockrpc] *)

Section sockrpc.
Context {St : Type}.

Record RPCArgs := mkRPCArgs { Method : string; Args : string }.
Context (Marshall : RPCArgs → string) (Unmarshall : string → RPCArgs).
Hypothesis gob_round_trip : ∀ a, Unmarshall (Marshall a) = a.

(** [RPCSrv.ServeRequest] *)
Definition ServeRequest (clntEnd sock : string) (srv : LabRPC.Server (St:=St)) (b : string) (st : St) :
    outcome (LabRPC.Server (St:=St) * (string * bool) * St) :=
  let req := Unmarshall b in LabRPC.Dispatch srv (Method req) clntEnd (Args req) st.

(** [RPCClnt.RPC], given what [SendReceive] returns for a request: [None] is an error. *)
Definition RPC (SendReceive : string → option (string * bool)) (method args : string) : string * bool :=
  match SendReceive (Marshall (mkRPCArgs method args)) with
  | None => (EmptyString, false)
  | Some r => r
  end.

(** [RPCMarshall]: the reply is decoded only if there is one. *)
Definition RPCMarshall {A R} (enc : A → string) (dec : string → R → R) SendReceive (method : string) (a : A) (reply : R) : bool * R :=
  let '(rep, ok) := RPC SendReceive method (enc a) in if ok : bool then (true, dec rep reply) else (false, reply).

(** The tries of [dial], of which there are [MAXRETRY]. *)
Fixpoint dial_loop {Conn} (try : nat → option Conn) (i n : nat) : option Conn :=
  match n with
  | O => None
  | S n => match try i with Some c => Some c | None => dial_loop try (S i) n end
  end.
Definition dial {Conn} (try : nat → option Conn) : option Conn := dial_loop try 0 100.

Lemma dial_spec {Conn} (try : nat → option Conn) : is_Some (dial try) ↔ ∃ i, (i < 100)%nat ∧ is_Some (try i).
Proof.
  unfold dial. assert (H : ∀ n i, is_Some (dial_loop try i n) ↔ ∃ j, (i <= j < i + n)%nat ∧ is_Some (try j)).
  { induction n as [|n IH]; intros i; cbn [dial_loop].
    - split; [by intros [? ?] | intros (j & ? & _); lia].
    - destruct (try i) as [c|] eqn:E; [split; [intros _; exists i; rewrite E; split; [lia | by eexists] | by eexists]|].
      rewrite IH. split; intros (j & Hj & Ht); exists j; (split; [|done]); [lia|].
      assert (j ≠ i) by (intros ->; rewrite E in Ht; by destruct Ht). lia. }
  rewrite H. split; intros (i & Hi & Ht); exists i; (split; [lia | done]).
Qed.

(** A call over a socket that is answered is a dispatch in the process at the other end. *)
Lemma RPC_is_dispatch srv srv' sock clntEnd method args st st' r SendReceive :
  LabRPC.Dispatch srv method clntEnd args st = Ret (srv', r, st') →
  (∀ b, SendReceive b = None ∨ ∃ x, ServeRequest clntEnd sock srv b st = Ret x ∧ SendReceive b = Some x.1.2) →
  RPC SendReceive method args = r ∨ RPC SendReceive method args = (EmptyString, false).
Proof.
  intros Hd Hs. unfold RPC. destruct (Hs (Marshall (mkRPCArgs method args))) as [->|(x & Hx & ->)]; [by right|].
  left. unfold ServeRequest in Hx. rewrite gob_round_trip in Hx. simpl in Hx. rewrite Hd in Hx. by injection Hx as <-.
Qed.
End sockrpc.
