(* ===== verification/Flags.v ===== *)
(** * How a server process is configured: the flags of [tester1/daemonclnt.go],
      the main programs of the servers ([main]), and the arguments the tests give

    A test asks for a bound on the Raft state and for a library other than
    [raft1]; both travel as command-line flags, which the package flag parses in
    the process, before the arguments that say which server it is ([Daemon]). *)

From Stdlib Require Import Ascii.
From stdpp Require Import pretty.
From S2P Require Import Prelude Utf8 JsonInt LabRPC Persister Daemon.

Open Scope string_scope.
Open Scope list_scope.
Open Scope Z_scope.

(** ** The package flag *)

(** [MaxRaftState] and [UseRaftStateMachine], with their defaults. *)
Record flags := mkFlags { UseRaftStateMachine : bool; MaxRaftState : Z }.
Definition init_flags : flags := mkFlags false (-1).

(** [strconv.ParseBool] *)
Definition ParseBool (s : string) : option bool :=
  if decide (s ∈ ["1"; "t"; "T"; "true"; "TRUE"; "True"]) then Some true
  else if decide (s ∈ ["0"; "f"; "F"; "false"; "FALSE"; "False"]) then Some false else None.

Definition digit_in (base : N) (c : Ascii.ascii) : option N :=
  let b := byte_of c in
  let d := if decide (0x30 <= b <= 0x39) then Some (b - 0x30)
           else if decide (0x61 <= b <= 0x7A) then Some (b - 0x61 + 10)
           else if decide (0x41 <= b <= 0x5A) then Some (b - 0x41 + 10) else None in
  d ← d; if decide (Z.to_N d < base)%N then Some (Z.to_N d) else None.
Fixpoint digits_in (base acc : N) (s : string) : option N :=
  match s with
  | EmptyString => Some acc
  | String c s => d ← digit_in base c; digits_in base (acc * base + d)%N s
  end.

(** The base of a numeral and its digits; underscores, which are allowed between
    digits, are refused here. *)
Definition base_of (s : string) : N * string :=
  match s with
  | String z (String p (String c s')) =>
      if decide (z ≠ "0"%char) then (10%N, s)
      else if decide (p = "x"%char ∨ p = "X"%char) then (16%N, String c s')
      else if decide (p = "b"%char ∨ p = "B"%char) then (2%N, String c s')
      else if decide (p = "o"%char ∨ p = "O"%char) then (8%N, String c s')
      else (8%N, String p (String c s'))
  | String z s' => if decide (z = "0"%char) then (8%N, s') else (10%N, s)
  | EmptyString => (10%N, s)
  end.

(** [strconv.ParseInt(s, 0, 64)] *)
Definition ParseInt0 (s : string) : option Z :=
  let '(neg, t) :=
    match s with
    | String c t => if decide (c = "-"%char) then (true, t) else if decide (c = "+"%char) then (false, t) else (false, s)
    | EmptyString => (false, s)
    end in
  if decide (t = "") then None
  else
    let '(base, t) := base_of t in
    n ← digits_in base 0 t;
    let v := if neg : bool then - Z.of_N n else Z.of_N n in
    if decide (- 2 ^ 63 <= v < 2 ^ 63) then Some v else None.

(** What an argument is: no flag, the terminator, no flag's name, or a name with
    perhaps a value after the equality sign. *)
Inductive arg := NotFlag | Terminator | BadFlag | Flag (name : string) (value : option string).

Fixpoint cut (s : string) : string * option string :=
  match s with
  | EmptyString => (EmptyString, None)
  | String c s => if decide (c = "="%char) then (EmptyString, Some s) else let '(n, v) := cut s in (String c n, v)
  end.
Definition flag_of (name : string) : arg :=
  match name with
  | String c s =>
      if decide (c = "-"%char ∨ c = "="%char) then BadFlag else let '(n, v) := cut s in Flag (String c n) v
  | EmptyString => BadFlag
  end.
Definition arg_of (a : string) : arg :=
  match a with
  | String c (String d s) =>
      if decide (c ≠ "-"%char) then NotFlag
      else if decide (d = "-"%char) then if decide (s = "") then Terminator else flag_of s
      else flag_of (String d s)
  | _ => NotFlag
  end.

(** [flag.Parse]: the exit code of a process that stops, or the flags and the
    arguments that are left. *)
Fixpoint Parse (args : list string) (f : flags) : Z + flags * list string :=
  match args with
  | [] => inr (f, [])
  | a :: rest =>
      match arg_of a with
      | NotFlag => inr (f, args)
      | Terminator => inr (f, rest)
      | BadFlag => inl 2
      | Flag name value =>
          if decide (name = "raft-state-machine") then
            match default (Some true) (ParseBool <$> value) with
            | Some b => Parse rest (mkFlags b (MaxRaftState f))
            | None => inl 2
            end
          else if decide (name = "max-raft-state") then
            match value, rest with
            | Some v, _ => match ParseInt0 v with Some z => Parse rest (mkFlags (UseRaftStateMachine f) z) | None => inl 2 end
            | None, v :: rest => match ParseInt0 v with Some z => Parse rest (mkFlags (UseRaftStateMachine f) z) | None => inl 2 end
            | None, [] => inl 2
            end
          else if decide (name = "help" ∨ name = "h") then inl 0 else inl 2
      end
  end.

(** ** The main programs *)

(** A process exits, or runs as a server with its flags. *)
Inductive startup := Exit (code : Z) | Started (id : identity) (f : flags).

(** [main] of [kvsrv1d], [kvraft1d], [raft1d], [rsm1d] and [shardgrp1d], up to the
    start of the services. *)
Definition daemon_main (args : list string) : outcome startup :=
  match Parse args init_flags with
  | inl code => Ret (Exit code)
  | inr (f, _) => r ← InitDaemon_args args; Ret (match r with Some id => Started id f | None => Exit 1 end)
  end.

(** What the services take from the flags: [NewRfsrv] whether to make snapshots,
    [MakeRSM] the bound, and both whether to use the library [raft1]. *)
Definition NewRfsrv_snapshot (f : flags) : bool := bool_decide (MaxRaftState f > 0).
Definition MakeRSM_maxraftstate (f : flags) : Z := MaxRaftState f.
Definition makes_raft (f : flags) : bool := negb (UseRaftStateMachine f).

(** ** What the tests ask for *)

Definition max_raft_arg (maxraftstate : Z) : string := "--max-raft-state=" +:+ pretty maxraftstate.
(** [makeTest] of [raft1] *)
Definition raft_args (snapshot : bool) : list string := if snapshot then ["--max-raft-state=1"] else [].
(** [MakeTest] of [kvraft1], [makeTest] of [rsm], [MakeGroupStart] of [shardkv1] *)
Definition rsm_args (maxraftstate : Z) : list string := [max_raft_arg maxraftstate].

(** ** Lemmas *)

Lemma digit_in_10 c d : digit_value c = Some d → digit_in 10 c = Some d ∧ (d < 10)%N.
Proof.
  unfold digit_value, digit_in. case_decide; [|done]. intros [= <-]. cbn [mbind option_bind].
  assert (Z.to_N (byte_of c - 0x30) < 10)%N by lia. by rewrite decide_True.
Qed.

Lemma digits_in_10 s : ∀ acc n, decode_digits acc s = (n, "") → digits_in 10 acc s = Some n.
Proof.
  induction s as [|c s IH]; intros acc n; simpl; [by intros [= ->]|].
  destruct (digit_value c) as [d|] eqn:E; [|done]. apply digit_in_10 in E as [-> _]. cbn [mbind option_bind]. intros H.
  apply IH. by rewrite N.mul_comm.
Qed.

(** A positive number does not start with a zero. *)
Lemma base_of_pretty (n : N) : (0 < n)%N → base_of (pretty n) = (10%N, pretty n).
Proof.
  intros Hn. unfold pretty, pretty_N. rewrite decide_False by lia.
  destruct (pretty_N_go_first n "" Hn) as (c & d & s & -> & Hc & Hd). unfold base_of.
  assert (c ≠ "0"%char). { intros ->. apply Hd. by injection Hc as <-. }
  destruct s as [|p [|q s]]; [by rewrite decide_False..|by rewrite decide_True].
Qed.

Lemma ParseInt0_pretty z : - 2 ^ 63 <= z < 2 ^ 63 → ParseInt0 (pretty z) = Some z.
Proof.
  intros Hz. destruct z as [|p|p]; [done| |].
  - change (pretty (Z.pos p)) with (pretty (Npos p)). destruct (pretty_N_digits (Npos p)) as (c & s & E & Hc & Hd).
    assert (c ≠ "-"%char) by (intros ->; by apply Hc). assert (c ≠ "+"%char) by (intros ->; by apply Hc).
    pose proof (base_of_pretty (Npos p) ltac:(lia)) as Hb. rewrite E in *. unfold ParseInt0. rewrite !decide_False by done.
    rewrite Hb, (digits_in_10 _ _ _ Hd). cbn [mbind option_bind]. by rewrite decide_True by lia.
  - change (pretty (Z.neg p)) with (String "-"%char (pretty (Npos p))). destruct (pretty_N_digits (Npos p)) as (c & s & E & _ & Hd).
    pose proof (base_of_pretty (Npos p) ltac:(lia)) as Hb. rewrite E in *. unfold ParseInt0. rewrite decide_True, decide_False by done.
    rewrite Hb, (digits_in_10 _ _ _ Hd). cbn [mbind option_bind]. by rewrite decide_True by lia.
Qed.

Lemma Parse_max_raft m rest f :
  - 2 ^ 63 <= m < 2 ^ 63 → Parse (max_raft_arg m :: rest) f = Parse rest (mkFlags (UseRaftStateMachine f) m).
Proof. intros Hm. cbn [Parse]. change (arg_of (max_raft_arg m)) with (Flag "max-raft-state" (Some (pretty m))). cbn. by rewrite ParseInt0_pretty. Qed.

Lemma Parse_options use g rest f :
  0 <= g → UseRaftStateMachine f = false →
  Parse (options use ++ Itoa g :: rest) f = inr (mkFlags use (MaxRaftState f), Itoa g :: rest).
Proof.
  intros Hg Hf. assert (Hn : arg_of (Itoa g) = NotFlag).
  { unfold Itoa. destruct (pretty_nonneg g Hg) as (c & s & -> & Hc & _). destruct s as [|d s]; [done|]. cbn.
    rewrite decide_True; [done|]. intros ->. by apply Hc. }
  destruct use; cbn; rewrite Hn; [done|]. destruct f. cbn in *. by subst.
Qed.

Lemma max_raft_option m : is_option (max_raft_arg m) = Ret true.
Proof. done. Qed.

(** ** Properties *)

(** C36 A server process runs as the test has configured it: from the arguments
    [runDaemon] makes of the test's wishes it learns which server it is, whether to
    use another Raft library, and the bound on the Raft state (none asked for means
    -1), so that it makes snapshots exactly if the Raft test is one with snapshots. *)
Theorem daemon_runs_as_configured use pargs m endName g srv ends :
  pargs = rsm_args m ∨ (pargs = [] ∧ m = -1) → - 2 ^ 63 <= m < 2 ^ 63 →
  0 <= g < 2 ^ 63 → 0 <= srv < Z.of_nat (length ends) → Z.of_nat (length ends) < 2 ^ 61 →
  ∃ e, index ends srv = Ret e ∧
    daemon_main (daemon_args use pargs endName g srv ends) = Ret (Started (mkIdentity g srv endName ends e) (mkFlags use m)) ∧
    MakeRSM_maxraftstate (mkFlags use m) = m ∧ makes_raft (mkFlags use m) = negb use ∧
    ∀ snapshot, pargs = raft_args snapshot → NewRfsrv_snapshot (mkFlags use m) = snapshot.
Proof.
  intros Hp Hm Hg Hsrv Hlen.
  assert (Hpargs : Forall (λ o, is_option o = Ret true) pargs ∧ (length pargs <= 1)%nat).
  { destruct Hp as [->|[-> _]]; [|by split; [constructor|simpl; lia]]. split; [|done]. by repeat constructor. }
  destruct (InitDaemon_daemon_args use pargs endName g srv ends) as (e & He & Hi); [apply Hpargs|done|done|lia|].
  exists e. split; [done|]. split; [|split; [done|split; [done|]]].
  - unfold daemon_main. assert (HP : ∃ rest, Parse (daemon_args use pargs endName g srv ends) init_flags = inr (mkFlags use m, rest)).
    { unfold daemon_args. destruct Hp as [->|[-> ->]].
      - eexists. cbn [app rsm_args]. rewrite Parse_max_raft by done. apply Parse_options; [lia|done].
      - eexists. apply Parse_options; [lia|done]. }
    destruct HP as [rest ->]. by rewrite Hi.
  - intros snapshot Hs. destruct Hp as [Hp|[Hp ->]], snapshot; rewrite Hs in Hp; try done.
    assert (E : max_raft_arg 1 = max_raft_arg m) by exact (f_equal (λ l, default "" (head l)) Hp).
    apply (inj (String.append _)) in E.
    assert (Em : Some m = Some 1) by (rewrite <- (ParseInt0_pretty m), <- (ParseInt0_pretty 1) by done; by f_equal). by injection Em as ->.
Qed.

(** ** Witness *)

Lemma daemon_runs_as_configured_witness :
  daemon_main ["--max-raft-state=1000"; "--raft-state-machine"; "0"; "1"; "3"; "-tester"; "x"; "-y"; "z"] =
    Ret (Started (mkIdentity 0 1 "-tester" ["x"; "-y"; "z"] "-y") (mkFlags true 1000)).
Proof.
  destruct (daemon_runs_as_configured true (rsm_args 1000) 1000 "-tester" 0 1 ["x"; "-y"; "z"]) as (e & He & H & _);
    [by left|lia|lia|simpl; lia|simpl; lia|].
  injection He as <-. exact H.
Defined.

(** A value in the next argument is consumed by the package flag but not by the
    loop that skips options: the process takes it for its group. *)
Example separate_value :
  daemon_main ["--max-raft-state"; "5"; "0"; "1"; "2"; "t"; "x"; "y"] =
    Ret (Started (mkIdentity 5 0 "2" ["t"] "t") (mkFlags false 5)) ∧
  Parse ["--max-raft-state"; "5"; "0"] init_flags = inr (mkFlags false 5, ["0"]).
Proof. split; vm_compute; reflexivity. Qed.
Example wrong_flags :
  daemon_main ["--max-raft-state=1e3"; "0"] = Ret (Exit 2) ∧ daemon_main ["-h"] = Ret (Exit 0) ∧ daemon_main ["x"] = Ret (Exit 1).
Proof. repeat split; vm_compute; reflexivity. Qed.
