(* ===== verification/KvraftTest.v ===== *)
(** * The tests of the replicated and of the single key/value service:
      [kvraft1/test.go], [kvsrv1/test.go] and the beginning of [kvsrv1/client.go]

    A test of [kvraft1] runs the servers of group 0 in the environment of
    [Testbed]; it makes clerks, some of which may reach some servers only, kills
    all servers and restarts them, and annotates this. The single server of
    [kvsrv1] is tested in the same way. *)

From S2P Require Import Prelude Config LabRPC Clnts Annotation ServerGroup Groups GroupFaults Testbed Flags.

Open Scope string_scope.
Open Scope list_scope.
Open Scope Z_scope.

(** ** Operations *)

Section kvraft_test.
Context {St Saved : Type} (order : gmap string string → list (string * string)).
Abbreviation TestConfig := (TestConfig (St:=St) (Saved:=Saved)).

(** The fields of [Test] that say what to test; and the environment with the
    annotations. *)
Record test_params := mkParams {
  tp_part : string; tp_nclients : Z; tp_nservers : nat; tp_crash : bool; tp_partitions : bool;
  tp_maxraftstate : Z; tp_randomkeys : bool
}.
Record KTest := mkKTest { kt_params : test_params; kt_cfg : TestConfig; kt_ann : globals }.

Definition with_cfg (ts : KTest) (c : TestConfig) : KTest := mkKTest (kt_params ts) c (kt_ann ts).

Definition makeTitle (p : test_params) : string :=
  let title := "Test: " in
  let title := if tp_crash p then title +:+ "restarts, " else title in
  let title := if tp_partitions p then title +:+ "partitions, " else title in
  let title := if decide (tp_maxraftstate p ≠ -1) then title +:+ "snapshots, " else title in
  let title := if tp_randomkeys p then title +:+ "random keys, " else title in
  let title := if decide (tp_nclients p > 1) then title +:+ "many clients" else title +:+ "one client" in
  title +:+ " (" +:+ tp_part p +:+ ")".

(** The arguments of the server processes. *)
Definition server_args (p : test_params) : list string := rsm_args (tp_maxraftstate p).

(** [MakeTest], with the title that [Begin] prints. *)
Definition MakeTest (p : test_params) (reliable : bool) (rand : nat → nat → string) (fresh : Saved)
    (l : list (start_args (St:=St))) (g : globals) : outcome (KTest * string) :=
  c ← MakeConfig (tp_nservers p) reliable rand fresh l;
  Ret (mkKTest p (Config_Begin c) g, makeTitle p).

(** A method of group 0 and an annotation at time [t]. *)
Definition on_group0 (f : ServerGroup.world (St:=St) (Saved:=Saved) → outcome (ServerGroup.world (St:=St) (Saved:=Saved)))
    (annotate : globals → outcome globals) (ts : KTest) : outcome KTest :=
  gs ← on_group GRP0 f (cf_groups (kt_cfg ts));
  g ← annotate (kt_ann ts);
  Ret (mkKTest (kt_params ts) (with_groups (kt_cfg ts) gs) g).

Definition killall (p : Z → Saved) (t : Z) : KTest → outcome KTest := on_group0 (Shutdown p) (AnnotateShutdownAll t).
Definition restartall (fresh : Saved) (l : list (start_args (St:=St))) (t : Z) : KTest → outcome KTest :=
  on_group0 (StartServers fresh l) (AnnotateRestartAll t).

(** *** Clerks; [id] is the address of the new client *)

Definition SrvNames (G : ServerGrp (Saved:=Saved)) : list string := map (ServerName (gid G)) (all G).

(** [MakeClient] and [MakeClientTo]; and [MakeClerk] of [client.go], which is
    given the names of all servers. *)
Definition kv_MakeClerk (id : nat) (ts : KTest) : outcome (KTest * list string) :=
  match Config_Group GRP0 (kt_cfg ts) with
  | None => Panic
  | Some G => Ret (with_cfg ts (with_clnts (kt_cfg ts) (MakeClientTo id None (cf_clnts (kt_cfg ts)))), SrvNames G)
  end.
Definition MakeClerkTo (id : nat) (to : list Z) (ts : KTest) : outcome (KTest * list string) :=
  match Config_Group GRP0 (kt_cfg ts) with
  | None => Panic
  | Some G =>
      ns ← SrvNamesTo G to;
      Ret (with_cfg ts (with_clnts (kt_cfg ts) (MakeClientTo id (Some ns) (cf_clnts (kt_cfg ts)))), SrvNames G)
  end.
Definition kv_DeleteClerk (id : nat) (ts : KTest) : outcome KTest :=
  t ← DeleteClient order id (cf_clnts (kt_cfg ts)); Ret (with_cfg ts (with_clnts (kt_cfg ts) t)).

(** *** [kvsrv1] *)

Definition MakeTestKV (reliable : bool) (rand : nat → nat → string) (fresh : Saved) (l : list (start_args (St:=St))) : outcome TestConfig :=
  MakeConfig 1 reliable rand fresh l.

(** [MakeClerk] of [client.go] lets the client reach this server. *)
Definition kvsrv_MakeClerk (id : nat) (server : string) (c : TestConfig) : TestConfig :=
  match cf_clerks c !! id with
  | Some cl => with_clnts c (set_client id (ConnectTo order [server] cl (cf_net c)) (cf_clnts c))
  | None => c
  end.
Definition TestKV_MakeClerk (id : nat) (c : TestConfig) : TestConfig :=
  kvsrv_MakeClerk id (ServerName GRP0 0) (with_clnts c (MakeClientTo id None (cf_clnts c))).
Definition TestKV_DeleteClerk (id : nat) (c : TestConfig) : outcome TestConfig :=
  t ← DeleteClient order id (cf_clnts c); Ret (with_clnts c t).
End kvraft_test.

(** ** Stopping and starting a whole group *)

Section group.
Context {St Saved : Type}.
Implicit Types (w : world (St:=St) (Saved:=Saved)).

Lemma in_grp_lookup w (k : nat) : in_grp (grp w) (Z.of_nat k) ↔ is_Some (srvs (grp w) !! k).
Proof. rewrite lookup_lt_is_Some. unfold in_grp, N. lia. Qed.

(** [Shutdown]: every process has handed back its state, nothing is connected,
    whatever partitions there were. *)
Lemma Shutdown_exact p w :
  base_ok w →
  ∃ w', Shutdown p w = Ret w' ∧ base_ok w' ∧ precise w' ∧ unstarted w' ∧ gid (grp w') = gid (grp w) ∧
    ∀ k, srvs (grp w') !! k = shutdownServer (p (Z.of_nat k)) <$> srvs (grp w) !! k.
Proof.
  intros Hb. destruct (Kill_exact p (all (grp w)) w Hb (NoDup_seqZ _ _) (all_in_grp _)) as (w' & E & Hb' & _ & Eg & Hin & Hv).
  assert (Hp' : precise w').
  { destruct (Shutdown_ok p w Hb) as (w2 & E2 & _ & Hp2 & _). unfold Shutdown in E2. rewrite E in E2. by injection E2 as <-. }
  assert (Hvk : ∀ k, is_Some (srvs (grp w) !! k) → view w' (Z.of_nat k) = killed (p (Z.of_nat k)) w (Z.of_nat k)).
  { intros k Hk%in_grp_lookup. rewrite Hv by done. by rewrite decide_True by by apply elem_of_all. }
  assert (Hs : ∀ k, srvs (grp w') !! k = shutdownServer (p (Z.of_nat k)) <$> srvs (grp w) !! k).
  { intros k. destruct (srvs (grp w) !! k) as [s|] eqn:Hk.
    - specialize (Hvk k ltac:(by eexists)). unfold view, killed in Hvk. rewrite Nat2Z.id, Hk in Hvk. by injection Hvk.
    - apply eq_None_not_Some. rewrite <- in_grp_lookup, Hin, in_grp_lookup, Hk. by intros [? ?]. }
  exists w'. split; [done|]. split; [done|]. split; [done|]. split; [|done]. split.
  - intros i. unfold conn. destruct (ServerGroup.connected (grp w') !! Z.to_nat i) as [b|] eqn:Hcb; [|done]. cbn [default].
    assert (Hk : is_Some (srvs (grp w) !! Z.to_nat i)).
    { rewrite <- in_grp_lookup, <- Hin, in_grp_lookup. apply lookup_lt_Some in Hcb. apply lookup_lt_is_Some.
      destruct Hb' as ([Hlen _] & _). lia. }
    specialize (Hvk _ Hk). unfold view, killed, conn in Hvk. rewrite Nat2Z.id, Hcb in Hvk. by injection Hvk.
  - intros i s. rewrite Hs. intros (s0 & _ & ->)%fmap_Some. unfold shutdownServer. by destruct (dc s0) eqn:?.
Qed.

(** Starting all servers of a group none of which runs. *)
Lemma StartServers_exact fresh l w w' :
  base_ok w → precise w → unstarted w → sa_srv <$> l = all (grp w) → Forall (λ a, sa_ok a = true) l →
  StartServers fresh l w = Ret w' →
  base_ok w' ∧ precise w' ∧ gid (grp w') = gid (grp w) ∧ (∀ i, in_grp (grp w') i ↔ in_grp (grp w) i) ∧
  (∀ i, in_grp (grp w) i → conn (grp w') i = true) ∧
  ∀ k s, srvs (grp w) !! k = Some s → ∃ s', srvs (grp w') !! k = Some s' ∧ dc s' = true ∧ saved s' = Some (default fresh (saved s)).
Proof.
  intros Hb Hp [Hc Hd] Hl Hok H. rewrite Forall_forall in Hok.
  assert (Hr : Forall (λ a, restartable w (sa_srv a) ∧ sa_ok a = true) l).
  { apply Forall_forall. intros a Ha. split; [|by apply Hok]. split; [|split; [done|intros s; apply Hd]].
    apply elem_of_all. rewrite <- Hl. by apply list_elem_of_fmap_2. }
  destruct (StartServers_restart fresh l w w' Hb Hp) as (Hb' & Hp' & Eg & Hin & _ & Hv); [rewrite Hl; apply NoDup_seqZ|done|done|].
  split; [done|]. split; [done|]. split; [done|]. split; [done|].
  assert (Hst : ∀ i, in_grp (grp w) i → ∃ a, a ∈ l ∧ sa_srv a = i).
  { intros i Hi%elem_of_all. rewrite <- Hl in Hi. apply list_elem_of_fmap in Hi as (a & -> & Ha). by exists a. }
  split.
  - intros i Hi. destruct (Hst i Hi) as (a & Ha & <-). destruct (Hv a Ha) as (s & s' & _ & _ & Hva). unfold view in Hva. by injection Hva.
  - intros k s Hk. destruct (Hst (Z.of_nat k)) as (a & Ha & Ek); [apply in_grp_lookup; by eexists|].
    destruct (Hv a Ha) as (s0 & s' & Hs & [Hsv Hdc] & Hva). rewrite Ek, Nat2Z.id in Hs. unfold view in Hva. rewrite Ek, Nat2Z.id in Hva.
    assert (s0 = s) as -> by congruence. exists s'. split; [by injection Hva|]. split; [rewrite Hdc; by apply Hok|done].
Qed.
End group.

(** ** Clerks that reach some servers only *)

Lemma SrvNamesTo_elem {Saved} (G : ServerGrp (Saved:=Saved)) to ns b :
  SrvNamesTo G to = Ret ns → ServerName (gid G) b ∈ ns ↔ b ∈ to.
Proof.
  revert ns. induction to as [|i to IH]; intros ns; cbn [SrvNamesTo].
  { intros [= <-]. split; intros []%elem_of_nil. }
  unfold SrvName. case_decide; [|done]. cbn [mbind outcome_bind]. destruct (SrvNamesTo G to) as [l| |] eqn:E; [|done..].
  cbn [mbind outcome_bind]. intros [= <-]. rewrite !elem_of_cons, (IH l eq_refl).
  split; (intros [H1|?]; [left|by right]); [by apply ServerName_inj in H1|by subst].
Qed.

(** The only operations on a client after it is made are its own calls. *)
Definition only_calls (id : nat) (ops : list clnt_op) : Prop :=
  Forall (λ o, op_id o = id → match o with OpEnd _ _ _ => True | _ => False end) ops.

Lemma view_only_calls id srv al ops :
  only_calls id ops →
  ∃ u, fold_left (λ v op, if decide (op_id op = id) then view_step srv op v else v) ops (Some (mkView al None)) =
    Some (mkView al u) ∧ (u = None ∨ u = Some (allows (mkView al None) srv)).
Proof.
  assert (H : ∀ u0, u0 = None ∨ u0 = Some (allows (mkView al None) srv) → only_calls id ops →
    ∃ u, fold_left (λ v op, if decide (op_id op = id) then view_step srv op v else v) ops (Some (mkView al u0)) =
    Some (mkView al u) ∧ (u = None ∨ u = Some (allows (mkView al None) srv))).
  { induction ops as [|o ops IH]; intros u0 Hu0 Hc; [by exists u0|]. apply Forall_cons in Hc as [Ho Hc]. cbn [fold_left].
    case_decide as Hid; [|by apply IH]. specialize (Ho Hid). destruct o as [|i nm s|i|i l|i s|i|i]; try done. cbn [view_step].
    case_decide as Hs; [|by apply IH]. apply IH; [|done]. right. f_equal. unfold allows. cbn [up allow]. by destruct Hu0 as [->| ->]. }
  apply H. by left.
Qed.

(** A clerk made by [MakeClerkTo to] calls the servers in [to], and no others: its
    end to a server of the group is up exactly if the server is in [to]. *)
Theorem MakeClerkTo_reaches {St Saved} order n yes rand (fresh : Saved) (l : list (start_args (St:=St))) c0 os c tp g id to ts names
    os' c' name b cl e cl' n' :
  (∀ m, order m ≡ₚ map_to_list m) → sa_srv <$> l = seqZ 0 (Z.of_nat n) → MakeConfig n yes rand fresh l = Ret c0 →
  exec (test_step order) c0 os c → cf_clerks c !! id = None → MakeClerkTo id to (mkKTest tp c g) = Ret (ts, names) →
  exec (test_step order) (kt_cfg ts) os' c' → only_calls id (clnt_ops os') →
  cf_clerks c' !! id = Some cl → makeEnd name (ServerName GRP0 b) cl (cf_net c') = Ret (e, cl', n') →
  lookup_zero None e (connections n') = Some (ServerName GRP0 b) ∧
  lookup_zero false e (enabled n') = bool_decide (b ∈ to).
Proof.
  intros Hord Hl Hm Hex Hid Hmk Hex' Honly Hc He. pose proof (MakeConfig_ok _ _ _ _ _ _ Hl Hm) as H0.
  pose proof (test_exec_ok order Hord _ _ _ _ _ H0 Hex) as Hok. unfold MakeClerkTo in Hmk. cbn [kt_cfg] in Hmk.
  destruct (Config_Group GRP0 c) as [G|] eqn:HG; [|done]. destruct (SrvNamesTo G to) as [ns| |] eqn:Ens; [|done..].
  injection Hmk as <- _. cbn [with_cfg kt_cfg] in Hex'. destruct (go_grp _ _ (tb_groups _ _ _ Hok) GRP0 G HG) as [Egid _].
  assert (Hst : test_step order c (TClnt (OpMake id (Some ns))) (with_clnts c (MakeClientTo id (Some ns) (cf_clnts c)))).
  { split; [done|]. cbn [test_do clnt_do cf_clnts clerks]. by rewrite decide_True. }
  pose proof (test_step_ok order Hord _ _ _ _ _ Hok Hst) as Hok1. pose proof (test_exec_ok order Hord _ _ _ _ _ Hok1 Hex') as [_ Hcl _].
  destruct (call_reaches order Hord _ _ _ _ _ _ _ _ _ Hcl Hc He) as (v & Hv & Hcon & _ & Hup). split; [done|].
  rewrite Hup. unfold view_after in Hv. rewrite !fold_left_app in Hv. cbn [clnt_ops omap list_omap fold_left op_id view_step] in Hv.
  rewrite decide_True in Hv by done. destruct (view_only_calls id (ServerName GRP0 b) (Some ns) _ Honly) as (u & Hu & Hcase).
  rewrite Hu in Hv. injection Hv as <-. cbn [Clnts.up].
  assert (Hal : allows (mkView (Some ns) u) (ServerName GRP0 b) = bool_decide (b ∈ to)).
  { unfold allows. cbn [allow]. apply bool_decide_ext. rewrite <- Egid. by apply SrvNamesTo_elem. }
  destruct Hcase as [->| ->]; exact Hal.
Qed.

(** ** All servers are killed and restarted *)

(** C30 After a test has killed all servers and started them again, the cluster is
    whole, whatever the test did before with operations as in [test_step],
    partitions included ([GenericTest] kills the servers after its partitioner has
    run), if the processes start: in between no server is registered; after
    it every server runs and is registered, on the state its process handed back
    (the one it was shut down with before, or a new one, if it did not run), all
    ends between servers are up, whoever was disconnected or cut off before, and the ends that
    clients had lead to the new servers and are up or down as they were. *)
Theorem killall_restartall {St Saved} order n yes rand (fresh : Saved) (la : list (start_args (St:=St))) c0 os c tp g g1 p t l t' G ts2 :
  (∀ m, order m ≡ₚ map_to_list m) → sa_srv <$> la = seqZ 0 (Z.of_nat n) → MakeConfig n yes rand fresh la = Ret c0 →
  exec (test_step order) c0 os c → Config_Group GRP0 c = Some G → AnnotateShutdownAll t g = Ret g1 →
  sa_srv <$> l = all G → Forall (λ a, sa_ok a = true) l →
  (ts1 ← killall p t (mkKTest tp c g); restartall fresh l t' ts1) = Ret ts2 →
  (∃ c1, killall p t (mkKTest tp c g) = Ret (mkKTest tp c1 g1) ∧
    ∀ i, lookup_zero None (ServerName GRP0 i) (servers (cf_net c1)) = None) ∧
  ∃ G2, Config_Group GRP0 (kt_cfg ts2) = Some G2 ∧
    (∀ k s, srvs G !! k = Some s → ∃ s2, srvs G2 !! k = Some s2 ∧ dc s2 = true ∧
      saved s2 = if dc s then Some (p (Z.of_nat k)) else Some (default fresh (saved s))) ∧
    (∀ a b, in_grp G a → in_grp G b → ∃ e srv, end_name (mkWorld (cf_net (kt_cfg ts2)) G2) a b = Ret e ∧
      (readEndnameInfo e (cf_net (kt_cfg ts2))).1.1 = (true, Some (ServerName GRP0 b), Some srv)) ∧
    ∀ id cl b e, cf_clerks c !! id = Some cl → c_ends cl !! ServerName GRP0 b = Some e → in_grp G b →
      ∃ srv, (readEndnameInfo e (cf_net (kt_cfg ts2))).1.1 =
        (lookup_zero false e (enabled (cf_net c)), Some (ServerName GRP0 b), Some srv).
Proof.
  intros Hord Hla Hm Hex HG Hann Hl Hok Hrun. pose proof (MakeConfig_ok _ _ _ _ _ _ Hla Hm) as H0.
  destruct (test_exec_ok order Hord _ _ _ _ _ H0 Hex) as [Hgs [Hcl _] Hap].
  destruct (go_grp _ _ Hgs GRP0 G HG) as (Eg & Hb & _). destruct (Shutdown_exact p _ Hb) as (w1 & E1 & Hb1 & Hp1 & Hu1 & Eg1 & Hs1).
  destruct (on_Shutdown_ok _ GRP0 p (cf_groups c) Hgs) as (gs1 & Eon & _ & _ & Hnone & _); [by exists G|].
  assert (Egs1 : gs1 = mkGroups (ServerGroup.net w1) (<[GRP0 := grp w1]> (cf_grps c))).
  { unfold on_group, lookupGroup in Eon. unfold Config_Group, lookupGroup in HG. rewrite HG, E1 in Eon. by injection Eon as <-. }
  unfold killall, restartall, on_group0 in Hrun. cbn [kt_cfg kt_ann kt_params] in Hrun. rewrite Eon, Hann in Hrun.
  cbn [mbind outcome_bind kt_cfg kt_ann kt_params] in Hrun. split.
  { exists (with_groups c gs1). split; [|exact Hnone]. unfold killall, on_group0. cbn [kt_cfg kt_ann kt_params]. by rewrite Eon, Hann. }
  unfold on_group at 1, lookupGroup in Hrun. rewrite Egs1 in Hrun. cbn [cf_groups with_groups cf_net cf_grps gs_net grps] in Hrun.
  rewrite lookup_insert_eq in Hrun. replace (mkWorld (ServerGroup.net w1) (grp w1)) with w1 in Hrun by (by destruct w1).
  destruct (StartServers fresh l w1) as [w2| |] eqn:E2; [|done..]. cbn [mbind outcome_bind] in Hrun.
  destruct (AnnotateRestartAll t' g1) as [g2| |]; [|done..]. cbn [mbind outcome_bind] in Hrun. injection Hrun as <-.
  cbn [kt_cfg with_groups cf_net cf_grps gs_net grps]. cbn [grp] in *.
  assert (HN : length (srvs (grp w1)) = length (srvs G)).
  { apply Nat.le_antisymm; apply Nat.nlt_ge; intros Hlt.
    - destruct (lookup_lt_is_Some_2 _ _ Hlt) as [s Hs]. rewrite Hs1, lookup_ge_None_2 in Hs by lia. done.
    - destruct (lookup_lt_is_Some_2 _ _ Hlt) as [s Hs]. pose proof (Hs1 (length (srvs (grp w1)))) as Hx.
      rewrite Hs, lookup_ge_None_2 in Hx by lia. done. }
  assert (Hin1 : ∀ i, in_grp (grp w1) i ↔ in_grp G i) by (intros i; unfold in_grp, N; by rewrite HN).
  destruct (StartServers_exact fresh l w1 w2 Hb1 Hp1 Hu1) as (Hb2 & Hp2 & Eg2 & Hin2 & Hc2 & Hs2);
    [rewrite Hl; unfold all, N; by rewrite HN|done|done|].
  assert (Hgid : gid (grp w2) = GRP0) by congruence.
  assert (Hreg : ∀ b, in_grp G b → is_Some (lookup_zero None (ServerName GRP0 b) (servers (ServerGroup.net w2)))).
  { intros b Hbi. destruct (lookup_lt_is_Some_2 (srvs (grp w1)) (Z.to_nat b)) as [s Hs]; [unfold in_grp, N in Hbi; lia|].
    destruct (Hs2 _ _ Hs) as (s2 & Hss & Hd & _). destruct Hb2 as (_ & _ & _ & Hr). rewrite <- Hgid. apply (Hr b s2); [apply Hbi|done|done]. }
  exists (grp w2). split; [unfold Config_Group, lookupGroup; cbn; by rewrite lookup_insert_eq|]. split; [|split].
  - intros k s Hs. specialize (Hs1 k). rewrite Hs in Hs1. destruct (Hs2 _ _ Hs1) as (s2 & Hss & Hd & Hsv).
    exists s2. split; [done|]. split; [done|]. rewrite Hsv. unfold shutdownServer. by destruct (dc s).
  - intros a b Ha Hbi. assert (Ha2 : in_grp (grp w2) a) by (by apply Hin2, Hin1). assert (Hbi2 : in_grp (grp w2) b) by (by apply Hin2, Hin1).
    destruct (read_end w2 a b Hb2 Ha2 Hbi2) as (srv & Hread & _). destruct (Hreg b Hbi) as [srv' Hsrv].
    exists (name (grp w2) a b), srv'. split; [exact (end_name_Ret (mkWorld (ServerGroup.net w2) (grp w2)) a b (proj1 Hb2) Ha2 Hbi2)|].
    assert (Es : srv = Some srv') by (rewrite <- Hsrv; unfold readEndnameInfo in Hread; injection Hread as Hcon <-; by rewrite Hcon, Hgid).
    rewrite Hread, Es, (Hp2 a b Ha2 Hbi2), (Hc2 a), (Hc2 b), Hgid by (by apply Hin1). done.
  - intros id cl b e Hc He Hbi. destruct (eo_ends _ Hcl id cl _ e Hc He) as [Hein Hecon]. cbn [cf_clnts Clnts.net] in Hein, Hecon.
    assert (Hn : ¬ group_end (cf_groups c) e) by (apply Hap; by exists id, cl, (ServerName GRP0 b)).
    destruct (on_group_frame _ _ _ _ e Eon (frame_Shutdown p) Hein Hn) as [Hsame1 Hn1].
    assert (Hon2 : on_group GRP0 (StartServers fresh l) gs1 = Ret (mkGroups (ServerGroup.net w2) (<[GRP0 := grp w2]> (grps gs1)))).
    { unfold on_group, lookupGroup. rewrite Egs1. cbn [grps gs_net]. rewrite lookup_insert_eq.
      replace (mkWorld (ServerGroup.net w1) (grp w1)) with w1 by (by destruct w1). by rewrite E2. }
    destruct (on_group_frame _ _ _ _ e Hon2 (frame_StartServers fresh l) (proj1 Hsame1) Hn1) as [Hsame2 _].
    destruct (same_end_trans _ _ _ _ Hsame1 Hsame2) as (_ & Hcon & Hen). cbn [gs_net cf_groups] in Hcon, Hen.
    destruct (Hreg b Hbi) as [srv Hsrv]. exists srv. unfold readEndnameInfo. cbn [fst snd].
    rewrite Hen. unfold lookup_zero at 2 3. rewrite Hcon. fold (lookup_zero None e (connections (cf_net c))). rewrite Hecon, Hsrv. done.
Qed.

(** ** A test whose servers are restarted *)

Module RestartEx.
Definition params : test_params := mkParams "4B" 5 3 true false (-1) false.
Definition again : list (start_args (St:=unit)) :=
  (λ i, mkStart i (GroupEx.rnd (5000 + 100 * i)) true (Z.to_nat (50 + i)) GroupEx.obj) <$> seqZ 0 3.
Definition ann : globals := match mkFrameworkInfo 3 with Ret fi => set_finfo fi init_globals | _ => init_globals end.
Definition ann' : globals := match AnnotateShutdownAll 7 ann with Ret g => g | _ => ann end.
Definition before : KTest := mkKTest params TestbedEx.state ann.
Definition after : KTest :=
  match (ts ← killall (λ _, tt) 7 before; restartall tt again 8 ts) with Ret ts => ts | _ => before end.
Definition grp0 : ServerGrp := default (mkGrp [] [] 0) (Config_Group GRP0 TestbedEx.state).
End RestartEx.

Example title : makeTitle RestartEx.params = "Test: restarts, many clients (4B)".
Proof. reflexivity. Qed.

(** Server 1 had been cut off by a partition and shut down, and the client's end to
    it is down. *)
Lemma killall_restartall_witness :
  ∃ G2 srv, Config_Group GRP0 (kt_cfg RestartEx.after) = Some G2 ∧
    (readEndnameInfo "c0" (cf_net (kt_cfg RestartEx.after))).1.1 = (false, Some (ServerName GRP0 1), Some srv).
Proof.
  destruct (killall_restartall map_to_list 3 false (GroupsEx.names 0) tt (GroupsEx.args 0 3) TestbedEx.start TestbedEx.ops
    TestbedEx.state RestartEx.params RestartEx.ann RestartEx.ann' (λ _, tt) 7 RestartEx.again 8 RestartEx.grp0 RestartEx.after)
    as (_ & G2 & HG2 & _ & _ & H).
  - done.
  - vm_compute. reflexivity.
  - vm_compute. reflexivity.
  - apply (run_exec _ TestbedEx.next); [apply TestbedEx.test_next_step | vm_compute; reflexivity].
  - vm_compute. reflexivity.
  - vm_compute. reflexivity.
  - vm_compute. reflexivity.
  - by repeat constructor.
  - vm_compute. reflexivity.
  - assert (Hcl : ∃ cl, cf_clerks TestbedEx.state !! 0%nat = Some cl ∧ c_ends cl !! ServerName GRP0 1 = Some "c0")
      by (eexists; split; vm_compute; reflexivity).
    destruct Hcl as (cl & Hcl & He). destruct (H 0%nat cl 1 "c0" Hcl He) as [srv Hsrv].
    + apply (bool_decide_unpack _). vm_compute. exact I.
    + exists G2, srv. split; [exact HG2|]. rewrite Hsrv. vm_compute. reflexivity.
Defined.
