(* ===== verification/Forward.v ===== *)
(** * Calls between servers in processes of their own: [daemonsrv.go], [testsrv.go],
    [daemonclnt.go]

    A server that runs as a daemon ([Daemon]) sees only a network of its own,
    whose ends hand each call to the tester ([DaemonSrv.forward]). The tester
    puts it into the network of the test ([TesterRPC.Forward], [LabRPC]), whose
    servers hand it on to the daemon that is called ([DaemonClnt.forward]). The
    sockets, the network and the gob encoding are parameters. *)

From Stdlib Require Import Ascii.
From S2P Require Import Prelude JsonInt LabRPC Daemon.

Open Scope string_scope.
Open Scope list_scope.
Open Scope Z_scope.

Record ForwardArgs := mkForwardArgs { F_Method : string; F_End : string; F_Args : bytes; F_Id : Z }.
Record ForwardReply := mkForwardReply { Rep : bytes; Ok : bool }.

Section forward.
(** The gob encoding of what goes over the sockets; [NSt] is the tester's state,
    with the network's tables, and [deliver] what the network does with a
    request on an end. *)
Context (Marshall : RPCArgs → bytes) (Unmarshall : bytes → RPCArgs).
Context (encA : ForwardArgs → bytes) (decA : bytes → ForwardArgs).
Context (encR : ForwardReply → bytes) (decR : bytes → ForwardReply → ForwardReply).
Context {St NSt : Type} (tables : NSt → Network (St:=St)) (deliver : reqMsg → NSt → option replyMsg * NSt).

(** [DaemonSrv.forward]; the identifier of the call is counted up. *)
Definition ds_forward (SendReceive : bytes → option (bytes * bool)) (id : Z) (e method : string) (b : bytes) : (bytes * bool) * Z :=
  let id := wrapS 64 (id + 1) in
  let args := mkForwardArgs method e b id in
  let '(ok, reply) := RPCMarshall Marshall encA decR SendReceive "TesterRPC.Forward" args (mkForwardReply EmptyString false) in
  (if ok : bool then (Rep reply, Ok reply) else (EmptyString, ok), id).

(** [ClientEnd.Forward] and [TesterRPC.Forward]; to look up an end that is not
    there is fatal. *)
Definition end_Forward (e svcMeth : string) (args : bytes) (n : NSt) : (bytes * bool) * NSt :=
  let '(rep, n) := deliver (mkReq e svcMeth args) n in (Forward_result rep, n).
Definition TesterRPC_Forward (args : ForwardArgs) (n : NSt) : outcome (ForwardReply * NSt) :=
  e ← LookupEnd (F_End args) (tables n);
  let '((rep, ok), n) := end_Forward e (F_Method args) (F_Args args) n in Ret (mkForwardReply rep ok, n).

(** The handler as [MakeService] finds it; [others] are the other methods of
    [TesterRPC]. *)
Definition Forward_method : LabRPC.Method (St:=NSt) :=
  mkMethod EmptyString "Forward" 3 true 0 (λ b n, '(r, n) ← TesterRPC_Forward (decA b) n; Ret (encR r, n)).
Definition newTesterRPCSrv (others : list (LabRPC.Method (St:=NSt))) : Server (St:=NSt) :=
  AddService (MakeService "TesterRPC" (Forward_method :: others)) MakeServer.

(** [DaemonClnt.forward], and the server that [StartServer] puts into the network. *)
Definition dc_forward (SendReceive : bytes → option (bytes * bool)) (method : string) (args : bytes) : bytes * bool :=
  RPC Marshall SendReceive method args.
Definition labsrv (SendReceive : bytes → option (bytes * bool)) : Server (St:=St) :=
  SetDispatch (λ method args st, (dc_forward SendReceive method args, st)) MakeServer.

(** A socket to a server: a request is answered by the server's dispatcher or
    the connection breaks. *)
Definition socket_to {S} (sock clnt : string) (srv : Server (St:=S)) (st : S) (SendReceive : bytes → option (bytes * bool)) : Prop :=
  ∀ b, SendReceive b = None ∨ ∃ x, ServeRequest Unmarshall clnt sock srv b st = Ret x ∧ SendReceive b = Some x.1.2.

(** What the network may do with a request: lose it, refuse it, or dispatch it
    to the registered server. *)
Definition delivers_to (srv : Server (St:=St)) (st : St) (n : NSt) : Prop :=
  ∀ req, match (deliver req n).1 with
  | None => True
  | Some rep => ok rep = false ∨ ∃ srv' st', Server_dispatch srv req st = Ret (srv', rep, st')
  end.

(** ** Lemmas *)

Lemma methods_last (ms : list (LabRPC.Method (St:=NSt))) : ∀ r : gmap string LabRPC.Method,
  Forall (λ m, MName m ≠ "Forward") ms →
  fold_left (λ r m, if suitable m then <[MName m := m]> r else r) ms r !! "Forward" = r !! "Forward".
Proof.
  induction ms as [|m ms IH]; intros r; [done|]. intros [Hm Hms]%Forall_cons. cbn [fold_left]. rewrite IH by done.
  destruct (suitable m); [by rewrite lookup_insert_ne | done].
Qed.

(** The tester's dispatcher runs [TesterRPC.Forward]. *)
Lemma Dispatch_Forward others clnt b n :
  Forall (λ m, MName m ≠ "Forward") others →
  ∃ srv', LabRPC.Dispatch (newTesterRPCSrv others) "TesterRPC.Forward" clnt b n =
    ('(r, n') ← TesterRPC_Forward (decA b) n; Ret (srv', (encR r, true), n')).
Proof.
  intros Ho. unfold LabRPC.Dispatch, Server_dispatch, newTesterRPCSrv, AddService, MakeServer.
  cbn [services scount dispatchf svcMeth args mbind outcome_bind].
  change (split_last_dot "TesterRPC.Forward") with (Some ("TesterRPC", "Forward")). cbn match.
  change (svc_name (MakeService "TesterRPC" (Forward_method :: others))) with "TesterRPC". rewrite lookup_insert_eq.
  unfold Service_dispatch, MakeService. cbn [methods fold_left]. change (suitable Forward_method) with true. cbn match.
  rewrite methods_last by done. change (MName Forward_method) with "Forward". rewrite lookup_insert_eq. cbn [Func Forward_method args].
  eexists. destruct (TesterRPC_Forward (decA b) n) as [[r n']| |]; reflexivity.
Qed.

Context (gob_RPCArgs : ∀ a, Unmarshall (Marshall a) = a) (gob_Args : ∀ a, decA (encA a) = a).
(** Gob leaves zero fields of the message out, so that only decoding into the
    zero value gives back what was encoded. *)
Context (gob_Reply : ∀ r, decR (encR r) (mkForwardReply EmptyString false) = r).

(** What comes back from the tester's socket. *)
Lemma ds_forward_spec others sock clnt n SendReceive id e method b :
  Forall (λ m, MName m ≠ "Forward") others → socket_to sock clnt (newTesterRPCSrv others) n SendReceive →
  ((ds_forward SendReceive id e method b).1 = (EmptyString, false) ∧ ∃ b, SendReceive b = None) ∨
  (ds_forward SendReceive id e method b).1 = Forward_result (deliver (mkReq e method b) n).1.
Proof.
  intros Ho Hs. unfold ds_forward, RPCMarshall, RPC.
  set (args := mkForwardArgs method e b (wrapS 64 (id + 1))).
  destruct (Hs (Marshall (mkRPCArgs "TesterRPC.Forward" (encA args)))) as [E|(x & Hx & ->)].
  { left. rewrite E. split; [done | by eexists]. }
  right.
  unfold ServeRequest in Hx. rewrite gob_RPCArgs in Hx. cbn [Daemon.Method Args] in Hx.
  destruct (Dispatch_Forward others clnt (encA args) n Ho) as [srv' E]. rewrite E, gob_Args in Hx.
  unfold TesterRPC_Forward, LookupEnd in Hx. case_decide; [|done]. cbn [mbind outcome_bind F_End F_Method F_Args args] in Hx.
  unfold end_Forward in Hx. destruct (deliver (mkReq e method b) n) as [rep n'].
  destruct (Forward_result rep) as [r o] eqn:Er. injection Hx as <-. cbn [fst snd]. rewrite gob_Reply. cbn [Rep Ok]. by rewrite Er.
Qed.

(** What the registered server answers. *)
Lemma labsrv_spec {sock clnt} (callee : Server (St:=St)) st SendReceive req st0 srv' rep st1 :
  socket_to sock clnt callee st SendReceive → Server_dispatch (labsrv SendReceive) req st0 = Ret (srv', rep, st1) →
  (rep = mkReply false EmptyString ∧ ∃ b, SendReceive b = None) ∨
  ∃ callee' st', Server_dispatch callee (mkReq clnt (svcMeth req) (args req)) st = Ret (callee', rep, st').
Proof.
  intros Hs. unfold Server_dispatch at 1, labsrv, SetDispatch, MakeServer. cbn [dispatchf services scount].
  destruct (split_last_dot (svcMeth req)) as [[sn mn]|]; [|done]. unfold dc_forward, RPC.
  destruct (Hs (Marshall (mkRPCArgs (svcMeth req) (args req)))) as [E|(x & Hx & ->)].
  { rewrite E. intros [= _ <- _]. left. split; [done | by eexists]. }
  unfold ServeRequest in Hx. rewrite gob_RPCArgs in Hx. cbn [Daemon.Method Args] in Hx. unfold LabRPC.Dispatch in Hx.
  destruct (Server_dispatch callee _ st) as [[[c r] s]| |]; [|done..]. cbn [mbind outcome_bind] in Hx. injection Hx as <-.
  cbn [fst snd]. intros [= _ <- _]. right. exists c, s. by destruct r.
Qed.
End forward.

(** ** Properties *)

(** C28 A call from one server to another, each in a process of its own, is a
    call of the second server's dispatcher: either it returns what decoding that
    dispatcher's reply to this method and these arguments gives, or it returns
    false and leaves the reply alone, and then a connection broke or the network
    of the test did not deliver the request. No other call and no other
    arguments get through, whatever other methods the tester serves. Of gob it is
    assumed that decoding what was encoded gives the value back: for replies, into
    the zero value, which is what [forward] passes. *)
Theorem forwarded_call {A R St NSt} Marshall Unmarshall encA decA encR decR (tables : NSt → Network (St:=St)) deliver
    (enc : A → outcome bytes) (dec : bytes → R → outcome R) others sock clnt sock' clnt' (callee : Server (St:=St)) st st0 n SR SR' id e method a b r :
  (∀ a, Unmarshall (Marshall a) = a) → (∀ a, decA (encA a) = a) → (∀ r, decR (encR r) (mkForwardReply EmptyString false) = r) →
  Forall (λ m, MName m ≠ "Forward") others →
  socket_to Unmarshall sock clnt (newTesterRPCSrv decA encR tables deliver others) n SR →
  socket_to Unmarshall sock' clnt' callee st SR' →
  delivers_to deliver (labsrv (St:=St) Marshall SR') st0 n → enc a = Ret b →
  let result := Call_callf enc dec (λ e m b, (ds_forward Marshall encA decR SR id e m b).1) e method a r in
  let delivered := (deliver (mkReq e method b) n).1 in
  (∃ callee' rep st', Server_dispatch callee (mkReq clnt' method b) st = Ret (callee', rep, st') ∧ result = Call_result dec (Some rep) r) ∨
  (result = Ret (false, r) ∧
   ((∃ b, SR b = None) ∨ (∃ b, SR' b = None) ∨ delivered = None ∨ ∃ rep, delivered = Some rep ∧ ok rep = false)).
Proof.
  intros G1 G2 G3 Ho H1 H2 Hd He result delivered. unfold result, Call_callf. rewrite He. cbn [mbind outcome_bind].
  destruct (ds_forward_spec _ _ encA decA encR decR tables deliver G1 G2 G3 others sock clnt n SR id e method b Ho H1)
    as [[-> Hb]| ->]; [right; split; [done | by left]|]. specialize (Hd (mkReq e method b)). fold delivered in Hd |- *.
  destruct delivered as [rep|]; [|right; split; [done | by right; right; left]]. cbn [Forward_result].
  destruct Hd as [Hok|(srv' & st' & Hs)].
  - right. rewrite Hok. split; [done|]. right. right. right. by exists rep.
  - destruct (labsrv_spec Marshall Unmarshall G1 callee st SR' _ st0 srv' rep st' H2 Hs) as [[-> Hb]|(c' & s' & Hc)].
    + right. split; [done|]. right. by left.
    + left. exists c', rep, s'. split; [exact Hc|]. by destruct rep.
Qed.

(** ** A call that gets through *)

Module ForwardEx.
(** An encoding: each byte of a string after a [1], and a [0] at its end. *)
Fixpoint frame (s t : bytes) : bytes :=
  match s with EmptyString => String "0"%char t | String c s => String "1"%char (String c (frame s t)) end.
Fixpoint unframe (b : bytes) : bytes * bytes :=
  match b with
  | String d (String c b') =>
      if decide (d = "1"%char) then let x := unframe b' in (String c x.1, x.2) else (EmptyString, String c b')
  | _ => (EmptyString, EmptyString)
  end.
Lemma unframe_frame s t : unframe (frame s t) = (s, t).
Proof.
  induction s as [|c s IH]; cbn [frame unframe].
  - by destruct t.
  - rewrite decide_True by done. by rewrite IH.
Qed.

Definition Marshall (a : RPCArgs) : bytes := frame (Daemon.Method a) (Args a).
Definition Unmarshall (b : bytes) : RPCArgs := let x := unframe b in mkRPCArgs x.1 x.2.
Definition encA (a : ForwardArgs) : bytes := frame (F_Method a) (frame (F_End a) (frame (encode_int (F_Id a)) (F_Args a))).
Definition decA (b : bytes) : ForwardArgs :=
  let x := unframe b in let y := unframe x.2 in let z := unframe y.2 in
  mkForwardArgs x.1 y.1 z.2 (default 0 (fst <$> decode_int (z.1 +:+ EmptyString))).
Definition encR (r : ForwardReply) : bytes := frame (if Ok r then "1" else "0") (Rep r).
(** Like gob's, it does not overwrite a field with a zero. *)
Definition decR (b : bytes) (z : ForwardReply) : ForwardReply :=
  let x := unframe b in
  mkForwardReply (if decide (x.2 = EmptyString) then Rep z else x.2) (if decide (x.1 = "1") then true else Ok z).

Lemma Unmarshall_Marshall a : Unmarshall (Marshall a) = a.
Proof. unfold Unmarshall, Marshall. rewrite unframe_frame. by destruct a. Qed.
Lemma decA_encA a : decA (encA a) = a.
Proof.
  unfold decA, encA. rewrite unframe_frame. cbn [fst snd]. rewrite unframe_frame. cbn [fst snd]. rewrite unframe_frame. cbn [fst snd].
  rewrite decode_encode_int by done. by destruct a.
Qed.
Lemma decR_encR r : decR (encR r) (mkForwardReply EmptyString false) = r.
Proof. unfold decR, encR. rewrite unframe_frame. by destruct r as [[|? ?] []]. Qed.

(** A server that appends what it is sent to its state and returns the state. *)
Definition Append : LabRPC.Method := mkMethod EmptyString "Append" 3 true 0 (λ b (st : bytes), Ret (st +:+ b, st +:+ b)).
Definition callee : Server (St:=bytes) := AddService (MakeService "Log" [Append]) MakeServer.

Definition answer {S} (srv : Server (St:=S)) (st : S) (b : bytes) : option (bytes * bool) :=
  match ServeRequest Unmarshall "a" "s" srv b st with Ret x => Some x.1.2 | _ => None end.
Lemma socket_answer {S} (srv : Server (St:=S)) st : socket_to Unmarshall "s" "a" srv st (answer srv st).
Proof. intros b. unfold answer. destruct (ServeRequest _ _ _ _ b st) as [x| |]; [right; by exists x | by left..]. Qed.

Definition deliver (req : reqMsg) (n : Network (St:=bytes)) : option replyMsg * Network :=
  (match Server_dispatch (labsrv Marshall (answer callee "x")) req "x" with Ret (_, rep, _) => Some rep | _ => None end, n).
Definition net : Network (St:=bytes) := match MakeEnd "e" MakeNetwork with Ret n => n | _ => MakeNetwork end.
End ForwardEx.

Definition forwarded_result : outcome (bool * bytes) :=
  Call_callf (λ a, Ret a) (λ b _, Ret b)
    (λ e m b, (ds_forward ForwardEx.Marshall ForwardEx.encA ForwardEx.decR
      (ForwardEx.answer (newTesterRPCSrv ForwardEx.decA ForwardEx.encR (λ n, n) ForwardEx.deliver []) ForwardEx.net) 0 e m b).1)
    "e" "Log.Append" "y" EmptyString.

Lemma forwarded_call_witness : forwarded_result = Ret (true, "xy").
Proof.
  destruct (forwarded_call ForwardEx.Marshall ForwardEx.Unmarshall ForwardEx.encA ForwardEx.decA ForwardEx.encR ForwardEx.decR
    (λ n : Network (St:=bytes), n) ForwardEx.deliver (λ a, Ret a) (λ b _, Ret b) [] "s" "a" "s" "a" ForwardEx.callee "x" "x" ForwardEx.net
    (ForwardEx.answer (newTesterRPCSrv ForwardEx.decA ForwardEx.encR (λ n, n) ForwardEx.deliver []) ForwardEx.net)
    (ForwardEx.answer ForwardEx.callee "x") 0 "e" "Log.Append" "y" "y" EmptyString)
    as [(c & rep & st & Hc & Hr)|[Hr _]].
  - exact ForwardEx.Unmarshall_Marshall.
  - exact ForwardEx.decA_encA.
  - exact ForwardEx.decR_encR.
  - apply Forall_nil_2.
  - apply ForwardEx.socket_answer.
  - apply ForwardEx.socket_answer.
  - intros req. unfold ForwardEx.deliver. cbn [fst].
    destruct (Server_dispatch _ req "x") as [[[c r] s]| |] eqn:E; [right; by exists c, s | exact I..].
  - reflexivity.
  - change (forwarded_result = Call_result (λ b _, Ret b) (Some rep) EmptyString) in Hr. rewrite Hr.
    vm_compute in Hc. injection Hc as _ <- _. reflexivity.
  - exfalso. change (forwarded_result = Ret (false, EmptyString)) in Hr. vm_compute in Hr. discriminate Hr.
Defined.
