(* ===== verification/RsmTest.v ===== *)
(** * The replicated counter and its tester: [kvraft1/rsm/server.go], [test.go]

    The tester replicates a counter with the library [rsm], which is left to be
    written: the cluster is a parameter, of which a class states what [rsm]
    promises. The state machine it replicates and the tester are modelled in
    full. *)

From S2P Require Import Prelude Rpc.

Open Scope string_scope.
Open Scope list_scope.
Open Scope Z_scope.

(** ** [server.go]: the state machine *)

Inductive request := Inc | Null | Dec.
Inductive reply := IncRep (n : Z) | NullRep.

#[export] Instance request_eq_dec : EqDecision request.
Proof. solve_decision. Defined.
#[export] Instance reply_eq_dec : EqDecision reply.
Proof. solve_decision. Defined.

(** [counter] is an [int]. *)
Definition DoOp (req : request) (counter : Z) : outcome (reply * Z) :=
  match req with
  | Inc => let counter := wrapS 64 (counter + 1) in Ret (IncRep counter, counter)
  | Null => Ret (NullRep, counter)
  | Dec => Fatal
  end.

Section snapshots.
Context (Encode : Z → list Z) (Decode : list Z → option Z).
Definition Snapshot (counter : Z) : list Z := Encode counter.
Definition Restore (data : list Z) (counter : Z) : outcome Z := match Decode data with Some n => Ret n | None => Fatal end.
End snapshots.

(** The counter after the operations of a log. *)
Definition apply_log (l : list request) (counter : Z) : outcome Z := for_each (λ r n, '(_, n) ← DoOp r n; Ret n) l counter.

(** ** What [rsm] promises *)

(** [Submit] runs an operation through the log; [applied] is the log of operations
    committed so far. *)
Class RSM (C : Type) := {
  Submit : Z → request → C → (Err * option reply) * C;   (* by a call of the server's proxy *)
  IsConnected : C → Z → bool;
  GetCounter : C → Z → Z;
  sleep : C → C;
  applied : C → list request
}.

Class RSMLaws (C : Type) `{RSM C} := {
  Submit_ok i r c rep c' : Submit i r c = ((OK, rep), c') →
    applied c' = applied c ++ [r] ∧ ∃ n n' x, apply_log (applied c) 0 = Ret n ∧ DoOp r n = Ret (x, n') ∧ rep = Some x;
  Submit_failed i r c e rep c' : Submit i r c = ((e, rep), c') → e ≠ OK → applied c' = applied c;
  applied_sleep c : applied (sleep c) = applied c;
  GetCounter_prefix c i : ∃ l, l `prefix_of` applied c ∧ apply_log l 0 = Ret (GetCounter c i)
}.

(** ** [test.go] *)

Definition NSRV : Z := 3.

(** [srvs] says whether [rsm] is not nil; [ops] counts what [OpInc] counts. *)
Record Test := mkTest { srvs : list bool; leader : Z; ops : Z }.

Definition inPartition (s : Z) (p : option (list Z)) : bool :=
  match p with None => true | Some p => existsb (λ i, bool_decide (s = i)) p end.

Definition makeTest : Test := mkTest (replicate (Z.to_nat NSRV) true) 0 0.
Definition mksrv (srv : Z) (ts : Test) : outcome Test := l ← store (srvs ts) srv true; Ret (mkTest l (leader ts) (ops ts)).
Definition OpInc (ts : Test) : Test := mkTest (srvs ts) (leader ts) (wrapS 32 (ops ts + 1)).
Definition set_leader (i : Z) (ts : Test) : Test := mkTest (srvs ts) i (ops ts).

Section test.
Context {C : Type} `{RSM C}.

(** The loop over the servers, from [index] on with [k] to go; [sum] of the
    reply of the first that accepts. *)
Fixpoint try_servers (p : option (list Z)) (req : request) (index0 : Z) (k : nat) (c : C) (ts : Test) :
    outcome (option (option reply) * C * Test) :=
  match k with
  | O => Ret (None, c, ts)
  | S k =>
      if decide (index0 >= NSRV) then Fatal
      else
        let next c := try_servers p req (Z.rem (index0 + 1) (Z.of_nat (length (srvs ts)))) k c ts in
        if decide (index0 ≠ -1) then
          if decide (index0 < 0) then Panic
          else if IsConnected c index0 then
            up ← index (srvs ts) index0;
            if up && inPartition index0 p then
              let '((err, rep), c) := Submit index0 req c in
              if decide (err = OK) then Ret (Some rep, c, set_leader index0 (OpInc ts)) else next c
            else next c
          else next c
        else next c
  end.

(** [rounds] is how many rounds fit into [NSEC] seconds. *)
Fixpoint onePartition (p : option (list Z)) (req : request) (rounds : nat) (c : C) (ts : Test) :
    outcome (option reply * C * Test) :=
  match rounds with
  | O => Ret (None, c, ts)
  | S rounds =>
      '(r, c, ts) ← try_servers p req (leader ts) (length (srvs ts)) c ts;
      match r with
      | Some rep => Ret (rep, c, ts)
      | None => onePartition p req rounds (sleep c) ts
      end
  end.

(** A reply of the wrong type fails the type assertion. *)
Definition oneInc (rounds : nat) (c : C) (ts : Test) : outcome (Z * C * Test) :=
  '(rep, c, ts) ← onePartition None Inc rounds c ts;
  match rep with
  | None => Ret (0, c, ts)
  | Some (IncRep n) => Ret (n, c, ts)
  | Some NullRep => Panic
  end.
Definition oneNull (rounds : nat) (c : C) (ts : Test) : outcome (C * Test) :=
  '(rep, c, ts) ← onePartition None Null rounds c ts;
  match rep with Some (IncRep _) => Panic | _ => Ret (c, ts) end.

(** [countValue], from server [s] on. *)
Fixpoint count_loop (v : Z) (l : list bool) (s : Z) (i : Z) (c : C) : outcome Z :=
  match l with
  | [] => Ret i
  | up :: l =>
      if up : bool then count_loop v l (s + 1) (if decide (GetCounter c s = v) then i + 1 else i) c else Panic
  end.
Definition countValue (v : Z) (c : C) (ts : Test) : outcome Z := count_loop v (srvs ts) 0 0 c.

Fixpoint check_loop (v nsrv : Z) (iters : nat) (c : C) (ts : Test) : outcome C :=
  match iters with
  | O => Fatal
  | S iters => n ← countValue v c ts; if decide (n >= nsrv) then Ret c else check_loop v nsrv iters (sleep c) ts
  end.
Definition checkCounter (v nsrv : Z) (c : C) (ts : Test) : outcome C := check_loop v nsrv 30 c ts.
End test.

(** ** Lemmas *)

Lemma apply_log_app l l' n : apply_log (l ++ l') n = apply_log l n ≫= apply_log l'.
Proof. apply for_each_app. Qed.

Lemma apply_incs k n : 0 <= n → n + Z.of_nat k < 2 ^ 63 → apply_log (replicate k Inc) n = Ret (n + Z.of_nat k).
Proof.
  revert n. induction k as [|k IH]; intros n H0 H1; [simpl; f_equal; lia|].
  cbn [replicate apply_log for_each DoOp mbind outcome_bind]. rewrite wrapS_small by lia.
  fold (apply_log (replicate k Inc) (n + 1)). rewrite IH by lia. f_equal. lia.
Qed.

Section facts.
Context {C : Type} `{RSMLaws C}.

(** A leader that stays: it is connected, and accepts. *)
Class Leader (lead : Z → C → Prop) := {
  lead_range i c : lead i c → 0 <= i < NSRV ∧ IsConnected c i = true;
  lead_accepts i r c : lead i c → r ≠ Dec → (Submit i r c).1.1 = OK;
  lead_Submit i j r c : lead i c → lead i (Submit j r c).2;
  lead_sleep i c : lead i c → lead i (sleep c)
}.
Context (lead : Z → C → Prop) `{!Leader lead}.

Definition all_up (ts : Test) : Prop := srvs ts = replicate (Z.to_nat NSRV) true.

Lemma try_servers_ok req i k index0 c ts :
  lead i c → req ≠ Dec → all_up ts → 0 <= index0 < NSRV → (i - index0) `mod` NSRV < Z.of_nat k →
  ∃ j n n' x c' c0, try_servers None req index0 k c ts = Ret (Some (Some x), c', set_leader j (OpInc ts)) ∧
    0 <= j < NSRV ∧ Submit j req c0 = ((OK, Some x), c') ∧
    apply_log (applied c) 0 = Ret n ∧ DoOp req n = Ret (x, n') ∧ applied c' = applied c ++ [req] ∧ lead i c'.
Proof.
  revert index0 c. induction k as [|k IH]; intros index0 c Hl Hr Hup Hi Hm.
  { pose proof (Z.mod_pos_bound (i - index0) NSRV). unfold NSRV in *. lia. }
  destruct (lead_range i c Hl) as [Hri Hci].
  assert (Hlen : Z.of_nat (length (srvs ts)) = NSRV) by (rewrite Hup; done).
  assert (Hnext : ∀ c1, lead i c1 → applied c1 = applied c → index0 ≠ i →
    ∃ j n n' x c' c0, try_servers None req (Z.rem (index0 + 1) (Z.of_nat (length (srvs ts)))) k c1 ts =
        Ret (Some (Some x), c', set_leader j (OpInc ts)) ∧
      0 <= j < NSRV ∧ Submit j req c0 = ((OK, Some x), c') ∧
      apply_log (applied c) 0 = Ret n ∧ DoOp req n = Ret (x, n') ∧ applied c' = applied c ++ [req] ∧ lead i c').
  { intros c1 Hl1 Ha1 Hne. rewrite Hlen. rewrite <- Ha1. apply IH; [done..| |].
    - unfold NSRV in *. rewrite Z.rem_mod_nonneg by lia. apply Z.mod_pos_bound. lia.
    - unfold NSRV in *. rewrite Z.rem_mod_nonneg by lia. clear -Hi Hri Hm Hne. rewrite Nat2Z.inj_succ in Hm.
      Z.div_mod_to_equations. lia. }
  cbn [try_servers]. rewrite decide_False by lia. rewrite decide_True by lia. rewrite decide_False by lia.
  destruct (IsConnected c index0) eqn:Hc; [|apply Hnext; [done..|congruence]].
  assert (Hix : index (srvs ts) index0 = Ret true).
  { apply index_Ret. split; [lia|]. rewrite Hup. apply lookup_replicate. split; [done|]. unfold NSRV in *. lia. }
  rewrite Hix. cbn [mbind outcome_bind andb inPartition].
  pose proof (lead_Submit i index0 req c Hl) as Hl'.
  destruct (Submit index0 req c) as [[err rep] c1] eqn:Es. cbn [snd] in Hl'. case_decide as He.
  - subst err. destruct (Submit_ok index0 req c rep c1 Es) as (Ha & n & n' & x & Hn & Hd & ->).
    exists index0, n, n', x, c1, c. split; [done|]. split; [lia|]. split; [done|]. split; [done|]. split; [done|]. by split.
  - apply Hnext; [done | by eapply Submit_failed |]. intros ->.
    pose proof (lead_accepts i req c Hl Hr) as Hok. rewrite Es in Hok. done.
Qed.

(** With a leader, one increment succeeds in the first round. *)
Lemma oneInc_ok i rounds c ts k :
  lead i c → all_up ts → 0 <= leader ts < NSRV → applied c = replicate k Inc → Z.of_nat k + 1 < 2 ^ 63 →
  ∃ c' ts', oneInc (S rounds) c ts = Ret (Z.of_nat k + 1, c', ts') ∧
    applied c' = replicate (S k) Inc ∧ lead i c' ∧ all_up ts' ∧ 0 <= leader ts' < NSRV ∧ ops ts' = wrapS 32 (ops ts + 1).
Proof.
  intros Hl Hup Hld Ha Hk. destruct (lead_range i c Hl) as [Hri _].
  destruct (try_servers_ok Inc i (length (srvs ts)) (leader ts) c ts) as (j & n & n' & x & c' & c0 & Ht & Hj & _ & Hn & Hd & Ha' & Hl');
    [done..| |].
  { rewrite Hup. apply Z.mod_pos_bound. done. }
  rewrite Ha, apply_incs in Hn by lia. injection Hn as <-. cbn [DoOp] in Hd. injection Hd as <- <-.
  exists c', (set_leader j (OpInc ts)). unfold oneInc. cbn [onePartition]. rewrite Ht. cbn [mbind outcome_bind].
  rewrite wrapS_small by lia. split; [do 3 f_equal; lia|].
  split; [rewrite Ha', Ha; symmetry; apply replicate_S_end|].
  split; [done|]. split; [exact Hup|]. split; [exact Hj | done].
Qed.
End facts.

Section checker.
Context {C : Type} `{RSM C}.
Implicit Types (c : C) (ts : Test).

(** How many of the servers have the counter at [v]. *)
Definition having (v : Z) c : Z := Z.of_nat (length (filter (λ s, GetCounter c s = v) (seqZ 0 NSRV))).

Lemma countValue_having v c ts : all_up ts → countValue v c ts = Ret (having v c).
Proof.
  unfold all_up, countValue, having, NSRV. intros ->. change (replicate (Z.to_nat 3) true) with [true; true; true].
  change (seqZ 0 3) with [0; 1; 2]. cbn [count_loop].
  change (0 + 1 + 1) with 2. change (0 + 1) with 1. f_equal. rewrite !filter_cons, filter_nil.
  repeat case_decide; cbn [length]; lia.
Qed.

Lemma check_loop_ok v nsrv iters c ts :
  all_up ts →
  (∃ j, (j < iters)%nat ∧ check_loop v nsrv iters c ts = Ret (Nat.iter j sleep c) ∧ having v (Nat.iter j sleep c) >= nsrv) ∨
  (check_loop v nsrv iters c ts = Fatal ∧ ∀ j, (j < iters)%nat → having v (Nat.iter j sleep c) < nsrv).
Proof.
  intros Hup. revert c. induction iters as [|iters IH]; intros c; [right; split; [done | lia]|].
  cbn [check_loop]. rewrite countValue_having by done. cbn [mbind outcome_bind]. case_decide as Hn.
  - left. exists 0%nat. split; [lia|]. by split.
  - destruct (IH (sleep c)) as [(j & Hj & Hc & Hh)|[Hc Hall]].
    + left. exists (S j). rewrite !Nat.iter_succ_r. split; [lia|]. by split.
    + right. split; [done|]. intros [|j] Hj; [simpl; lia|]. rewrite Nat.iter_succ_r. apply Hall. lia.
Qed.

(** [n] increments, one after the other. *)
Fixpoint oneIncs (n rounds : nat) c ts : outcome (list Z * C * Test) :=
  match n with
  | O => Ret ([], c, ts)
  | S n => '(k, c, ts) ← oneInc rounds c ts; '(l, c, ts) ← oneIncs n rounds c ts; Ret (k :: l, c, ts)
  end.
End checker.

Lemma oneIncs_ok {C} `{RSMLaws C} (lead : Z → C → Prop) `{!Leader lead} i n : ∀ k rounds c ts,
  lead i c → all_up ts → 0 <= leader ts < NSRV → applied c = replicate k Inc →
  Z.of_nat k + Z.of_nat n < 2 ^ 31 → ops ts = Z.of_nat k →
  ∃ c' ts', oneIncs n (S rounds) c ts = Ret (seqZ (Z.of_nat k + 1) (Z.of_nat n), c', ts') ∧
    applied c' = replicate (k + n) Inc ∧ all_up ts' ∧ ops ts' = Z.of_nat (k + n).
Proof.
  induction n as [|n IH]; intros k rounds c ts Hl Hup Hld Ha Hk Ho.
  { exists c, ts. split; [done|]. by rewrite Nat.add_0_r. }
  destruct (oneInc_ok lead i rounds c ts k) as (c1 & ts1 & E & Ha1 & Hl1 & Hup1 & Hld1 & Ho1); [done..|lia|].
  rewrite Ho, wrapS_small in Ho1 by lia.
  destruct (IH (S k) rounds c1 ts1) as (c2 & ts2 & E2 & Ha2 & Hup2 & Ho2); [done..|lia|lia|].
  exists c2, ts2. cbn [oneIncs]. rewrite E. cbn [mbind outcome_bind]. rewrite E2. cbn [mbind outcome_bind].
  split; [|split; [rewrite Ha2; f_equal; lia | split; [done | rewrite Ho2; lia]]].
  rewrite (seqZ_cons (Z.of_nat k + 1) (Z.of_nat (S n))) by lia.
  replace (Z.succ (Z.of_nat k + 1)) with (Z.of_nat (S k) + 1) by lia. by replace (Z.pred (Z.of_nat (S n))) with (Z.of_nat n) by lia.
Qed.

(** ** Properties *)

(** On a cluster that keeps its promises and has a leader that stays
    connected, whatever the other servers do, increments by the tester return 1,
    2, 3, ... in order, are counted once each, and no server's counter ever passes
    the number of increments made. *)
Theorem increments_counted {C} `{RSMLaws C} (lead : Z → C → Prop) `{!Leader lead} i n rounds c :
  lead i c → applied c = [] → Z.of_nat n < 2 ^ 31 →
  ∃ c' ts', oneIncs n (S rounds) c makeTest = Ret (seqZ 1 (Z.of_nat n), c', ts') ∧ ops ts' = Z.of_nat n ∧
    applied c' = replicate n Inc ∧ ∀ s, 0 <= GetCounter c' s <= Z.of_nat n.
Proof.
  intros Hl Ha Hn. destruct (oneIncs_ok lead i n 0 rounds c makeTest) as (c' & ts' & E & Ha' & _ & Ho); [done..|lia|done|].
  exists c', ts'. split; [exact E|]. split; [exact Ho|]. split; [exact Ha'|]. intros s.
  destruct (GetCounter_prefix c' s) as (l & [l' Hp] & Hg). rewrite Ha' in Hp.
  assert (El : l = replicate (length l) Inc).
  { symmetry. apply replicate_as_Forall. split; [done|].
    assert (Hall : Forall (Inc =.) (l ++ l')) by (rewrite <- Hp; by apply Forall_replicate). by apply Forall_app in Hall as [? _]. }
  assert (Hlen : (length l <= n)%nat).
  { apply (f_equal length) in Hp. rewrite length_replicate, length_app in Hp. lia. }
  rewrite El, apply_incs in Hg by lia. injection Hg as <-. lia.
Qed.

(** [checkCounter] passes exactly if in one of its thirty polls enough servers
    have the value, at the first such poll; otherwise it fails the test. *)
Theorem checkCounter_spec {C} `{RSM C} v nsrv (c : C) ts :
  all_up ts →
  (∃ j, (j < 30)%nat ∧ checkCounter v nsrv c ts = Ret (Nat.iter j sleep c) ∧ having v (Nat.iter j sleep c) >= nsrv) ∨
  (checkCounter v nsrv c ts = Fatal ∧ ∀ j, (j < 30)%nat → having v (Nat.iter j sleep c) < nsrv).
Proof. apply check_loop_ok. Qed.

(** A replica that restores a snapshot and applies the rest of the log is in
    the state of a replica that applied all of it. *)
Theorem snapshot_and_replay Encode Decode l1 l2 n n1 n0 :
  (∀ k, - 2 ^ 63 <= k < 2 ^ 63 → Decode (Encode k) = Some k) → - 2 ^ 63 <= n < 2 ^ 63 → apply_log l1 n = Ret n1 →
  Restore Decode (Snapshot Encode n1) n0 = Ret n1 ∧
  (Restore Decode (Snapshot Encode n1) n0 ≫= apply_log l2) = apply_log (l1 ++ l2) n.
Proof.
  intros Hd Hn H1. assert (Hr : - 2 ^ 63 <= n1 < 2 ^ 63).
  { unfold apply_log in H1. revert n Hn H1. induction l1 as [|r l IH]; intros n Hn H1; [by injection H1 as <-|].
    cbn [for_each] in H1. destruct r; cbn [DoOp mbind outcome_bind] in H1; [|by apply (IH n)|done].
    apply (IH _ (wrapS_range 64 (n + 1) ltac:(lia)) H1). }
  assert (E : Restore Decode (Snapshot Encode n1) n0 = Ret n1) by (unfold Restore, Snapshot; by rewrite Hd).
  split; [exact E|]. by rewrite E, apply_log_app, H1.
Qed.

(** ** Witnesses *)

(** A cluster whose server 1 is the leader; the others apply one operation each
    time the tester sleeps; server 0 is disconnected. *)
Record cluster := mkCluster { cl_log : list request; cl_behind : nat }.

Definition counter_after (l : list request) : Z := match apply_log l 0 with Ret n => n | _ => 0 end.

#[export] Instance cluster_RSM : RSM cluster := {|
  Submit i r c :=
    match decide (i = 1), apply_log (cl_log c) 0 ≫= DoOp r with
    | left _, Ret (x, _) => ((OK, Some x), mkCluster (cl_log c ++ [r]) (S (cl_behind c)))
    | _, _ => ((ErrWrongLeader, None), c)
    end;
  IsConnected c i := bool_decide (i = 1 ∨ i = 2);
  GetCounter c i := counter_after (if decide (i = 1) then cl_log c else take (length (cl_log c) - cl_behind c) (cl_log c));
  sleep c := mkCluster (cl_log c) (pred (cl_behind c));
  applied := cl_log
|}.

#[export] Instance cluster_laws : RSMLaws cluster.
Proof.
  split.
  - intros i r c rep c' Hs. cbn [Submit cluster_RSM] in Hs. destruct (decide (i = 1)); [|done].
    destruct (apply_log (cl_log c) 0) as [n| |] eqn:En; [|done..]. cbn [mbind outcome_bind] in Hs.
    destruct (DoOp r n) as [[x n']| |] eqn:Ed; [|done..]. injection Hs as <- <-. split; [done|]. by exists n, n', x.
  - intros i r c e rep c' Hs He. cbn [Submit cluster_RSM] in Hs. destruct (decide (i = 1)); [|by injection Hs as <- <- <-].
    destruct (apply_log (cl_log c) 0 ≫= DoOp r) as [[x n]| |]; injection Hs as <- <- <-; done.
  - done.
  - intros c i. cbn [GetCounter applied cluster_RSM]. unfold counter_after.
    set (l := if decide (i = 1) then _ else _).
    assert (Hl : l `prefix_of` cl_log c) by (unfold l; case_decide; [done | apply prefix_take]).
    destruct (apply_log l 0) as [n| |] eqn:En; [by exists l | exists []; split; [apply prefix_nil | done]..].
Qed.

Definition cluster_lead (i : Z) (c : cluster) : Prop := i = 1 ∧ Forall (λ r, r ≠ Dec) (cl_log c).

Lemma no_Dec_runs l n : Forall (λ r, r ≠ Dec) l → ∃ n', apply_log l n = Ret n'.
Proof.
  intros Hl. revert n. unfold apply_log. induction Hl as [|r l Hr _ IH]; intros n; [by exists n|].
  cbn [for_each]. destruct r; cbn [DoOp mbind outcome_bind]; [apply IH | apply IH | done].
Qed.

#[export] Instance cluster_Leader : Leader cluster_lead.
Proof.
  split.
  - intros i c [-> _]. by split.
  - intros i r c [-> Hl] Hr. cbn [Submit cluster_RSM]. destruct (no_Dec_runs (cl_log c) 0 Hl) as [n ->]. by destruct r.
  - intros i j r c [-> Hl]. cbn [Submit cluster_RSM]. destruct (decide (j = 1)); [|done].
    destruct (no_Dec_runs (cl_log c) 0 Hl) as [n ->]. cbn [mbind outcome_bind].
    destruct r; cbn [DoOp snd]; (split; [done|]); cbn [cl_log]; try done; apply Forall_app; split; try done; by constructor.
  - intros i c H. exact H.
Qed.

Lemma increments_counted_witness :
  ∃ c' ts', oneIncs 5 1 (mkCluster [] 0) makeTest = Ret ([1; 2; 3; 4; 5], c', ts') ∧ ops ts' = 5.
Proof.
  destruct (increments_counted cluster_lead 1 5 0 (mkCluster [] 0)) as (c' & ts' & H1 & H2 & _).
  - split; [done | constructor].
  - done.
  - done.
  - exists c', ts'. split; [exact H1 | exact H2].
Defined.

Lemma checkCounter_spec_witness :
  ∃ j, (j < 30)%nat ∧ checkCounter 2 3 (mkCluster [Inc; Inc] 2) makeTest = Ret (Nat.iter j sleep (mkCluster [Inc; Inc] 2)).
Proof.
  destruct (checkCounter_spec 2 3 (mkCluster [Inc; Inc] 2) makeTest) as [(j & H1 & H2 & _)|[_ H]].
  - done.
  - by exists j.
  - specialize (H 2%nat ltac:(lia)). vm_compute in H. discriminate H.
Defined.

Lemma snapshot_and_replay_witness :
  (Restore (λ l, match l with [n] => Some n | _ => None end) (Snapshot (λ n, [n]) 2) 9 ≫= apply_log [Null; Inc]) = Ret 3.
Proof.
  rewrite (proj2 (snapshot_and_replay (λ n, [n]) (λ l, match l with [n] => Some n | _ => None end)
    [Inc; Inc] [Null; Inc] 0 2 9 ltac:(done) ltac:(lia) ltac:(reflexivity))).
  vm_compute. reflexivity.
Defined.
