(* ===== verification/RsmCluster.v ===== *)
(** * The servers of an [rsm] test: [kvraft1/rsm/test.go] in its environment

    [RsmTest] models how the tester of [rsm] submits operations and looks at the
    counters. This file models what its tests do to the servers: a test keeps a
    proxy for every server process, kills and restarts servers, and disconnects,
    reconnects and partitions the leader, in the environment of [Testbed]. *)

From S2P Require Import Prelude RsmTest Config LabRPC Clnts Annotation ServerGroup Groups GroupFaults Testbed.

Open Scope string_scope.
Open Scope list_scope.
Open Scope Z_scope.

(** ** Operations *)

Section rsm_cluster.
Context {St Saved : Type} (order : gmap string string → list (string * string)).
Abbreviation TestConfig := (TestConfig (St:=St) (Saved:=Saved)).
Abbreviation world := (world (St:=St) (Saved:=Saved)).

(** A proxy is told apart by its [DaemonClnt], and this by the address of the server
    object that is registered for the process; it is nil for no process. *)
Definition rsm_proxy : Type := option nat.
(** [rsm] of [rsmServer] is nil after [Kill]. *)
Definition rsmServer : Type := option rsm_proxy.
Definition newRSMServer (rsm : rsm_proxy) : rsmServer := Some rsm.
Definition getRSM (rs : rsmServer) : option rsm_proxy := rs.
Definition rsmServer_Kill (rs : rsmServer) : rsmServer := None.

(** The environment with the annotations, and the fields [srvs], of which those not
    yet made are nil, and [leader]. *)
Record RTest := mkRTest { rt_cfg : TestConfig; rt_ann : globals; rt_srvs : list (option rsmServer); rt_leader : Z }.

Definition rt_with (ts : RTest) (c : TestConfig) : RTest := mkRTest c (rt_ann ts) (rt_srvs ts) (rt_leader ts).

Definition getLeader (ts : RTest) : Z := rt_leader ts.

(** A method of group 0. *)
Definition on_grp0 (f : world → outcome world) (c : TestConfig) : outcome TestConfig :=
  gs ← on_group GRP0 f (cf_groups c); Ret (with_groups c gs).

Definition DaemonClnt (i : Z) (c : TestConfig) : outcome rsm_proxy :=
  match Config_Group GRP0 c with
  | None => Panic
  | Some G => s ← index (srvs G) i; Ret (if dc s then registered_as (mkWorld (cf_net c) G) i else None)
  end.

Definition mksrv (srv : Z) (d : rsm_proxy) (ts : RTest) : outcome RTest :=
  l ← store (rt_srvs ts) srv (Some (newRSMServer d)); Ret (mkRTest (rt_cfg ts) (rt_ann ts) l (rt_leader ts)).
Definition mksrvs : list Z → RTest → outcome RTest := for_each (λ i ts, d ← DaemonClnt i (rt_cfg ts); mksrv i d ts).

Definition makeTest (rand : nat → nat → string) (fresh : Saved) (l : list (start_args (St:=St))) (g : globals) : outcome RTest :=
  c ← MakeConfig (Z.to_nat NSRV) true rand fresh l;
  mksrvs (seqZ 0 NSRV) (mkRTest c g (replicate (Z.to_nat NSRV) None) 0).

Definition kill (p : Z → Saved) (servers : list Z) (t : Z) (ts : RTest) : outcome RTest :=
  c ← on_grp0 (Kill p servers) (rt_cfg ts);
  g ← AnnotateShutdown t servers (rt_ann ts);
  Ret (mkRTest c g (rt_srvs ts) (rt_leader ts)).

(** [restart] of the servers of [l]. *)
Definition restart (fresh : Saved) (l : list (start_args (St:=St))) (t : Z) (ts : RTest) : outcome RTest :=
  c ← on_grp0 (StartSrvs fresh l) (rt_cfg ts);
  c ← on_grp0 ConnectAll c;
  g ← AnnotateRestart t (sa_srv <$> l) (rt_ann ts);
  mksrvs (sa_srv <$> l) (mkRTest c g (rt_srvs ts) (rt_leader ts)).

Definition disconnectLeader (ts : RTest) : outcome (Z * RTest) :=
  c ← on_grp0 (DisconnectAll (rt_leader ts)) (rt_cfg ts); Ret (rt_leader ts, rt_with ts c).
Definition connect (i : Z) (ts : RTest) : outcome RTest := c ← on_grp0 (ConnectOne i) (rt_cfg ts); Ret (rt_with ts c).

(** Where [onePartition] has found that server [i] accepts. *)
Definition found_leader (i : Z) (ts : RTest) : RTest :=
  mkRTest (Config_OpInc (rt_cfg ts)) (rt_ann ts) (rt_srvs ts) i.

Definition rsm_cleanup (failed : bool) (elapsed : Z) (ids : list nat) (p : Z → Z → Saved) (range : list Z) (ts : RTest) : outcome TestConfig :=
  Config_End failed elapsed (rt_cfg ts);;
  c ← Cleanup order ids p range (rt_cfg ts);
  CheckTimeout failed elapsed;; Ret c.

(** ** Runs *)

Inductive rsm_op :=
| RKill (p : Z → Saved) (servers : list Z) (t : Z)
| RRestart (fresh : Saved) (l : list (start_args (St:=St))) (t : Z)
| RDisconnectLeader
| RConnect (i : Z)
| RFound (i : Z).

Definition rsm_do (o : rsm_op) (ts : RTest) : outcome RTest :=
  match o with
  | RKill p servers t => kill p servers t ts
  | RRestart fresh l t => restart fresh l t ts
  | RDisconnectLeader => '(_, ts) ← disconnectLeader ts; Ret ts
  | RConnect i => connect i ts
  | RFound i => Ret (found_leader i ts)
  end.

(** Different servers are killed; those restarted do not run and are not connected. *)
Definition rsm_allowed (o : rsm_op) (ts : RTest) : Prop :=
  match o with
  | RKill _ servers _ => NoDup servers ∧ Forall (λ i, 0 <= i < NSRV) servers
  | RRestart _ l _ => NoDup (sa_srv <$> l) ∧ ∀ G, Config_Group GRP0 (rt_cfg ts) = Some G →
      Forall (λ a, restartable (mkWorld (cf_net (rt_cfg ts)) G) (sa_srv a) ∧ sa_ok a = true) l
  | RDisconnectLeader => True
  | RConnect i | RFound i => 0 <= i < NSRV
  end.
Definition rsm_step (ts : RTest) (o : rsm_op) (ts' : RTest) : Prop := rsm_allowed o ts ∧ rsm_do o ts = Ret ts'.
End rsm_cluster.

(** ** The invariant *)

Section facts.
Context {St Saved : Type}.
Implicit Types (ts : RTest (St:=St) (Saved:=Saved)) (w : world (St:=St) (Saved:=Saved)) (c : TestConfig (St:=St) (Saved:=Saved)).

(** Group 0 of [c] on its network. *)
Definition world0 c w : Prop := Config_Group GRP0 c = Some (grp w) ∧ cf_net c = net w.

Lemma on_grp0_Ret f c c' w : world0 c w → on_grp0 f c = Ret c' ↔ ∃ w', f w = Ret w' ∧ world0 c' w' ∧ c' = with_groups c (mkGroups (net w') (<[GRP0 := grp w']> (cf_grps c))).
Proof.
  intros [HG Hn]. unfold on_grp0, on_group. change (lookupGroup GRP0 (cf_groups c)) with (Config_Group GRP0 c). rewrite HG.
  replace (mkWorld (gs_net (cf_groups c)) (grp w)) with w by (cbn; rewrite Hn; by destruct w).
  destruct (f w) as [w1| |] eqn:E; cbn [mbind outcome_bind].
  - split.
    + intros [= <-]. exists w1. split; [done|]. split; [|done]. split; [|done]. unfold Config_Group, lookupGroup. cbn. by rewrite lookup_insert_eq.
    + by intros (w2 & [= <-] & _ & ->).
  - split; [done|]. by intros (? & ? & _).
  - split; [done|]. by intros (? & ? & _).
Qed.

Lemma on_grp0_ok f c w w' : world0 c w → f w = Ret w' → ∃ c', on_grp0 f c = Ret c' ∧ world0 c' w'.
Proof.
  intros Hw Hf. exists (with_groups c (mkGroups (net w') (<[GRP0 := grp w']> (cf_grps c)))).
  assert (Hw' : world0 (with_groups c (mkGroups (net w') (<[GRP0 := grp w']> (cf_grps c)))) w').
  { split; [|done]. unfold Config_Group, lookupGroup. cbn. by rewrite lookup_insert_eq. }
  split; [|done]. apply (on_grp0_Ret f c _ w Hw). by exists w'.
Qed.

(** The daemon client of a server: nil if the server does not run. *)
Definition proxy_of w (i : Z) : rsm_proxy :=
  match srvs (grp w) !! Z.to_nat i with Some s => if dc s then registered_as w i else None | None => None end.

Lemma DaemonClnt_Ret c w i : world0 c w → in_grp (grp w) i → DaemonClnt i c = Ret (proxy_of w i).
Proof.
  intros [HG Hn] Hi. unfold DaemonClnt, proxy_of. rewrite HG. destruct (index_in_range (srvs (grp w)) i) as (s & -> & ->); [done|].
  cbn [mbind outcome_bind]. rewrite Hn. by destruct w.
Qed.

Lemma mksrv_Ret i d ts :
  0 <= i < Z.of_nat (length (rt_srvs ts)) →
  mksrv i d ts = Ret (mkRTest (rt_cfg ts) (rt_ann ts) (<[Z.to_nat i := Some (newRSMServer d)]> (rt_srvs ts)) (rt_leader ts)).
Proof. intros Hi. unfold mksrv. by rewrite store_Ret. Qed.

(** The proxies of the servers of [l] are made anew. *)
Lemma mksrvs_ok ts w l :
  world0 (rt_cfg ts) w → length (rt_srvs ts) = length (srvs (grp w)) → Forall (in_grp (grp w)) l →
  ∃ r, mksrvs l ts = Ret (mkRTest (rt_cfg ts) (rt_ann ts) r (rt_leader ts)) ∧ length r = length (rt_srvs ts) ∧
    ∀ i, in_grp (grp w) i → r !! Z.to_nat i = if decide (i ∈ l) then Some (Some (newRSMServer (proxy_of w i))) else rt_srvs ts !! Z.to_nat i.
Proof.
  intros Hw Hlen Hl. unfold mksrvs. revert ts Hw Hlen. induction Hl as [|i l Hi Hl IH]; intros ts Hw Hlen.
  { exists (rt_srvs ts). split; [by destruct ts|]. split; [done|]. intros i _. by rewrite decide_False by by intros ?%elem_of_nil. }
  cbn [for_each]. rewrite (DaemonClnt_Ret _ w) by done. cbn [mbind outcome_bind].
  rewrite mksrv_Ret by (unfold in_grp, N in Hi; lia). cbn [mbind outcome_bind].
  destruct (IH (mkRTest (rt_cfg ts) (rt_ann ts) (<[Z.to_nat i := Some (newRSMServer (proxy_of w i))]> (rt_srvs ts)) (rt_leader ts)))
    as (r & E & Hr & Hv); [done|cbn; by rewrite length_insert|].
  exists r. split; [exact E|]. cbn [rt_srvs] in *. rewrite length_insert in Hr. split; [done|]. intros j Hj. rewrite Hv by done.
  unfold in_grp, N in *. case_decide as Hjl; [by rewrite decide_True by by right|]. destruct (decide (j = i)) as [->|Hne].
  - rewrite decide_True by by left. by rewrite list_lookup_insert_eq by lia.
  - rewrite list_lookup_insert_ne by lia. by rewrite decide_False by by intros [?|?]%elem_of_cons.
Qed.

(** Every running server is registered, and the test's proxy leads to it. *)
Definition current w (r : list (option rsmServer)) : Prop :=
  ∀ i s, in_grp (grp w) i → srvs (grp w) !! Z.to_nat i = Some s → dc s = true →
    ∃ addr, registered_as w i = Some addr ∧ r !! Z.to_nat i = Some (Some (newRSMServer (Some addr))).

Record rsm_ok ts w : Prop := {
  ro_world : world0 (rt_cfg ts) w;
  ro_gid : gid (grp w) = GRP0;
  ro_base : base_ok w;
  ro_precise : precise w;
  ro_N : N (grp w) = NSRV;
  ro_len : length (rt_srvs ts) = Z.to_nat NSRV;
  ro_leader : 0 <= rt_leader ts < NSRV;
  ro_current : current w (rt_srvs ts)
}.

Lemma current_view w w' r :
  current w r → (∀ j, in_grp (grp w') j ↔ in_grp (grp w) j) →
  (∀ j, in_grp (grp w) j → srvs (grp w') !! Z.to_nat j = srvs (grp w) !! Z.to_nat j ∧ registered_as w' j = registered_as w j) →
  current w' r.
Proof.
  intros Hc Hin Hv i s Hi Hs Hd. apply Hin in Hi. destruct (Hv i Hi) as [E1 E2]. rewrite E1 in Hs. rewrite E2. by apply (Hc i s).
Qed.

Lemma in_grp_NSRV w i : N (grp w) = NSRV → in_grp (grp w) i ↔ 0 <= i < NSRV.
Proof. unfold in_grp. by intros ->. Qed.

Lemma in_grp_N w w' : (∀ j, in_grp (grp w') j ↔ in_grp (grp w) j) → N (grp w') = N (grp w).
Proof.
  intros Hin. unfold in_grp in Hin. pose proof (Hin (N (grp w))). pose proof (Hin (N (grp w'))). unfold N in *. lia.
Qed.

Lemma running_registered w i s :
  base_ok w → in_grp (grp w) i → srvs (grp w) !! Z.to_nat i = Some s → dc s = true →
  ∃ addr, registered_as w i = Some addr ∧ proxy_of w i = Some addr.
Proof.
  intros (_ & _ & _ & Hr) Hi Hs Hd. destruct (proj2 (Hr i s (proj1 Hi) Hs) Hd) as [addr Ha]. exists addr. split; [done|].
  unfold proxy_of. by rewrite Hs, Hd.
Qed.

(** [connect] and [disconnectLeader] only change flags and ends. *)
Lemma rsm_ok_keeps ts w c' w' : rsm_ok ts w → world0 c' w' → keeps w w' → precise w' → rsm_ok (rt_with ts c') w'.
Proof.
  intros [_ H2 H3 _ H5 H6 H7 H8] Hw Hk Hp. pose proof Hk as (K1 & K2 & _ & _ & _ & K3). split; cbn [rt_with rt_cfg rt_srvs rt_leader]; try done.
  - by rewrite K2.
  - by eapply base_ok_keeps.
  - unfold N. by rewrite K1.
  - apply (current_view w); [done|intros j; by apply keeps_in_grp|]. intros j _. unfold registered_as. by rewrite K1, K2, K3.
Qed.

Lemma disconnectLeader_ok ts w :
  rsm_ok ts w → ∃ ts' w', disconnectLeader ts = Ret (rt_leader ts, ts') ∧ rsm_ok ts' w' ∧ rt_leader ts' = rt_leader ts ∧
    ∀ j, in_grp (grp w) j → conn (grp w') j = if decide (j = rt_leader ts) then false else conn (grp w) j.
Proof.
  intros Hok. pose proof Hok as [Hw _ Hb Hp HN _ Hl _]. assert (Hi : in_grp (grp w) (rt_leader ts)) by by apply in_grp_NSRV.
  destruct (DisconnectAll_ok _ w Hb Hi) as (w' & E & Hk & Hcut). pose proof (cut_off_precise _ _ _ (λ a, keeps_in_grp w w' a Hk) Hcut) as Hp'. destruct (on_grp0_ok _ _ _ _ Hw E) as (c' & E' & Hw').
  exists (rt_with ts c'), w'. unfold disconnectLeader. rewrite E'. split; [done|]. split; [by eapply rsm_ok_keeps; auto|]. split; [done|].
  apply Hcut.
Qed.

Lemma connect_ok ts w i :
  rsm_ok ts w → 0 <= i < NSRV → ∃ ts' w', connect i ts = Ret ts' ∧ rsm_ok ts' w' ∧ rt_leader ts' = rt_leader ts ∧
    ∀ j, in_grp (grp w) j → conn (grp w') j = if decide (j = i) then true else conn (grp w) j.
Proof.
  intros Hok Hi0. pose proof Hok as [Hw _ Hb Hp HN _ _ _]. assert (Hi : in_grp (grp w) i) by by apply in_grp_NSRV.
  destruct (ConnectOne_ok _ w Hb Hi) as (w' & E & Hk & Hp' & Hj). destruct (on_grp0_ok _ _ _ _ Hw E) as (c' & E' & Hw').
  exists (rt_with ts c'), w'. unfold connect. rewrite E'. split; [done|]. split; [by eapply rsm_ok_keeps; auto|]. split; [done|].
  apply Hj.
Qed.

(** *** Killing and restarting *)

Lemma kill_ok ts w p servers t ts' :
  rsm_ok ts w → NoDup servers → Forall (λ i, 0 <= i < NSRV) servers → kill p servers t ts = Ret ts' →
  ∃ w', rsm_ok ts' w' ∧ (∀ j, in_grp (grp w') j ↔ in_grp (grp w) j) ∧
    ∀ j, in_grp (grp w) j → view w' j = if decide (j ∈ servers) then killed (p j) w j else view w j.
Proof.
  intros [Hw Hg Hb Hp HN Hlen Hl Hc] Hnd Hr H.
  destruct (Kill_exact p servers w Hb Hnd) as (w' & E & Hb' & Hp' & Eg & Hin & Hv).
  { eapply Forall_impl; [exact Hr|]. intros i. by apply in_grp_NSRV. }
  destruct (on_grp0_ok _ _ _ _ Hw E) as (c' & E' & Hw'). unfold kill in H. rewrite E' in H. cbn [mbind outcome_bind] in H.
  destruct (AnnotateShutdown t servers (rt_ann ts)) as [g| |]; [|done..]. injection H as <-.
  exists w'. split; [|done]. split; cbn [rt_cfg rt_srvs rt_leader]; try done; [congruence|auto| |].
  - by rewrite (in_grp_N w w').
  - intros i s Hi Hs Hd. apply Hin in Hi. specialize (Hv i Hi). unfold view, killed in Hv. case_decide.
    + injection Hv as E1 _ _. rewrite Hs in E1. symmetry in E1. apply fmap_Some in E1 as (s0 & _ & ->).
      revert Hd. unfold shutdownServer. destruct (dc s0) eqn:E0; [done|by rewrite E0].
    + injection Hv as E1 _ ->. rewrite E1 in Hs. by apply (Hc i s).
Qed.

Lemma restart_ok ts w fresh l t ts' :
  rsm_ok ts w → NoDup (sa_srv <$> l) → Forall (λ a, restartable w (sa_srv a) ∧ sa_ok a = true) l → restart fresh l t ts = Ret ts' →
  ∃ w', rsm_ok ts' w' ∧ rt_leader ts' = rt_leader ts ∧
    (∀ j, in_grp (grp w) j → j ∉ sa_srv <$> l → view w' j = (srvs (grp w) !! Z.to_nat j, true, registered_as w j)) ∧
    ∀ a, a ∈ l → ∃ s s', srvs (grp w) !! Z.to_nat (sa_srv a) = Some s ∧ started fresh a s s' ∧
      view w' (sa_srv a) = (Some s', true, Some (sa_addr a)) ∧
      rt_srvs ts' !! Z.to_nat (sa_srv a) = Some (Some (newRSMServer (Some (sa_addr a)))).
Proof.
  intros [Hw Hg Hb Hp HN Hlen Hld Hc] Hnd Hl H. unfold restart in H.
  destruct (on_grp0 (StartSrvs fresh l) _) as [c1| |] eqn:E1; [|done..]. cbn [mbind outcome_bind] in H.
  apply (on_grp0_Ret _ _ _ w Hw) in E1 as (w1 & E1 & Hw1 & _).
  destruct (on_grp0 ConnectAll c1) as [c2| |] eqn:E2; [|done..]. cbn [mbind outcome_bind] in H.
  apply (on_grp0_Ret _ _ _ w1 Hw1) in E2 as (w2 & E2 & Hw2 & _).
  destruct (AnnotateRestart t _ (rt_ann ts)) as [g| |]; [|done..]. cbn [mbind outcome_bind] in H.
  destruct (StartServers_restart fresh l w w2 Hb Hp Hnd Hl) as (Hb2 & Hp2 & Eg & Hin & Hv & Hs); [unfold StartServers; by rewrite E1|].
  assert (HN2 : N (grp w2) = NSRV) by by rewrite (in_grp_N w w2).
  destruct (mksrvs_ok (mkRTest c2 g (rt_srvs ts) (rt_leader ts)) w2 (sa_srv <$> l)) as (r & Er & Hlr & Hr); [done|cbn; unfold N in HN2; lia| |].
  { apply Forall_fmap. eapply Forall_impl; [exact Hl|]. intros a [[Ha _] _]. by apply Hin. }
  rewrite H in Er. injection Er as ->. cbn [rt_cfg rt_ann rt_leader rt_srvs] in *. exists w2.
  assert (Hst : ∀ a, a ∈ l → ∃ s s', srvs (grp w) !! Z.to_nat (sa_srv a) = Some s ∧ started fresh a s s' ∧
      view w2 (sa_srv a) = (Some s', true, Some (sa_addr a)) ∧
      r !! Z.to_nat (sa_srv a) = Some (Some (newRSMServer (Some (sa_addr a))))).
  { intros a Ha. destruct (Hs a Ha) as (s & s' & Hss & [Hsv Hdc] & Hva). exists s, s'. split; [done|]. split; [done|]. split; [done|].
    rewrite Forall_forall in Hl. destruct (Hl a Ha) as [(Hia & _) Hoka]. rewrite Hr by by apply Hin.
    rewrite decide_True by by apply list_elem_of_fmap_2. unfold view in Hva. injection Hva as H1 _ H3. unfold proxy_of. by rewrite H1, Hdc, Hoka, H3. }
  split; [|by split]. split; cbn [rt_cfg rt_srvs rt_leader]; try done; [congruence|congruence|].
  intros i s Hi Hsi Hd. apply Hin in Hi. destruct (decide (i ∈ sa_srv <$> l)) as [Hil|Hil].
  - apply list_elem_of_fmap in Hil as (a & -> & Ha). destruct (Hst a Ha) as (_ & s' & _ & _ & Hva & Hra). exists (sa_addr a).
    split; [|done]. unfold view in Hva. by injection Hva.
  - specialize (Hv i Hi Hil). unfold view in Hv. injection Hv as F1 _ ->. rewrite Hr, decide_False by (done || by apply Hin).
    rewrite F1 in Hsi. by apply (Hc i s).
Qed.

(** *** The beginning *)

Lemma makeTest_ok rand fresh l g ts :
  sa_srv <$> l = seqZ 0 NSRV → makeTest rand fresh l g = Ret ts → ∃ w, rsm_ok ts w ∧ rt_ann ts = g.
Proof.
  intros Hl. unfold makeTest. destruct (MakeConfig _ _ _ _ _) as [c| |] eqn:E; [|done..]. cbn [mbind outcome_bind]. intros H.
  pose proof (MakeConfig_ok (Z.to_nat NSRV) true rand fresh l c Hl E) as [Hgs _ _].
  assert (HG : ∃ G, Config_Group GRP0 c = Some G ∧ length (srvs G) = Z.to_nat NSRV).
  { clear H Hgs. unfold MakeConfig, MakeGroupStart, MakeGroup in E.
    destruct (makeSrvGrp GRP0 (Z.to_nat NSRV) rand (gs_net (newGroups MakeNetwork))) as [w0| |] eqn:E0; [|done..].
    destruct (gs_ok_make (λ _, false) (λ _, false) (newGroups MakeNetwork) GRP0 (Z.to_nat NSRV) rand w0) as (_ & _ & _ & _ & Hlen);
      [by apply gs_ok_init|done|done|done|].
    cbn [mbind outcome_bind] in E. unfold on_group, lookupGroup in E. cbn [gs_net grps] in E. rewrite lookup_insert_eq in E.
    destruct (StartServers fresh l _) as [w1| |] eqn:E1; [|done..]. cbn [mbind outcome_bind] in E. injection E as <-.
    exists (grp w1). split; [unfold Config_Group, lookupGroup; cbn; by rewrite lookup_insert_eq|].
    rewrite (fr_N _ _ (frame_StartServers _ _ _ _ E1)). exact Hlen. }
  destruct HG as (G & HG & HlG). destruct (go_grp _ _ Hgs GRP0 G HG) as (Eg & Hb & Hp).
  specialize (Hp eq_refl). set (w := mkWorld (cf_net c) G). assert (Hw : world0 c w) by done.
  assert (HN : N (grp w) = NSRV) by (unfold N; cbn [w grp]; rewrite HlG; done).
  destruct (mksrvs_ok (mkRTest c g (replicate (Z.to_nat NSRV) None) 0) w (seqZ 0 NSRV)) as (r & Er & Hlr & Hr);
    [done|exact (eq_trans (length_replicate _ _) (eq_sym HlG))| |].
  { apply Forall_forall. intros i Hi%elem_of_seqZ. apply in_grp_NSRV; [done|lia]. }
  rewrite H in Er. injection Er as ->. exists w. split; [|done]. split; try done.
  intros i s Hi Hs Hd. destruct (running_registered w i s Hb Hi Hs Hd) as (addr & Ha & Hpx). exists addr. split; [done|].
  cbn [rt_srvs]. rewrite Hr by done. rewrite decide_True; [by rewrite Hpx|]. apply elem_of_seqZ. apply in_grp_NSRV in Hi; [lia|done].
Qed.

Lemma rsm_step_ok ts w o ts' : rsm_ok ts w → rsm_step ts o ts' → ∃ w', rsm_ok ts' w'.
Proof.
  intros Hok [Ha Hd]. pose proof Hok as [Hw Hg Hb Hp HN Hlen Hl Hc]. destruct o as [p servers t|fresh l t| |i|i]; cbn [rsm_do rsm_allowed] in *.
  - destruct Ha as [Hnd Hr]. destruct (kill_ok ts w p servers t ts' Hok Hnd Hr Hd) as (w' & H & _). by exists w'.
  - destruct Ha as [Hnd Hr]. destruct (restart_ok ts w fresh l t ts' Hok Hnd) as (w' & H & _); [|done|by exists w'].
    specialize (Hr (grp w) (proj1 Hw)). rewrite (proj2 Hw) in Hr. by destruct w.
  - destruct (disconnectLeader_ok ts w Hok) as (ts1 & w' & E & H & _). rewrite E in Hd. injection Hd as <-. by exists w'.
  - destruct (connect_ok ts w i Hok Ha) as (ts1 & w' & E & H & _). rewrite E in Hd. injection Hd as <-. by exists w'.
  - injection Hd as <-. exists w. by split.
Qed.

Lemma rsm_exec_ok ts w os ts' : rsm_ok ts w → exec rsm_step ts os ts' → ∃ w', rsm_ok ts' w'.
Proof.
  intros Hok Hex. revert w Hok. induction Hex as [ts|ts o ts1 os ts2 Hst _ IH]; intros w Hok; [by exists w|].
  destruct (rsm_step_ok ts w o ts1 Hok Hst) as (w1 & H1). by apply (IH w1).
Qed.

(** *** The ends between the servers *)

(** The end from server [a] to server [b] leads to [b], and is up if [f a b]. *)
Definition ends_are c (f : Z → Z → bool) : Prop :=
  ∃ G, Config_Group GRP0 c = Some G ∧ ∀ a b, 0 <= a < NSRV → 0 <= b < NSRV →
    ∃ e, end_name (mkWorld (cf_net c) G) a b = Ret e ∧ (readEndnameInfo e (cf_net c)).1.1.1 = (f a b, Some (ServerName GRP0 b)).

Lemma ends_are_up c w f :
  world0 c w → base_ok w → gid (grp w) = GRP0 → N (grp w) = NSRV →
  (∀ a b, in_grp (grp w) a → in_grp (grp w) b → up w a b = f a b) → ends_are c f.
Proof.
  intros [HG Hn] Hb Hg HN Hf. exists (grp w). split; [done|]. intros a b Ha Hbi. apply (in_grp_NSRV w) in Ha, Hbi; try done.
  destruct (read_end w a b Hb Ha Hbi) as (srv & Hread & _). exists (name (grp w) a b). split.
  - rewrite Hn. replace (mkWorld (net w) (grp w)) with w by by destruct w. apply end_name_Ret; [apply Hb|done|done].
  - rewrite Hn, Hread, Hg. cbn [fst]. by rewrite Hf.
Qed.

Lemma ends_are_conn ts w f :
  rsm_ok ts w → (∀ j, 0 <= j < NSRV → conn (grp w) j = f j) → ends_are (rt_cfg ts) (λ a b, f a && f b).
Proof.
  intros [Hw Hg Hb Hp HN _ _ _] Hf. apply (ends_are_up _ w); try done. intros a b Ha Hbi. rewrite Hp by done.
  apply (in_grp_NSRV w) in Ha, Hbi; try done. by rewrite !Hf.
Qed.

(** Three servers: the leader, and the two others. *)
Lemma MakePartition_three (G : ServerGrp (Saved:=Saved)) l :
  N G = NSRV → 0 <= l < NSRV →
  ∃ p1, MakePartition l G = Ret (p1, [l]) ∧ ∀ a, a ∈ p1 ↔ 0 <= a < NSRV ∧ a ≠ l.
Proof.
  unfold N, NSRV. destruct G as [[|s0 [|s1 [|s2 [|]]]] cn gd]; cbn [srvs length]; try (intros ?; lia). intros _ Hl.
  assert (Hc : l = 0 ∨ l = 1 ∨ l = 2) by lia.
  destruct Hc as [-> | [-> | ->]]; [exists [1; 2]|exists [0; 2]|exists [0; 1]];
    (split; [reflexivity|]); intros a; rewrite !elem_of_cons, elem_of_nil; lia.
Qed.

(** The leader is partitioned from the others, and connected again: with three
    servers no partition is left. *)
Lemma partition_heals ts w l :
  rsm_ok ts w → 0 <= l < NSRV →
  ∃ p1 c1 c2, MakePartition l (grp w) = Ret (p1, [l]) ∧ on_grp0 (Partition p1 [l]) (rt_cfg ts) = Ret c1 ∧
    ends_are c1 (λ a b, bool_decide (a = l ↔ b = l)) ∧ on_grp0 (ConnectOne l) c1 = Ret c2 ∧ ends_are c2 (λ _ _, true).
Proof.
  intros [Hw Hg Hb _ HN _ _ _] Hl. destruct (MakePartition_three (grp w) l HN Hl) as (p1 & Em & Hp1). pose proof Hb as (Hok & Hinj & _).
  assert (Hr : ∀ a, a ∈ p1 ++ [l] ↔ in_grp (grp w) a).
  { intros a. rewrite elem_of_app, list_elem_of_singleton, Hp1, in_grp_NSRV by done. destruct (decide (a = l)); intuition congruence. }
  destruct (Partition_Ret p1 [l] w Hok Hinj) as (w1 & E1 & Hk & Hc & Hu).
  { apply Forall_forall. intros a Ha. apply Hr, elem_of_app. by left. }
  { apply Forall_singleton. apply Hr, elem_of_app. right. by apply list_elem_of_singleton. }
  { intros a Ha%Hp1 ->%list_elem_of_singleton. by destruct Ha. }
  destruct (on_grp0_ok _ _ _ _ Hw E1) as (c1 & Ec1 & Hw1). pose proof (base_ok_keeps _ _ Hk Hb) as Hb1. pose proof Hk as (K1 & K2 & _).
  assert (Hg1 : gid (grp w1) = GRP0) by congruence. assert (HN1 : N (grp w1) = NSRV) by (unfold N; by rewrite K1).
  assert (Hin : ∀ a, in_grp (grp w1) a ↔ in_grp (grp w) a) by (intros a; by apply keeps_in_grp).
  assert (Hu1 : ∀ a b, in_grp (grp w) a → in_grp (grp w) b → up w1 a b = bool_decide (a = l ↔ b = l)).
  { intros a b Ha Hbi. rewrite Hu by by apply Hr. apply bool_decide_ext. rewrite !Hp1. apply (in_grp_NSRV w) in Ha, Hbi; try done.
    destruct (decide (a = l)), (decide (b = l)); intuition congruence. }
  assert (Hl1 : in_grp (grp w1) l) by by apply Hin, in_grp_NSRV.
  destruct (connect_Ret l (all (grp w1)) w1 (proj1 Hb1) (proj1 (proj2 Hb1)) Hl1 (all_in_grp _)) as (n2 & E2 & _ & Hu2).
  destruct (ConnectOne_ok l w1 Hb1 Hl1) as (w2 & E2' & Hk2 & _). pose proof E2' as Ew2. unfold ConnectOne in Ew2. rewrite E2 in Ew2.
  destruct (on_grp0_ok _ _ _ _ Hw1 E2') as (c2 & Ec2 & Hw2). pose proof Hk2 as (L1 & L2 & _).
  exists p1, c1, c2. split; [done|]. split; [done|]. split; [apply (ends_are_up c1 w1); try done; intros a b Ha%Hin Hbi%Hin; by apply Hu1|].
  split; [done|]. apply (ends_are_up c2 w2); [done|by eapply base_ok_keeps|congruence|unfold N; by rewrite L1|].
  intros a b Ha%(keeps_in_grp w1 w2) Hbi%(keeps_in_grp w1 w2); try done. injection Ew2 as <-. etrans; [exact (Hu2 a b Ha Hbi)|].
  case_decide as Ht; [done|]. rewrite Hu1 by by apply Hin. apply bool_decide_eq_true.
  assert (Hcw : ∀ x, in_grp (grp w1) x → conn (mkGrp (srvs (grp w1)) (<[Z.to_nat l := true]> (ServerGroup.connected (grp w1))) (gid (grp w1))) x = true).
  { intros x Hx. rewrite (conn_insert _ (grp w1)) by (done || apply Hb1). case_decide; [done|]. apply Hc, Hr. by apply Hin. }
  assert (Hn : a ≠ l ∧ b ≠ l).
  { split; intros ->; apply Ht; [left|right]; (split; [done|]); apply list_elem_of_filter; (split; [by apply Hcw|by apply elem_of_all]). }
  by destruct Hn.
Qed.
End facts.

(** ** Properties *)

(** C31 In every state of an [rsm] test, after kills, restarts, disconnections and
    reconnections: the ends between two servers are up exactly if both are
    connected; disconnecting the leader takes down exactly its ends, and connecting
    it again brings back those that lead to connected servers; partitioning the
    leader, which divides the three servers into the leader and the others,
    leaves up the ends within each side, and connecting the leader then resolves
    the partition: all ends are up. *)
Theorem leader_isolated_and_back {St Saved} rand (fresh : Saved) (la : list (start_args (St:=St))) g0 ts0 os ts :
  sa_srv <$> la = seqZ 0 NSRV → makeTest rand fresh la g0 = Ret ts0 → exec rsm_step ts0 os ts →
  let l := getLeader ts in
  ∃ G, Config_Group GRP0 (rt_cfg ts) = Some G ∧ 0 <= l < NSRV ∧
    ends_are (rt_cfg ts) (λ a b, conn G a && conn G b) ∧
    (∃ ts1 ts2, disconnectLeader ts = Ret (l, ts1) ∧
      ends_are (rt_cfg ts1) (λ a b, (conn G a && bool_decide (a ≠ l)) && (conn G b && bool_decide (b ≠ l))) ∧
      connect l ts1 = Ret ts2 ∧ ends_are (rt_cfg ts2) (λ a b, (conn G a || bool_decide (a = l)) && (conn G b || bool_decide (b = l)))) ∧
    ∃ p1 c1 ts3, MakePartition l G = Ret (p1, [l]) ∧ on_grp0 (Partition p1 [l]) (rt_cfg ts) = Ret c1 ∧
      ends_are c1 (λ a b, bool_decide (a = l ↔ b = l)) ∧
      connect l (rt_with ts c1) = Ret ts3 ∧ ends_are (rt_cfg ts3) (λ _ _, true).
Proof.
  intros Hl Hm Hex l. destruct (makeTest_ok _ _ _ _ _ Hl Hm) as (w0 & H0 & _). destruct (rsm_exec_ok _ _ _ _ H0 Hex) as (w & Hok).
  pose proof Hok as [Hw _ _ _ HN _ Hld _]. exists (grp w). split; [apply Hw|]. split; [done|].
  split; [by apply (ends_are_conn ts w)|]. split.
  - destruct (disconnectLeader_ok ts w Hok) as (ts1 & w1 & E1 & Hok1 & El1 & Hc1).
    destruct (connect_ok ts1 w1 l Hok1 Hld) as (ts2 & w2 & E2 & Hok2 & _ & Hc2). exists ts1, ts2. split; [done|].
    pose proof Hok1 as [_ _ _ _ HN1 _ _ _]. split; [|split; [done|]].
    + apply (ends_are_conn ts1 w1); [done|]. intros j Hj. rewrite Hc1 by by apply in_grp_NSRV. unfold l, getLeader.
      case_decide; [by rewrite bool_decide_false, andb_false_r by tauto|by rewrite bool_decide_true, andb_true_r].
    + apply (ends_are_conn ts2 w2); [done|]. intros j Hj. rewrite Hc2 by by apply in_grp_NSRV.
      case_decide; [by rewrite bool_decide_true, orb_true_r|]. rewrite Hc1 by by apply in_grp_NSRV.
      rewrite decide_False by done. by rewrite bool_decide_false, orb_false_r.
  - destruct (partition_heals ts w l Hok Hld) as (p1 & c1 & c2 & E1 & E2 & H1 & E3 & H2). exists p1, c1, (rt_with ts c2).
    unfold connect. cbn [rt_with rt_cfg]. by rewrite E3.
Qed.

(** After any run of an [rsm] test, killing some servers and restarting
    them has the effect the tests rely on: those servers run, on the state their
    processes handed back, the others are as they were, all servers are connected,
    whoever was not before, and the test's proxy for each server that runs leads to
    the process that is registered under the server's name: for those restarted, the
    new one. *)
Theorem kill_and_restart {St Saved} rand (fresh0 : Saved) (la : list (start_args (St:=St))) g0 ts0 os ts fresh p ks t l t' ts2 :
  sa_srv <$> la = seqZ 0 NSRV → makeTest rand fresh0 la g0 = Ret ts0 → exec rsm_step ts0 os ts →
  NoDup ks → Forall (λ i, 0 <= i < NSRV) ks → sa_srv <$> l = ks → Forall (λ a, sa_ok a = true) l →
  (ts1 ← kill p ks t ts; restart fresh l t' ts1) = Ret ts2 →
  ∃ G G2, Config_Group GRP0 (rt_cfg ts) = Some G ∧ Config_Group GRP0 (rt_cfg ts2) = Some G2 ∧
    (∀ i, 0 <= i < NSRV → ∃ s s2, srvs G !! Z.to_nat i = Some s ∧ srvs G2 !! Z.to_nat i = Some s2 ∧
      if decide (i ∈ ks) then dc s2 = true ∧ saved s2 = Some (if dc s then p i else default fresh (saved s)) else s2 = s) ∧
    ends_are (rt_cfg ts2) (λ _ _, true) ∧
    (∀ i s2, 0 <= i < NSRV → srvs G2 !! Z.to_nat i = Some s2 → dc s2 = true →
      ∃ addr, lookup_zero None (ServerName GRP0 i) (servers (cf_net (rt_cfg ts2))) = Some addr ∧
        rt_srvs ts2 !! Z.to_nat i = Some (Some (newRSMServer (Some addr)))) ∧
    ∀ a, a ∈ l → rt_srvs ts2 !! Z.to_nat (sa_srv a) = Some (Some (newRSMServer (Some (sa_addr a)))).
Proof.
  intros Hla Hm Hex Hnd Hr Hl Hok Hrun. destruct (makeTest_ok _ _ _ _ _ Hla Hm) as (w0 & H0 & _).
  destruct (rsm_exec_ok _ _ _ _ H0 Hex) as (w & Hts). pose proof (ro_N _ _ Hts) as HN.
  destruct (kill p ks t ts) as [ts1| |] eqn:E1; [|done..]. cbn [mbind outcome_bind] in Hrun.
  destruct (kill_ok ts w p ks t ts1 Hts Hnd Hr E1) as (w1 & H1 & Hin1 & Hv1).
  assert (Hrs : Forall (λ a, restartable w1 (sa_srv a) ∧ sa_ok a = true) l).
  { apply Forall_forall. intros a Ha. rewrite Forall_forall in Hok. pose proof (proj1 (Forall_forall _ _) Hr) as Hr'. split; [|by apply Hok]. pose proof (list_elem_of_fmap_2 sa_srv _ _ Ha) as Hs. rewrite Hl in Hs.
    assert (Hi : in_grp (grp w) (sa_srv a)) by by apply in_grp_NSRV, Hr'. specialize (Hv1 _ Hi). rewrite decide_True in Hv1 by done.
    unfold view, killed in Hv1. injection Hv1 as F1 F2 _. split; [by apply Hin1|]. split; [done|]. intros s. rewrite F1.
    intros (s0 & _ & ->)%fmap_Some. unfold shutdownServer. by destruct (dc s0) eqn:?. }
  destruct (restart_ok ts1 w1 fresh l t' ts2 H1) as (w2 & H2 & _ & Hv2 & Hs2); [by rewrite Hl|done|done|].
  assert (Hall : ∀ i, 0 <= i < NSRV → conn (grp w2) i = true ∧ ∃ s s2, srvs (grp w) !! Z.to_nat i = Some s ∧ srvs (grp w2) !! Z.to_nat i = Some s2 ∧
      if decide (i ∈ ks) then dc s2 = true ∧ saved s2 = Some (if dc s then p i else default fresh (saved s)) else s2 = s).
  { intros i Hi. apply (in_grp_NSRV w) in Hi; [|done]. destruct (index_in_range (srvs (grp w)) i Hi) as (s & _ & Hs).
    specialize (Hv1 i Hi). apply Hin1 in Hi. case_decide as Hd.
    - rewrite <- Hl in Hd. apply list_elem_of_fmap in Hd as (a & -> & Ha). destruct (Hs2 a Ha) as (s1 & s2 & F1 & [F2 F3] & F4 & _).
      unfold view, killed in Hv1, F4. rewrite F1, Hs in Hv1. injection Hv1 as -> _ _. injection F4 as G1 G2 _. split; [done|].
      exists s, s2. split; [done|]. split; [done|]. rewrite Forall_forall in Hok. split; [rewrite F3; by apply Hok|]. rewrite F2.
      unfold shutdownServer. by destruct (dc s).
    - specialize (Hv2 i Hi). rewrite Hl in Hv2. specialize (Hv2 Hd). unfold view in Hv1, Hv2. injection Hv1 as F1 _ _. injection Hv2 as F2 F3 _.
      split; [done|]. exists s, s. split; [done|]. by rewrite F2, F1. }
  exists (grp w), (grp w2). split; [apply (ro_world _ _ Hts)|]. split; [apply (ro_world _ _ H2)|]. split; [intros i Hi; by apply Hall|].
  split; [apply (ends_are_conn ts2 w2 (λ _, true) H2); intros j Hj; by apply Hall|]. split.
  - intros i s2 Hi Hs Hd. destruct (ro_current _ _ H2 i s2) as (addr & F1 & F2); [apply in_grp_NSRV; [apply (ro_N _ _ H2)|done]|done|done|].
    exists addr. split; [|done]. rewrite (proj2 (ro_world _ _ H2)). unfold registered_as in F1. by rewrite (ro_gid _ _ H2) in F1.
  - intros a Ha. by destruct (Hs2 a Ha) as (_ & _ & _ & _ & _ & F).
Qed.

(** ** A test in which server 1 is the leader and was disconnected *)

Module RsmEx.
Abbreviation RTest := (RTest (St:=unit) (Saved:=unit)).
Definition ann : globals := match mkFrameworkInfo 3 with Ret fi => set_finfo fi init_globals | _ => init_globals end.
Definition the (o : outcome RTest) (ts : RTest) : RTest := match o with Ret ts => ts | _ => ts end.
Definition none : RTest := mkRTest TestbedEx.start ann [] 0.
Definition start : RTest := the (makeTest (GroupsEx.names 0) tt (GroupsEx.args 0 3) ann) none.
Definition ops : list (rsm_op (St:=unit) (Saved:=unit)) := [RFound 1; RDisconnectLeader].
Definition state : RTest := the (rsm_do RDisconnectLeader (found_leader 1 start)) none.
Definition again : list (start_args (St:=unit)) :=
  (λ i, mkStart i (GroupEx.rnd (5000 + 100 * i)) true (Z.to_nat (50 + i)) GroupEx.obj) <$> [2; 0].
Definition after : RTest := the (ts ← kill (λ _, tt) [2; 0] 7 state; restart tt again 8 ts) none.

Lemma run_ok : exec rsm_step start ops state.
Proof.
  eapply exec_cons; [split; [|reflexivity]|eapply exec_cons; [split; [|]|apply exec_nil]].
  - by split.
  - done.
  - vm_compute. reflexivity.
Qed.
End RsmEx.

Lemma leader_isolated_and_back_witness :
  ∃ c1 ts3, on_grp0 (Partition [0; 2] [1]) (rt_cfg RsmEx.state) = Ret c1 ∧ ends_are c1 (λ a b, bool_decide (a = 1 ↔ b = 1)) ∧
    connect 1 (rt_with RsmEx.state c1) = Ret ts3 ∧ ends_are (rt_cfg ts3) (λ _ _, true).
Proof.
  destruct (leader_isolated_and_back (GroupsEx.names 0) tt (GroupsEx.args 0 3) RsmEx.ann RsmEx.start RsmEx.ops RsmEx.state)
    as (G & HG & _ & _ & _ & p1 & c1 & ts3 & Hp & H1 & H2 & H3 & H4).
  - reflexivity.
  - vm_compute. reflexivity.
  - apply RsmEx.run_ok.
  - assert (El : getLeader RsmEx.state = 1) by (vm_compute; reflexivity). rewrite El in *.
    assert (Ep : ∃ G, Config_Group GRP0 (rt_cfg RsmEx.state) = Some G ∧ MakePartition 1 G = Ret ([0; 2], [1]))
      by (eexists; split; vm_compute; reflexivity).
    destruct Ep as (G' & HG' & Hp'). rewrite HG in HG'. injection HG' as <-. rewrite Hp in Hp'. injection Hp' as ->.
    exists c1, ts3. split; [exact H1|]. split; [exact H2|]. split; [exact H3 | exact H4].
Defined.

Lemma kill_and_restart_witness :
  ends_are (rt_cfg RsmEx.after) (λ _ _, true) ∧ rt_srvs RsmEx.after !! 2%nat = Some (Some (newRSMServer (Some 52%nat))).
Proof.
  destruct (kill_and_restart (GroupsEx.names 0) tt (GroupsEx.args 0 3) RsmEx.ann RsmEx.start RsmEx.ops RsmEx.state tt (λ _, tt) [2; 0]
    7 RsmEx.again 8 RsmEx.after) as (G & G2 & _ & _ & _ & H1 & _ & H2).
  - reflexivity.
  - vm_compute. reflexivity.
  - apply RsmEx.run_ok.
  - apply (bool_decide_unpack _). vm_compute. exact I.
  - by repeat constructor.
  - reflexivity.
  - by repeat constructor.
  - vm_compute. reflexivity.
  - split; [exact H1|]. specialize (H2 (mkStart 2 (GroupEx.rnd 5200) true 52 GroupEx.obj)). apply H2. left.
Defined.
