(* ===== verification/Skeleton.v ===== *)
(** * The libraries as they are handed out: [raft1/raft.go], [kvraft1/rsm/rsm.go],
      [kvraft1], [shardkv1]

    The repository holds skeletons of the Raft library, of the library that
    replicates a state machine over it, and of the services built on both. They
    are modelled as they stand, as instances of the interfaces the testers use,
    to show that the tests find them wanting. *)

From S2P Require Import Prelude Rpc Persister KvTest ShardCfg RaftTest RaftServer RaftLib.
From S2P Require RsmTest.

Open Scope string_scope.
Open Scope list_scope.
Open Scope Z_scope.

(** ** [raft1/raft.go] *)

(** A peer; [rf_peers] are the names of the ends. *)
Record Raft := mkRaft { rf_peers : list string; rf_persister : Persister; rf_me : Z }.

Definition GetState (rf : Raft) : Z * bool := (0, false).
(** Nothing is read back, whatever was saved. *)
Definition readPersist (data : list Z) (rf : Raft) : Raft := if decide (data = []) then rf else rf.
Definition PersistBytes (rf : Raft) (h : heap) : Z := RaftStateSize (rf_persister rf) h.
Definition Raft_Snapshot (idx : Z) (snapshot : list Z) (rf : Raft) : Raft := rf.
Definition Raft_Start {any} (command : any) (rf : Raft) : (Z * Z * bool) * Raft := ((-1, -1, true), rf).

(** [ticker]'s pause, in milliseconds, for a random number. *)
Definition ticker_pause (r : Z) : Z := 50 + r `rem` 300.

(** [sendRequestVote]: the index may be out of range; [Call] is that of the end. *)
Definition sendRequestVote {A} (Call : string → A → bool * A) (server : Z) (reply : A) (rf : Raft) : outcome (bool * A) :=
  e ← index (rf_peers rf) server; Ret (Call e reply).

Definition Make (peers : list string) (me : Z) (persister : Persister) (h : heap) : Raft * heap :=
  let rf := mkRaft peers persister me in
  let '(data, h) := ReadRaftState persister h in
  (readPersist (contents h data) rf, h).

#[export] Instance skeleton_raft (any : Type) : RaftAPI any (Raft * heap) := {
  api_Start cmd r := let '(x, rf) := Raft_Start cmd r.1 in (x, (rf, r.2));
  api_GetState r := GetState r.1;
  api_Snapshot idx sn r := (Raft_Snapshot idx sn r.1, r.2);
  api_PersistBytes r := PersistBytes r.1 r.2
}.

(** ** [kvraft1/rsm/rsm.go] and the processes around it *)

Record RSM := mkRSM { rsm_me : Z; rsm_rf : option Raft; rsm_maxraftstate : Z }.

Definition MakeRSM (UseRaftStateMachine : bool) (servers : list string) (me : Z) (persister : Persister) (maxraftstate : Z)
    (h : heap) : RSM * heap :=
  if UseRaftStateMachine then (mkRSM me None maxraftstate, h)
  else let '(rf, h) := Make servers me persister h in (mkRSM me (Some rf) maxraftstate, h).

Definition RSM_Raft (rsm : RSM) : option Raft := rsm_rf rsm.
Definition RSM_Submit {req rep} (r : req) (rsm : RSM) : Err * option rep := (ErrWrongLeader, None).

(** [rsmSrv] of [rsm/server.go] *)
Record rsmSrv := mkRsmSrv { rs_me : Z; rs_rsm : RSM; rs_counter : Z }.
Definition newRSMSrv (use : bool) (ends : list string) (srv : Z) (persister : Persister) (maxraftstate : Z) (h : heap) :
    rsmSrv * heap :=
  let '(rsm, h) := MakeRSM use ends srv persister maxraftstate h in (mkRsmSrv srv rsm 0, h).
Definition rsmSrv_Submit (req : RsmTest.request) (rs : rsmSrv) : Err * option RsmTest.reply := RSM_Submit req (rs_rsm rs).
Definition SubmitRPC (req : RsmTest.request) (rs : rsmSrv) : Err * option RsmTest.reply := rsmSrv_Submit req rs.
Definition GetCounterRPC (rs : rsmSrv) : Z := rs_counter rs.

(** The proxies of [rsm/proxy.go]: a call that fails leaves the reply zero. *)
Definition RSMproxy_Submit (c : delivery) (req : RsmTest.request) (srv : option rsmSrv) : Err * option RsmTest.reply :=
  match srv, c with Some rs, Delivered => SubmitRPC req rs | _, _ => ("", None) end.
Definition RSMproxy_GetCounter (c : delivery) (srv : option rsmSrv) : Z :=
  match srv, c with Some rs, Delivered => GetCounterRPC rs | _, _ => 0 end.

(** The cluster: which servers are connected, their processes, the fates of the
    calls now, and what becomes of all this while the tester sleeps. *)
Record cluster := mkCluster {
  cl_now : nat; cl_connected : nat → Z → bool; cl_call : nat → Z → delivery; cl_srv : nat → Z → option rsmSrv
}.
Definition cl_tick (c : cluster) : cluster := mkCluster (S (cl_now c)) (cl_connected c) (cl_call c) (cl_srv c).

#[export] Instance skeleton_rsm : RsmTest.RSM cluster := {
  RsmTest.Submit i req c := (RSMproxy_Submit (cl_call c (cl_now c) i) req (cl_srv c (cl_now c) i), cl_tick c);
  RsmTest.IsConnected c i := cl_connected c (cl_now c) i;
  RsmTest.GetCounter c i := RSMproxy_GetCounter (cl_call c (cl_now c) i) (cl_srv c (cl_now c) i);
  RsmTest.sleep := cl_tick;
  RsmTest.applied _ := []
}.

(** The counters of fresh servers. *)
Definition untouched (c : cluster) : Prop := ∀ k i rs, cl_srv c k i = Some rs → rs_counter rs = 0.

(** ** [kvraft1/client.go] and [server.go] *)

Record kvraft_Clerk := mkKvraftClerk { kc_servers : list string; kc_leader : Z }.
Definition kvraft_MakeClerk (servers : list string) : kvraft_Clerk := mkKvraftClerk servers 0.
Definition kvraft_Leader (ck : kvraft_Clerk) : Z := kc_leader ck.
Definition kvraft_Get (ck : kvraft_Clerk) (key : string) : string * Tversion * Err := ("", 0, "").
Definition kvraft_Put (ck : kvraft_Clerk) (key value : string) (version : Tversion) : Err := "".

(** Handlers leave their replies as they are. *)
Record kvraft_KVServer := mkKvraftServer { ks_me : Z; ks_rsm : RSM }.
Definition kvraft_DoOp {req rep} (r : req) (kv : kvraft_KVServer) : option rep := None.
Definition kvraft_Snapshot (kv : kvraft_KVServer) : list Z := [].
Definition kvraft_Restore (data : list Z) (kv : kvraft_KVServer) : kvraft_KVServer := kv.
Definition kvraft_GetRPC (args : GetArgs) (reply : GetReply) (kv : kvraft_KVServer) : GetReply := reply.
Definition kvraft_PutRPC (args : PutArgs) (reply : PutReply) (kv : kvraft_KVServer) : PutReply := reply.
(** The services of the process: the server and its Raft. *)
Definition StartKVServer (use : bool) (servers : list string) (gid me : Z) (persister : Persister) (maxraftstate : Z) (h : heap) :
    (kvraft_KVServer * option Raft) * heap :=
  let '(rsm, h) := MakeRSM use servers me persister maxraftstate h in ((mkKvraftServer me rsm, RSM_Raft rsm), h).
(** The group is always [Gid], whatever the process was told. *)
Definition kvraft_NewServer (f : bool * Z) (ends : list string) (grp srv : Z) (persister : Persister) (h : heap) :=
  StartKVServer f.1 ends 0 srv persister f.2 h.

(** ** [shardkv1/shardgrp/client.go] and [server.go] *)

Record shardgrp_Clerk := mkShardgrpClerk { gc_servers : list string; gc_leader : Z }.
Definition shardgrp_MakeClerk (servers : list string) : shardgrp_Clerk := mkShardgrpClerk servers 0.
Definition shardgrp_Leader (ck : shardgrp_Clerk) : Z := gc_leader ck.
Definition shardgrp_Get (ck : shardgrp_Clerk) (key : string) : string * Tversion * Err := ("", 0, "").
Definition shardgrp_Put (ck : shardgrp_Clerk) (key value : string) (version : Tversion) : Err := "".
Definition FreezeShard (ck : shardgrp_Clerk) (s num : Z) : list Z * Err := ([], "").
Definition InstallShard (ck : shardgrp_Clerk) (s : Z) (state : list Z) (num : Z) : Err := "".
Definition DeleteShard (ck : shardgrp_Clerk) (s num : Z) : Err := "".

Record shardgrp_KVServer := mkShardgrpServer { gs_me : Z; gs_rsm : RSM; gs_gid : Z }.
Definition shardgrp_DoOp {req rep} (r : req) (kv : shardgrp_KVServer) : option rep := None.
Definition shardgrp_Snapshot (kv : shardgrp_KVServer) : list Z := [].
Definition shardgrp_Restore (data : list Z) (kv : shardgrp_KVServer) : shardgrp_KVServer := kv.
Definition shardgrp_GetRPC (args : GetArgs) (reply : GetReply) (kv : shardgrp_KVServer) : GetReply := reply.
Definition shardgrp_PutRPC (args : PutArgs) (reply : PutReply) (kv : shardgrp_KVServer) : PutReply := reply.
(** The handlers for shards, of replies of any type. *)
Definition shardgrp_ShardRPC {args rep} (a : args) (reply : rep) (kv : shardgrp_KVServer) : rep := reply.
Definition StartServerShardGrp (use : bool) (servers : list string) (gid me : Z) (persister : Persister) (maxraftstate : Z)
    (h : heap) : (shardgrp_KVServer * option Raft) * heap :=
  let '(rsm, h) := MakeRSM use servers me persister maxraftstate h in ((mkShardgrpServer me rsm gid, RSM_Raft rsm), h).
Definition shardgrp_NewServer (f : bool * Z) (ends : list string) (grp srv : Z) (persister : Persister) (h : heap) :=
  StartServerShardGrp f.1 ends grp srv persister f.2 h.

(** ** [shardkv1/client.go] and [shardctrler/shardctrler.go] *)

(** [rcks]: nothing ever fills it in. *)
Definition shardkv_Clerk : Type := gmap Z shardgrp_Clerk.
Definition shardkv_MakeClerk : shardkv_Clerk := ∅.
Definition GetClerk (rcks : shardkv_Clerk) (gid : Z) : option shardgrp_Clerk := rcks !! gid.
Definition shardkv_Get (ck : shardkv_Clerk) (key : string) : string * Tversion * Err := ("", 0, "").
Definition shardkv_Put (ck : shardkv_Clerk) (key value : string) (version : Tversion) : Err := "".

(** The controller forgets; its configuration is nil. *)
Definition ShardCtrler : Type := unit.
Definition MakeShardCtrler : ShardCtrler := ().
Definition InitController (c : ShardCtrler) : ShardCtrler := c.
Definition InitConfig (cfg : ShardConfig) (c : ShardCtrler) : ShardCtrler := c.
Definition ChangeConfigTo (cfg : ShardConfig) (c : ShardCtrler) : ShardCtrler := c.
Definition Query (c : ShardCtrler) : option ShardConfig := None.

(** [join] of [shardkv1/test.go], with a configuration that may be nil: copying a
    nil configuration dereferences it. *)
Definition join_nil (order : list (Z * list string)) (c : ShardCtrler) : outcome ShardCtrler :=
  match Query c with
  | None => Panic
  | Some cfg =>
      match JoinBalance order (Copy cfg) with
      | Some (Ret (new, true)) => Ret (ChangeConfigTo new c)
      | Some (Ret (_, false)) => Fatal
      | _ => Panic
      end
  end.

(** ** Lemmas *)

Section raft.
Context {any : Type} `{EqDecision any} (show : any → string).
Implicit Types (ts : Test (any:=any)) (s : situation (Raft * heap)).

(** What the tester hears from a skeleton, through whatever connection. *)
Lemma proxy_GetState_skeleton c (d : daemon (R:=Raft * heap)) : (Rfproxy_GetState (any:=any) c d).1 = (0, false).
Proof. by destruct d as [|[[rf h]|]], c. Qed.
Lemma proxy_Start_skeleton c (cmd : any) (d : daemon (R:=Raft * heap)) :
  ∃ term ok, (Rfproxy_Start c cmd d).1 = (if ok : bool then -1 else 0, term, ok).
Proof. destruct d as [|[[rf h]|]], c; first [by exists (-1), true | by exists 0, false]. Qed.

Lemma quiet_skeleton s ts : quiet ts (answers_in (any:=any) s).
Proof. intros T i (_ & _ & H). cbn in H. by rewrite proxy_GetState_skeleton in H. Qed.

Lemma one_leader_skeleton order (sits : list (situation (Raft * heap))) ts :
  (∀ m, order m ≡ₚ map_to_list m) → all_up ts → one_leader_loop order (answers_in (any:=any) <$> sits) ts = Fatal.
Proof.
  intros Ho Hup. induction sits as [|s sits IH]; [done|]. cbn [fmap list_fmap].
  destruct (one_leader_round order (answers_in (any:=any) s) (answers_in (any:=any) <$> sits) ts Ho Hup) as [[_ ->]|[[H _]|H]].
  - intros T i Hc. by destruct (quiet_skeleton s ts T i).
  - apply IH.
  - destruct H as (T & i & j & _ & Hi & _). by destruct (quiet_skeleton s ts T i).
  - destruct H as (_ & i & _ & T & _ & Hi & _). by destruct (quiet_skeleton s ts T i).
Qed.

Lemma no_leader_skeleton s ts ids :
  all_up ts → Forall (λ i, 0 <= i < n ts) ids → no_leader_loop (answers_in (any:=any) s) ts ids = Ret tt.
Proof.
  intros Hup. induction 1 as [|i ids Hi _ IH]; [done|]. cbn [no_leader_loop]. destruct (IsConnected _ i); [|done].
  rewrite ask_up by done. cbn [answers_in RaftTest.GetState]. by rewrite proxy_GetState_skeleton.
Qed.

(** A round of [one] ends without an index. *)
Lemma try_loop_skeleton cmd (r : start_round (any:=any) (R:=Raft * heap)) k : ∀ starts,
  0 <= starts → (k <= length (srvs (sr_test r)))%nat → ∃ starts', try_loop (round_in cmd r) k starts = Ret (starts', -1) ∧ 0 <= starts'.
Proof.
  induction k as [|k IH]; intros starts Hs Hk; [by exists starts|]. cbn [try_loop round_in r_test r_connected r_Start].
  set (l := Z.of_nat (length (srvs (sr_test r)))). set (i := Z.rem (starts + 1) l).
  assert (Hi : 0 <= i < l) by (apply Z.rem_bound_pos; lia).
  destruct (IH i ltac:(lia) ltac:(lia)) as (starts' & E & Hs'). destruct (sit_connected _ i); [|by exists starts'].
  destruct (index_in_range (srvs (sr_test r)) i) as (rs & -> & _); [lia|]. cbn [mbind outcome_bind].
  destruct (rfsrv rs); [|by exists starts'].
  destruct (proxy_Start_skeleton (sit_call (sr_sit r) i) cmd (sit_daemon (sr_sit r) i)) as (term & ok & ->).
  destruct ok; [by exists i; split; [|lia] | by exists starts'].
Qed.

Lemma one_loop_skeleton cmd k retry (rs : list (start_round (any:=any) (R:=Raft * heap))) timeout : ∀ starts,
  0 <= starts → one_loop show cmd k retry (round_in cmd <$> rs) timeout starts = if finished timeout then Ret (-1, timeout) else Fatal.
Proof.
  induction rs as [|r rs IH]; intros starts Hs; [done|]. cbn [fmap list_fmap one_loop].
  destruct (try_loop_skeleton cmd r (length (srvs (sr_test r))) starts Hs ltac:(done)) as (starts' & E & Hs').
  cbn [round_in r_test] in *. rewrite E. cbn [mbind outcome_bind]. rewrite decide_False by lia. by apply IH.
Qed.
End raft.

Section rsm.
Implicit Types (c : cluster) (ts : RsmTest.Test).

Lemma Submit_skeleton f req srv : (RSMproxy_Submit f req srv).1 ≠ OK.
Proof. by destruct srv, f. Qed.

Lemma try_servers_skeleton p req k : ∀ index0 c ts,
  RsmTest.all_up ts → 0 <= index0 < RsmTest.NSRV → ∃ c', RsmTest.try_servers p req index0 k c ts = Ret (None, c', ts).
Proof.
  induction k as [|k IH]; intros index0 c ts Hup Hi; [by exists c|]. cbn [RsmTest.try_servers].
  assert (Hlen : Z.of_nat (length (RsmTest.srvs ts)) = RsmTest.NSRV) by (rewrite Hup; done).
  assert (Hnext : ∀ c, ∃ c', RsmTest.try_servers p req (Z.rem (index0 + 1) (Z.of_nat (length (RsmTest.srvs ts)))) k c ts = Ret (None, c', ts)).
  { intros c1. rewrite Hlen. apply IH; [done|]. apply Z.rem_bound_pos; unfold RsmTest.NSRV in *; lia. }
  rewrite decide_False, decide_True, decide_False by lia. destruct (RsmTest.IsConnected c index0); [|apply Hnext].
  destruct (index_in_range (RsmTest.srvs ts) index0) as (up & -> & _); [lia|]. cbn [mbind outcome_bind].
  destruct (up && RsmTest.inPartition index0 p); [|apply Hnext]. cbn [RsmTest.Submit skeleton_rsm].
  pose proof (Submit_skeleton (cl_call c (cl_now c) index0) req (cl_srv c (cl_now c) index0)) as Hne.
  destruct (RSMproxy_Submit _ _ _) as [err rep]. cbn in Hne. rewrite decide_False by done. apply Hnext.
Qed.

Lemma onePartition_skeleton p req rounds : ∀ c ts,
  RsmTest.all_up ts → 0 <= RsmTest.leader ts < RsmTest.NSRV → ∃ c', RsmTest.onePartition p req rounds c ts = Ret (None, c', ts).
Proof.
  induction rounds as [|rounds IH]; intros c ts Hup Hl; [by exists c|]. cbn [RsmTest.onePartition].
  destruct (try_servers_skeleton p req (length (RsmTest.srvs ts)) (RsmTest.leader ts) c ts Hup Hl) as [c' ->].
  cbn [mbind outcome_bind]. by apply IH.
Qed.

Lemma GetCounter_skeleton c i : untouched c → RsmTest.GetCounter c i = 0.
Proof. intros H. cbn. destruct (cl_srv c (cl_now c) i) eqn:E, (cl_call c (cl_now c) i); cbn; try done. by eapply H. Qed.

Lemma check_loop_skeleton v nsrv iters : ∀ c ts,
  RsmTest.all_up ts → untouched c → v ≠ 0 → 0 < nsrv → RsmTest.check_loop v nsrv iters c ts = Fatal.
Proof.
  induction iters as [|iters IH]; intros c ts Hup Hc Hv Hn; [done|]. cbn [RsmTest.check_loop].
  rewrite RsmTest.countValue_having by done. cbn [mbind outcome_bind].
  assert (E : RsmTest.having v c = 0).
  { unfold RsmTest.having. rewrite filter_none; [done|]. apply Forall_forall. intros s _. rewrite GetCounter_skeleton by done. congruence. }
  rewrite E, decide_False by lia. apply IH; done.
Qed.
End rsm.

(** ** Properties *)

(** The tests of the Raft lab do not pass on the skeleton, whatever calls reach
    it: the search for a leader stops the test, [one] never returns an index before
    the test is over and stops it when time runs out, although the skeleton claims
    to lead when it is given a command; and no server claims to lead when asked. *)
Theorem raft_skeleton_rejected {any : Type} `{EqDecision any} show order sits (s : situation (Raft * heap)) cmd k retry rs timeout
    (ts : Test (any:=any)) :
  (∀ m, order m ≡ₚ map_to_list m) → all_up ts →
  checkOneLeader order (answers_in (any:=any) (R:=Raft * heap) <$> sits) ts = Fatal ∧
  (∃ ts', checkNoLeader (answers_in (any:=any) s) ts = Ret ts') ∧
  one show cmd k retry (λ _, (round_in (any:=any) (R:=Raft * heap) cmd <$> rs, timeout)) ts =
    (if finished timeout then Ret (-1, timeout) else Fatal).
Proof.
  intros Ho Hup. split; [|split].
  - unfold checkOneLeader. rewrite <- fmap_take. by apply one_leader_skeleton.
  - unfold checkNoLeader. rewrite no_leader_skeleton; [by eexists|done|]. apply Forall_forall. intros i Hi%elem_of_seqZ. lia.
  - unfold one. by apply one_loop_skeleton.
Qed.

(** What a skeleton's clerk answers. *)
Definition no_answer (get : string * Tversion * Err) (put : Err) : Prop :=
  (∀ value version, CheckGet get value version = Fatal) ∧ OnePut_error put = Fatal.

(** Nor do the tests of the services pass on their skeletons: an increment of the
    replicated counter gets no reply and is counted nowhere, so that the check of
    the counters stops the test; what a skeleton clerk answers stops [CheckGet] and
    [OnePut]; and a join to the configuration of the skeleton controller panics. *)
Theorem service_skeletons_rejected rounds c ts v nsrv order :
  RsmTest.all_up ts → 0 <= RsmTest.leader ts < RsmTest.NSRV → untouched c → v ≠ 0 → 0 < nsrv →
  (∃ c', RsmTest.oneInc rounds c ts = Ret (0, c', ts)) ∧ RsmTest.checkCounter v nsrv c ts = Fatal ∧
  (∀ ck k w ver, no_answer (kvraft_Get ck k) (kvraft_Put ck k w ver)) ∧
  (∀ ck k w ver, no_answer (shardgrp_Get ck k) (shardgrp_Put ck k w ver)) ∧
  (∀ ck k w ver, no_answer (shardkv_Get ck k) (shardkv_Put ck k w ver)) ∧
  (∀ cfg, join_nil order (InitConfig cfg (InitController MakeShardCtrler)) = Panic) ∧
  ∀ gid, GetClerk shardkv_MakeClerk gid = None.
Proof.
  intros Hup Hl Hc Hv Hn. split; [|split; [|split; [done|split; [done|split; [done|split; [done|]]]]]].
  - unfold RsmTest.oneInc. destruct (onePartition_skeleton None RsmTest.Inc rounds c ts Hup Hl) as [c' ->]. by exists c'.
  - by apply check_loop_skeleton.
  - intros gid. apply lookup_empty.
Qed.

(** The pause of the election ticker is between 50 and 350 milliseconds. *)
Lemma ticker_pause_range r : 0 <= r < 2 ^ 63 → 50 <= ticker_pause r < 350.
Proof. intros Hr. unfold ticker_pause. pose proof (Z.rem_bound_pos r 300). lia. Qed.

(** ** Witnesses *)

Definition ex_raft : Raft * heap := Make ["a"; "b"; "c"] 0 MakePersister (mkHeap ∅ 0).
Definition ex_sit : situation (Raft * heap) := mkSituation (λ _, true) (λ _, Delivered) (λ _, Up (Some ex_raft)).

Lemma raft_skeleton_rejected_witness :
  checkOneLeader map_to_list [answers_in (any:=Z) ex_sit] (makeTest (any:=Z) 3) = Fatal ∧
  one (λ _, "") 7 3 true (λ ts, ([round_in 7 (mkStartRound ts ex_sit [])], ts)) (makeTest (any:=Z) 3) = Fatal.
Proof.
  destruct (raft_skeleton_rejected (λ _, "") map_to_list [ex_sit] ex_sit 7 3 true [mkStartRound (makeTest (any:=Z) 3) ex_sit []]
    (makeTest (any:=Z) 3) (makeTest (any:=Z) 3)) as (H1 & _ & H3); [done | by vm_compute; repeat constructor |].
  split; [exact H1 | exact H3].
Defined.

Definition ex_cluster : cluster :=
  mkCluster 0 (λ _ _, true) (λ _ _, Delivered) (λ _ i, Some (newRSMSrv false ["a"; "b"; "c"] i MakePersister 1000 (mkHeap ∅ 0)).1).

Lemma service_skeletons_rejected_witness : RsmTest.checkCounter 1 3 ex_cluster RsmTest.makeTest = Fatal.
Proof.
  destruct (service_skeletons_rejected 2 ex_cluster RsmTest.makeTest 1 3 []) as (_ & H & _); [done..| |done|done|exact H].
  intros k i rs [= <-]. reflexivity.
Defined.
