(* ===== verification/Logger.v ===== *)
(** * The logger: [mr/logger.go]

    [init] configures the logger from the environment. [SortingFunc] sorts the names
    of a log entry's fields in place, the known ones first, by two nested loops over
    indices. The library logrus is third-party: its levels are parameters. *)

From stdpp Require Import sorting.
From S2P Require Import Prelude.

Open Scope string_scope.
Open Scope list_scope.
Open Scope Z_scope.

Definition priority : gmap string Z :=
  list_to_map [("service", 0); ("component", 1); ("worker_id", 2); ("task_id", 3); ("func", 4)].

(** The body of the inner loop, on [fields[i]] and [fields[j]]. *)
Definition order_pair (i j : nat) (fields : list string) : list string :=
  match fields !! i, fields !! j with
  | Some a, Some b =>
      match priority !! a, priority !! b with
      | Some _, None => fields
      | None, Some _ => <[j := a]> (<[i := b]> fields)
      | Some p1, Some p2 => if decide (p1 > p2) then <[j := a]> (<[i := b]> fields) else fields
      | None, None => fields
      end
  | _, _ => fields
  end.

Fixpoint inner_loop (i j n : nat) (fields : list string) : list string :=
  match n with O => fields | S n => inner_loop i (S j) n (order_pair i j fields) end.
Fixpoint outer_loop (i n : nat) (fields : list string) : list string :=
  match n with
  | O => fields
  | S n => outer_loop (S i) n (inner_loop i (S i) (length fields - S i) fields)
  end.
Definition SortingFunc (fields : list string) : list string := outer_loop 0 (length fields) fields.

(** *** [init] *)

Inductive formatter :=
| JSONFormatter (TimestampFormat : string) (FieldMap : list (string * string)) (DisableHTMLEscape : bool)
| TextFormatter (TimestampFormat : string) (FullTimestamp ForceColors DisableColors QuoteEmptyFields : bool)
    (Sort : list string → list string).

Record logger {Level : Type} := mkLogger { lg_formatter : formatter; lg_level : Level }.
Arguments logger : clear implicits.

(** [keys] are [FieldKeyTime], [FieldKeyLevel] and [FieldKeyMsg]. *)
Definition production_formatter (keys : string * string * string) : formatter :=
  JSONFormatter "2006-01-02T15:04:05Z07:00" [(keys.1.1, "timestamp"); (keys.1.2, "level"); (keys.2, "message")] true.
Definition development_formatter : formatter := TextFormatter "2006-01-02 15:04:05" true true false true SortingFunc.

Definition logger_init {Level} (keys : string * string * string) (ParseLevel : string → option Level) (InfoLevel : Level)
    (Getenv : string → string) : logger Level :=
  let f := if decide (Getenv "ENV" = "production") then production_formatter keys else development_formatter in
  let level := if decide (Getenv "LOG_LEVEL" = "") then "info" else Getenv "LOG_LEVEL" in
  mkLogger _ f (match ParseLevel level with Some l => l | None => InfoLevel end).

(** ** Lemmas *)

(** Without a level in the environment, or with one that does not exist, the level
    is that of [info], if the library knows this name; fields are sorted except in
    production. *)
Lemma logger_default {Level} keys (ParseLevel : string → option Level) InfoLevel Getenv :
  ParseLevel "info" = Some InfoLevel → Getenv "LOG_LEVEL" = "" ∨ ParseLevel (Getenv "LOG_LEVEL") = None →
  lg_level (logger_init keys ParseLevel InfoLevel Getenv) = InfoLevel ∧
  (Getenv "ENV" ≠ "production" → lg_formatter (logger_init keys ParseLevel InfoLevel Getenv) = development_formatter).
Proof.
  intros Hi Hl. unfold logger_init. cbn [lg_level lg_formatter]. split; [|intros He; by rewrite decide_False].
  case_decide; [by rewrite Hi|]. destruct Hl as [?| ->]; done.
Qed.

(** The rank of a field: unknown fields come last. *)
Definition rank (f : string) : Z := default 5 (priority !! f).
Definition before (a b : string) : Prop := rank a <= rank b.

Lemma priority_bound f p : priority !! f = Some p → 0 <= p < 5.
Proof.
  unfold priority. intros H%elem_of_list_to_map_2. rewrite !elem_of_cons, elem_of_nil in H.
  destruct H as [H|[H|[H|[H|[H|[]]]]]]; injection H as _ ->; lia.
Qed.

(** One pass of the inner loop, on the element it puts in place and the rest. *)
Fixpoint pass (a : string) (l : list string) : string * list string :=
  match l with
  | [] => (a, [])
  | b :: l => if decide (rank b < rank a) then (λ r, (r.1, a :: r.2)) (pass b l) else (λ r, (r.1, b :: r.2)) (pass a l)
  end.

Lemma insert_middle (pre : list string) x y post : <[length pre := y]> (pre ++ x :: post) = pre ++ y :: post.
Proof. rewrite <- (Nat.add_0_r (length pre)) at 1. by rewrite insert_app_r. Qed.

Lemma order_pair_spec pre a mid b post :
  order_pair (length pre) (length pre + S (length mid)) (pre ++ a :: mid ++ b :: post) =
  if decide (rank b < rank a) then pre ++ b :: mid ++ a :: post else pre ++ a :: mid ++ b :: post.
Proof.
  assert (Ha : (pre ++ a :: mid ++ b :: post) !! length pre = Some a) by by apply list_lookup_middle.
  assert (Hb : (pre ++ a :: mid ++ b :: post) !! (length pre + S (length mid))%nat = Some b).
  { rewrite lookup_app_r by lia. replace (length pre + S (length mid) - length pre)%nat with (S (length mid)) by lia.
    cbn [lookup list_lookup]. by apply list_lookup_middle. }
  assert (Hs : <[(length pre + S (length mid))%nat := a]> (<[length pre := b]> (pre ++ a :: mid ++ b :: post)) = pre ++ b :: mid ++ a :: post).
  { rewrite (insert_middle pre). change (pre ++ b :: mid ++ a :: post) with (pre ++ (b :: mid) ++ a :: post).
    change (pre ++ b :: mid ++ b :: post) with (pre ++ (b :: mid) ++ b :: post). rewrite !app_assoc.
    rewrite <- (insert_middle (pre ++ b :: mid) b a post). f_equal. by rewrite length_app. }
  unfold order_pair. rewrite Ha, Hb, Hs. unfold rank.
  destruct (priority !! a) as [p|] eqn:Ea, (priority !! b) as [q|] eqn:Eb; cbn [default from_option id];
    try (apply priority_bound in Ea); try (apply priority_bound in Eb); repeat case_decide; try done; lia.
Qed.

Lemma inner_loop_spec pre a mid l :
  inner_loop (length pre) (length pre + S (length mid)) (length l) (pre ++ a :: mid ++ l) =
  pre ++ (pass a l).1 :: mid ++ (pass a l).2.
Proof.
  revert a mid. induction l as [|b l IH]; intros a mid; [done|]. cbn [length inner_loop pass].
  rewrite order_pair_spec. replace (S (length pre + S (length mid))) with (length pre + S (length (mid ++ [a])))%nat
    by (rewrite length_app; simpl; lia).
  case_decide.
  - specialize (IH b (mid ++ [a])). rewrite <- !app_assoc in IH. exact IH.
  - specialize (IH a (mid ++ [b])). rewrite length_app in *. rewrite <- !app_assoc in IH. exact IH.
Qed.

Lemma pass_spec a l : (pass a l).1 :: (pass a l).2 ≡ₚ a :: l ∧ Forall (before (pass a l).1) (pass a l).2 ∧ before (pass a l).1 a.
Proof.
  revert a. induction l as [|b l IH]; intros a; [simpl; split; [done|]; split; [constructor | unfold before; lia]|].
  cbn [pass]. case_decide as Hd; cbn [fst snd].
  - destruct (IH b) as (H1 & H2 & H3). unfold before in *.
    split; [by rewrite Permutation_swap, H1|]. split; [constructor; [lia | done] | lia].
  - destruct (IH a) as (H1 & H2 & H3). unfold before in *.
    split; [rewrite Permutation_swap, H1; apply Permutation_swap|]. split; [constructor; [lia | done] | lia].
Qed.

Lemma length_pass a l : length (pass a l).2 = length l.
Proof. destruct (pass_spec a l) as (H & _). apply Permutation_length in H. simpl in H. lia. Qed.

Lemma outer_loop_spec n : ∀ pre l, length l = n →
  ∃ l', outer_loop (length pre) n (pre ++ l) = pre ++ l' ∧ l' ≡ₚ l ∧ StronglySorted before l'.
Proof.
  induction n as [|n IH]; intros pre l Hl; [exists l; destruct l; [|done]; repeat split; constructor|].
  destruct l as [|a l]; [done|]. cbn [outer_loop].
  replace (length (pre ++ a :: l) - S (length pre))%nat with (length l) by (rewrite length_app; simpl; lia).
  pose proof (inner_loop_spec pre a [] l) as Hi. cbn [app length] in Hi. replace (length pre + 1)%nat with (S (length pre)) in Hi by lia.
  rewrite Hi. destruct (pass_spec a l) as (Hp & Hf & _). pose proof (length_pass a l) as Hlp.
  destruct (IH (pre ++ [(pass a l).1]) (pass a l).2) as (l' & Hl' & Hp' & Hs); [simpl in Hl; lia|].
  rewrite length_app, Nat.add_comm in Hl'. cbn [length Nat.add] in Hl'. rewrite <- !app_assoc in Hl'. cbn [app] in Hl'.
  exists ((pass a l).1 :: l'). split; [exact Hl'|]. split; [by rewrite Hp'|]. constructor; [done|]. by rewrite Hp'.
Qed.

(** ** Properties *)

(** [SortingFunc] permutes the fields of an entry so that the known ones come
    first, in the order of their priorities. *)
Theorem SortingFunc_sorts fields :
  SortingFunc fields ≡ₚ fields ∧ StronglySorted before (SortingFunc fields).
Proof. destruct (outer_loop_spec (length fields) [] fields eq_refl) as (l & H & H1 & H2). cbn [length app] in H. unfold SortingFunc. by rewrite H. Qed.

Example SortingFunc_example :
  SortingFunc ["path"; "func"; "task_id"; "error"; "service"] = ["service"; "task_id"; "func"; "error"; "path"].
Proof. vm_compute. reflexivity. Qed.
