(* ===== verification/MRTest.v ===== *)
(** * How MapReduce is tested: [mr/util.go]

    The tests run the sequential program and the distributed one in a directory
    of their own, sort both outputs with [sort], and compare them with [cmp]. What
    [find] prints and how [sort] orders lines are parameters. *)

From stdpp Require Import sorting.
From S2P Require Import Prelude Fnv Lo TaskManager Coordinator Utf8 Json MRApps Sequential Worker MRSystem.

Open Scope string_scope.
Open Scope list_scope.
Open Scope Z_scope.

(** ** Operations *)

Definition newline : Ascii.ascii := of_byte 0x0A.

(** [strings.TrimSpace] on ASCII, and [strings.Split] at newlines. *)
Definition is_white (c : Ascii.ascii) : bool := bool_decide (byte_of c = 0x20 ∨ 0x09 <= byte_of c <= 0x0D).

Fixpoint trim_left (s : string) : string :=
  match s with String c t => if is_white c then trim_left t else s | EmptyString => s end.
Fixpoint trim_right (s : string) : string :=
  match s with
  | EmptyString => EmptyString
  | String c t =>
      match trim_right t with
      | EmptyString => if is_white c then EmptyString else String c EmptyString
      | u => String c u
      end
  end.
Definition TrimSpace (s : string) : string := trim_right (trim_left s).

Fixpoint Split (s : string) : list string :=
  match s with
  | EmptyString => [EmptyString]
  | String c t =>
      if decide (c = newline) then EmptyString :: Split t
      else match Split t with [] => [String c EmptyString] | l :: ls => String c l :: ls end
  end.

(** [findFiles], on the output of [find]. *)
Definition findFiles (output : string) : list string :=
  let s1 := TrimSpace output in if decide (s1 = EmptyString) then [] else Split s1.

(** The lines of a file; the last one need not end in a newline. *)
Fixpoint lines_of (s : string) : list string :=
  match s with
  | EmptyString => []
  | String c t =>
      if decide (c = newline) then EmptyString :: lines_of t
      else match lines_of t with [] => [String c EmptyString] | l :: ls => String c l :: ls end
  end.
Definition unlines (ls : list string) : string := string_concat ((λ l, l +:+ String newline EmptyString) <$> ls).

Section test.
(** How [sort] orders lines. *)
Context (sort : list string → list string).

Definition sort_files (contents : list string) : string := unlines (sort (concat (lines_of <$> contents))).

(** [mergeOutput]: what it writes to [out]; to find no file, or one that cannot
    be read, is fatal. *)
Fixpoint read_all (read : string → option string) (files : list string) : option (list string) :=
  match files with [] => Some [] | f :: files => c ← read f; cs ← read_all read files; Some (c :: cs) end.
Definition mergeOutput (find_output : string) (read : string → option string) : outcome string :=
  let files := findFiles find_output in
  if decide (length files < 1)%nat then Fatal
  else match read_all read files with Some cs => Ret (sort_files cs) | None => Fatal end.

(** [mkCorrectOutput], from what [mrsequential] writes to [mr-out-0]. *)
Definition mkCorrectOutput (sequential : option string) : outcome string :=
  match sequential with Some c => Ret (sort_files [c]) | None => Fatal end.

Definition runCmp (f1 f2 : string) : outcome unit := if decide (f1 = f2) then Ret tt else Fatal.
End test.

(** The names that match the pattern [mr-out-[0-9]]. *)
Definition out_pattern (name : string) : Prop := name ∈ (λ d, "mr-out-" +:+ chr d) <$> seqZ 0x30 10.
#[export] Instance out_pattern_dec name : Decision (out_pattern name).
Proof. unfold out_pattern. apply _. Defined.

(** What [find] prints for the files of a directory. *)
Definition find_prints (dir : string) (names : list string) : string :=
  string_concat ((λ x, (dir +:+ "/" +:+ x) +:+ String newline EmptyString) <$> names).

(** ** Lemmas *)

Fixpoint no_white (s : string) : bool := match s with EmptyString => true | String c t => negb (is_white c) && no_white t end.

Lemma no_white_app s t : no_white (s +:+ t) = no_white s && no_white t.
Proof. induction s as [|c s IH]; [done|]. change (String c s +:+ t) with (String c (s +:+ t)). simpl. by rewrite IH, andb_assoc. Qed.

Lemma newline_white : is_white newline = true.
Proof. done. Qed.

Lemma trim_left_word s t : no_white s = true → s ≠ EmptyString → trim_left (s +:+ t) = s +:+ t.
Proof.
  destruct s as [|c s]; [done|]. change (String c s +:+ t) with (String c (s +:+ t)). simpl.
  intros [Hc _]%andb_true_iff _. by destruct (is_white c).
Qed.

Lemma trim_right_app s t : trim_right t ≠ EmptyString → trim_right (s +:+ t) = s +:+ trim_right t.
Proof.
  intros Ht. induction s as [|c s IH]; [done|]. change (String c s +:+ t) with (String c (s +:+ t)).
  cbn [trim_right]. rewrite IH. change (String c s +:+ trim_right t) with (String c (s +:+ trim_right t)).
  destruct (s +:+ trim_right t) eqn:E; [|done]. destruct s, (trim_right t); done.
Qed.

Lemma trim_right_line s : no_white s = true → trim_right (s +:+ String newline EmptyString) = s.
Proof.
  induction s as [|c s IH]; [done|]. change (String c s +:+ ?t) with (String c (s +:+ t)). cbn [no_white trim_right].
  intros [Hc Hs]%andb_true_iff. rewrite IH by done. destruct s; [|done]. by destruct (is_white c).
Qed.

Lemma Split_word s t : no_white s = true → Split (s +:+ String newline t) = s :: Split t.
Proof.
  induction s as [|c s IH]; [done|]. change (String c s +:+ String newline t) with (String c (s +:+ String newline t)).
  cbn [no_white Split]. intros [Hc Hs]%andb_true_iff. rewrite decide_False; [by rewrite IH|]. by intros ->.
Qed.
Lemma Split_last s : no_white s = true → Split s = [s].
Proof.
  induction s as [|c s IH]; [done|]. cbn [no_white Split]. intros [Hc Hs]%andb_true_iff.
  rewrite decide_False; [by rewrite IH|]. by intros ->.
Qed.

Lemma no_white_trim s : no_white s = true → s ≠ EmptyString → trim_right s ≠ EmptyString.
Proof. destruct s as [|c s]; [done|]. cbn [no_white trim_right]. intros [Hc _]%andb_true_iff _. destruct (trim_right s); [|done]. by destruct (is_white c). Qed.

Lemma append_not_empty s t : s ≠ EmptyString → s +:+ t ≠ EmptyString.
Proof. by destruct s. Qed.

(** What [find] prints for non-empty paths without white space is taken apart
    into these paths. *)
Lemma trim_right_prints l ls :
  Forall (λ x, no_white x = true ∧ x ≠ EmptyString) (l :: ls) →
  ∃ s, trim_right (string_concat ((λ x, x +:+ String newline EmptyString) <$> l :: ls)) = s ∧
    Split s = l :: ls ∧ s ≠ EmptyString.
Proof.
  revert l. induction ls as [|l' ls IH]; intros l [[Hl Hne] Hls]%Forall_cons.
  - exists l. cbn [fmap list_fmap string_concat foldr]. rewrite app_empty_r, trim_right_line by done.
    by rewrite Split_last.
  - destruct (IH l' Hls) as (s & Hs & Hsp & Hnes). exists (l +:+ String newline s). rewrite fmap_cons.
    change (string_concat (?a :: ?b)) with (a +:+ string_concat b).
    rewrite app_assoc_s, trim_right_app; (rewrite trim_right_app by by rewrite Hs); rewrite Hs.
    + split; [done|]. change (String newline EmptyString +:+ s) with (String newline s).
      rewrite Split_word, Hsp by done. split; [done|]. by apply append_not_empty.
    + done.
Qed.

Lemma findFiles_prints dir names :
  no_white dir = true → dir ≠ EmptyString → Forall (λ x, no_white x = true) names →
  findFiles (find_prints dir names) = (λ x, dir +:+ "/" +:+ x) <$> names.
Proof.
  intros Hd Hne Hn. set (path x := dir +:+ "/" +:+ x).
  assert (Hp : Forall (λ x, no_white x = true ∧ x ≠ EmptyString) (path <$> names)).
  { rewrite Forall_fmap. eapply Forall_impl; [exact Hn|]. intros x Hx. unfold path. simpl. split.
    - by rewrite !no_white_app, Hd, Hx.
    - by apply append_not_empty. }
  assert (He : find_prints dir names = string_concat ((λ x, x +:+ String newline EmptyString) <$> (path <$> names))).
  { unfold find_prints. by rewrite <- list_fmap_compose. }
  unfold findFiles, TrimSpace. rewrite He. destruct (path <$> names) as [|l ls]; [done|].
  destruct (trim_right_prints l ls Hp) as (s & Hs & Hsp & Hnes). apply Forall_cons in Hp as [[Hl Hl'] _].
  rewrite fmap_cons. change (string_concat (?a :: ?b)) with (a +:+ string_concat b).
  rewrite app_assoc_s, trim_left_word by done. rewrite <- app_assoc_s.
  rewrite fmap_cons in Hs. change (string_concat (?a :: ?b)) with (a +:+ string_concat b) in Hs. rewrite Hs.
  by rewrite decide_False.
Qed.

(** Contents whose last line is complete. *)
Fixpoint ended (s : string) : Prop :=
  match s with
  | EmptyString => True
  | String c EmptyString => c = newline
  | String _ t => ended t
  end.

Lemma lines_of_app s t : ended s → lines_of (s +:+ t) = lines_of s ++ lines_of t.
Proof.
  induction s as [|c s IH]; [done|]. change (String c s +:+ t) with (String c (s +:+ t)). intros He. cbn [lines_of].
  case_decide as Hc.
  - rewrite IH; [done|]. by destruct s.
  - destruct s as [|c' s]; [by cbn in He|]. rewrite IH by exact He.
    destruct (lines_of (String c' s)) eqn:E; [|done]. exfalso. cbn [lines_of] in E. case_decide; [done|]. by destruct (lines_of s).
Qed.

Lemma ended_app s t : ended t → t ≠ EmptyString → ended (s +:+ t).
Proof.
  intros Ht Hne. induction s as [|c s IH]; [done|]. change (String c s +:+ t) with (String c (s +:+ t)). cbn [ended].
  destruct (s +:+ t) eqn:E; [|done]. by destruct s.
Qed.

Lemma ended_output_line k v : ended (output_line k v).
Proof. unfold output_line. rewrite <- !app_assoc_s. by apply ended_app. Qed.

Lemma lines_of_concat ls : Forall ended ls → lines_of (string_concat ls) = concat (lines_of <$> ls).
Proof. induction 1 as [|l ls Hl _ IH]; [done|]. change (string_concat (l :: ls)) with (l +:+ string_concat ls). by rewrite lines_of_app, IH. Qed.

Lemma lines_of_concats lss :
  Forall ended (concat lss) → concat (lines_of <$> (string_concat <$> lss)) = concat (lines_of <$> concat lss).
Proof.
  induction lss as [|ls lss IH]; [done|]. cbn [concat fmap list_fmap]. intros [H1 H2]%Forall_app.
  by rewrite fmap_app, concat_app, lines_of_concat, <- IH.
Qed.

Lemma concat_lines_perm (l l' : list string) : l ≡ₚ l' → concat (lines_of <$> l) ≡ₚ concat (lines_of <$> l').
Proof.
  induction 1 as [|x l l' _ IH|x y l|l l' l'' _ IH1 _ IH2]; cbn [fmap list_fmap concat]; [done|by rewrite IH| |by rewrite IH1].
  by rewrite !(assoc_L (++)), (Permutation_app_comm (lines_of x)).
Qed.

Lemma read_all_fmap {A} read (path : A → string) (content : A → string) xs :
  Forall (λ x, read (path x) = Some (content x)) xs → read_all read (path <$> xs) = Some (content <$> xs).
Proof. induction 1 as [|x xs Hx _ IH]; [done|]. cbn [fmap list_fmap read_all]. by rewrite Hx, IH. Qed.

Lemma out_name_pattern r : 0 <= r < 10 → out_pattern (out_name r) ∧ no_white (out_name r) = true.
Proof.
  intros Hr. assert (r ∈ seqZ 0 10) as He by (apply elem_of_seqZ; lia). revert r Hr He.
  assert (H : Forall (λ r, out_pattern (out_name r) ∧ no_white (out_name r) = true) (seqZ 0 10))
    by (apply (bool_decide_unpack _); by vm_compute).
  intros r _ He. rewrite Forall_forall in H. by apply H.
Qed.

Lemma outs_by_index (outs : list (list string)) n :
  length outs = Z.to_nat n → (λ r, default [] (outs !! Z.to_nat r)) <$> seqZ 0 n = outs.
Proof.
  intros Hl. apply list_eq_same_length with (n := length outs); [done|by rewrite length_fmap, length_seqZ|].
  intros i x y Hi Hx Hy. apply list_lookup_fmap_Some in Hx as (r & -> & [-> _]%lookup_seqZ).
  rewrite Z.add_0_l, Nat2Z.id. by rewrite Hy.
Qed.

(** ** The test of an application *)

(** [TestWc] in terms of its helpers: the sequential output is sorted first,
    then the job runs, and its outputs are merged and compared. *)
Definition test_outputs (sort : list string → list string) (sequential : option string) (find_output : string)
    (read : string → option string) : outcome unit :=
  correct ← mkCorrectOutput sort sequential;
  merged ← mergeOutput sort find_output read;
  runCmp merged correct.

Lemma merged_lines n outs seq rs :
  length outs = Z.to_nat n → concat outs ≡ₚ seq → Forall (λ line, ∃ k v, line = output_line k v) seq → rs ≡ₚ seqZ 0 n →
  concat (lines_of <$> ((λ r, string_concat (default [] (outs !! Z.to_nat r))) <$> rs)) ≡ₚ lines_of (string_concat seq).
Proof.
  intros Hl Hp Hseq Hrs.
  assert (Hend : Forall ended seq).
  { eapply Forall_impl; [exact Hseq|]. intros ? (k & v & ->). apply ended_output_line. }
  rewrite (concat_lines_perm _ ((λ r, string_concat (default [] (outs !! Z.to_nat r))) <$> seqZ 0 n)) by by rewrite Hrs.
  change ((λ r, string_concat (default [] (outs !! Z.to_nat r))) <$> seqZ 0 n)
    with ((string_concat ∘ (λ r, default [] (outs !! Z.to_nat r))) <$> seqZ 0 n).
  rewrite list_fmap_compose, outs_by_index by done.
  rewrite lines_of_concats by by rewrite Hp. rewrite lines_of_concat by done. by apply concat_lines_perm.
Qed.

(** Without left-over files, the files found are the outputs, once each. *)
Lemma outputs_found (fs : filesystem) n names :
  n <= 10 → NoDup names →
  (∀ r, 0 <= r < n → is_Some (fs !! out_name r)) →
  (∀ x, x ∈ names ↔ is_Some (fs !! x) ∧ out_pattern x) →
  (∀ x, is_Some (fs !! x) → out_pattern x → ∃ r, 0 <= r < n ∧ x = out_name r) →
  names ≡ₚ out_name <$> seqZ 0 n.
Proof.
  intros Hn Hnd Hout Hnames Hstale. apply NoDup_Permutation; [done| |].
  - apply NoDup_fmap_2_strong; [|apply NoDup_seqZ]. intros r r' _ _. apply out_name_inj.
  - intros x. rewrite Hnames, list_elem_of_fmap. split.
    + intros [Hx Hpat]. destruct (Hstale x Hx Hpat) as (r & Hr & ->). exists r. split; [done|]. apply elem_of_seqZ. lia.
    + intros (r & -> & Hr%elem_of_seqZ). split; [by apply Hout|]. apply out_name_pattern. lia.
Qed.

(** The MapReduce tests compare what they mean to: after any run of the
    system in which the coordinator is done and no output is being written,
    with at most ten reduce tasks and no output file left over from another
    job, [mergeOutput] finds exactly the outputs of the job, in whatever order
    [find] lists them, and [cmp] finds the sorted outputs of the workers and of
    the sequential program equal, for every [sort] that depends on the lines
    only. *)
Theorem mr_test_passes {L : Lo} {HL : LoLaws L} mapf reducef files n fs0 ls s seed sort_by_key sort dir names read :
  job_ok mapf reducef files n fs0 → Forall range_ok ls →
  exec (mr_step mapf reducef) (mr_init files n fs0) ls s →
  Done seed (coord (mr_coord s)) = true → no_truncated_output s →
  (∀ l, sorted_of (sort_by_key l) l) → n <= 10 →
  (∀ l l', l ≡ₚ l' → sort l = sort l') →
  no_white dir = true → dir ≠ EmptyString → NoDup names →
  (∀ x, x ∈ names ↔ is_Some (mr_fs s !! x) ∧ out_pattern x) →
  (∀ x, is_Some (mr_fs s !! x) → out_pattern x → ∃ r, 0 <= r < n ∧ x = out_name r) →
  (∀ x, read (dir +:+ "/" +:+ x) = mr_fs s !! x) →
  findFiles (find_prints dir names) = (λ x, dir +:+ "/" +:+ x) <$> names ∧
  names ≡ₚ out_name <$> seqZ 0 n ∧
  test_outputs sort (mrsequential reducef (mapf 0%nat) sort_by_key files fs0) (find_prints dir names) read = Ret tt.
Proof.
  intros Hjob Hrange He Hdone Htrunc Hsk Hn Hsort Hd Hne Hnd Hnames Hstale Hread.
  destruct (mapreduce_outputs mapf reducef files n fs0 ls s seed sort_by_key) as (outs & seq & Hs & Hl & Ho & Hp & Hf); [done..|].
  assert (Hout : ∀ r, 0 <= r < n → mr_fs s !! out_name r = Some (string_concat (default [] (outs !! Z.to_nat r)))).
  { intros r Hr. rewrite Ho by done. by destruct (lookup_lt_is_Some_2 outs (Z.to_nat r) ltac:(lia)) as [o ->]. }
  assert (Hnp : names ≡ₚ out_name <$> seqZ 0 n).
  { apply (outputs_found (mr_fs s)); try done. intros r Hr. rewrite Hout by done. by eexists. }
  pose proof (Permutation_map_inv _ _ Hnp) as (rs & Hrs & Hprs).
  assert (Hrr : Forall (λ r, 0 <= r < n) rs).
  { apply Forall_forall. intros r Hr. rewrite <- Hprs in Hr. apply elem_of_seqZ in Hr. lia. }
  assert (Hfind : findFiles (find_prints dir names) = (λ x, dir +:+ "/" +:+ x) <$> names).
  { apply findFiles_prints; [done..|]. rewrite Hrs. apply Forall_fmap. eapply Forall_impl; [exact Hrr|].
    intros r Hr. cbn in *. by destruct (out_name_pattern r ltac:(lia)). }
  split; [done|]. split; [done|]. unfold test_outputs, mkCorrectOutput, mergeOutput. rewrite Hfind, Hs.
  rewrite decide_False.
  2: { rewrite length_fmap, Hnp, length_fmap, length_seqZ. pose proof (jo_n _ _ _ _ _ Hjob). lia. }
  rewrite Hrs, <- list_fmap_compose.
  rewrite (read_all_fmap read _ (λ r, string_concat (default [] (outs !! Z.to_nat r)))).
  2: { eapply Forall_impl; [exact Hrr|]. intros r Hr. cbn. by rewrite Hread, Hout. }
  unfold runCmp. cbn. rewrite decide_True; [done|]. unfold sort_files. f_equal. apply Hsort.
  cbn [fmap list_fmap concat]. rewrite app_nil_r. apply (merged_lines n outs seq rs); [done..|by symmetry].
Qed.

(** The word count of the demonstration, tested. *)
Definition demo_names : list string := ["mr-out-1"; "mr-out-0"].
Definition demo_out : filesystem := mr_fs (mr_demo demo_run).
Definition demo_read (path : string) : option string :=
  demo_out !! String.substring 4 (String.length path - 4) path.

Lemma substring_all s n : (String.length s <= n)%nat → String.substring 0 n s = s.
Proof. revert n. induction s as [|c s IH]; intros [|n] Hn; cbn in *; try done; try lia. rewrite IH; [done|lia]. Qed.

Lemma mr_test_passes_witness :
  test_outputs sort_Strings (mrsequential wc.Reduce (wc_mapf 0%nat) sort_pairs demo_files demo_fs)
    (find_prints "tmp" demo_names) demo_read = Ret tt.
Proof.
  refine (proj2 (proj2 (mr_test_passes wc_mapf wc.Reduce demo_files 2 demo_fs demo_run (mr_demo demo_run) 0 sort_pairs
    sort_Strings "tmp" demo_names demo_read demo_job_ok _ _ _ _ sort_pairs_ok _ sort_Strings_perm _ _ _ _ _ _))).
  - unfold demo_run. rewrite !Forall_cons. simpl. by rewrite Forall_nil.
  - apply mr_demo_exec. vm_compute. by eexists.
  - by vm_compute.
  - apply (bool_decide_unpack _). by vm_compute.
  - lia.
  - done.
  - done.
  - apply (bool_decide_unpack _). by vm_compute.
  - intros x.
    assert (Hin : Forall (λ y, is_Some (demo_out !! y) ∧ out_pattern y) demo_names) by (apply (bool_decide_unpack _); by vm_compute).
    assert (Hall : Forall (λ y, out_pattern y → y ∈ demo_names) (map_to_list demo_out).*1) by (apply (bool_decide_unpack _); by vm_compute).
    rewrite Forall_forall in Hin, Hall. split; [apply Hin|]. intros [[v Hv] Hp]. apply Hall; [|exact Hp].
    apply list_elem_of_fmap. exists (x, v). split; [done|]. by apply elem_of_map_to_list.
  - intros x [v Hv] Hp.
    assert (Hall : Forall (λ y, out_pattern y → y = out_name 0 ∨ y = out_name 1) (map_to_list demo_out).*1)
      by (apply (bool_decide_unpack _); by vm_compute).
    rewrite Forall_forall in Hall. destruct (Hall x) as [->| ->]; [|exact Hp| |].
    + apply list_elem_of_fmap. exists (x, v). split; [done|]. by apply elem_of_map_to_list.
    + exists 0. split; [lia|exact eq_refl].
    + exists 1. split; [lia|exact eq_refl].
  - intros x. unfold demo_read. 
    change (demo_out !! String.substring 0 (String.length x - 0) x = demo_out !! x). by rewrite substring_all by lia.
Defined.
