(* ===== verification/MRProc.v ===== *)
(** * The processes of a MapReduce test: [mr/util.go], [main/mrcoordinator.go],
      [main/mrworker.go] and the receivers of [mr/mr_test.go]

    [runMRchan] starts the coordinator's process and those of the workers, and
    waits for the coordinator. A worker's process is [Worker] of [mr/worker.go],
    step by step: a remote call is a request, which the coordinator's handler
    executes, and a reply, which may be lost with the coordinator. Every step that
    touches the coordinator, the files or a task is the step of [MRSystem]. The
    goroutine that waits for a process reports it on the channel [c], where a
    receiver of the test restarts crashed workers or counts the processes that
    have ended. A write to an open file succeeds. *)

From S2P Require Import Prelude Fnv Lo TaskManager Coordinator Utf8 Json MRApps Sequential Worker MRSystem MRTest.

Open Scope string_scope.
Open Scope list_scope.
Open Scope Z_scope.

(** ** The main programs *)

Abbreviation map_fn := (nat → string → string → list KeyValue).
Abbreviation reduce_fn := (string → list string → string).

(** What a plugin exports under a name. *)
Inductive symbol := SMap (f : map_fn) | SReduce (f : reduce_fn) | SOther.

Section programs.
Context {L : Lo}.
(** [plugin.Open] and [Lookup]. *)
Context (open : string → option (string → option symbol)).

Definition loadPlugin (filename : string) : outcome (map_fn * reduce_fn) :=
  match open filename with
  | None => Fatal
  | Some p =>
      match p "Map" with
      | None => Fatal
      | Some (SMap mapf) =>
          match p "Reduce" with
          | None => Fatal
          | Some (SReduce reducef) => Ret (mapf, reducef)
          | Some _ => Panic
          end
      | Some _ => Panic
      end
  end.

(** [main] of the worker: the functions it runs and the socket; a non-zero exit
    for a wrong number of arguments. *)
Definition mrworker (args : list string) : outcome ((map_fn * reduce_fn) * string + Z) :=
  match args with
  | [_; app; sock] => fns ← loadPlugin app; Ret (inl (fns, sock))
  | _ => Ret (inr 1)
  end.

(** [main] of the coordinator: the coordinator it makes, for ten reduce tasks. *)
Definition mrcoordinator (args : list string) : Coordinator + Z :=
  if decide (length args < 3)%nat then inr 1 else inl (MakeCoordinator (drop 2 args) 10).

(** ** A worker's process *)

(** The calls of a worker; a report of a map task knows the reduce task that the
    same reply carried, if any. *)
Inductive rpc := CRegister | CIsDone | CAssign | CReportMap (req : nat) (next : option nat) | CReportReduce (j : nat).
Inductive rpc_reply := RNone | RWorker (id : Z) | RIsDone (done : bool) | RTask (resp : nat).

(** Where it is: about to make a call after some failed attempts, waiting for the
    reply to a request that has been handled, or executing a task. *)
Inductive wstate :=
| WCall (c : rpc) (failed : nat)
| WWait (c : rpc) (failed : nat) (r : rpc_reply)
| WMap (task : nat) (next : option nat)
| WReduce (task : nat)
| WCreate (j : nat)
| WWrite (j : nat).

Record worker := mkWorker { w_map : map_fn; w_reduce : reduce_fn; w_id : Z; w_at : wstate }.

(** The process of a worker's slot: running; ended, its goroutine about to report
    it; or reported. *)
Inductive slot := Running (w : worker) | Ended | Reported.

Definition goto (w : worker) (st : wstate) : slot := Running (mkWorker (w_map w) (w_reduce w) (w_id w) st).

(** The loop of [Worker]: the call of [IsWaiting] comes next. *)
Definition waiting (w : worker) : slot := goto w (WCall CIsDone 0).

(** A call fails. After [RPCRetryCount] failures [Register] and [IsWaiting] end the
    worker; the other calls give up the task. *)
Definition call_failed (w : worker) (c : rpc) (failed : nat) : slot :=
  if decide (Datatypes.S failed < RPCRetryCount)%nat then goto w (WCall c (Datatypes.S failed))
  else match c with CRegister | CIsDone => Ended | _ => waiting w end.

(** The coordinator's part of a call: the step of the system and the reply. *)
Definition handler (s : mrsys) (w : worker) (c : rpc) (seed : nat) (now : Z) : mr_label * rpc_reply :=
  match c with
  | CRegister => (MRegister, RWorker (Register (coord (mr_coord s))).2)
  | CIsDone => (MIsDone seed, RIsDone (IsDone seed (coord (mr_coord s))))
  | CAssign => (MAssign seed now, RTask (length (mr_resps s)))
  | CReportMap req _ => (MReportMap req, RNone)
  | CReportReduce j => (MReportReduce (w_id w) j, RNone)
  end.

Definition option_index {A B} (o : option A) (l : list B) : option nat := (λ _, length l) <$> o.

(** The reply arrives. That of [AssignTask] is encoded now. *)
Definition on_reply (s : mrsys) (w : worker) (c : rpc) (r : rpc_reply) : option mr_label * slot :=
  match c, r with
  | CRegister, RWorker id => (None, waiting (mkWorker (w_map w) (w_reduce w) id (w_at w)))
  | CIsDone, RIsDone done => (None, if done then Ended else goto w (WCall CAssign 0))
  | CAssign, RTask i =>
      let task {A} (f : Coordinator → AssignTaskResponse → option A) := mr_resps s !! i ≫= f (coord (mr_coord s)) in
      let red := option_index (task encode_ReduceTask) (mr_redtasks s) in
      (Some (MEncode i),
       match option_index (task encode_MapTask) (mr_maptasks s), red with
       | Some t, _ => goto w (WMap t red)
       | None, Some t => goto w (WReduce t)
       | None, None => waiting w
       end)
  | CReportMap _ (Some t), _ => (None, goto w (WReduce t))
  | _, _ => (None, waiting w)
  end.

(** The map function has run and the files have been written, or it has failed. *)
Definition map_result (s : mrsys) (w : worker) (t : nat) (next : option nat) (attempt : nat)
    (choices : list (option string)) (range : gmap Z (list KeyValue) → list (Z * list KeyValue)) : slot :=
  match mr_maptasks s !! t with
  | Some task =>
      match mapTask_run (w_map w attempt) (w_id w) choices range task (mr_fs s) with
      | Ret (_, Some _) => goto w (WCall (CReportMap (length (mr_mapreqs s)) next) 0)
      | Ret (_, None) => waiting w
      | _ => Ended
      end
  | None => Ended
  end.
End programs.

(** ** The processes *)

(** The coordinator: its socket does not exist yet, it serves, it has seen [Done]
    and sleeps its last second, it has exited. *)
Inductive cphase := CStarting | CServing | CDone | CExit (code : Z).
(** [runMRchan]: starting the workers and waiting for the coordinator, sending on
    [c], returned, or ended by [log.Fatalf]. *)
Inductive runner := Starting | Sending | Returned | Failed.
(** The receiver: none ([c] is nil); that of [TestCrashWorker], looping or gone;
    that of [TestEarlyExit], after some messages or when it has sent on [c0]. *)
Inductive receiver := NoChannel | Restarting | Quit | Counting (k : nat) | Counted.

#[export] Instance cphase_eq_dec : EqDecision cphase.
Proof. solve_decision. Defined.
#[export] Instance runner_eq_dec : EqDecision runner.
Proof. solve_decision. Defined.
#[export] Instance receiver_eq_dec : EqDecision receiver.
Proof. solve_decision. Defined.

Definition serving (c : cphase) : Prop := c = CServing ∨ c = CDone.
#[export] Instance serving_dec c : Decision (serving c).
Proof. unfold serving. apply _. Defined.

Record psys := mkP { p_job : mrsys; p_coord : cphase; p_slots : list slot; p_run : runner; p_recv : receiver }.

Inductive plabel :=
| PServe
| PPoll (seed : nat)
| PCoordExit
| PStart
| PWaitCoord
| PSend
| PHandle (i : nat) (seed : nat) (now : Z)
| PReply (i : nat)
| PCallFails (i : nat)
| PRunMap (i attempt : nat) (choices : list (option string)) (range : gmap Z (list KeyValue) → list (Z * list KeyValue))
| PRunReduce (i : nat) (range : gmap string (list KeyValue) → list (string * list KeyValue))
| PCreate (i : nat) (ok : bool)
| PWrite (i : nat)
| PCrash (i : nat)
| PReceive (i : nat).

Definition set_phase (s : psys) (c : cphase) : psys := mkP (p_job s) c (p_slots s) (p_run s) (p_recv s).
Definition set_run (s : psys) (r : runner) (v : receiver) : psys := mkP (p_job s) (p_coord s) (p_slots s) r v.
Definition set_slot (s : psys) (i : nat) (x : slot) (v : receiver) : psys :=
  mkP (p_job s) (p_coord s) (<[i := x]> (p_slots s)) (p_run s) v.
(** Worker [i] moves to [x], and the job from [p_job s] to [j]. *)
Definition work (s : psys) (i : nat) (x : slot) (j : option mrsys) : option psys :=
  j ← j; Some (mkP j (p_coord s) (<[i := x]> (p_slots s)) (p_run s) (p_recv s)).

Section processes.
Context {L : Lo}.
Context (open : string → option (string → option symbol)).
(** The application, the socket and the number of workers. *)
Context (app sock : string) (n : nat).

(** [startWorker]: a worker process; one that cannot load its plugin ends. *)
Definition startWorker : slot :=
  match mrworker open ["../../main/mrworker"; app; sock] with
  | Ret (inl (fns, _)) => Running (mkWorker fns.1 fns.2 0 (WCall CRegister 0))
  | _ => Ended
  end.

(** The beginning of [runMRchan]: the coordinator is started. *)
Definition runMRchan (files : list string) (fs : filesystem) (c : receiver) : psys :=
  match mrcoordinator ("../main/mrcoordinator" :: sock :: files) with
  | inl m => mkP (mkMR (mkSys m []) fs [] [] [] [] []) CStarting [] Starting c
  | inr code => mkP (mr_init files 10 fs) (CExit code) [] Starting c
  end.
Definition runMR (files : list string) (fs : filesystem) : psys := runMRchan files fs NoChannel.

(** One more message of [N+1] for the receiver of [TestEarlyExit]. *)
Definition counted (k : nat) : receiver := if decide (Datatypes.S k = Datatypes.S n) then Counted else Counting (Datatypes.S k).

(** A step of worker [i]'s process. *)
Definition worker_next (s : psys) (i : nat) (w : worker) (l : plabel) : option psys :=
  let job := mr_next (w_map w) (w_reduce w) (p_job s) in
  match l, w_at w with
  | PHandle _ seed now, WCall c k =>
      if decide (serving (p_coord s)) then
        let '(m, r) := handler (p_job s) w c seed now in work s i (goto w (WWait c k r)) (job m)
      else None
  | PReply _, WWait c k r =>
      if decide (serving (p_coord s)) then
        let '(m, x) := on_reply (p_job s) w c r in
        work s i x (match m with Some m => job m | None => Some (p_job s) end)
      else None
  | PCallFails _, WCall c k | PCallFails _, WWait c k _ =>
      if decide (serving (p_coord s)) then None else work s i (call_failed w c k) (Some (p_job s))
  | PRunMap _ attempt choices range, WMap t next =>
      work s i (map_result (p_job s) w t next attempt choices range) (job (MMap attempt (w_id w) t choices range))
  | PRunReduce _ range, WReduce t => work s i (goto w (WCreate (length (mr_jobs (p_job s))))) (job (MReduce t range))
  | PCreate _ true, WCreate j => work s i (goto w (WWrite j)) (job (MCreate j))
  | PCreate _ false, WCreate j => work s i (waiting w) (Some (p_job s))
  | PWrite _, WWrite j => work s i (goto w (WCall (CReportReduce j) 0)) (job (MWrite j))
  | PCrash _, WMap _ _ | PCrash _, WReduce _ => work s i Ended (Some (p_job s))
  | _, _ => None
  end.

Definition worker_of (l : plabel) : option nat :=
  match l with
  | PHandle i _ _ | PReply i | PCallFails i | PRunMap i _ _ _ | PRunReduce i _ | PCreate i _ | PWrite i | PCrash i => Some i
  | _ => None
  end.

Definition p_next (s : psys) (l : plabel) : option psys :=
  match l with
  | PServe => if decide (p_coord s = CStarting) then Some (set_phase s CServing) else None
  | PPoll seed =>
      if decide (p_coord s = CServing)
      then Some (if Done seed (coord (mr_coord (p_job s))) then set_phase s CDone else s) else None
  | PCoordExit => if decide (p_coord s = CDone) then Some (set_phase s (CExit 0)) else None
  | PStart =>
      if decide (p_run s = Starting ∧ (length (p_slots s) < n)%nat)
      then Some (mkP (p_job s) (p_coord s) (p_slots s ++ [startWorker]) (p_run s) (p_recv s)) else None
  | PWaitCoord =>
      match p_coord s with
      | CExit code =>
          if decide (p_run s = Starting ∧ length (p_slots s) = n)
          then Some (set_run s (if decide (code = 0) then if decide (p_recv s = NoChannel) then Returned else Sending
                                else Failed) (p_recv s))
          else None
      | _ => None
      end
  | PSend =>
      if decide (p_run s = Sending) then
        match p_recv s with
        | Restarting => Some (set_run s Returned Quit)
        | Counting k => Some (set_run s Returned (counted k))
        | _ => None
        end
      else None
  | PReceive i =>
      match p_slots s !! i, p_recv s with
      | Some Ended, Restarting => Some (set_slot s i startWorker Restarting)
      | Some Ended, Counting k => Some (set_slot s i Reported (counted k))
      | _, _ => None
      end
  | _ =>
      i ← worker_of l;
      match p_slots s !! i with Some (Running w) => worker_next s i w l | _ => None end
  end.

Definition p_step (s : psys) (l : plabel) (s' : psys) : Prop := p_next s l = Some s'.

(** The ranges yield the entries of their maps. *)
Definition p_range_ok (l : plabel) : Prop :=
  match l with
  | PRunMap _ _ _ range => ∀ m, range m ≡ₚ map_to_list m
  | PRunReduce _ range => ∀ m, range m ≡ₚ map_to_list m
  | _ => True
  end.

Definition is_crash (l : plabel) : Prop := match l with PCrash _ => True | _ => False end.
#[export] Instance is_crash_dec l : Decision (is_crash l).
Proof. destruct l; apply _. Defined.

(** Worker [i] has truncated an output and not yet written it. *)
Definition writing (s : psys) (j : nat) : Prop := ∃ i w, p_slots s !! i = Some (Running w) ∧ w_at w = WWrite j.
End processes.

(** ** The steps of workers are steps of the system *)

Definition same_fns (mapf : map_fn) (reducef : reduce_fn) (x : slot) : Prop :=
  match x with Running w => w_map w = mapf ∧ w_reduce w = reducef | _ => True end.

Section simulation.
Context {L : Lo}.
Context (open : string → option (string → option symbol)) (app sock : string) (n : nat).

Local Abbreviation next := (worker_next (L := L)).

(** Which jobs are between truncating and writing their output after a step. *)
Definition created_by (s : psys) (w : worker) (x : slot) (j' : mrsys) : Prop :=
  ∀ k jb, mr_jobs j' !! k = Some jb → job_at jb = JCreated →
    (∃ w', x = Running w' ∧ w_at w' = WWrite k) ∨
    (mr_jobs (p_job s) !! k = Some jb ∧ w_at w ≠ WWrite k).

Lemma created_by_same s w x j' :
  mr_jobs j' = mr_jobs (p_job s) → (∀ k, w_at w ≠ WWrite k) → created_by s w x j'.
Proof. intros E Hw k jb Hk _. rewrite E in Hk. by right. Qed.

Lemma mr_next_jobs mapf reducef s m s' :
  mr_next mapf reducef s m = Some s' →
  match m with MReduce _ _ | MCreate _ | MWrite _ => True | _ => mr_jobs s' = mr_jobs s end.
Proof.
  destruct m; simpl; try done; intros H; simplify_option_eq; try done.
  all: try (destruct (AssignTask _ _ _); by simplify_eq).
  all: repeat case_match; by simplify_eq.
Qed.

(** What a step of a worker does, as far as the others can tell. *)
Record worker_effect (s : psys) (i : nat) (w : worker) (l : plabel) (s' : psys) : Prop := {
  we_slot : ∃ x, s' = mkP (p_job s') (p_coord s) (<[i := x]> (p_slots s)) (p_run s) (p_recv s) ∧
    same_fns (w_map w) (w_reduce w) x ∧ x ≠ Reported ∧ created_by s w x (p_job s');
  we_job : p_job s' = p_job s ∨
    ∃ m, mr_next (w_map w) (w_reduce w) (p_job s) m = Some (p_job s') ∧ (p_range_ok l → range_ok m)
}.

Lemma work_effect s i w l s' x m :
  work s i x (mr_next (w_map w) (w_reduce w) (p_job s) m) = Some s' → (p_range_ok l → range_ok m) →
  same_fns (w_map w) (w_reduce w) x → x ≠ Reported →
  (∀ j', mr_next (w_map w) (w_reduce w) (p_job s) m = Some j' → created_by s w x j') →
  worker_effect s i w l s'.
Proof.
  unfold work. intros (j & Hj & [= <-])%bind_Some Hr Hf Hx Hc. split; simpl.
  - exists x. auto.
  - right. by exists m.
Qed.

Lemma work_effect_same s i w l s' x :
  work s i x (Some (p_job s)) = Some s' → same_fns (w_map w) (w_reduce w) x → x ≠ Reported →
  (∀ k, w_at w ≠ WWrite k) → worker_effect s i w l s'.
Proof.
  unfold work. simpl. intros [= <-] Hf Hx Hw. split; simpl; [|by left].
  exists x. split; [done|]. split; [done|]. split; [done|]. by apply created_by_same.
Qed.

Lemma same_fns_goto w st : same_fns (w_map w) (w_reduce w) (goto w st).
Proof. done. Qed.
Lemma same_fns_failed w c k : same_fns (w_map w) (w_reduce w) (call_failed w c k) ∧ call_failed w c k ≠ Reported.
Proof. unfold call_failed. case_decide; [done|]. by destruct c. Qed.
Lemma same_fns_reply s w c r : same_fns (w_map w) (w_reduce w) (on_reply s w c r).2 ∧ (on_reply s w c r).2 ≠ Reported.
Proof. destruct c as [| | |? []|], r; simpl; try done; repeat case_match; done. Qed.
Lemma same_fns_map s w t nx a ch rg :
  same_fns (w_map w) (w_reduce w) (map_result s w t nx a ch rg) ∧ map_result s w t nx a ch rg ≠ Reported.
Proof. unfold map_result. repeat case_match; done. Qed.

(** The steps that touch the jobs. *)
Lemma created_reduce s w t rg x j' :
  w_at w = WReduce t → mr_next (w_map w) (w_reduce w) (p_job s) (MReduce t rg) = Some j' → created_by s w x j'.
Proof.
  intros Hw (task & _ & [= <-])%bind_Some k jb Hk Hat. right. rewrite Hw. split; [|done]. simpl in Hk.
  apply lookup_app_Some in Hk as [|[_ Hk]]; [done|]. apply list_lookup_singleton_Some in Hk as [_ <-]. done.
Qed.
Lemma created_create s w k0 j' :
  w_at w = WCreate k0 → mr_next (w_map w) (w_reduce w) (p_job s) (MCreate k0) = Some j' →
  created_by s w (goto w (WWrite k0)) j'.
Proof.
  intros Hw (jb0 & Hlk & Hd)%bind_Some k jb Hk Hat. case_decide; [|done]. injection Hd as <-. simpl in Hk.
  apply list_lookup_insert_Some in Hk as [(-> & <- & _)|[_ Hk]]; [left; by eexists|]. right. by rewrite Hw.
Qed.
Lemma created_write s w k0 x j' :
  w_at w = WWrite k0 → mr_next (w_map w) (w_reduce w) (p_job s) (MWrite k0) = Some j' → created_by s w x j'.
Proof.
  intros Hw (jb0 & Hlk & Hd)%bind_Some k jb Hk Hat. case_decide; [|done]. injection Hd as <-. simpl in Hk.
  apply list_lookup_insert_Some in Hk as [(-> & <- & _)|[? Hk]]; [done|]. right. rewrite Hw. split; [done|].
  intros [=]. done.
Qed.

Lemma worker_next_effect s i w l s' : next s i w l = Some s' → worker_effect s i w l s'.
Proof.
  unfold worker_next. intros H.
  destruct l as [| | | | | |i' seed now|i'|i'|i' a ch rg|i' rg|i' ok|i'|i'|i']; try done.
  all: destruct (w_at w) as [c k|c k r|t nx|t|j|j] eqn:Hw; try done; try (by destruct ok).
  - case_decide; [|done]. destruct (handler (p_job s) w c seed now) as [m r] eqn:Hh.
    apply (work_effect _ _ _ _ _ _ _ H); try done.
    + intros _. destruct c; simplify_eq/=; done.
    + intros j' Hj. apply created_by_same; [|by rewrite Hw].
      apply mr_next_jobs in Hj. destruct c; simplify_eq/=; done.
  - case_decide; [|done]. destruct (same_fns_reply (p_job s) w c r) as [Hf Hx].
    destruct (on_reply (p_job s) w c r) as [[m|] x] eqn:Ho; simpl in *.
    2: { apply (work_effect_same _ _ _ _ _ _ H); try done. by rewrite Hw. }
    assert (∃ ri, m = MEncode ri) as [ri ->] by (destruct c as [| | |? []|], r; simplify_eq/=; by eexists).
    apply (work_effect _ _ _ _ _ _ _ H); try done.
    intros j' Hj. apply created_by_same; [by apply mr_next_jobs in Hj|by rewrite Hw].
  - case_decide; [done|]. destruct (same_fns_failed w c k). apply (work_effect_same _ _ _ _ _ _ H); try done. by rewrite Hw.
  - case_decide; [done|]. destruct (same_fns_failed w c k). apply (work_effect_same _ _ _ _ _ _ H); try done. by rewrite Hw.
  - destruct (same_fns_map (p_job s) w t nx a ch rg). apply (work_effect _ _ _ _ _ _ _ H); try done.
    intros j' Hj. apply created_by_same; [by apply mr_next_jobs in Hj|by rewrite Hw].
  - apply (work_effect _ _ _ _ _ _ _ H); try done. intros j'. by apply created_reduce.
  - destruct ok.
    + apply (work_effect _ _ _ _ _ _ _ H); try done. intros j'. by apply created_create.
    + apply (work_effect_same _ _ _ _ _ _ H); try done. by rewrite Hw.
  - apply (work_effect _ _ _ _ _ _ _ H); try done. intros j'. by apply created_write.
  - apply (work_effect_same _ _ _ _ _ _ H); try done. by rewrite Hw.
  - apply (work_effect_same _ _ _ _ _ _ H); try done. by rewrite Hw.
Qed.
End simulation.

(** ** Invariants of the processes *)

Definition job_done {L : Lo} (j : mrsys) : Prop := Done 0 (coord (mr_coord j)) = true.

(** How many workers have been reported to the receiver. *)
Definition is_reported (x : slot) : nat := match x with Reported => 1 | _ => 0 end.
Definition reported (l : list slot) : nat := sum_list_with is_reported l.

Lemma reported_insert l i x y :
  l !! i = Some x → (reported (<[i := y]> l) + is_reported x = reported l + is_reported y)%nat.
Proof.
  unfold reported. revert i. induction l as [|z l IH]; intros [|i] Hi; simplify_eq/=; [lia|].
  specialize (IH i Hi). lia.
Qed.

Lemma reported_le l : (reported l <= length l)%nat.
Proof. unfold reported. induction l as [|[] l IH]; simpl; lia. Qed.

Lemma reported_all l : reported l = length l → ∀ i x, l !! i = Some x → x = Reported.
Proof.
  induction l as [|y l IH]; intros E i x Hi; [done|].
  pose proof (reported_le l). unfold reported in *. simpl in E.
  destruct y; simpl in E; try lia. destruct i as [|i]; simplify_eq/=; [done|]. apply (IH ltac:(lia) _ _ Hi).
Qed.

Lemma reported_app l x : reported (l ++ [x]) = (reported l + is_reported x)%nat.
Proof. unfold reported. rewrite sum_list_with_app. simpl. lia. Qed.

Lemma not_reported x : x ≠ Reported → is_reported x = 0%nat.
Proof. by destruct x. Qed.

(** [runMRchan] has sent on [c]. *)
Definition sent (r : runner) : nat := if decide (r = Returned) then 1 else 0.

(** What the receiver knows of the other goroutines. *)
Definition recv_ok (n : nat) (r : runner) (l : list slot) (v : receiver) : Prop :=
  match v with
  | NoChannel => r ≠ Sending ∧ reported l = 0%nat
  | Restarting => r ≠ Returned ∧ reported l = 0%nat
  | Quit => r = Returned ∧ reported l = 0%nat
  | Counting k => (k <= n)%nat ∧ (k = reported l + sent r)%nat
  | Counted => (Datatypes.S n = reported l + sent r)%nat
  end.

Section invariant.
Context {L : Lo} {HL : LoLaws L}.
Context (open : string → option (string → option symbol)) (app sock : string) (n : nat).
Context (mapf : map_fn) (reducef : reduce_fn) (files : list string) (fs0 : filesystem).
Context (Hload : loadPlugin open app = Ret (mapf, reducef)).

Local Abbreviation step := (p_step open app sock n).
Local Abbreviation new_worker := (startWorker open app sock).

Record control_ok (s : psys) : Prop := {
  co_run : p_run s = Sending ∨ p_run s = Returned → p_coord s = CExit 0;
  co_slots : (length (p_slots s) <= n)%nat ∧ (p_run s ≠ Starting → length (p_slots s) = n);
  co_recv : recv_ok n (p_run s) (p_slots s) (p_recv s)
}.

Lemma startWorker_running : new_worker = Running (mkWorker mapf reducef 0 (WCall CRegister 0)).
Proof using Hload. unfold startWorker, mrworker. by rewrite Hload. Qed.

Lemma counted_ok r l k : (k <= n)%nat → (Datatypes.S k = reported l + sent r)%nat → recv_ok n r l (counted n k).
Proof using. intros Hk E. unfold counted. case_decide; simpl; lia. Qed.

Lemma p_step_cases s l s' :
  step s l s' →
  (∃ i w, worker_of l = Some i ∧ p_slots s !! i = Some (Running w) ∧ worker_next s i w l = Some s') ∨
  (worker_of l = None ∧ p_job s' = p_job s).
Proof using.
  unfold p_step. intros H. destruct (worker_of l) as [i|] eqn:Hw.
  - left. exists i. destruct l; simplify_eq/=; case_match; try done; case_match; naive_solver.
  - right. split; [done|]. destruct l; simplify_eq/=; repeat case_match; by simplify_eq/=.
Qed.

Lemma control_ok_step s l s' : control_ok s → step s l s' → control_ok s'.
Proof using Hload.
  intros [Hr [Hle Hn] Hv] H. destruct (p_step_cases _ _ _ H) as [(i & w & _ & Hi & Hs)|[Hnw _]].
  { apply worker_next_effect in Hs as [(x & -> & _ & Hx & _) _]. split; simpl; rewrite ?length_insert; try done.
    pose proof (reported_insert _ _ _ x Hi) as E. rewrite (not_reported _ Hx) in E. simpl in E.
    unfold recv_ok in *. by replace (reported (<[i := x]> (p_slots s))) with (reported (p_slots s)) by lia. }
  unfold p_step in H. destruct l as [|seed| | | | | | | | | | | | |i]; try done; simpl in H.
  - case_decide as Hc; simplify_eq/=. split; simpl; try done. intros Hx. rewrite (Hr Hx) in Hc. done.
  - case_decide as Hc; [|done]. injection H as <-. case_match; [|done]. split; simpl; try done.
    intros Hx. rewrite (Hr Hx) in Hc. done.
  - case_decide as Hc; simplify_eq/=. done.
  - case_decide as Hc; simplify_eq/=. destruct Hc as [Hst Hlt]. rewrite startWorker_running.
    split; simpl; rewrite ?length_app; simpl; [done|split; [lia|done]|]. unfold recv_ok in *. by rewrite reported_app, Nat.add_0_r.
  - destruct (p_coord s) as [| | |code] eqn:Hc; try done. case_decide as Hd; [|done]. destruct Hd as [Hst Hlen].
    injection H as <-. split; simpl; rewrite ?Hc; [|done|].
    + intros Hx. case_decide as Hcode; [by subst|]. by destruct Hx.
    + rewrite Hst in Hv. unfold sent in *. destruct (p_recv s); simpl in *; repeat (case_decide; simpl in *); naive_solver.
  - case_decide as Hs; [|done]. rewrite Hs in Hr, Hn, Hv.
    assert (Hc : p_coord s = CExit 0) by auto. assert (Hl : length (p_slots s) = n) by (by apply Hn).
    destruct (p_recv s) as [| | |k|]; simplify_eq/=; split; simpl; auto.
    + split; [done|]. by destruct Hv.
    + destruct Hv as [Hk Hv]. apply counted_ok; [done|]. unfold sent in *. simpl in *. lia.
  - destruct (p_slots s !! i) as [[w| |]|] eqn:Hi; try done.
    destruct (p_recv s) as [| | |k|]; simplify_eq/=; (split; simpl; rewrite ?length_insert; [done..|]).
    + pose proof (reported_insert _ _ _ new_worker Hi) as E. rewrite startWorker_running in *.
      destruct Hv as [? Hv]. simpl in *. split; [done|lia].
    + destruct Hv as [Hk Hv]. pose proof (reported_insert _ _ _ Reported Hi) as E. simpl in E. apply counted_ok; [done|lia].
Qed.

(** The coordinator's part of a step of the system. *)
Lemma mr_step_coord j m j' :
  job_ok mapf reducef files 10 fs0 → mr_inv mapf reducef files 10 fs0 j → mr_step mapf reducef j m j' →
  ∃ ls, exec coord_step (mr_coord j) ls (mr_coord j').
Proof using HL.
  intros Hjob Hinv Hst. unfold mr_step in Hst.
  assert (Hone : ∀ l x, coord_step (mkSys (coord (mr_coord j)) (log (mr_coord j))) l x →
    ∃ ls, exec coord_step (mr_coord j) ls x).
  { intros l x Hx. exists [l]. apply exec_one. by destruct (mr_coord j). }
  destruct m; simpl in Hst; simplify_option_eq; try (by exists []; constructor).
  - eapply (Hone LRegister). constructor.
  - destruct (AssignTask seed now _) as [c' resp] eqn:E. simplify_eq/=.
    replace c' with (AssignTask seed now (coord (mr_coord j))).1 by (by rewrite E).
    eapply (Hone (LAssign seed now)). constructor.
  - repeat case_match; simplify_eq/=; exists []; constructor.
  - eapply (Hone (LReportMap _)). apply step_report_map.
    pose proof (mi_mapreqs _ _ _ _ _ _ Hinv) as Hr. by destruct (Forall_lookup_1 _ _ _ _ Hr ltac:(eassumption)).
  - eapply (Hone (LReportReduce (mkReportReduceTaskRequest _ _ _))). apply step_report_reduce.
    pose proof (mi_jobs _ _ _ _ _ _ Hinv) as Hr. destruct (Forall_lookup_1 _ _ _ _ Hr ltac:(eassumption)) as (_ & ? & _). done.
Qed.

Lemma job_done_mono j ls j' :
  job_ok mapf reducef files 10 fs0 → mr_inv mapf reducef files 10 fs0 j → Forall range_ok ls →
  exec (mr_step mapf reducef) j ls j' → job_done j → job_done j'.
Proof using HL.
  intros Hjob Hinv Hr He. revert Hr Hinv. induction He as [|j m j1 ls j2 Hst He IH]; [done|].
  intros [Hm Hr]%Forall_cons Hinv Hd. apply IH; [done|by eapply mr_inv_step|].
  destruct (mr_step_coord _ _ _ Hjob Hinv Hst) as [lc Hc].
  destruct (coord_forward _ _ _ (mr_coord_inv _ _ _ _ _ _ Hinv) Hc) as (H1 & H2 & _).
  unfold job_done in *. rewrite Done_spec in *. destruct Hd. split; by eapply statuses_le_all.
Qed.

(** What the processes know of the job. *)
Record job_known (s : psys) : Prop := {
  jk_exec : ∃ mls, Forall range_ok mls ∧ exec (mr_step mapf reducef) (mr_init files 10 fs0) mls (p_job s);
  jk_fns : ∀ i x, p_slots s !! i = Some x → same_fns mapf reducef x;
  jk_created : ∀ k jb, mr_jobs (p_job s) !! k = Some jb → job_at jb = JCreated → writing s k;
  jk_done : p_coord s = CDone ∨ p_coord s = CExit 0 → job_done (p_job s)
}.

(** The steps of [runMRchan], the coordinator and the receiver leave the running
    workers alone. *)
Lemma control_step_slots s l s' :
  worker_of l = None → step s l s' →
  (∀ i w, p_slots s !! i = Some (Running w) → p_slots s' !! i = Some (Running w)) ∧
  (∀ i x, p_slots s' !! i = Some x → p_slots s !! i = Some x ∨ same_fns mapf reducef x) ∧
  (p_coord s' = CDone ∨ p_coord s' = CExit 0 → p_coord s = CDone ∨ p_coord s = CExit 0 ∨ job_done (p_job s)).
Proof using HL Hload.
  unfold p_step. intros Hw H.
  assert (Hsame : p_slots s' = p_slots s →
    (∀ i w, p_slots s !! i = Some (Running w) → p_slots s' !! i = Some (Running w)) ∧
    (∀ i x, p_slots s' !! i = Some x → p_slots s !! i = Some x ∨ same_fns mapf reducef x)).
  { intros ->. split; [done|]. by left. }
  destruct l as [|seed| | | | | | | | | | | | |i]; try done; simpl in H.
  - case_decide; simplify_eq/=. destruct Hsame; [done|]. split; [done|]. split; [done|]. by intros [].
  - case_decide as Hc; [|done]. injection H as <-. case_match eqn:Hd; destruct Hsame; try done; split; try done; (split; [done|]); [|tauto].
    intros _. right; right. unfold job_done. rewrite Done_spec. by apply (Done_spec seed).
  - case_decide as Hc; simplify_eq/=. destruct Hsame; [done|]. split; [done|]. split; [done|]. by left.
  - case_decide as Hc; simplify_eq/=. split; [intros i w Hi; by apply lookup_app_l_Some|]. split; [|tauto].
    intros i x [|[_ Hx]]%lookup_app_Some; [by left|]. apply list_lookup_singleton_Some in Hx as [_ <-].
    rewrite startWorker_running. by right.
  - destruct (p_coord s) as [| | |code] eqn:Hc; try done. case_decide; simplify_eq/=. destruct Hsame; [done|]. rewrite Hc. tauto.
  - case_decide; [|done]. destruct (p_recv s); simplify_eq/=; destruct Hsame; tauto.
  - destruct (p_slots s !! i) as [[w| |]|] eqn:Hi; try done.
    assert (Hins : ∀ y, same_fns mapf reducef y →
      (∀ i' w, p_slots s !! i' = Some (Running w) → <[i := y]> (p_slots s) !! i' = Some (Running w)) ∧
      (∀ i' x, <[i := y]> (p_slots s) !! i' = Some x → p_slots s !! i' = Some x ∨ same_fns mapf reducef x)).
    { intros y Hy. split.
      - intros i' w Hi'. rewrite list_lookup_insert_ne; [done|]. intros <-. congruence.
      - intros i' x [(-> & <- & _)|[_ Hx]]%list_lookup_insert_Some; [by right|by left]. }
    destruct (p_recv s) as [| | |k|]; simplify_eq/=.
    + rewrite startWorker_running. destruct (Hins (Running (mkWorker mapf reducef 0 (WCall CRegister 0)))); [done|]. tauto.
    + destruct (Hins Reported); [done|]. tauto.
Qed.

Lemma job_known_step s l s' :
  job_ok mapf reducef files 10 fs0 → job_known s → p_range_ok l → step s l s' → job_known s'.
Proof using HL Hload.
  intros Hjob [(mls & Hmls & He) Hf Hc Hd] Hr H.
  assert (Hinv : mr_inv mapf reducef files 10 fs0 (p_job s))
    by (eapply mr_inv_exec; [done|apply mr_inv_init|exact Hmls|exact He]).
  destruct (p_step_cases _ _ _ H) as [(i & w & _ & Hi & Hs)|[Hw Hj]].
  - apply worker_next_effect in Hs as [(x & E & Hx & _ & Hcr) Hm]. pose proof (Hf _ _ Hi) as [Hwm Hwr].
    rewrite Hwm, Hwr in Hx, Hm.
    assert (Hex : ∃ ms, Forall range_ok ms ∧ exec (mr_step mapf reducef) (p_job s) ms (p_job s')).
    { destruct Hm as [->|(m & Hm & Hmr)]; [exists []; split; [done|constructor]|].
      exists [m]. split; [by repeat constructor; apply Hmr|]. by apply exec_one. }
    destruct Hex as (ms & Hms & Hex). rewrite E. split; simpl.
    + exists (mls ++ ms). split; [by apply Forall_app|]. by eapply exec_app.
    + intros i' y [(-> & <- & _)|[_ Hy]]%list_lookup_insert_Some; [done|by eapply Hf].
    + intros k jb Hk Hat. destruct (Hcr k jb Hk Hat) as [(w' & -> & Hw')|[Hk' Hne]].
      * exists i, w'. split; [|done]. simpl. apply list_lookup_insert_eq. by eapply lookup_lt_Some.
      * destruct (Hc k jb Hk' Hat) as (i' & w' & Hi' & Hw'). exists i', w'. split; [|done]. simpl.
        rewrite list_lookup_insert_ne; [done|]. intros <-. congruence.
    + intros Hp. eapply job_done_mono; [done|exact Hinv|exact Hms|exact Hex|by apply Hd].
  - destruct (control_step_slots _ _ _ Hw H) as (H1 & H2 & H3). split; rewrite ?Hj.
    + by exists mls.
    + intros i x Hx. destruct (H2 i x Hx); [by eapply Hf|done].
    + intros k jb Hk Hat. destruct (Hc k jb Hk Hat) as (i & w & Hi & Hw'). exists i, w. auto.
    + intros Hp. destruct (H3 Hp) as [|[|]]; auto.
Qed.

Lemma control_ok_init c : c = NoChannel ∨ c = Restarting ∨ c = Counting 0 → control_ok (runMRchan sock files fs0 c).
Proof using.
  intros Hc. unfold runMRchan.
  destruct (mrcoordinator _); (split; simpl; [by intros []|split; [lia|done]|]);
    unfold recv_ok, sent; simpl; destruct Hc as [->|[->| ->]]; simpl; split; (lia || done).
Qed.

Lemma job_known_init c : job_known (runMRchan sock files fs0 c).
Proof using.
  assert (E : p_job (runMRchan sock files fs0 c) = mr_init files 10 fs0).
  { unfold runMRchan, mrcoordinator. by case_decide. }
  split.
  - exists []. split; [done|]. rewrite E. constructor.
  - intros i x. unfold runMRchan. by destruct (mrcoordinator _).
  - intros k jb Hk. rewrite E in Hk. done.
  - unfold runMRchan, mrcoordinator. case_decide as Hc; simpl; [|by intros []]. intros [|]; done.
Qed.

Lemma invariants s ls s' :
  job_ok mapf reducef files 10 fs0 → Forall p_range_ok ls → job_known s ∧ control_ok s → exec step s ls s' →
  job_known s' ∧ control_ok s'.
Proof using HL Hload.
  intros Hjob Hr Hs He. revert Hr Hs. induction He as [|s l s1 ls s2 Hst He IH]; [done|].
  intros [Hl Hr]%Forall_cons [H1 H2]. apply IH; [done|]. split; [by eapply job_known_step|by eapply control_ok_step].
Qed.

(** *** Without crashes, nothing ends before the job is done *)

(** A process that has ended, or knows that it may end, does so in a job that is done. *)
Definition ends_late (d : Prop) (x : slot) : Prop :=
  match x with Running w => ∀ k, w_at w = WWait CIsDone k (RIsDone true) → d | _ => d end.

Record early_ok (s : psys) : Prop := {
  eo_coord : p_coord s = CServing ∨ p_coord s = CDone ∨ p_coord s = CExit 0;
  eo_slots : ∀ i x, p_slots s !! i = Some x → ends_late (job_done (p_job s)) x
}.

Lemma work_fields s i x j s' :
  work s i x j = Some s' →
  ∃ j', j = Some j' ∧ s' = mkP j' (p_coord s) (<[i := x]> (p_slots s)) (p_run s) (p_recv s).
Proof using. unfold work. intros (j' & -> & [= <-])%bind_Some. by exists j'. Qed.

Lemma ends_late_waiting d w : ends_late d (waiting w).
Proof using. by intros k [=]. Qed.

Lemma ends_late_failed s w c k :
  job_known s → (p_coord s = CServing ∨ p_coord s = CDone ∨ p_coord s = CExit 0) → ¬ serving (p_coord s) →
  ends_late (job_done (p_job s)) (call_failed w c k).
Proof using.
  intros Hk Hc Hs. assert (Hd : job_done (p_job s)).
  { apply (jk_done _ Hk). right. unfold serving in Hs. naive_solver. }
  unfold call_failed. case_decide; [by intros ? [=]|]. by destruct c; try apply ends_late_waiting.
Qed.

Lemma ends_late_map s w t nx a ch rg j' :
  mr_inv mapf reducef files 10 fs0 (p_job s) →
  mr_next (w_map w) (w_reduce w) (p_job s) (MMap a (w_id w) t ch rg) = Some j' →
  ends_late (job_done (p_job s)) (map_result (p_job s) w t nx a ch rg).
Proof using.
  intros Hinv (task & Ht & _)%bind_Some. unfold map_result. rewrite Ht.
  assert (Hn : NReduce task = 10).
  { pose proof (mi_maptasks _ _ _ _ _ _ Hinv) as Hm. by destruct (Forall_lookup_1 _ _ _ _ Hm Ht). }
  unfold mapTask_run. destruct (readFileContent _ _) as [content|]; [|apply ends_late_waiting].
  unfold taskMap. rewrite decide_False by (rewrite Hn; by intros [? _]). simpl.
  destruct (write_groups _ _ _ _) as [fs [rm|]]; by intros k [=].
Qed.

Lemma ends_late_reply s w c k r :
  w_at w = WWait c k r → ends_late (job_done (p_job s)) (Running w) →
  ends_late (job_done (p_job s)) (on_reply (p_job s) w c r).2.
Proof using.
  intros Hw Hl. destruct c as [| | |? [t|]|], r as [|id|[]|ri]; simpl; try by intros ? [=].
  - by eapply Hl.
  - repeat case_match; by intros ? [=].
Qed.

Lemma ends_late_step s i w l s' :
  job_known s → mr_inv mapf reducef files 10 fs0 (p_job s) →
  (p_coord s = CServing ∨ p_coord s = CDone ∨ p_coord s = CExit 0) → ¬ is_crash l →
  ends_late (job_done (p_job s)) (Running w) → worker_next s i w l = Some s' →
  ∃ x, s' = mkP (p_job s') (p_coord s) (<[i := x]> (p_slots s)) (p_run s) (p_recv s) ∧ ends_late (job_done (p_job s)) x.
Proof using HL.
  intros Hk Hinv Hc Hcr Hl H. unfold worker_next in H.
  destruct l as [| | | | | |i' seed now|i'|i'|i' a ch rg|i' rg|i' ok|i'|i'|i']; try done.
  all: destruct (w_at w) as [c k|c k r|t nx|t|j|j] eqn:Hw; try done; try (by destruct ok).
  - case_decide; [|done]. destruct (handler (p_job s) w c seed now) as [m r] eqn:Hh.
    apply work_fields in H as (j' & _ & ->). eexists. split; [done|]. intros k' [= -> -> ->]. simpl in Hh.
    injection Hh as _ Hd. unfold job_done. rewrite Done_spec. apply (Done_spec seed). exact Hd.
  - case_decide; [|done]. pose proof (ends_late_reply s w c k r Hw Hl) as Hx.
    destruct (on_reply (p_job s) w c r) as [m x]. apply work_fields in H as (j' & _ & ->). by exists x.
  - case_decide; [done|]. apply work_fields in H as (j' & _ & ->). eexists. split; [done|]. by apply ends_late_failed.
  - case_decide; [done|]. apply work_fields in H as (j' & _ & ->). eexists. split; [done|]. by apply ends_late_failed.
  - apply work_fields in H as (j' & Hj & ->). eexists. split; [done|]. by eapply ends_late_map.
  - apply work_fields in H as (j' & _ & ->). eexists. split; [done|]. by intros ? [=].
  - destruct ok; apply work_fields in H as (j' & _ & ->); eexists; (split; [done|]); by intros ? [=].
  - apply work_fields in H as (j' & _ & ->). eexists. split; [done|]. by intros ? [=].
Qed.

Lemma ends_late_mono (d d' : Prop) x : (d → d') → ends_late d x → ends_late d' x.
Proof using. intros Hd. destruct x; simpl; eauto. Qed.

Lemma job_known_mr s :
  job_ok mapf reducef files 10 fs0 → job_known s → mr_inv mapf reducef files 10 fs0 (p_job s).
Proof using HL. intros Hjob [(mls & Hmls & He) _ _ _]. eapply mr_inv_exec; [done|apply mr_inv_init|exact Hmls|exact He]. Qed.

(** A step of the job keeps it done. *)
Lemma job_done_step s l s' :
  job_ok mapf reducef files 10 fs0 → job_known s → p_range_ok l → step s l s' → job_done (p_job s) → job_done (p_job s').
Proof using HL Hload.
  intros Hjob Hk Hr H Hd. destruct (p_step_cases _ _ _ H) as [(i & w & _ & Hi & Hs)|[_ ->]]; [|done].
  apply worker_next_effect in Hs as [_ [->|(m & Hm & Hmr)]]; [done|].
  destruct (jk_fns _ Hk _ _ Hi) as [Hwm Hwr]. rewrite Hwm, Hwr in Hm.
  eapply (job_done_mono (p_job s) [m]); [done|by apply job_known_mr|by repeat constructor; apply Hmr|by apply exec_one|done].
Qed.

Lemma early_ok_control s l s' :
  job_known s → early_ok s → worker_of l = None → step s l s' → early_ok s'.
Proof using HL Hload.
  intros Hk [Hc Hs] Hw H. unfold p_step in H.
  assert (Hnew : ends_late (job_done (p_job s)) new_worker) by (rewrite startWorker_running; by intros k [=]).
  destruct l as [|seed| | | | | | | | | | | | |i]; try done; simpl in H.
  - case_decide as Hd; [|done]. rewrite Hd in Hc. naive_solver.
  - case_decide as Hd; [|done]. case_match eqn:E; simplify_eq/=; (split; simpl; [auto|done]).
  - case_decide as Hd; simplify_eq/=. split; simpl; [auto|done].
  - case_decide as Hd; simplify_eq/=. split; simpl; [done|].
    intros i x [Hx|[_ Hx]]%lookup_app_Some; [by eapply Hs|]. by apply list_lookup_singleton_Some in Hx as [_ <-].
  - destruct (p_coord s) eqn:Hp; try done. case_decide; simplify_eq/=. split; simpl; [by rewrite Hp|done].
  - case_decide; [|done]. destruct (p_recv s); simplify_eq/=; (split; simpl; [done|done]).
  - destruct (p_slots s !! i) as [[w| |]|] eqn:Hi; try done. pose proof (Hs _ _ Hi) as Hd. simpl in Hd.
    destruct (p_recv s); simplify_eq/=; (split; simpl; [done|]);
      intros i' x [(-> & <- & _)|[_ Hx]]%list_lookup_insert_Some; eauto.
Qed.

Lemma early_ok_step s l s' :
  job_ok mapf reducef files 10 fs0 → job_known s → early_ok s → p_range_ok l → ¬ is_crash l → step s l s' → early_ok s'.
Proof using HL Hload.
  intros Hjob Hk He Hr Hcr H. destruct (p_step_cases _ _ _ H) as [(i & w & _ & Hi & Hs)|[Hw _]];
    [|by eapply early_ok_control].
  pose proof (eo_slots _ He _ _ Hi) as Hl. pose proof (job_done_step _ _ _ Hjob Hk Hr H) as Hmono.
  destruct (ends_late_step s i w l s' Hk (job_known_mr _ Hjob Hk) (eo_coord _ He) Hcr Hl Hs) as (x & E & Hx).
  rewrite E. split; simpl; [apply He|].
  intros i' y [(-> & <- & _)|[_ Hy]]%list_lookup_insert_Some; (eapply ends_late_mono; [exact Hmono|]); [done|].
  by apply (eo_slots _ He i').
Qed.

Lemma early_ok_exec s ls s' :
  job_ok mapf reducef files 10 fs0 → Forall p_range_ok ls → Forall (λ l, ¬ is_crash l) ls → job_known s → early_ok s →
  exec step s ls s' → early_ok s'.
Proof using HL Hload.
  intros Hjob Hr Hcr Hk He Hex. revert Hr Hcr Hk He. induction Hex as [|s l s1 ls s2 Hst Hex IH]; [done|].
  intros [Hl Hr]%Forall_cons [Hc Hcr]%Forall_cons Hk He. apply IH; [done..|by eapply job_known_step|by eapply early_ok_step].
Qed.
End invariant.

(** ** Properties *)

Section properties.
Context {L : Lo} {HL : LoLaws L}.
Context (open : string → option (string → option symbol)) (app sock : string) (n : nat).
Context (mapf : map_fn) (reducef : reduce_fn) (files : list string) (fs0 : filesystem).

(** What holds in every state of a test. *)
Lemma reachable c ls s :
  job_ok mapf reducef files 10 fs0 → loadPlugin open app = Ret (mapf, reducef) →
  c = NoChannel ∨ c = Restarting ∨ c = Counting 0 → Forall p_range_ok ls →
  exec (p_step open app sock n) (runMRchan sock files fs0 c) ls s →
  job_known mapf reducef files fs0 s ∧ control_ok n s.
Proof using HL.
  intros Hjob Hload Hc Hr He. eapply invariants; [exact Hload|done|exact Hr| |exact He].
  split; [by apply job_known_init|by apply control_ok_init].
Qed.

Lemma returned_done s : job_known mapf reducef files fs0 s → control_ok n s → p_run s = Returned → job_done (p_job s).
Proof using. intros Hk Hc Hr. apply (jk_done _ _ _ _ _ Hk). right. apply (co_run _ _ Hc). by right. Qed.

(** The receiver that counts has seen all workers end, and the coordinator. *)
Lemma counted_ends s :
  control_ok n s → p_recv s = Counted →
  p_run s = Returned ∧ length (p_slots s) = n ∧ Forall (λ x, x = Reported) (p_slots s).
Proof using.
  intros [_ [Hle Hlen] Hv] Hc. rewrite Hc in Hv. simpl in Hv. unfold sent in Hv.
  pose proof (reported_le (p_slots s)). case_decide as Hr; [|lia]. split; [done|].
  rewrite Hlen in * by (by rewrite Hr). split; [done|]. apply Forall_lookup_2.
  apply reported_all. rewrite Hlen by (by rewrite Hr). lia.
Qed.

Lemma nobody_writing s : Forall (λ x, x = Reported) (p_slots s) → ∀ k, ¬ writing s k.
Proof using. intros Hf k (i & w & Hi & _). by pose proof (Forall_lookup_1 _ _ _ _ Hf Hi). Qed.

(** Ten reduce tasks: the names with one digit are those of the outputs. *)
Lemma out_pattern_names x : out_pattern x → ∃ r, 0 <= r < 10 ∧ x = out_name r.
Proof using.
  intros (d & -> & Hd)%list_elem_of_fmap. exists (d - 0x30). apply elem_of_seqZ in Hd. split; [lia|].
  assert (H : Forall (λ d, "mr-out-" +:+ chr d = out_name (d - 0x30)) (seqZ 0x30 10))
    by (apply (bool_decide_unpack _); by vm_compute).
  rewrite Forall_forall in H. apply H, elem_of_seqZ. lia.
Qed.
End properties.

(** C4 The MapReduce tests pass: in every run of the processes of a test (with
    any number of workers, which crash in their applications at any time, are
    restarted by the test or not, and make calls that fail once the coordinator
    has gone), when [runMRchan] has returned the job is done, and unless a worker
    that was left running is just writing an output, [mergeOutput] and [runCmp]
    find the outputs equal to that of the sequential program. When the receiver of
    [TestEarlyExit] has sent on [c0], all workers have ended, and [runMRchan] has
    returned, so nobody is writing. *)
Theorem mr_tests_pass {L : Lo} {HL : LoLaws L} open app sock n mapf reducef files fs0 c ls s sort_by_key sort dir names read :
  job_ok mapf reducef files 10 fs0 → loadPlugin open app = Ret (mapf, reducef) →
  c = NoChannel ∨ c = Restarting ∨ c = Counting 0 → Forall p_range_ok ls →
  exec (p_step open app sock n) (runMRchan sock files fs0 c) ls s →
  p_recv s = Counted ∨ p_run s = Returned ∧ (∀ k, ¬ writing s k) →
  (∀ l, sorted_of (sort_by_key l) l) → (∀ l l', l ≡ₚ l' → sort l = sort l') →
  no_white dir = true → dir ≠ EmptyString → NoDup names →
  (∀ x, x ∈ names ↔ is_Some (mr_fs (p_job s) !! x) ∧ out_pattern x) →
  (∀ x, read (dir +:+ "/" +:+ x) = mr_fs (p_job s) !! x) →
  p_run s = Returned ∧ Done 0 (coord (mr_coord (p_job s))) = true ∧
  (p_recv s = Counted → length (p_slots s) = n ∧ Forall (λ x, x = Reported) (p_slots s)) ∧
  test_outputs sort (mrsequential reducef (mapf 0%nat) sort_by_key files fs0) (find_prints dir names) read = Ret tt.
Proof.
  intros Hjob Hload Hc Hr He Hend Hsk Hsort Hd Hne Hnd Hnames Hread.
  destruct (reachable _ _ _ _ _ _ _ _ _ _ _ Hjob Hload Hc Hr He) as [Hk Hco].
  assert (Hfin : p_run s = Returned ∧ ∀ k, ¬ writing s k).
  { destruct Hend as [Hrc|?]; [|done]. destruct (counted_ends _ _ Hco Hrc) as (? & _ & Hall). split; [done|]. by apply nobody_writing. }
  destruct Hfin as [Hret Hw]. pose proof (returned_done _ _ _ _ _ _ Hk Hco Hret) as Hdone.
  split; [done|]. split; [exact Hdone|]. split; [by intros (_ & ?)%(counted_ends _ _ Hco)|].
  destruct (jk_exec _ _ _ _ _ Hk) as (mls & Hmls & Hex).
  eapply (mr_test_passes mapf reducef files 10 fs0 mls (p_job s) 0 sort_by_key sort dir names read); try done.
  - unfold no_truncated_output. apply Forall_lookup_2. intros k jb Hlk Hat. by apply (Hw k), (jk_created _ _ _ _ _ Hk k jb).
  - intros x _. apply out_pattern_names.
Qed.

(** C20 What [TestEarlyExit] relies on: when the coordinator has created its socket
    within the second that [runMRchan] sleeps, and no worker crashes, then no
    process ends before the job is done: neither the coordinator nor any worker,
    whatever the receiver does; and the job stays done from the first end on. *)
Theorem nothing_exits_early {L : Lo} {HL : LoLaws L} open app sock n mapf reducef files fs0 c ls s ls' s' :
  job_ok mapf reducef files 10 fs0 → loadPlugin open app = Ret (mapf, reducef) →
  c = NoChannel ∨ c = Restarting ∨ c = Counting 0 →
  Forall p_range_ok (PServe :: ls ++ ls') → Forall (λ l, ¬ is_crash l) ls →
  exec (p_step open app sock n) (runMRchan sock files fs0 c) (PServe :: ls) s →
  exec (p_step open app sock n) s ls' s' →
  (∃ code, p_coord s = CExit code) ∨ (∃ i x, p_slots s !! i = Some x ∧ (x = Ended ∨ x = Reported)) →
  Done 0 (coord (mr_coord (p_job s))) = true ∧ Done 0 (coord (mr_coord (p_job s'))) = true.
Proof.
  intros Hjob Hload Hc Hr Hcr He He' Hend. apply Forall_cons in Hr as [_ [Hr Hr']%Forall_app].
  destruct (reachable open app sock n _ _ _ _ c (PServe :: ls) s Hjob Hload Hc ltac:(by constructor) He) as [Hk Hco].
  assert (Hdone : job_done (p_job s)).
  { inversion He as [|? ? s1 ? ? Hst Hex]; subst.
    assert (Hk1 : job_known mapf reducef files fs0 s1 ∧ early_ok s1).
    { split; [by eapply (job_known_step open app sock n); [..|done|apply job_known_init| |exact Hst]|].
      unfold p_step in Hst. simpl in Hst. case_decide; [|done]. injection Hst as <-. split; simpl; [by left|].
      unfold runMRchan. by destruct (mrcoordinator _). }
    destruct Hk1 as [Hk1 Heo].
    pose proof (early_ok_exec _ _ _ _ _ _ _ _ Hload _ _ _ Hjob Hr Hcr Hk1 Heo Hex) as [Hcs Hsl].
    destruct Hend as [[code Hcode]|(i & x & Hi & Hx)].
    - apply (jk_done _ _ _ _ _ Hk). rewrite Hcode in *. naive_solver.
    - specialize (Hsl i x Hi). by destruct Hx as [->| ->]. }
  split; [exact Hdone|]. clear He Hend Hco. induction He' as [|s l s1 ls' s2 Hst _ IH]; [done|].
  apply Forall_cons in Hr' as [Hl Hr']. apply IH; [done|by eapply job_known_step|by eapply job_done_step].
Qed.

(** ** A test run: word count by two workers, ten reduce tasks *)

Definition demo_open (f : string) : option (string → option symbol) :=
  if decide (f = "wc.so") then
    Some (λ name, if decide (name = "Map") then Some (SMap wc_mapf)
                  else if decide (name = "Reduce") then Some (SReduce wc.Reduce) else None)
  else None.

(** The next step of worker [i]; names of temporary files are numbered. *)
Definition drive (s : psys) (i : nat) : option plabel :=
  match p_slots s !! i with
  | Some (Running w) =>
      Some (match w_at w with
            | WCall _ _ => if decide (serving (p_coord s)) then PHandle i 0 0 else PCallFails i
            | WWait _ _ _ => if decide (serving (p_coord s)) then PReply i else PCallFails i
            | WMap _ _ => PRunMap i 0 ((λ k : nat, Some (Itoa (Z.of_nat (size (mr_fs (p_job s)) + k)))) <$> seq 0 10) map_to_list
            | WReduce _ => PRunReduce i map_to_list
            | WCreate _ => PCreate i true
            | WWrite _ => PWrite i
            end)
  | Some Ended => Some (PReceive i)
  | _ => None
  end.

(** Workers take turns for [fuel] steps, and then the coordinator. *)
Fixpoint driven (fuel : nat) (s : psys) : list plabel * psys :=
  match fuel with
  | O => ([], s)
  | Datatypes.S fuel =>
      match drive s (fuel mod 2) with
      | Some l =>
          match p_next demo_open "wc.so" "sock" 2 s l with
          | Some s' => let '(ls, s'') := driven fuel s' in (l :: ls, s'')
          | None => driven fuel s
          end
      | None => driven fuel s
      end
  end.

Definition demo_start : psys := runMRchan "sock" demo_files demo_fs (Counting 0).
Definition demo_begin : list plabel := [PServe; PStart; PStart].
Definition demo_after (ls : list plabel) : psys :=
  default demo_start (run (p_next demo_open "wc.so" "sock" 2) demo_start ls).
Definition demo_work : list plabel := (driven 260 (demo_after demo_begin)).1.
Definition demo_end : list plabel := [PPoll 0; PCoordExit; PWaitCoord; PSend].

Lemma demo_job_ok_10 : job_ok wc_mapf wc.Reduce demo_files 10 demo_fs.
Proof. destruct demo_job_ok as [_ H1 H2 H3 H4 H5]. by split. Qed.

Lemma procs_exec ls : is_Some (run (p_next demo_open "wc.so" "sock" 2) demo_start ls) →
  exec (p_step demo_open "wc.so" "sock" 2) demo_start ls (demo_after ls).
Proof. intros [s Hs]. apply (run_exec _ (p_next demo_open "wc.so" "sock" 2)); [done|]. unfold demo_after. by rewrite Hs. Qed.

(** Every range of the scheduler is [map_to_list]. *)
Lemma driven_range_ok fuel s : Forall p_range_ok (driven fuel s).1.
Proof.
  revert s. induction fuel as [|fuel IH]; intros s; [done|]. cbn [driven].
  destruct (drive s (fuel mod 2)) as [l|] eqn:Hd; [|done].
  destruct (p_next _ _ _ _ s l) as [s'|]; [|done].
  specialize (IH s'). destruct (driven fuel s') as [ls s'']. simpl in *. constructor; [|done].
  unfold drive in Hd. repeat case_match; simplify_eq/=; try done; by intros m.
Qed.

Lemma demo_range_ok : Forall p_range_ok (demo_begin ++ demo_work ++ demo_end).
Proof. apply Forall_app. split; [by repeat constructor|]. apply Forall_app. split; [apply driven_range_ok|by repeat constructor]. Qed.

Definition demo_all : list plabel := demo_begin ++ demo_work ++ demo_end.
Abbreviation demo_outs := (mr_fs (p_job (demo_after demo_all))).
Definition demo_found : list string := out_name <$> seqZ 0 10.
Definition demo_reader (path : string) : option string :=
  demo_outs !! String.substring 4 (String.length path - 4) path.

Lemma names_exact (fs : filesystem) names :
  Forall (λ y, is_Some (fs !! y) ∧ out_pattern y) names → Forall (λ y, out_pattern y → y ∈ names) (map_to_list fs).*1 →
  ∀ x, x ∈ names ↔ is_Some (fs !! x) ∧ out_pattern x.
Proof.
  intros Hin Hall x. rewrite Forall_forall in Hin, Hall. split; [apply Hin|]. intros [[v Hv] Hp]. apply Hall; [|exact Hp].
  apply list_elem_of_fmap. exists (x, v). split; [done|]. by apply elem_of_map_to_list.
Qed.

Lemma demo_found_1 : Forall (λ y, is_Some (demo_outs !! y) ∧ out_pattern y) demo_found.
Proof. apply (bool_decide_unpack _). vm_compute. exact I. Qed.
Lemma demo_found_2 : Forall (λ y, out_pattern y → y ∈ demo_found) (map_to_list demo_outs).*1.
Proof. apply (bool_decide_unpack _). vm_compute. exact I. Qed.

Lemma reads_files (fs : filesystem) x :
  fs !! String.substring 4 (String.length ("tmp" +:+ "/" +:+ x) - 4) ("tmp" +:+ "/" +:+ x) = fs !! x.
Proof. change (fs !! String.substring 0 (String.length x - 0) x = fs !! x). by rewrite substring_all by lia. Qed.

Lemma mr_tests_pass_witness :
  test_outputs sort_Strings (mrsequential wc.Reduce (wc_mapf 0%nat) sort_pairs demo_files demo_fs)
    (find_prints "tmp" demo_found) demo_reader = Ret tt.
Proof.
  refine (proj2 (proj2 (proj2 (mr_tests_pass demo_open "wc.so" "sock" 2 wc_mapf wc.Reduce demo_files demo_fs (Counting 0)
    demo_all (demo_after demo_all) sort_pairs sort_Strings "tmp" demo_found demo_reader demo_job_ok_10 _ _ demo_range_ok
    _ _ sort_pairs_ok sort_Strings_perm _ _ _ _ _)))).
  - exact eq_refl.
  - right. by right.
  - apply procs_exec. vm_compute. by eexists.
  - left. by vm_compute.
  - done.
  - done.
  - apply (bool_decide_unpack _). by vm_compute.
  - exact (names_exact _ demo_found demo_found_1 demo_found_2).
  - intros x. unfold demo_reader. apply reads_files.
Defined.

(** Both workers have seen that the job is done and have been reported, while the
    coordinator still runs. *)
Lemma nothing_exits_early_witness :
  p_coord (demo_after (demo_begin ++ demo_work)) = CServing ∧
  Done 0 (coord (mr_coord (p_job (demo_after (demo_begin ++ demo_work))))) = true ∧
  Done 0 (coord (mr_coord (p_job (demo_after (demo_begin ++ demo_work ++ demo_end))))) = true.
Proof.
  split; [by vm_compute|].
  apply (nothing_exits_early demo_open "wc.so" "sock" 2 wc_mapf wc.Reduce demo_files demo_fs (Counting 0)
    ([PStart; PStart] ++ demo_work) (demo_after (demo_begin ++ demo_work)) demo_end
    (demo_after (demo_begin ++ demo_work ++ demo_end))); [exact demo_job_ok_10|exact eq_refl|right; by right| | | | |].
  - rewrite <- app_assoc. exact demo_range_ok.
  - apply (bool_decide_unpack _). by vm_compute.
  - apply (procs_exec (demo_begin ++ demo_work)). vm_compute. by eexists.
  - apply (run_exec _ (p_next demo_open "wc.so" "sock" 2)); [done|]. by vm_compute.
  - right. exists 0%nat, Reported. split; [by vm_compute|by right].
Defined.
