(* ===== verification/Timing.v ===== *)
(** * Applications that look at each other: [mrapps/mtiming.go], [rtiming.go],
    [jobcount.go]

    These applications test how tasks are executed. While a worker executes a
    task it has a marker file in the working directory, with its process number
    in the name; it counts the markers of processes that are alive. The processes,
    the directory and the order in which it is listed are modelled; delays are
    not. *)

From Stdlib Require Import Ascii.
From stdpp Require Import pretty.
From S2P Require Import Prelude TaskManager Utf8 Json JsonInt MRApps.

Open Scope string_scope.
Open Scope list_scope.
Open Scope Z_scope.

(** ** Names *)

Inductive phase := PMap | PReduce.
#[export] Instance phase_eq_dec : EqDecision phase.
Proof. solve_decision. Defined.
Definition phase_name (ph : phase) : string := match ph with PMap => "map" | PReduce => "reduce" end.

Definition marker_prefix (ph : phase) : string := "mr-worker-" +:+ phase_name ph +:+ "-".
Definition marker (ph : phase) (pid : Z) : string := marker_prefix ph +:+ Itoa pid.

Fixpoint strip_prefix (p s : string) : option string :=
  match p, s with
  | EmptyString, _ => Some s
  | String c p, String c' s => if decide (c = c') then strip_prefix p s else None
  | String _ _, EmptyString => None
  end.

(** [%d]: an optional sign and at least one digit; what follows is not looked
    at. File names have no white space. *)
Definition scan_int (s : string) : option Z :=
  let '(neg, t) :=
    match s with
    | String c t => if decide (c = "-"%char) then (true, t) else if decide (c = "+"%char) then (false, t) else (false, s)
    | EmptyString => (false, s)
    end in
  match t with
  | EmptyString => None
  | String c _ =>
      _ ← digit_value c;
      let n := Z.of_N (decode_digits 0 t).1 in
      let v := if neg : bool then - n else n in
      if decide (- 2 ^ 63 <= v < 2 ^ 63) then Some v else None
  end.

(** [fmt.Sscanf(name, pat, &xpid)]; [None]: not one item, or an error. *)
Definition Sscanf (ph : phase) (name : string) : option Z := rest ← strip_prefix (marker_prefix ph) name; scan_int rest.

(** ** [nparallel] *)

(** Where a process is in [nparallel]: its marker is written; it goes through
    the names it read, and has counted [ret]; it sleeps; it has returned. [R] is
    not part of the program: the processes that had a marker when the directory
    was read. *)
Inductive pstate :=
| Idle
| Written (ph : phase)
| Scanning (ph : phase) (todo : list string) (ret : Z) (R : gset Z)
| Sleeping (ph : phase) (ret : Z) (R : gset Z)
| Returned (ph : phase) (ret : Z) (R : gset Z).

Definition inside (ph : phase) (st : pstate) : Prop :=
  match st with
  | Written ph' | Scanning ph' _ _ _ | Sleeping ph' _ _ => ph' = ph
  | Idle | Returned _ _ _ => False
  end.
#[export] Instance inside_dec ph st : Decision (inside ph st).
Proof. destruct st; simpl; apply _. Defined.

(** The live processes, all process numbers used so far, and the directory. *)
Record sys := mkSys { procs : gmap Z pstate; used : gset Z; files : gset string }.

Definition set_proc (p : Z) (st : pstate) (s : sys) : sys := mkSys (<[p := st]> (procs s)) (used s) (files s).
Definition insiders (ph : phase) (s : sys) : gset Z := dom (filter (λ x, inside ph x.2) (procs s)).

Inductive event :=
| Spawn (p : Z)
| Crash (p : Z)
| Other (f : string)                      (* some other file is created *)
| WriteFile (p : Z) (ph : phase)
| Readdirnames (p : Z) (names : list string)
| Look (p : Z)                            (* at the next name, or past the last *)
| Remove (p : Z).

Definition max_names : Z := 1000000.

Definition np_next (s : sys) (e : event) : option sys :=
  match e with
  | Spawn p => if decide ((p ∉ used s) ∧ 0 < p < 2 ^ 31) then Some (mkSys (<[p := Idle]> (procs s)) ({[p]} ∪ used s) (files s)) else None
  | Crash p => _ ← procs s !! p; Some (mkSys (delete p (procs s)) (used s) (files s))
  | Other f => if decide (Sscanf PMap f = None ∧ Sscanf PReduce f = None) then Some (mkSys (procs s) (used s) ({[f]} ∪ files s)) else None
  | WriteFile p ph =>
      st ← procs s !! p;
      match st with
      | Idle | Returned _ _ _ => Some (mkSys (<[p := Written ph]> (procs s)) (used s) ({[marker ph p]} ∪ files s))
      | _ => None
      end
  | Readdirnames p names =>
      st ← procs s !! p;
      match st with
      | Written ph =>
          if decide (names ≡ₚ elements (files s))
          then Some (set_proc p (Scanning ph (take (Z.to_nat max_names) names) 0 (insiders ph s)) s) else None
      | _ => None
      end
  | Look p =>
      st ← procs s !! p;
      match st with
      | Scanning ph [] ret R => Some (set_proc p (Sleeping ph ret R) s)
      | Scanning ph (name :: todo) ret R =>
          let alive := match Sscanf ph name with Some xpid => bool_decide (is_Some (procs s !! xpid)) | None => false end in
          Some (set_proc p (Scanning ph todo (if alive then ret + 1 else ret) R) s)
      | _ => None
      end
  | Remove p =>
      st ← procs s !! p;
      match st with
      | Sleeping ph ret R =>
          if decide (marker ph p ∈ files s)
          then Some (mkSys (<[p := Returned ph ret R]> (procs s)) (used s) (files s ∖ {[marker ph p]}))
          else Some (mkSys (delete p (procs s)) (used s) (files s))   (* panic *)
      | _ => None
      end
  end.
Definition np_step (s : sys) (e : event) (s' : sys) : Prop := np_next s e = Some s'.
Definition np_init : sys := mkSys ∅ ∅ ∅.

(** The function of this name in [rtiming.go] is the same. *)
Definition rtiming_nparallel : sys → event → option sys := np_next.

(** ** The applications *)

(** [ts] is the formatted time at which the call began. *)
Definition mtiming_Map (pid : Z) (ts : string) (n : Z) : list KeyValue :=
  [mkKeyValue ("times-" +:+ Itoa pid) ts; mkKeyValue ("parallel-" +:+ Itoa pid) (Itoa n)].
Definition mtiming_Reduce (key : string) (values : list string) : string := strings_Join (sort_Strings values) " ".

Definition rtiming_Map (filename contents : string) : list KeyValue :=
  (λ k, mkKeyValue k "1") <$> ["a"; "b"; "c"; "d"; "e"; "f"; "g"; "h"; "i"; "j"].
Definition rtiming_Reduce (n : Z) (key : string) (values : list string) : string := Itoa n.

(** ** [jobcount.go] *)

(** The count of each live process, the process numbers used and the directory. *)
Record jobs := mkJobs { count : gmap Z Z; j_used : gset Z; j_files : gset string }.

Definition job_prefix : string := "mr-worker-jobcount".
Definition job_file (pid count : Z) : string := job_prefix +:+ "-" +:+ Itoa pid +:+ "-" +:+ Itoa count.

Inductive job_event := JSpawn (p : Z) | JCrash (p : Z) | JMap (p : Z) | JOther (f : string).

Definition job_next (s : jobs) (e : job_event) : option jobs :=
  match e with
  | JSpawn p => if decide (p ∉ j_used s) then Some (mkJobs (<[p := 0]> (count s)) ({[p]} ∪ j_used s) (j_files s)) else None
  | JCrash p => _ ← count s !! p; Some (mkJobs (delete p (count s)) (j_used s) (j_files s))
  | JMap p => c ← count s !! p; Some (mkJobs (<[p := wrapS 64 (c + 1)]> (count s)) (j_used s) ({[job_file p c]} ∪ j_files s))
  | JOther f => if decide (strip_prefix job_prefix f = None) then Some (mkJobs (count s) (j_used s) ({[f]} ∪ j_files s)) else None
  end.
Definition job_step (s : jobs) (e : job_event) (s' : jobs) : Prop := job_next s e = Some s'.
Definition job_init : jobs := mkJobs ∅ ∅ ∅.

Definition jobcount_Map (filename contents : string) : list KeyValue := [mkKeyValue "a" "x"].

(** [invocations] of [Reduce], on the names [ReadDir] returns. *)
Definition invocations (names : list string) : Z :=
  Z.of_nat (length (filter (λ f, is_Some (strip_prefix job_prefix f)) names)).
Definition jobcount_Reduce (names : list string) : string := Itoa (invocations names).

(** ** Lemmas on names *)

Lemma strip_prefix_app p t : strip_prefix p (p +:+ t) = Some t.
Proof. induction p as [|c p IH]; [done|]. change (String c p +:+ t) with (String c (p +:+ t)). simpl. by rewrite decide_True. Qed.

Lemma scan_Itoa pid : 0 < pid < 2 ^ 31 → scan_int (Itoa pid) = Some pid.
Proof.
  intros Hp. destruct (pretty_nonneg pid) as (c & s & E & Hc & Hd); [lia|]. unfold scan_int, Itoa. rewrite E in *.
  assert (c ≠ "-"%char) by (intros ->; by apply Hc). assert (c ≠ "+"%char) by (intros ->; by apply Hc).
  rewrite !decide_False by done. destruct (digit_value c); [|done]. rewrite Hd. cbn [mbind option_bind fst].
  rewrite Z2N.id by lia. by rewrite decide_True by lia.
Qed.

Lemma Sscanf_marker ph pid : 0 < pid < 2 ^ 31 → Sscanf ph (marker ph pid) = Some pid.
Proof. intros Hp. unfold Sscanf, marker. rewrite strip_prefix_app. by apply scan_Itoa. Qed.

Lemma Sscanf_other ph ph' pid : ph ≠ ph' → Sscanf ph (marker ph' pid) = None.
Proof. intros Hne. unfold Sscanf, marker. by destruct ph, ph'. Qed.

(** ** What holds of the markers *)

Definition pid_ok (s : sys) (p : Z) : Prop := p ∈ used s ∧ 0 < p < 2 ^ 31.

(** A process that has counted [C] of the [R] it might find, with the names of
    [todo] to go: those who are alive are counted or still to be found. *)
Definition scan_ok (s : sys) (p : Z) (ph : phase) (todo : list string) (ret : Z) (R : gset Z) : Prop :=
  NoDup todo ∧ (∀ q, q ∈ R → pid_ok s q) ∧
  (∀ f x, f ∈ todo → Sscanf ph f = Some x → f = marker ph x ∧ pid_ok s x ∧ (is_Some (procs s !! x) → x ∈ R)) ∧
  ∃ C : gset Z, C ⊆ R ∧ ret = Z.of_nat (size C) ∧ (∀ q, q ∈ C → marker ph q ∉ todo) ∧
    ∀ q, q ∈ R → is_Some (procs s !! q) → q ∈ C ∨ marker ph q ∈ todo.

Definition state_ok (s : sys) (p : Z) (st : pstate) : Prop :=
  match st with
  | Idle | Written _ => True
  | Scanning ph todo ret R => p ∈ R ∧ scan_ok s p ph todo ret R
  | Sleeping ph ret R | Returned ph ret R => p ∈ R ∧ scan_ok s p ph [] ret R
  end.

(** With at most [n] more files the directory is not cut off when it is read. *)
Record np_ok (n : nat) (s : sys) : Prop := {
  nk_pid p st : procs s !! p = Some st → pid_ok s p;
  nk_marker p st ph : procs s !! p = Some st → (inside ph st ↔ marker ph p ∈ files s);
  nk_files f ph x : f ∈ files s → Sscanf ph f = Some x → f = marker ph x ∧ pid_ok s x;
  nk_state p st : procs s !! p = Some st → state_ok s p st;
  nk_size : Z.of_nat (size (files s)) + Z.of_nat n <= max_names
}.

Lemma marker_inj ph p ph' p' : 0 < p < 2 ^ 31 → 0 < p' < 2 ^ 31 → marker ph p = marker ph' p' → ph = ph' ∧ p = p'.
Proof.
  intros Hp Hp' E. assert (ph = ph') as <-.
  { destruct (decide (ph = ph')) as [|Hne]; [done|]. pose proof (Sscanf_other ph ph' p' Hne) as H.
    rewrite <- E, Sscanf_marker in H by done. done. }
  split; [done|]. pose proof (Sscanf_marker ph p Hp) as H. rewrite E, Sscanf_marker in H by done. congruence.
Qed.

(** No new process appears among those a scan is about. *)
Lemma scan_ok_mono s s' p ph todo ret R :
  scan_ok s p ph todo ret R → (∀ x, pid_ok s x → pid_ok s' x) →
  (∀ x, pid_ok s x → is_Some (procs s' !! x) → is_Some (procs s !! x)) → scan_ok s' p ph todo ret R.
Proof.
  intros (H1 & H2 & H3 & C & H4 & H5 & H6 & H7) Hpid Hal. split; [done|]. split; [auto|]. split.
  - intros f x Hf Hx. destruct (H3 f x Hf Hx) as (E & Hxp & Hr). split; [done|]. split; [auto|]. auto.
  - exists C. split; [done|]. split; [done|]. split; [done|]. intros q Hq Hqa. apply H7; auto.
Qed.

Lemma state_ok_mono s s' p st :
  state_ok s p st → (∀ x, pid_ok s x → pid_ok s' x) →
  (∀ x, pid_ok s x → is_Some (procs s' !! x) → is_Some (procs s !! x)) → state_ok s' p st.
Proof. intros H Hpid Hal. destruct st; simpl in *; try done; destruct H as [Hr H]; (split; [done|]; by eapply scan_ok_mono). Qed.

Lemma elem_of_insiders ph s q : q ∈ insiders ph s ↔ ∃ st, procs s !! q = Some st ∧ inside ph st.
Proof.
  unfold insiders. rewrite elem_of_dom. split.
  - intros [st [H1 H2]%map_lookup_filter_Some]. by exists st.
  - intros (st & H1 & H2). exists st. by apply map_lookup_filter_Some.
Qed.

(** The steps of a scan: reading the directory, and looking at a name. *)
Lemma scan_start n s p ph names :
  np_ok n s → procs s !! p = Some (Written ph) → names ≡ₚ elements (files s) →
  p ∈ insiders ph s ∧ scan_ok s p ph (take (Z.to_nat max_names) names) 0 (insiders ph s).
Proof.
  intros [K1 K2 K3 K4 K5] Hp Hn. split; [apply elem_of_insiders; by eexists|].
  assert (Hlen : length names = size (files s)) by (by rewrite Hn).
  rewrite take_ge by lia.
  assert (Hin : ∀ f, f ∈ names ↔ f ∈ files s) by (intros f; by rewrite Hn, elem_of_elements).
  split; [rewrite Hn; apply NoDup_elements|]. split; [intros q (st & Hq & _)%elem_of_insiders; by eapply K1|]. split.
  - intros f x Hf Hx. apply Hin in Hf. destruct (K3 f ph x Hf Hx) as [-> Hxp]. split; [done|]. split; [done|].
    intros [st Hst]. apply elem_of_insiders. exists st. split; [done|]. by apply (K2 x st ph Hst).
  - exists ∅. split; [set_solver|]. split; [by rewrite size_empty|]. split; [set_solver|].
    intros q (st & Hst & Hi)%elem_of_insiders _. right. apply Hin. by apply (K2 q st ph Hst).
Qed.

Lemma scan_look s p ph name todo ret R :
  scan_ok s p ph (name :: todo) ret R →
  scan_ok s p ph todo
    (if match Sscanf ph name with Some x => bool_decide (is_Some (procs s !! x)) | None => false end then ret + 1 else ret) R.
Proof.
  intros ([Hn Hnd]%NoDup_cons & H2 & H3 & C & H4 & -> & H6 & H7).
  split; [done|]. split; [done|]. split; [intros f x Hf; apply H3; by right|].
  destruct (Sscanf ph name) as [x|] eqn:Hx.
  2: { exists C. split; [done|]. split; [done|]. split; [intros q Hq ?; apply (H6 q Hq); by right|].
    intros q Hq Ha. destruct (H7 q Hq Ha) as [?|[E|?]%elem_of_cons]; [by left| |by right].
    rewrite <- E, Sscanf_marker in Hx by apply (H2 q Hq). done. }
  destruct (H3 name x ltac:(left) Hx) as (E & Hxp & Hxr). case_bool_decide as Ha.
  - assert (HxC : x ∉ C) by (intros HC; apply (H6 x HC); rewrite E; by left).
    exists ({[x]} ∪ C). split; [specialize (Hxr Ha); set_solver|].
    split; [rewrite size_union, size_singleton by set_solver; lia|]. split.
    + intros q [->%elem_of_singleton|Hq]%elem_of_union; [congruence|]. intros ?. apply (H6 q Hq). by right.
    + intros q Hq Hqa. destruct (H7 q Hq Hqa) as [?|[Eq|?]%elem_of_cons]; [left; set_solver| |by right].
      left. rewrite E in Eq. apply marker_inj in Eq as [_ ->]; [set_solver|apply (H2 q Hq)|apply Hxp].
  - exists C. split; [done|]. split; [done|]. split; [intros q Hq ?; apply (H6 q Hq); by right|].
    intros q Hq Hqa. destruct (H7 q Hq Hqa) as [?|[Eq|?]%elem_of_cons]; [by left| |by right].
    exfalso. apply Ha. rewrite E in Eq. apply marker_inj in Eq as [_ ->]; [done|apply (H2 q Hq)|apply Hxp].
Qed.

(** A step of one process that leaves the directory alone. *)
Lemma set_proc_ok n s p st st' :
  np_ok (S n) s → procs s !! p = Some st → (∀ ph, inside ph st' ↔ inside ph st) → state_ok s p st' → np_ok n (set_proc p st' s).
Proof.
  intros [K1 K2 K3 K4 K5] Hp Hi Hst.
  assert (Hmono : ∀ q t, state_ok s q t → state_ok (set_proc p st' s) q t).
  { intros q t Ht. apply (state_ok_mono s); [done|done|]. cbn [set_proc procs]. intros x _.
    destruct (decide (x = p)) as [->|]; [by rewrite Hp | by rewrite lookup_insert_ne]. }
  split; cbn [set_proc procs used files]; [| |done| |lia].
  - intros q t [[<- _]|[_ Hq]]%lookup_insert_Some; [exact (K1 p st Hp) | exact (K1 q t Hq)].
  - intros q t ph [[<- <-]|[_ Hq]]%lookup_insert_Some; [rewrite Hi; by apply K2 | by apply K2].
  - intros q t [[<- <-]|[_ Hq]]%lookup_insert_Some; apply Hmono; [done | by apply K4].
Qed.

Lemma size_add (f : string) (X : gset string) : (size ({[f]} ∪ X) <= S (size X))%nat.
Proof. rewrite size_union_alt, size_singleton. pose proof (subseteq_size (X ∖ {[f]}) X ltac:(set_solver)). lia. Qed.

(** A step that changes the directory. *)
Lemma write_ok n s p ph st :
  np_ok (S n) s → procs s !! p = Some st → (∀ ph', ¬ inside ph' st) →
  np_ok n (mkSys (<[p := Written ph]> (procs s)) (used s) ({[marker ph p]} ∪ files s)).
Proof.
  intros [K1 K2 K3 K4 K5] Hp Hst. pose proof (K1 p st Hp) as Hpid.
  split; cbn [procs used files].
  - intros q t [[<- _]|[_ Hq]]%lookup_insert_Some; [exact Hpid | exact (K1 q t Hq)].
  - intros q t ph' [[<- <-]|[Hne Hq]]%lookup_insert_Some; rewrite elem_of_union, elem_of_singleton.
    + simpl. split; [intros <-; by left|]. intros [E|Hf]; [by apply marker_inj in E as [-> _]; try apply Hpid|].
      exfalso. by apply (Hst ph'), (K2 p st ph' Hp).
    + rewrite (K2 q t ph' Hq). split; [by right|]. intros [E|?]; [|done]. exfalso.
      apply marker_inj in E as [_ ->]; [done|apply (K1 q t Hq)|apply Hpid].
  - intros f ph' x. rewrite elem_of_union, elem_of_singleton. intros [->|Hf] Hx; [|by apply K3].
    destruct (decide (ph' = ph)) as [->|Hne]; [|by rewrite (Sscanf_other ph' ph p Hne) in Hx].
    rewrite Sscanf_marker in Hx by apply Hpid. injection Hx as <-. by split.
  - intros q t [[<- <-]|[_ Hq]]%lookup_insert_Some; [done|]. apply (state_ok_mono s); [by apply K4|done|]. cbn [procs].
    intros x _. destruct (decide (x = p)) as [->|]; [by rewrite Hp | by rewrite lookup_insert_ne].
  - pose proof (size_add (marker ph p) (files s)). lia.
Qed.

Lemma remove_ok n s p ph ret R :
  np_ok (S n) s → procs s !! p = Some (Sleeping ph ret R) →
  np_ok n (mkSys (<[p := Returned ph ret R]> (procs s)) (used s) (files s ∖ {[marker ph p]})).
Proof.
  intros [K1 K2 K3 K4 K5] Hp. pose proof (K1 _ _ Hp) as Hpid.
  assert (Hmono : ∀ q t, state_ok s q t → state_ok (mkSys (<[p := Returned ph ret R]> (procs s)) (used s) (files s ∖ {[marker ph p]})) q t).
  { intros q t Ht. apply (state_ok_mono s); [done|done|]. cbn [procs]. intros x _.
    destruct (decide (x = p)) as [->|]; [by rewrite Hp | by rewrite lookup_insert_ne]. }
  split; cbn [procs used files].
  - intros q t [[<- _]|[_ Hq]]%lookup_insert_Some; [exact Hpid | exact (K1 q t Hq)].
  - intros q t ph' [[<- <-]|[Hne Hq]]%lookup_insert_Some; rewrite elem_of_difference, elem_of_singleton.
    + simpl. split; [done|]. intros [Hf Hne]. apply Hne. apply (K2 p _ ph' Hp) in Hf. simpl in Hf. by subst ph'.
    + rewrite (K2 q t ph' Hq). split; [|by intros [? _]]. intros Hf. split; [done|]. intros E.
      apply marker_inj in E as [_ ->]; [done|apply (K1 q t Hq)|apply Hpid].
  - intros f ph' x [Hf _]%elem_of_difference. by apply K3.
  - intros q t [[<- <-]|[_ Hq]]%lookup_insert_Some; apply Hmono; [exact (K4 _ _ Hp) | by apply K4].
  - pose proof (subseteq_size (files s ∖ {[marker ph p]}) (files s)) as Hsz. specialize (Hsz ltac:(set_solver)). lia.
Qed.

Lemma np_ok_step n s e s' : np_ok (S n) s → np_step s e s' → np_ok n s'.
Proof.
  intros K Hst. unfold np_step in Hst. destruct e as [p|p|f|p ph|p names|p|p]; cbn [np_next] in Hst.
  - case_decide as Hd; [|done]. injection Hst as <-. destruct Hd as [Hp Hr]. destruct K as [K1 K2 K3 K4 K5].
    assert (Hnew : ∀ x, pid_ok s x → x ≠ p) by (intros x [Hx _] ->; done).
    assert (Hpid : ∀ x, pid_ok s x → pid_ok (mkSys (<[p := Idle]> (procs s)) ({[p]} ∪ used s) (files s)) x)
      by (intros x [Hx ?]; split; [cbn; set_solver | done]).
    split; cbn [procs used files].
    + intros q t [[<- _]|[_ Hq]]%lookup_insert_Some; [split; [cbn; set_solver | done] | by eapply Hpid, K1].
    + intros q t ph [[<- <-]|[_ Hq]]%lookup_insert_Some; [|by apply K2]. split; [done|]. intros Hf.
      destruct (K3 _ ph p Hf (Sscanf_marker ph p Hr)) as [_ Hx]. by destruct (Hnew p Hx).
    + intros f ph x Hf Hx. destruct (K3 f ph x Hf Hx). auto.
    + intros q t [[<- <-]|[_ Hq]]%lookup_insert_Some; [done|]. apply (state_ok_mono s); [by apply K4|done|]. cbn [procs].
      intros x Hx. by rewrite lookup_insert_ne by (intros ->; by apply (Hnew x Hx)).
    + lia.
  - apply bind_Some in Hst as (st & Hp & [= <-]). destruct K as [K1 K2 K3 K4 K5]. split; cbn [procs used files]; [| |done| |lia].
    + intros q t [_ Hq]%lookup_delete_Some. by eapply K1.
    + intros q t ph [_ Hq]%lookup_delete_Some. by apply K2.
    + intros q t [_ Hq]%lookup_delete_Some. apply (state_ok_mono s); [by apply K4|done|]. cbn [procs].
      intros x _ [u [_ Hu]%lookup_delete_Some]. by exists u.
  - case_decide as Hd; [|done]. injection Hst as <-. destruct K as [K1 K2 K3 K4 K5]. split; cbn [procs used files]; [done| | |done|].
    + intros q t ph Hq. rewrite (K2 q t ph Hq), elem_of_union, elem_of_singleton. split; [by right|]. intros [E|?]; [|done].
      exfalso. subst f. destruct (K1 q t Hq) as [_ Hr]. pose proof (Sscanf_marker ph q Hr). destruct Hd, ph; congruence.
    + intros g ph x. rewrite elem_of_union, elem_of_singleton. intros [->|Hg] Hx; [|by apply K3]. destruct Hd, ph; congruence.
    + pose proof (size_add f (files s)). lia.
  - apply bind_Some in Hst as (st & Hp & Hst). destruct st; try done; injection Hst as <-; by eapply write_ok; eauto.
  - apply bind_Some in Hst as (st & Hp & Hst). destruct st as [|ph| | |]; try done. case_decide as Hn; [|done]. injection Hst as <-.
    eapply set_proc_ok; [done|done|done|]. by apply (scan_start (S n)).
  - apply bind_Some in Hst as (st & Hp & Hst). destruct st as [| |ph [|name todo] ret R| |]; try done; injection Hst as <-;
      pose proof (nk_state _ _ K _ _ Hp) as [Hr Hs]; (eapply set_proc_ok; [done|done|done|]); split; [done|done|done|by apply scan_look].
  - apply bind_Some in Hst as (st & Hp & Hst). destruct st as [| | |ph ret R|]; try done.
    rewrite decide_True in Hst by (by apply (nk_marker _ _ K p _ ph Hp)). injection Hst as <-. by apply remove_ok.
Qed.

(** ** What holds of the count of invocations *)

Lemma job_file_inj p c p' c' : job_file p c = job_file p' c' → p = p' ∧ c = c'.
Proof.
  unfold job_file. intros H%(inj _)%(inj _).
  assert (E : ∀ z j : Z, decode_int (encode_int z +:+ ("-" +:+ pretty j)) = Some (z, "-" +:+ pretty j)).
  { intros. by apply decode_encode_int. }
  pose proof (E p c) as H1. pose proof (E p' c') as H2. unfold encode_int, Itoa in *. rewrite H in H1.
  rewrite H1 in H2. injection H2 as Hp Hc. split; [congruence | by apply (inj pretty)].
Qed.

Definition is_job (f : string) : Prop := is_Some (strip_prefix job_prefix f).
Definition is_map (e : job_event) : Prop := match e with JMap _ => True | _ => False end.
#[export] Instance is_map_dec e : Decision (is_map e).
Proof. destruct e; simpl; apply _. Defined.
Definition maps (ls : list job_event) : Z := Z.of_nat (length (filter is_map ls)).

(** After [k] maps. *)
Record jobs_ok (k : Z) (s : jobs) : Prop := {
  jk_count p c : count s !! p = Some c → p ∈ j_used s ∧ 0 <= c <= k;
  jk_files f : f ∈ j_files s → is_job f → ∃ p c, f = job_file p c ∧ p ∈ j_used s ∧ ∀ c', count s !! p = Some c' → c < c';
  jk_size : Z.of_nat (size (filter is_job (j_files s))) = k
}.

Lemma is_job_file p c : is_job (job_file p c).
Proof. unfold is_job, job_file. rewrite strip_prefix_app. by eexists. Qed.

Lemma jobs_ok_step k s e s' :
  0 <= k < 2 ^ 63 - 1 → jobs_ok k s → job_step s e s' → jobs_ok (k + if decide (is_map e) then 1 else 0) s'.
Proof.
  intros Hk [K1 K2 K3] Hst. unfold job_step in Hst. destruct e as [p|p|p|f]; cbn [job_next] in Hst; cbn [is_map].
  - rewrite decide_False, Z.add_0_r by tauto. case_decide as Hp; [|done]. injection Hst as <-. split; cbn [count j_used j_files]; [| |done].
    + intros q c [[<- <-]|[_ Hq]]%lookup_insert_Some; [split; [set_solver | lia]|]. destruct (K1 q c Hq). split; [set_solver | done].
    + intros f Hf Hj. destruct (K2 f Hf Hj) as (q & c & E & Hq & Hc). exists q, c. split; [done|]. split; [set_solver|].
      intros c' [[<- _]|[_ Hq']]%lookup_insert_Some; [done | by apply Hc].
  - rewrite decide_False, Z.add_0_r by tauto. apply bind_Some in Hst as (c0 & Hp & [= <-]). split; cbn [count j_used j_files]; [| |done].
    + intros q c [_ Hq]%lookup_delete_Some. by apply K1.
    + intros f Hf Hj. destruct (K2 f Hf Hj) as (q & c & E & Hq & Hc). exists q, c. split; [done|]. split; [done|].
      intros c' [_ Hq']%lookup_delete_Some. by apply Hc.
  - rewrite decide_True by done. apply bind_Some in Hst as (c & Hp & [= <-]). destruct (K1 p c Hp) as [Hu Hc].
    rewrite wrapS_small by lia.
    assert (Hnew : job_file p c ∉ j_files s).
    { intros Hf. destruct (K2 _ Hf (is_job_file p c)) as (q & c' & [-> ->]%job_file_inj & _ & Hlt). specialize (Hlt c' Hp). lia. }
    split; cbn [count j_used j_files].
    + intros q d [[<- <-]|[_ Hq]]%lookup_insert_Some; [split; [done | lia]|]. destruct (K1 q d Hq). split; [done | lia].
    + intros f [->%elem_of_singleton|Hf]%elem_of_union Hj.
      * exists p, c. split; [done|]. split; [done|]. intros c'. rewrite lookup_insert_eq. intros [= <-]. lia.
      * destruct (K2 f Hf Hj) as (q & d & E & Hq & Hd). exists q, d. split; [done|]. split; [done|].
        intros c' [[<- <-]|[_ Hq']]%lookup_insert_Some; [specialize (Hd c Hp); lia | by apply Hd].
    + assert (E : filter is_job ({[job_file p c]} ∪ j_files s) = {[job_file p c]} ∪ filter is_job (j_files s)).
      { apply set_eq. intros f. rewrite elem_of_union, !elem_of_filter, elem_of_union, elem_of_singleton.
        pose proof (is_job_file p c). naive_solver. }
      rewrite E, size_union, size_singleton; [lia|]. intros f ->%elem_of_singleton [_ Hf]%elem_of_filter. done.
  - rewrite decide_False, Z.add_0_r by tauto. case_decide as Hn; [|done]. injection Hst as <-. split; cbn [count j_used j_files]; [done| |].
    + intros g [->%elem_of_singleton|Hg]%elem_of_union Hj; [destruct Hj as [? ?]; congruence | by apply K2].
    + rewrite <- K3. do 2 f_equal. apply set_eq. intros g. rewrite !elem_of_filter, elem_of_union, elem_of_singleton.
      split; [|tauto]. intros [Hj [->|Hg]]; [|done]. destruct Hj as [? ?]. congruence.
Qed.

Lemma jobs_ok_exec k s ls s' :
  exec job_step s ls s' → 0 <= k → k + Z.of_nat (length ls) < 2 ^ 63 → jobs_ok k s → jobs_ok (k + maps ls) s'.
Proof.
  intros H. revert k. induction H as [s|s e s1 ls s2 Hst _ IH]; intros k H0 Hk Hs.
  { unfold maps. rewrite filter_nil. simpl. by rewrite Z.add_0_r. }
  cbn [length] in Hk. pose proof (jobs_ok_step k s e s1 ltac:(lia) Hs Hst) as H1. unfold maps.
  destruct (decide (is_map e)) as [He|He].
  - rewrite filter_cons_True by done. cbn [length]. specialize (IH (k + 1) ltac:(lia) ltac:(lia) H1). unfold maps in IH.
    by replace (k + Z.of_nat (S (length (filter is_map ls)))) with (k + 1 + Z.of_nat (length (filter is_map ls))) by lia.
  - rewrite filter_cons_False by done. rewrite Z.add_0_r in H1. apply IH; [done|lia|done].
Qed.

Lemma invocations_size s names :
  names ≡ₚ elements (j_files s) → invocations names = Z.of_nat (size (filter is_job (j_files s))).
Proof.
  intros Hn. unfold invocations. fold is_job. f_equal. rewrite Hn. apply Permutation_length, NoDup_Permutation.
  - apply NoDup_filter, NoDup_elements.
  - apply NoDup_elements.
  - intros f. rewrite list_elem_of_filter, !elem_of_elements, elem_of_filter. done.
Qed.

(** ** Properties *)

(** C40 What [nparallel] counts is real parallelism: when it returns [ret], there
    is a set of [ret] processes, the caller among them, that were all inside
    [nparallel] for this phase at the moment the caller read the directory, and
    none of the others inside at that moment has survived: markers that crashed
    workers left behind are not counted. Removing the marker never fails. *)
Theorem parallelism_is_real ls s :
  Z.of_nat (length ls) <= max_names → exec np_step np_init ls s →
  (∀ p ph ret R, procs s !! p = Some (Returned ph ret R) →
    ∃ C : gset Z, C ⊆ R ∧ p ∈ R ∧ ret = Z.of_nat (size C) ∧ (∀ q, q ∈ R → is_Some (procs s !! q) → q ∈ C)) ∧
  (∀ p names s' ph, np_step s (Readdirnames p names) s' → procs s !! p = Some (Written ph) →
    ∃ todo, procs s' !! p = Some (Scanning ph todo 0 (insiders ph s))) ∧
  ∀ p ph ret R, procs s !! p = Some (Sleeping ph ret R) → marker ph p ∈ files s.
Proof.
  intros Hlen Hex. assert (K : np_ok 0 s).
  { eapply (exec_preserves_bounded _ np_ok); [apply np_ok_step | | exact Hex]. split; cbn [np_init procs used files].
    - intros p st Hp. by rewrite lookup_empty in Hp.
    - intros p st ph Hp. by rewrite lookup_empty in Hp.
    - intros f ph x Hf. by apply elem_of_empty in Hf.
    - intros p st Hp. by rewrite lookup_empty in Hp.
    - rewrite size_empty. lia. }
  split; [|split].
  - intros p ph ret R Hp. destruct (nk_state _ _ K _ _ Hp) as [Hr (_ & _ & _ & C & H1 & H2 & _ & H4)]. exists C.
    split; [done|]. split; [done|]. split; [done|]. intros q Hq Ha. destruct (H4 q Hq Ha) as [?|?%elem_of_nil]; done.
  - intros p names s' ph Hst Hp. unfold np_step in Hst. cbn [np_next] in Hst. rewrite Hp in Hst. cbn [mbind option_bind] in Hst.
    case_decide; [|done]. injection Hst as <-. eexists. cbn [set_proc procs]. apply lookup_insert_eq.
  - intros p ph ret R Hp. by apply (nk_marker _ _ K p _ ph Hp).
Qed.

(** [jobcount]'s [Reduce] returns the number of times [Map] was called, in
    all workers, also those that crashed, provided process numbers are not used
    twice. *)
Theorem jobcount_exact ls s names :
  Z.of_nat (length ls) < 2 ^ 63 - 1 → exec job_step job_init ls s → names ≡ₚ elements (j_files s) →
  jobcount_Reduce names = Itoa (maps ls).
Proof.
  intros Hlen Hex Hn. unfold jobcount_Reduce. rewrite (invocations_size s names Hn). f_equal.
  destruct (jobs_ok_exec 0 job_init ls s Hex) as [_ _ H]; [lia|lia| |by rewrite H].
  split; cbn [job_init count j_used j_files]; [intros p c Hp; by rewrite lookup_empty in Hp | intros f Hf; by apply elem_of_empty in Hf|].
  done.
Qed.

(** ** Two workers in parallel, after a third has crashed *)

Definition two_workers : list event :=
  [Spawn 7; Spawn 8; Spawn 9; Other "mr-out-0"; WriteFile 9 PMap; WriteFile 7 PMap; WriteFile 8 PMap; Crash 9;
   Readdirnames 7 ["mr-worker-map-7"; "mr-worker-map-8"; "mr-out-0"; "mr-worker-map-9"]; Look 7; Look 7; Look 7; Look 7; Look 7; Remove 7].
Definition two_workers_end : sys := default np_init (run np_next np_init two_workers).

Lemma parallelism_is_real_witness : ∃ C : gset Z, C ⊆ {[7; 8]} ∧ 2 = Z.of_nat (size C).
Proof.
  destruct (parallelism_is_real two_workers two_workers_end) as [H _].
  - vm_compute. discriminate.
  - apply (run_exec _ np_next); [intros a b c E; exact E | vm_compute; reflexivity].
  - destruct (H 7 PMap 2 {[7; 8]}) as (C & H1 & _ & H2 & _); [vm_compute; reflexivity|]. exists C. split; [exact H1 | exact H2].
Defined.

Definition three_maps : list job_event := [JSpawn 4; JMap 4; JMap 4; JSpawn 5; JOther "mr-out-0"; JMap 5; JCrash 4].

Lemma jobcount_exact_witness :
  jobcount_Reduce ["mr-worker-jobcount-5-0"; "mr-out-0"; "mr-worker-jobcount-4-1"; "mr-worker-jobcount-4-0"] = "3".
Proof.
  rewrite (jobcount_exact three_maps (default job_init (run job_next job_init three_maps))).
  - vm_compute. reflexivity.
  - vm_compute. reflexivity.
  - apply (run_exec _ job_next); [intros a b c E; exact E | vm_compute; reflexivity].
  - apply (bool_decide_unpack _). vm_compute. exact I.
Defined.
