(* ===== verification/MRPatterns.v ===== *)
(** * Patterns in the MapReduce tests: [mr/util.go]

    Some MapReduce tests judge a job by patterns in its outputs:
    those that observe the workers ([Timing]) count how often a regular
    expression matches in the outputs. The regular expressions
    the tests use, and the verdicts of [TestMapParallel], [TestReduceParallel] and
    [TestJobCount] of [mr/mr_test.go] are modelled. *)

From Stdlib Require Import Ascii.
From stdpp Require Import pretty sorting.
From S2P Require Import Prelude Config TaskManager Utf8 Json JsonInt MRApps Sequential MRTest Timing.

Open Scope string_scope.
Open Scope list_scope.
Open Scope Z_scope.

(** ** Regular expressions *)

(** The expressions of the tests are sequences of characters, ranges of
    characters, and [.*], and begin with one of the former two. *)
Inductive item := Chr (c : ascii) | Range (lo hi : ascii) | DotStar.

Definition in_range (lo hi c : ascii) : bool := bool_decide (byte_of lo <= byte_of c <= byte_of hi).

(** Characters with a meaning of their own. *)
Definition meta (c : ascii) : bool := existsb (λ m, bool_decide (c = m)) 
  ["\"%char; "."%char; "+"%char; "*"%char; "?"%char; "("%char; ")"%char; "|"%char; "["%char; "]"%char; "{"%char; "}"%char; "^"%char; "$"%char].

Fixpoint compile_items (p : string) : option (list item) :=
  match p with
  | EmptyString => Some []
  | String "["%char (String lo (String "-"%char (String hi (String "]"%char p)))) => cons (Range lo hi) <$> compile_items p
  | String "."%char (String "*"%char p) => cons DotStar <$> compile_items p
  | String c p => if meta c then None else cons (Chr c) <$> compile_items p
  end.

(** [regexp.Compile]; [None] for what the tests do not use. *)
Definition Compile (p : string) : option (list item) :=
  re ← compile_items p; match re with (Chr _ | Range _ _) :: _ => Some re | _ => None end.

(** The leftmost match prefers more characters for [.*]: the lengths are tried from
    the longest one, which ends at the end of the line, downwards. *)
Fixpoint star (k : string → option nat) (s : string) : option nat :=
  match s with
  | String c t =>
      if decide (c = newline) then k s
      else match star k t with Some n => Some (S n) | None => k s end
  | EmptyString => k s
  end.

(** The length of the match at the beginning of [s]. *)
Fixpoint match_len (re : list item) (s : string) : option nat :=
  match re with
  | [] => Some 0%nat
  | Chr c :: re => match s with String c' t => if decide (c = c') then S <$> match_len re t else None | EmptyString => None end
  | Range lo hi :: re => match s with String c t => if in_range lo hi c then S <$> match_len re t else None | EmptyString => None end
  | DotStar :: re => star (match_len re) s
  end.

(** The number of matches that do not overlap, [len(re.FindAllString(s, -1))]; the
    first [skip] characters belong to the last match. *)
Fixpoint count_matches (re : list item) (skip : nat) (s : string) : Z :=
  match s with
  | EmptyString => 0
  | String c t =>
      match skip with
      | S skip => count_matches re skip t
      | O => match match_len re s with
             | Some (S n) => 1 + count_matches re n t
             | _ => count_matches re 0 t
             end
      end
  end.

Section count.
Context (read : string → option string).
Definition countPatternFile (f p : string) : outcome Z :=
  match read f with
  | None => Fatal
  | Some data => match Compile p with None => Fatal | Some re => Ret (count_matches re 0 data) end
  end.
Fixpoint count_files (files : list string) (p : string) (n : Z) : outcome Z :=
  match files with
  | [] => Ret n
  | f :: files => m ← countPatternFile f p; count_files files p (wrapS 64 (n + m))
  end.
Definition countPattern (files : list string) (p : string) : outcome Z := count_files files p 0.

(** The verdicts of the tests, on the files [findFiles(tmp, "mr-out*")]. *)
Definition TestMapParallel (files : list string) : outcome unit :=
  n ← countPattern files "times-";
  if decide (n ≠ 2) then Fatal
  else n ← countPattern files "parallel.*"; if decide (n = 0) then Fatal else Ret tt.
Definition TestReduceParallel (files : list string) : outcome unit :=
  n ← countPattern files "[a-z] 2"; if decide (n < 2) then Fatal else Ret tt.
Definition TestJobCount (files : list string) : outcome unit :=
  n ← countPattern files "a 8"; if decide (n ≠ 1) then Fatal else Ret tt.
End count.

Example patterns :
  (λ p, count_matches (default [] (Compile p)) 0 "parallel-12 2" ) <$> ["parallel.*"; "[a-z] 2"; "l"; "[0-9] 2"; "-1.*"] = [1; 0; 3; 1; 1].
Proof. vm_compute. reflexivity. Qed.

(** ** A pattern on lines *)

Fixpoint all_chars (P : ascii → bool) (s : string) : bool :=
  match s with EmptyString => true | String c t => P c && all_chars P t end.
Abbreviation no_newline := (all_chars (λ c, negb (bool_decide (c = newline)))).

(** No item matches the end of a line. *)
Definition item_ok (i : item) : bool :=
  match i with Chr c => negb (bool_decide (c = newline)) | Range lo hi => negb (in_range lo hi newline) | DotStar => true end.

Lemma match_len_line re s t :
  forallb item_ok re = true → no_newline s = true → match_len re (s +:+ String newline t) = match_len re s.
Proof.
  revert s. induction re as [|i re IH]; intros s; [done|]. cbn [forallb]. intros [Hi Hre]%andb_prop Hs.
  destruct i as [c|lo hi|]; cbn [match_len item_ok] in *.
  - destruct s as [|c' s].
    + change (EmptyString +:+ ?x) with x. apply negb_true_iff, bool_decide_eq_false in Hi. cbv beta iota. by rewrite decide_False.
    + change (String c' s +:+ ?x) with (String c' (s +:+ x)). cbn [all_chars] in Hs. apply andb_prop in Hs as [_ Hs]. cbv beta iota. by rewrite IH.
  - destruct s as [|c' s].
    + change (EmptyString +:+ ?x) with x. apply negb_true_iff in Hi. cbv beta iota. by rewrite Hi.
    + change (String c' s +:+ ?x) with (String c' (s +:+ x)). cbn [all_chars] in Hs. apply andb_prop in Hs as [_ Hs]. cbv beta iota. by rewrite IH.
  - induction s as [|c s IHs].
    + change (EmptyString +:+ ?x) with x. cbn [star]. rewrite decide_True by done. exact (IH EmptyString Hre Hs).
    + pose proof Hs as Hs'. cbn [all_chars] in Hs'. apply andb_prop in Hs' as [Hc Hs'].
      apply negb_true_iff, bool_decide_eq_false in Hc. specialize (IH (String c s) Hre Hs).
      change (String c s +:+ ?x) with (String c (s +:+ x)) in IH |- *. cbn [star]. rewrite !decide_False by done. by rewrite IHs, IH.
Qed.

Lemma match_len_bound re s n : match_len re s = Some n → (n <= String.length s)%nat.
Proof.
  revert s n. induction re as [|i re IH]; intros s n; cbn [match_len]; [intros [= <-]; lia|]. destruct i as [c|lo hi|].
  - destruct s as [|c' s]; [done|]. case_decide; [|done]. intros (m & Hm & ->)%fmap_Some. apply IH in Hm. cbn. lia.
  - destruct s as [|c' s]; [done|]. destruct (in_range lo hi c'); [|done]. intros (m & Hm & ->)%fmap_Some. apply IH in Hm. cbn. lia.
  - revert n. induction s as [|c s IHs]; intros n; cbn [star]; [apply IH|]. case_decide; [apply IH|].
    destruct (star (match_len re) s) as [m|]; [|apply IH]. intros [= <-]. specialize (IHs m eq_refl). cbn. lia.
Qed.

(** What a match may begin with; a pattern of the tests does not begin at the end of
    a line. *)
Definition begins (re : list item) (c : ascii) : bool :=
  match re with Chr c' :: _ => bool_decide (c = c') | Range lo hi :: _ => in_range lo hi c | _ => true end.
Definition line_pattern (re : list item) : bool := forallb item_ok re && negb (begins re newline).

Lemma begins_match re c t n : match_len re (String c t) = Some (S n) → begins re c = true.
Proof.
  destruct re as [|[c'|lo hi|] re]; cbn [match_len begins]; [done| | |done].
  - case_decide; [|done]. intros _. by apply bool_decide_eq_true.
  - by destruct (in_range lo hi c).
Qed.

Lemma count_line re skip s t :
  line_pattern re = true → no_newline s = true → (skip <= String.length s)%nat →
  count_matches re skip (s +:+ String newline t) = count_matches re skip s + count_matches re 0 t.
Proof.
  intros [Hre Hn]%andb_prop Hs Hk. apply negb_true_iff in Hn. revert skip Hk. induction s as [|c s IH]; intros skip Hk.
  - change (EmptyString +:+ ?x) with x. cbn [String.length] in Hk. assert (skip = 0%nat) as -> by lia. cbn [count_matches].
    destruct (match_len re (String newline t)) as [[|n]|] eqn:E; [done| |done]. apply begins_match in E. congruence.
  - pose proof (match_len_line re (String c s) t Hre Hs) as Hm. change (String c s +:+ ?x) with (String c (s +:+ x)) in Hm |- *.
    cbn [all_chars] in Hs. apply andb_prop in Hs as [_ Hs]. cbn [count_matches String.length] in *. destruct skip as [|skip].
    + rewrite Hm. destruct (match_len re (String c s)) as [[|n]|] eqn:E; [apply IH; [done|lia] | |apply IH; [done|lia]].
      apply match_len_bound in E. cbn [String.length] in E. rewrite IH by (done || lia). lia.
    + apply IH; [done|lia].
Qed.

(** A text in which no match can begin; and one in which it can only at the
    beginning. *)
Lemma count_zero re skip s : all_chars (λ c, negb (begins re c)) s = true → count_matches re skip s = 0.
Proof.
  revert skip. induction s as [|c s IH]; intros skip; [done|]. cbn [all_chars count_matches]. intros [Hc Hs]%andb_prop.
  destruct skip as [|skip]; [|by apply IH]. destruct (match_len re (String c s)) as [[|n]|] eqn:E; [by apply IH| |by apply IH].
  apply begins_match in E. by rewrite E in Hc.
Qed.

Definition matches_at (re : list item) (s : string) : bool := match match_len re s with Some (S _) => true | _ => false end.

Lemma count_head re c s :
  all_chars (λ c, negb (begins re c)) s = true → count_matches re 0 (String c s) = if matches_at re (String c s) then 1 else 0.
Proof.
  intros Hs. cbn [count_matches]. unfold matches_at.
  destruct (match_len re (String c s)) as [[|n]|]; by rewrite !count_zero.
Qed.

(** Lines, as the workers write them. *)
Definition is_line (l : string) : Prop := ∃ s, l = s +:+ String newline EmptyString ∧ no_newline s = true.

Definition Zsum (l : list Z) : Z := foldr Z.add 0 l.

Lemma Zsum_app l l' : Zsum (l ++ l') = Zsum l + Zsum l'.
Proof. unfold Zsum. induction l as [|x l IH]; [done|]. cbn [app foldr]. rewrite IH. lia. Qed.
Lemma Zsum_perm l l' : l ≡ₚ l' → Zsum l = Zsum l'.
Proof. unfold Zsum. induction 1; cbn [foldr]; lia. Qed.

Lemma count_lines re ls :
  line_pattern re = true → Forall is_line ls → count_matches re 0 (string_concat ls) = Zsum (count_matches re 0 <$> ls).
Proof.
  intros Hre Hls. induction Hls as [|l ls (s & -> & Hs) _ IH]; [done|]. rewrite fmap_cons.
  change (string_concat (?a :: ?b)) with (a +:+ string_concat b). rewrite app_assoc_s.
  change (String newline EmptyString +:+ ?x) with (String newline x).
  rewrite !count_line by (done || lia). rewrite IH. unfold Zsum. cbn [foldr count_matches]. lia.
Qed.

(** [countPattern] on files that consist of lines. *)
Lemma countPattern_lines read files outs p re :
  Compile p = Some re → line_pattern re = true → Forall2 (λ f ls, read f = Some (string_concat ls)) files outs →
  Forall (Forall is_line) outs → Forall (λ l, 0 <= count_matches re 0 l <= 1) (concat outs) →
  Z.of_nat (length (concat outs)) < 2 ^ 63 →
  countPattern read files p = Ret (Zsum (count_matches re 0 <$> concat outs)).
Proof.
  intros Hp Hre Hf Hl. unfold countPattern.
  assert (H : ∀ n, 0 <= n → n + Z.of_nat (length (concat outs)) < 2 ^ 63 → Forall (λ l, 0 <= count_matches re 0 l <= 1) (concat outs) →
    count_files read files p n = Ret (n + Zsum (count_matches re 0 <$> concat outs))).
  2: { intros H1 H2. rewrite H by (done || lia). by rewrite Z.add_0_l. }
  induction Hf as [|f ls files outs Hr _ IH]; intros n Hn Hb Hc; cbn [count_files concat].
  { f_equal. unfold Zsum. cbn. lia. }
  apply Forall_cons in Hl as [Hls Hl]. cbn [concat] in *. rewrite length_app in Hb. apply Forall_app in Hc as [Hc1 Hc].
  unfold countPatternFile. rewrite Hr, Hp. cbn [mbind outcome_bind]. rewrite count_lines by done.
  assert (Hs : 0 <= Zsum (count_matches re 0 <$> ls) <= Z.of_nat (length ls)).
  { clear -Hc1. induction Hc1 as [|l ls Hl _ IH]; [done|]. rewrite fmap_cons. unfold Zsum in *. cbn [foldr length]. lia. }
  rewrite wrapS_small by lia. rewrite IH by (done || lia). rewrite fmap_app, Zsum_app. f_equal. lia.
Qed.

(** *** Characters *)

Lemma all_chars_app P s t : all_chars P (s +:+ t) = all_chars P s && all_chars P t.
Proof.
  induction s as [|c s IH]; [done|]. change (String c s +:+ t) with (String c (s +:+ t)). cbn [all_chars]. by rewrite IH, andb_assoc.
Qed.

Lemma all_chars_impl (P Q : ascii → bool) s : (∀ c, P c = true → Q c = true) → all_chars P s = true → all_chars Q s = true.
Proof.
  intros H. induction s as [|c s IH]; [done|]. cbn [all_chars]. intros [Hc Hs]%andb_prop. by rewrite (H c Hc), IH.
Qed.

Lemma all_chars_Join P l sep : Forall (λ s, all_chars P s = true) l → all_chars P sep = true → all_chars P (strings_Join l sep) = true.
Proof.
  intros Hl Hs. induction Hl as [|s l Hx Hl IH]; [done|]. cbn [strings_Join]. destruct l; [done|].
  by rewrite !all_chars_app, Hx, Hs.
Qed.

(** What numbers are written with, and the times of [mtiming]. *)
Definition number_char (c : ascii) : bool :=
  bool_decide (0x30 <= byte_of c <= 0x39) || bool_decide (c = "-"%char) || bool_decide (c = "."%char).

Lemma number_digit (d : N) : (d < 10)%N → number_char (pretty_N_char d) = true.
Proof.
  intros Hd. assert (H : ∀ k : nat, (k < 10)%nat → number_char (pretty_N_char (N.of_nat k)) = true).
  { intros k Hk. do 10 (destruct k as [|k]; [reflexivity|]). lia. }
  rewrite <- (N2Nat.id d). apply H. lia.
Qed.

Lemma number_go x : ∀ s, all_chars number_char s = true → all_chars number_char (pretty_N_go x s) = true.
Proof.
  induction (N.lt_wf_0 x) as [x _ IH]; intros s Hs. destruct (decide (x = 0)%N) as [->|Hx]; [by rewrite pretty_N_go_0|].
  rewrite pretty_N_go_step by lia. apply IH; [by apply N.div_lt; lia|]. cbn [all_chars]. rewrite number_digit, Hs; [done|].
  by apply N.mod_lt.
Qed.

Lemma number_Itoa z : all_chars number_char (Itoa z) = true.
Proof.
  assert (H : ∀ n : N, all_chars number_char (pretty n) = true).
  { intros n. unfold pretty, pretty_N. case_decide; [done|]. by apply number_go. }
  unfold Itoa. destruct z as [|p|p]; [done|apply (H (Npos p))|].
  change (pretty (Z.neg p)) with (String "-"%char (pretty (Npos p))). cbn [all_chars]. rewrite H. done.
Qed.

Lemma number_no_newline s : all_chars number_char s = true → no_newline s = true.
Proof. apply all_chars_impl. intros c Hc. apply negb_true_iff, bool_decide_eq_false. by intros ->. Qed.

Lemma output_line_line k v : no_newline k = true → no_newline v = true → is_line (output_line k v).
Proof.
  intros Hk Hv. exists (k +:+ (" " +:+ v)). unfold output_line. split; [by rewrite !app_assoc_s|].
  by rewrite !all_chars_app, Hk, Hv.
Qed.

(** *** The patterns of the tests, on the lines of the tests *)

Definition value_char (c : ascii) : bool := number_char c || bool_decide (c = " "%char).

(** No match begins in the value of a line. *)
Definition value_free (re : list item) : Prop := ∀ c, value_char c = true ∨ c = newline → begins re c = false.

Lemma value_free_Chr c re : value_char c = false → c ≠ newline → value_free (Chr c :: re).
Proof. intros Hv Hn c' Hc. apply bool_decide_eq_false. intros ->. destruct Hc; congruence. Qed.

Lemma value_free_Range lo hi re : 0x39 < byte_of lo → value_free (Range lo hi :: re).
Proof.
  intros Hlo c Hc. apply bool_decide_eq_false. intros [H _]. assert (Hb : byte_of c <= 0x39); [|lia]. clear Hlo H.
  destruct Hc as [Hc|Hc]; [|by rewrite Hc]. unfold value_char, number_char in Hc.
  apply orb_prop in Hc as [[[H%bool_decide_eq_true|H%bool_decide_eq_true]%orb_prop|H%bool_decide_eq_true]%orb_prop|H%bool_decide_eq_true];
    [lia|by rewrite H..].
Qed.

Lemma number_value s : all_chars number_char s = true → all_chars value_char s = true.
Proof. apply all_chars_impl. intros c Hc. unfold value_char. by rewrite Hc. Qed.

Lemma value_no_newline s : all_chars value_char s = true → no_newline s = true.
Proof. apply all_chars_impl. intros c Hc. apply negb_true_iff, bool_decide_eq_false. by intros ->. Qed.

Lemma value_tail re v :
  value_free re → all_chars value_char v = true → all_chars (λ c, negb (begins re c)) (v +:+ chr 0x0A) = true.
Proof.
  intros Hre Hv. rewrite all_chars_app. apply andb_true_intro. split.
  - revert Hv. apply all_chars_impl. intros c Hc. by rewrite (Hre c); [|left].
  - unfold chr. cbn [all_chars]. by rewrite (Hre (of_byte 10)); [|right].
Qed.

(** A line with the key [pre x], where [x] is a number. *)
Lemma output_line_split pre x v : output_line (pre +:+ x) v = pre +:+ ((x +:+ " " +:+ v) +:+ chr 0x0A).
Proof. unfold output_line. by rewrite !app_assoc_s. Qed.

Lemma value_pair x v : all_chars number_char x = true → all_chars value_char v = true → all_chars value_char (x +:+ " " +:+ v) = true.
Proof. intros Hx Hv. by rewrite !all_chars_app, number_value, Hv. Qed.

Lemma count_other re pre x v :
  value_free re → all_chars (λ c, negb (begins re c)) pre = true → all_chars number_char x = true → all_chars value_char v = true →
  count_matches re 0 (output_line (pre +:+ x) v) = 0.
Proof.
  intros Hre Hp Hx Hv. apply count_zero. rewrite output_line_split, all_chars_app, Hp. cbn [andb]. apply value_tail; [done|]. by apply value_pair.
Qed.

Lemma count_key re c pre x v :
  value_free re → all_chars (λ c, negb (begins re c)) pre = true → all_chars number_char x = true → all_chars value_char v = true →
  count_matches re 0 (output_line (String c pre +:+ x) v) = if matches_at re (output_line (String c pre +:+ x) v) then 1 else 0.
Proof.
  intros Hre Hp Hx Hv. rewrite output_line_split. change (String c pre +:+ ?y) with (String c (pre +:+ y)). apply count_head.
  rewrite all_chars_app, Hp. cbn [andb]. apply value_tail; [done|]. by apply value_pair.
Qed.

Definition re_of (p : string) : list item := default [] (Compile p).

Lemma star_all s : ∃ n, star (match_len []) s = Some n.
Proof.
  induction s as [|c s [n IH]]; [by exists 0%nat|]. cbn [star]. case_decide; [by exists 0%nat|]. rewrite IH. by exists (S n).
Qed.

Definition leads (d : ascii) (s : string) : bool := match s with String c _ => bool_decide (c = d) | EmptyString => false end.

Section lines.
Context (x v : string) (Hx : all_chars number_char x = true) (Hv : all_chars value_char v = true).

Lemma times_times : count_matches (re_of "times-") 0 (output_line ("times-" +:+ x) v) = 1.
Proof using Hx Hv. rewrite count_key; [reflexivity|by apply value_free_Chr|reflexivity|done|done]. Qed.
Lemma times_parallel : count_matches (re_of "times-") 0 (output_line ("parallel-" +:+ x) v) = 0.
Proof using Hx Hv. rewrite count_other; [done|by apply value_free_Chr|reflexivity|done|done]. Qed.
Lemma parallel_times : count_matches (re_of "parallel.*") 0 (output_line ("times-" +:+ x) v) = 0.
Proof using Hx Hv. rewrite count_other; [done|by apply value_free_Chr|reflexivity|done|done]. Qed.
Lemma parallel_parallel : count_matches (re_of "parallel.*") 0 (output_line ("parallel-" +:+ x) v) = 1.
Proof using Hx Hv.
  rewrite count_key; [|by apply value_free_Chr|reflexivity|done|done]. rewrite output_line_split.
  destruct (star_all ("-" +:+ ((x +:+ " " +:+ v) +:+ chr 0x0A))) as [n Hn].
  assert (E : match_len (re_of "parallel.*") ("parallel-" +:+ ((x +:+ " " +:+ v) +:+ chr 0x0A)) =
    S <$> (S <$> (S <$> (S <$> (S <$> (S <$> (S <$> (S <$> star (match_len []) ("-" +:+ ((x +:+ " " +:+ v) +:+ chr 0x0A))))))))))
    by reflexivity.
  unfold matches_at. by rewrite E, Hn.
Qed.
End lines.

Lemma leads_append d v t : d ≠ newline → t = chr 0x0A → leads d (v +:+ t) = leads d v.
Proof.
  intros Hd ->. destruct v as [|c v]; [|done]. apply bool_decide_eq_false. intros H. apply Hd. by rewrite <- H.
Qed.

Lemma jobcount_line v : all_chars number_char v = true → count_matches (re_of "a 8") 0 (output_line "a" v) = if leads "8" v then 1 else 0.
Proof.
  intros Hv. change "a" with ("a" +:+ ""). rewrite count_key; [|by apply value_free_Chr|reflexivity|reflexivity|by apply number_value].
  rewrite output_line_split. rewrite <- (leads_append "8" v (chr 0x0A)) by done.
  change ("a" +:+ (("" +:+ " " +:+ v) +:+ chr 0x0A)) with (String "a" (String " " (v +:+ chr 0x0A))).
  unfold matches_at, leads. destruct (v +:+ chr 0x0A) as [|c t]; [done|].
  change (match_len (re_of "a 8") _) with (S <$> (S <$> (if decide ("8"%char = c) then Some 1%nat else None))).
  destruct (decide ("8"%char = c)) as [<-|Hne]; [done|]. by rewrite bool_decide_false by congruence.
Qed.

Definition letters : list string := ["a"; "b"; "c"; "d"; "e"; "f"; "g"; "h"; "i"; "j"].

Lemma reduce_line k v :
  k ∈ letters → all_chars number_char v = true → count_matches (re_of "[a-z] 2") 0 (output_line k v) = if leads "2" v then 1 else 0.
Proof.
  intros Hk Hv. assert (Hc : ∃ c, k = String c "" ∧ in_range "a" "z" c = true).
  { unfold letters in Hk. repeat (apply elem_of_cons in Hk as [->|Hk]; [eexists; split; [reflexivity|reflexivity]|]). by apply elem_of_nil in Hk. }
  destruct Hc as (c & -> & Hc). change (String c "") with (String c "" +:+ "").
  rewrite count_key; [|by apply value_free_Range|reflexivity|reflexivity|by apply number_value].
  rewrite output_line_split. rewrite <- (leads_append "2" v (chr 0x0A)) by done.
  change (String c "" +:+ (("" +:+ " " +:+ v) +:+ chr 0x0A)) with (String c (String " " (v +:+ chr 0x0A))).
  unfold matches_at, leads. destruct (v +:+ chr 0x0A) as [|d t].
  - change (match_len (re_of "[a-z] 2") _) with (if in_range "a" "z" c then S <$> (S <$> @None nat) else None). by rewrite Hc.
  - change (match_len (re_of "[a-z] 2") _) with (if in_range "a" "z" c then S <$> (S <$> (if decide ("2"%char = d) then Some 1%nat else None)) else None).
    rewrite Hc. destruct (decide ("2"%char = d)) as [<-|Hne]; [done|]. by rewrite bool_decide_false by congruence.
Qed.

(** *** Outputs *)

(** The files [files] hold the lines of [outs], which together are those of the
    pairs [kvs]. *)
Definition outputs (read : string → option string) (files : list string) (reducef : string → list string → string) (kvs : list KeyValue) : Prop :=
  ∃ outs, Forall2 (λ f ls, read f = Some (string_concat ls)) files outs ∧ concat outs ≡ₚ spec_lines reducef kvs.

Lemma countPattern_outputs read files reducef kvs ks p :
  outputs read files reducef kvs → NoDup ks → (∀ k, k ∈ ks ↔ k ∈ Key <$> kvs) →
  Compile p = Some (re_of p) → line_pattern (re_of p) = true → Z.of_nat (length ks) < 2 ^ 63 →
  let line k := output_line k (reducef k (values_of k kvs)) in
  Forall (λ k, is_line (line k)) ks → Forall (λ k, 0 <= count_matches (re_of p) 0 (line k) <= 1) ks →
  countPattern read files p = Ret (Zsum ((λ k, count_matches (re_of p) 0 (line k)) <$> ks)).
Proof.
  intros (outs & Hf & Hperm) Hnd Hks Hp Hre Hlen line Hl Hc.
  assert (Hs : concat outs ≡ₚ line <$> ks) by (etrans; [exact Hperm|symmetry; by apply spec_lines_keys]).
  rewrite (countPattern_lines read files outs p (re_of p)); try done.
  - f_equal. rewrite (Zsum_perm _ ((λ l, count_matches (re_of p) 0 l) <$> (line <$> ks))) by by apply fmap_Permutation.
    by rewrite <- list_fmap_compose.
  - assert (Hall : Forall is_line (concat outs)) by (rewrite Hs; by apply Forall_fmap).
    clear -Hall. induction outs as [|ls outs IH]; [done|]. cbn [concat] in Hall. apply Forall_app in Hall as [? ?]. constructor; auto.
  - rewrite Hs. by apply Forall_fmap.
  - rewrite Hs. by rewrite length_fmap.
Qed.

Lemma Zsum_const {A} (f : A → Z) (l : list A) z : Forall (λ x, f x = z) l → Zsum (f <$> l) = z * Z.of_nat (length l).
Proof. induction 1 as [|x l Hx _ IH]; [unfold Zsum; cbn; lia|]. rewrite fmap_cons. unfold Zsum in *. cbn [foldr length]. lia. Qed.

Lemma Zsum_filter {A} (P : A → bool) (l : list A) :
  Zsum ((λ x, if P x then 1 else 0) <$> l) = Z.of_nat (length (filter (λ x, P x = true) l)).
Proof.
  induction l as [|x l IH]; [done|]. rewrite fmap_cons, filter_cons. unfold Zsum in *. cbn [foldr]. rewrite IH.
  destruct (P x); [rewrite decide_True by done|rewrite decide_False by done]; cbn [length]; lia.
Qed.

Lemma Zsum_ext {A} (f g : A → Z) (l : list A) : Forall (λ x, f x = g x) l → Zsum (f <$> l) = Zsum (g <$> l).
Proof. induction 1 as [|x l Hx _ IH]; [done|]. rewrite !fmap_cons. unfold Zsum in *. cbn [foldr]. by rewrite Hx, IH. Qed.

(** *** The verdicts *)

(** A call of [Map] of [mtiming]: the process, the time, and what [nparallel] returned. *)
Definition map_call : Type := Z * string * Z.
Definition map_call_pid (c : map_call) : Z := c.1.1.
Definition map_call_kvs (c : map_call) : list KeyValue := mtiming_Map c.1.1 c.1.2 c.2.
Definition processes (calls : list map_call) : list Z := remove_dups (map_call_pid <$> calls).

Lemma elem_of_list_concat {A} (x : A) ls : x ∈ concat ls ↔ ∃ l, x ∈ l ∧ l ∈ ls.
Proof.
  induction ls as [|l ls IH]; cbn [concat]; [split; [by intros ?%elem_of_nil|by intros (? & _ & ?%elem_of_nil)]|].
  rewrite elem_of_app, IH. setoid_rewrite elem_of_cons. naive_solver.
Qed.

Definition mtiming_keys (calls : list map_call) : list string :=
  ((λ p, "times-" +:+ Itoa p) <$> processes calls) ++ ((λ p, "parallel-" +:+ Itoa p) <$> processes calls).

Lemma mtiming_keys_ok calls :
  NoDup (mtiming_keys calls) ∧ ∀ k, k ∈ mtiming_keys calls ↔ k ∈ Key <$> concat (map_call_kvs <$> calls).
Proof.
  unfold mtiming_keys, processes. split.
  - apply NoDup_app. split; [|split].
    + apply NoDup_fmap_2; [|apply NoDup_remove_dups]. intros p q H. by apply (inj _), (inj _) in H.
    + intros k (p & -> & _)%list_elem_of_fmap (q & Hq & _)%list_elem_of_fmap. discriminate Hq.
    + apply NoDup_fmap_2; [|apply NoDup_remove_dups]. intros p q H. by apply (inj _), (inj _) in H.
  - intros k. rewrite elem_of_app, !list_elem_of_fmap. split.
    + intros [(p & -> & Hp)|(p & -> & Hp)]; apply elem_of_remove_dups, list_elem_of_fmap in Hp as (c & -> & Hc).
      * exists (mkKeyValue ("times-" +:+ Itoa (map_call_pid c)) c.1.2). split; [done|].
        apply elem_of_list_concat. exists (map_call_kvs c). split; [by left|by apply list_elem_of_fmap_2].
      * exists (mkKeyValue ("parallel-" +:+ Itoa (map_call_pid c)) (Itoa c.2)). split; [done|].
        apply elem_of_list_concat. exists (map_call_kvs c). split; [right; by left|by apply list_elem_of_fmap_2].
    + intros (kv & -> & (l & Hkv & (c & -> & Hc)%list_elem_of_fmap)%elem_of_list_concat).
      assert (Hp : map_call_pid c ∈ remove_dups (map_call_pid <$> calls)) by by apply elem_of_remove_dups, list_elem_of_fmap_2.
      apply elem_of_cons in Hkv as [->|Hkv]; [left; by exists (map_call_pid c)|].
      apply list_elem_of_singleton in Hkv as ->. right. by exists (map_call_pid c).
Qed.

Lemma mtiming_value kvs k :
  Forall (λ kv, all_chars number_char (Value kv) = true) kvs → all_chars value_char (mtiming_Reduce k (values_of k kvs)) = true.
Proof.
  intros Hkvs. unfold mtiming_Reduce. apply all_chars_Join; [|done]. unfold sort_Strings. rewrite merge_sort_Permutation.
  unfold values_of. apply Forall_fmap, Forall_forall. rewrite Forall_forall in Hkvs. intros kv [_ Hkv]%list_elem_of_filter.
  by apply number_value, Hkvs.
Qed.

Lemma map_parallel_counts read files calls :
  outputs read files mtiming_Reduce (concat (map_call_kvs <$> calls)) → Forall (λ c, all_chars number_char c.1.2 = true) calls →
  Z.of_nat (length calls) < 2 ^ 62 →
  countPattern read files "times-" = Ret (Z.of_nat (length (processes calls))) ∧
  countPattern read files "parallel.*" = Ret (Z.of_nat (length (processes calls))).
Proof.
  intros Hout Hts Hlen. set (kvs := concat (map_call_kvs <$> calls)) in *. destruct (mtiming_keys_ok calls) as [Hnd Hks].
  assert (Hv : ∀ k, all_chars value_char (mtiming_Reduce k (values_of k kvs)) = true).
  { intros k. apply mtiming_value. apply Forall_forall. intros kv (l & Hkv & (c & -> & Hc)%list_elem_of_fmap)%elem_of_list_concat.
    rewrite Forall_forall in Hts. apply elem_of_cons in Hkv as [->|Hkv]; [by apply Hts|]. apply list_elem_of_singleton in Hkv as ->.
    apply number_Itoa. }
  assert (Hn : (length (processes calls) <= length calls)%nat).
  { unfold processes. rewrite <- (length_fmap map_call_pid calls). generalize (map_call_pid <$> calls). clear.
    induction l as [|x l IH]; [done|]. cbn [remove_dups]. case_decide; cbn [length]; lia. }
  assert (Hlk : length (mtiming_keys calls) = (2 * length (processes calls))%nat)
    by (unfold mtiming_keys; rewrite length_app, !length_fmap; lia).
  assert (Hline : Forall (λ k, is_line (output_line k (mtiming_Reduce k (values_of k kvs)))) (mtiming_keys calls)).
  { apply Forall_forall. intros k Hk. apply output_line_line; [|by apply value_no_newline].
    apply elem_of_app in Hk as [(p & -> & _)%list_elem_of_fmap|(p & -> & _)%list_elem_of_fmap];
      rewrite all_chars_app; (rewrite (number_no_newline (Itoa p)) by apply number_Itoa); reflexivity. }
  split.
  - rewrite (countPattern_outputs read files mtiming_Reduce kvs (mtiming_keys calls) "times-"); [|done|done|done|reflexivity|reflexivity|lia|done|].
    + f_equal. unfold mtiming_keys. rewrite fmap_app, Zsum_app, <- !list_fmap_compose.
      rewrite (Zsum_const _ (processes calls) 1), (Zsum_const _ (processes calls) 0); [lia|..]; apply Forall_forall; intros p _; cbn [compose].
      * by apply times_parallel; [apply number_Itoa|].
      * by apply times_times; [apply number_Itoa|].
    + apply Forall_forall. intros k [(p & -> & _)%list_elem_of_fmap|(p & -> & _)%list_elem_of_fmap]%elem_of_app.
      * rewrite times_times; [lia|apply number_Itoa|done].
      * rewrite times_parallel; [lia|apply number_Itoa|done].
  - rewrite (countPattern_outputs read files mtiming_Reduce kvs (mtiming_keys calls) "parallel.*"); [|done|done|done|reflexivity|reflexivity|lia|done|].
    + f_equal. unfold mtiming_keys. rewrite fmap_app, Zsum_app, <- !list_fmap_compose.
      rewrite (Zsum_const _ (processes calls) 0), (Zsum_const _ (processes calls) 1); [lia|..]; apply Forall_forall; intros p _; cbn [compose].
      * by apply parallel_parallel; [apply number_Itoa|].
      * by apply parallel_times; [apply number_Itoa|].
    + apply Forall_forall. intros k [(p & -> & _)%list_elem_of_fmap|(p & -> & _)%list_elem_of_fmap]%elem_of_app.
      * rewrite parallel_times; [lia|apply number_Itoa|done].
      * rewrite parallel_parallel; [lia|apply number_Itoa|done].
Qed.

Lemma letters_keys {A} (l : list A) (f : A → string * string) :
  l ≠ [] → ∀ k, k ∈ letters ↔ k ∈ Key <$> concat ((λ x, rtiming_Map (f x).1 (f x).2) <$> l).
Proof.
  intros Hl k. assert (E : Key <$> concat ((λ x, rtiming_Map (f x).1 (f x).2) <$> l) = concat ((λ _, letters) <$> l)).
  { clear. induction l as [|x l IH]; [done|]. rewrite !fmap_cons. cbn [concat]. by rewrite fmap_app, IH. }
  rewrite E, elem_of_list_concat. split.
  - intros Hk. destruct l as [|x l]; [done|]. exists letters. split; [done|]. rewrite fmap_cons. by left.
  - by intros (l' & Hk & (x & -> & _)%list_elem_of_fmap).
Qed.

(** A line whose value is a number. *)
Lemma letters_line k v : k ∈ letters → all_chars number_char v = true → is_line (output_line k v).
Proof.
  intros Hk Hv. apply output_line_line; [|by apply number_no_newline]. unfold letters in Hk.
  repeat (apply elem_of_cons in Hk as [->|Hk]; [done|]). by apply elem_of_nil in Hk.
Qed.

Lemma reduce_parallel_counts read files inputs n :
  inputs ≠ [] → outputs read files (λ k, rtiming_Reduce (n k) k) (concat ((λ x : string * string, rtiming_Map x.1 x.2) <$> inputs)) →
  countPattern read files "[a-z] 2" = Ret (Z.of_nat (length (filter (λ k, leads "2" (Itoa (n k)) = true) letters))).
Proof.
  intros Hi Hout. assert (Hnd : NoDup letters) by (apply (bool_decide_unpack _); reflexivity).
  rewrite (countPattern_outputs read files (λ k, rtiming_Reduce (n k) k) _ letters "[a-z] 2" Hout Hnd); [|by apply letters_keys|reflexivity|reflexivity|done| |].
  - f_equal. rewrite <- (Zsum_filter (λ k, leads "2" (Itoa (n k)))). apply Zsum_ext, Forall_forall. intros k Hk.
    apply reduce_line; [done|apply number_Itoa].
  - apply Forall_forall. intros k Hk. apply letters_line; [done|apply number_Itoa].
  - apply Forall_forall. intros k Hk. unfold rtiming_Reduce. rewrite reduce_line by (done || apply number_Itoa). by destruct (leads _ _).
Qed.

Lemma jobcount_counts read files inputs names :
  inputs ≠ [] → outputs read files (λ _ _, jobcount_Reduce names) (concat ((λ x : string * string, jobcount_Map x.1 x.2) <$> inputs)) →
  countPattern read files "a 8" = Ret (if leads "8" (Itoa (invocations names)) then 1 else 0).
Proof.
  intros Hi Hout. rewrite (countPattern_outputs read files (λ _ _, jobcount_Reduce names) _ ["a"] "a 8" Hout).
  - f_equal. unfold jobcount_Reduce. rewrite fmap_cons, jobcount_line by apply number_Itoa. unfold Zsum. cbn. lia.
  - apply (bool_decide_unpack _). reflexivity.
  - intros k. rewrite list_elem_of_singleton. split.
    + intros ->. destruct inputs as [|x inputs]; [done|]. rewrite fmap_cons. cbn. by left.
    + intros (kv & -> & (l & Hkv & (x & -> & _)%list_elem_of_fmap)%elem_of_list_concat)%list_elem_of_fmap.
      by apply list_elem_of_singleton in Hkv as ->.
  - reflexivity.
  - reflexivity.
  - done.
  - apply Forall_singleton. apply letters_line; [by left|apply number_Itoa].
  - apply Forall_singleton. unfold jobcount_Reduce. rewrite jobcount_line by apply number_Itoa. by destruct (leads _ _).
Qed.

(** ** Properties *)

(** C38 What the tests that count patterns measure. [TestMapParallel] passes
    exactly if [Map] was called in two different processes, whatever these saw of
    each other: its second pattern matches every count, so that it does not notice
    when no two calls overlapped. [TestReduceParallel] passes exactly if two of the
    ten keys have a count that begins with 2. [TestJobCount] passes exactly if
    the number of calls of [Map] begins with the digit 8. *)
Theorem pattern_tests_measure read files :
  (∀ calls, outputs read files mtiming_Reduce (concat (map_call_kvs <$> calls)) →
     Forall (λ c, all_chars number_char c.1.2 = true) calls → Z.of_nat (length calls) < 2 ^ 62 →
     TestMapParallel read files = if decide (length (processes calls) = 2%nat) then Ret tt else Fatal) ∧
  (∀ inputs n, inputs ≠ [] →
     outputs read files (λ k, rtiming_Reduce (n k) k) (concat ((λ x : string * string, rtiming_Map x.1 x.2) <$> inputs)) →
     TestReduceParallel read files =
       if decide (2 <= length (filter (λ k, leads "2" (Itoa (n k)) = true) letters))%nat then Ret tt else Fatal) ∧
  ∀ inputs names, inputs ≠ [] →
    outputs read files (λ _ _, jobcount_Reduce names) (concat ((λ x : string * string, jobcount_Map x.1 x.2) <$> inputs)) →
    TestJobCount read files = if leads "8" (Itoa (invocations names)) then Ret tt else Fatal.
Proof.
  split; [|split].
  - intros calls Hout Hts Hlen. destruct (map_parallel_counts read files calls Hout Hts Hlen) as [H1 H2].
    unfold TestMapParallel. rewrite H1. cbn [mbind outcome_bind]. rewrite H2. cbn [mbind outcome_bind]. repeat case_decide; try done; lia.
  - intros inputs n Hi Hout. unfold TestReduceParallel. rewrite (reduce_parallel_counts read files inputs n Hi Hout).
    cbn [mbind outcome_bind]. repeat case_decide; try done; lia.
  - intros inputs names Hi Hout. unfold TestJobCount. rewrite (jobcount_counts read files inputs names Hi Hout).
    cbn [mbind outcome_bind]. by destruct (leads "8" _).
Qed.

(** ** Workers one after the other, and ten times too many calls *)

Module PatternEx.
(** Two processes, each of which saw itself alone. *)
Definition calls : list map_call := [(41, "170.1", 1); (42, "171.3", 1); (41, "172.9", 1)].
Definition map_lines : list string := spec_lines mtiming_Reduce (concat (map_call_kvs <$> calls)).
Definition names : list string := (λ i, job_file 7 i) <$> seqZ 0 80.
Definition job_lines : list string := spec_lines (λ _ _, jobcount_Reduce names) (jobcount_Map "f" "x").
Definition one_file (ls : list string) (f : string) : option string := if decide (f = "mr-out-0") then Some (string_concat ls) else None.

Lemma one_file_outputs reducef kvs ls : ls = spec_lines reducef kvs → outputs (one_file ls) ["mr-out-0"] reducef kvs.
Proof. intros ->. exists [spec_lines reducef kvs]. split; [by repeat constructor|]. cbn. by rewrite app_nil_r. Qed.
End PatternEx.

(** Both tests pass. *)
Lemma pattern_tests_measure_witness :
  TestMapParallel (PatternEx.one_file PatternEx.map_lines) ["mr-out-0"] = Ret tt ∧
  PatternEx.job_lines = [output_line "a" "80"] ∧ TestJobCount (PatternEx.one_file PatternEx.job_lines) ["mr-out-0"] = Ret tt.
Proof.
  split; [|split; [vm_compute; reflexivity|]].
  - rewrite (proj1 (pattern_tests_measure (PatternEx.one_file PatternEx.map_lines) ["mr-out-0"]) PatternEx.calls).
    + vm_compute. reflexivity.
    + apply PatternEx.one_file_outputs. reflexivity.
    + by repeat constructor.
    + vm_compute. reflexivity.
  - rewrite (proj2 (proj2 (pattern_tests_measure (PatternEx.one_file PatternEx.job_lines) ["mr-out-0"])) [("f", "x")] PatternEx.names).
    + vm_compute. reflexivity.
    + discriminate.
    + apply PatternEx.one_file_outputs. reflexivity.
Defined.
