(* ===== verification/MRDir.v ===== *)
(** * The directory of a MapReduce test: [mr/util.go]

    Every test makes a directory with a random name, in which the processes run and
    leave their outputs, and removes it when it has passed. Its input files are
    found from another directory. *)

From Stdlib Require Import Ascii.
From S2P Require Import Prelude Config TaskManager Utf8 Json MRApps MRTest Timing.

Open Scope string_scope.
Open Scope list_scope.
Open Scope Z_scope.

(** ** Operations *)

Definition string_of (b : list Z) : string := string_concat (chr <$> b).

(** [RandString], as [Randstring] of the tester; [b] are the random bytes. *)
Definition RandString (n : nat) (b : list Z) : outcome string :=
  let s := EncodeToString b in if decide (n <= length s)%nat then Ret (string_of (take n s)) else Panic.

Definition coordinatorSock (b : list Z) : outcome string := r ← RandString 20 b; Ret ("/tmp/5840-mr-" +:+ r).

(** *** Paths *)

Fixpoint split_slash (s : string) : list string :=
  match s with
  | EmptyString => [EmptyString]
  | String c t =>
      if decide (c = "/"%char) then EmptyString :: split_slash t
      else match split_slash t with [] => [String c EmptyString] | l :: ls => String c l :: ls end
  end.

(** [filepath.Clean] of a relative path: the elements kept so far, the last one
    first. *)
Definition clean_element (kept : list string) (e : string) : list string :=
  if decide (e = "" ∨ e = ".") then kept
  else if decide (e = "..") then match kept with x :: kept' => if decide (x = "..") then e :: kept else kept' | [] => [e] end
  else e :: kept.
Definition Clean (path : string) : string :=
  match fold_left clean_element (split_slash path) [] with [] => "." | kept => strings_Join (rev kept) "/" end.

(** [filepath.Join("..", f)] *)
Definition Join_up (f : string) : string := Clean (if decide (f = "") then ".." else ".." +:+ "/" +:+ f).

(** [findFilesPre]; the argument [pre] is not used. *)
Definition findFilesPre (find_output pre : string) : list string := Join_up <$> findFiles find_output.

Definition GenReduceTaskFilename (filename : string) (workerId reduceId : Z) : string :=
  "mr-" +:+ filename +:+ "-" +:+ Itoa workerId +:+ "-" +:+ Itoa reduceId.

(** *** The directory *)

(** The directories next to each other, with the names of their files. *)
Abbreviation dirs := (gmap string (gset string)).

(** [os.Mkdir], whose error is ignored. *)
Definition Mkdir (d : string) (fs : dirs) : dirs := match fs !! d with Some _ => fs | None => <[d := ∅]> fs end.

(** [mkOut]: the name is kept in the variable [tmp]. *)
Definition mkOut (b : list Z) (fs : dirs) : outcome (string * dirs) :=
  r ← RandString 8 b; let tmp := "mr-tmp-" +:+ r in Ret (tmp, Mkdir tmp fs).

(** The directory and the file of a path [d/f]. *)
Fixpoint path_split (p : string) : option (string * string) :=
  match p with
  | EmptyString => None
  | String c t =>
      match path_split t with
      | Some (d, f) => Some (String c d, f)
      | None => if decide (c = "/"%char) then Some (EmptyString, t) else None
      end
  end.

(** [os.Remove], whose error is ignored: a file, or a directory that is empty. *)
Definition os_Remove (p : string) (fs : dirs) : dirs :=
  match fs !! p with
  | Some names => if decide (names = ∅) then delete p fs else fs
  | None =>
      match path_split p with
      | Some (d, f) => match fs !! d with Some names => <[d := names ∖ {[f]}]> fs | None => fs end
      | None => fs
      end
  end.

(** [cleanup], from what [find] prints for the files whose name matches [mr-*]. *)
Definition cleanup (find_output tmp : string) (fs : dirs) : dirs :=
  os_Remove tmp (fold_left (λ fs f, os_Remove f fs) (findFiles find_output) fs).

(** The names that match the pattern [mr-*]. *)
Definition mr_pattern (name : string) : Prop := is_Some (strip_prefix "mr-" name).
#[export] Instance mr_pattern_dec name : Decision (mr_pattern name).
Proof. unfold mr_pattern. apply _. Defined.

Example paths :
  findFilesPre (find_prints "../main" ["pg-grimm.txt"]) ".." = ["../../main/pg-grimm.txt"] ∧ Join_up "a/./b//../c" = "../a/c" ∧
  GenReduceTaskFilename "x" 2 3 = "mr-x-2-3".
Proof. vm_compute. done. Qed.

(** ** Lemmas *)

Fixpoint no_slash (s : string) : bool :=
  match s with EmptyString => true | String c t => negb (bool_decide (c = "/"%char)) && no_slash t end.

Lemma no_slash_app s t : no_slash (s +:+ t) = no_slash s && no_slash t.
Proof.
  induction s as [|c s IH]; [done|]. change (String c s +:+ t) with (String c (s +:+ t)). cbn [no_slash]. by rewrite IH, andb_assoc.
Qed.

Lemma path_split_none f : no_slash f = true → path_split f = None.
Proof.
  induction f as [|c f IH]; [done|]. cbn [no_slash path_split]. intros [Hc Hf]%andb_prop. rewrite IH by done.
  apply negb_true_iff, bool_decide_eq_false in Hc. by rewrite decide_False.
Qed.

Lemma path_split_path d f : no_slash f = true → path_split (d +:+ "/" +:+ f) = Some (d, f).
Proof.
  intros Hf. induction d as [|c d IH].
  - change ("" +:+ "/" +:+ f) with (String "/" f). cbn [path_split]. by rewrite path_split_none.
  - change (String c d +:+ ?x) with (String c (d +:+ x)). cbn [path_split]. by rewrite IH.
Qed.

Lemma byte_of_of_byte z : 0 <= z < 256 → byte_of (of_byte z) = z.
Proof. intros Hz. unfold byte_of, of_byte. rewrite Ascii.N_ascii_embedding by lia. lia. Qed.

(** Random names. *)
Lemma string_of_names l : Forall name_char l → no_white (string_of l) = true ∧ no_slash (string_of l) = true.
Proof.
  induction 1 as [|c l Hc _ [IH1 IH2]]; [done|]. unfold string_of in *. rewrite fmap_cons.
  change (string_concat (chr c :: ?x)) with (String (of_byte c) (string_concat x)). cbn [no_white no_slash].
  rewrite IH1, IH2, !andb_true_r, !negb_true_iff.
  assert (Hb : byte_of (of_byte c) = c) by (apply byte_of_of_byte; unfold name_char in Hc; lia).
  split.
  - unfold is_white. rewrite Hb. apply bool_decide_eq_false. unfold name_char in Hc. lia.
  - apply bool_decide_eq_false. intros E. rewrite E in Hb. change (byte_of "/"%char) with 47 in Hb. unfold name_char in Hc. lia.
Qed.

Lemma RandString_names n b r :
  byte_list b → length b = (2 * n)%nat → RandString n b = Ret r → no_white r = true ∧ no_slash r = true.
Proof.
  intros Hb Hl. destruct (EncodeToString_names (length b) b) as (s & t & E & Hs & Hls); [done..|].
  unfold RandString. rewrite E, decide_True by (rewrite length_app; lia). rewrite take_app_le by lia. intros [= <-].
  apply string_of_names. by apply Forall_take.
Qed.

(** Removing files of the directory [d]. *)
Lemma remove_files d names found (fs : dirs) :
  fs !! d = Some names → Forall (λ f, no_slash f = true ∧ fs !! (d +:+ "/" +:+ f) = None) found →
  fold_left (λ fs f, os_Remove f fs) ((λ f, d +:+ "/" +:+ f) <$> found) fs = <[d := names ∖ list_to_set found]> fs.
Proof.
  intros Hd Hf. revert fs names Hd Hf. induction found as [|f found IH]; intros fs names Hd Hf.
  { cbn [fmap list_fmap fold_left list_to_set]. rewrite insert_id; [done|]. rewrite Hd. f_equal. set_solver. }
  apply Forall_cons in Hf as [[Hs Hn] Hf]. cbn [fmap list_fmap fold_left]. unfold os_Remove at 2. rewrite Hn, path_split_path, Hd by done.
  rewrite (IH _ (names ∖ {[f]})).
  - rewrite insert_insert_eq. f_equal. set_solver.
  - by rewrite lookup_insert_eq.
  - eapply Forall_impl; [exact Hf|]. intros g [Hg1 Hg2]. split; [done|]. rewrite lookup_insert_ne; [done|]. intros E. rewrite <- E in Hg2. congruence.
Qed.

(** ** Properties *)

(** The directory of a test is its own, and [cleanup] removes it: after [mkOut]
    with whatever random bytes that give a new name, and whatever files the
    processes leave in it, [cleanup] removes exactly the files whose names begin
    with [mr-], and the directory if there are no others, which restores the
    directories as they were before the test. *)
Theorem test_directory_removed b fs tmp fs1 names found :
  byte_list b → length b = 16%nat → mkOut b fs = Ret (tmp, fs1) → fs !! tmp = None →
  (∀ d, is_Some (fs !! d) → no_slash d = true) → (∀ f, f ∈ names → no_white f = true ∧ no_slash f = true) →
  found ≡ₚ elements (filter mr_pattern names) →
  fs1 = <[tmp := ∅]> fs ∧
  cleanup (find_prints tmp found) tmp (<[tmp := names]> fs1) =
    if decide (∀ f, f ∈ names → mr_pattern f) then fs else <[tmp := filter (λ f, ¬ mr_pattern f) names]> fs.
Proof.
  intros Hb Hl Hm Hnew Hfs Hnames Hfound. unfold mkOut in Hm. destruct (RandString 8 b) as [r| |] eqn:Hr; [|done..].
  cbn [mbind outcome_bind] in Hm. injection Hm as Et <-. destruct (RandString_names 8 b r Hb Hl Hr) as [Hw Hs].
  assert (Htw : no_white tmp = true) by (rewrite <- Et, no_white_app; exact Hw).
  assert (Hts : no_slash tmp = true) by (rewrite <- Et; exact Hs). rewrite Et. unfold Mkdir. rewrite Hnew. split; [done|].
  rewrite insert_insert_eq. unfold cleanup. assert (Hf : ∀ f, f ∈ found → f ∈ names ∧ mr_pattern f).
  { intros f. rewrite Hfound, elem_of_elements, elem_of_filter. tauto. }
  rewrite findFiles_prints; [|done|by rewrite <- Et|apply Forall_forall; intros f [Hfn _]%Hf; by apply Hnames].
  assert (Hns : ∀ f, no_slash (tmp +:+ "/" +:+ f) = false).
  { intros f. rewrite no_slash_app. change ("/" +:+ f) with (String "/" f). apply andb_false_r. }
  assert (Hpaths : Forall (λ f, no_slash f = true ∧ <[tmp := names]> fs !! (tmp +:+ "/" +:+ f) = None) found).
  { apply Forall_forall. intros f [Hfn _]%Hf. split; [by apply Hnames|]. pose proof (Hns f) as Hn.
    rewrite lookup_insert_ne by (intros E; rewrite <- E in Hn; congruence).
    apply eq_None_not_Some. intros Hx%Hfs. congruence. }
  rewrite (remove_files tmp names) by (done || apply lookup_insert_eq).
  rewrite insert_insert_eq. unfold os_Remove. rewrite lookup_insert_eq.
  assert (Hd : names ∖ list_to_set found = filter (λ f, ¬ mr_pattern f) names).
  { apply set_eq. intros f. rewrite elem_of_difference, elem_of_list_to_set, Hfound, elem_of_elements, !elem_of_filter. tauto. }
  rewrite Hd. assert (Hiff : filter (λ f, ¬ mr_pattern f) names = ∅ ↔ ∀ f, f ∈ names → mr_pattern f).
  { split.
    - intros He f Hfn. destruct (decide (mr_pattern f)) as [?|Hn]; [done|]. assert (Hin : f ∈ filter (λ f, ¬ mr_pattern f) names) by by apply elem_of_filter.
      rewrite He in Hin. by apply elem_of_empty in Hin.
    - intros Hall. apply set_eq. intros f. rewrite elem_of_filter. split; [intros [Hn Hfn]; by destruct Hn; apply Hall|by intros ?%elem_of_empty]. }
  destruct (decide (filter _ names = ∅)) as [He|He].
  - rewrite decide_True by by apply Hiff. by rewrite delete_insert_id.
  - rewrite decide_False by by rewrite <- Hiff. done.
Qed.

Module DirEx.
Definition random : list Z := [7; 99; 12; 250; 3; 77; 18; 200; 1; 2; 3; 4; 5; 6; 7; 8].
Definition made : string * dirs := match mkOut random ∅ with Ret x => x | _ => ("", ∅) end.
Definition names : gset string := {["mr-out-0"; "mr-wc.txt"]}.
End DirEx.

Lemma test_directory_removed_witness :
  cleanup (find_prints DirEx.made.1 (elements (filter mr_pattern DirEx.names))) DirEx.made.1 (<[DirEx.made.1 := DirEx.names]> DirEx.made.2) = ∅.
Proof.
  destruct (test_directory_removed DirEx.random ∅ DirEx.made.1 DirEx.made.2 DirEx.names (elements (filter mr_pattern DirEx.names)))
    as [_ H].
  - by repeat constructor.
  - reflexivity.
  - vm_compute. reflexivity.
  - reflexivity.
  - intros d [x Hx]. by rewrite lookup_empty in Hx.
  - intros f [-> %elem_of_singleton| -> %elem_of_singleton]%elem_of_union; by split.
  - reflexivity.
  - rewrite H. apply decide_True. intros f [-> %elem_of_singleton| -> %elem_of_singleton]%elem_of_union; by eexists.
Defined.
